(* ===== verification/_CoqProject ===== *)
-Q . S2P
Prelude.v
Utf8.v
Codec.v
Guid.v
Locator.v
Message.v
Cdr.v
Xcdr.v
Fragment.v
Reassembly.v
Reliable.v
Wildcard.v
Persist.v
Pcap.v
Transport.v
Socket.v
Bind.v
Types.v
Cli.v
Observability.v
SubQueue.v
Counters.v
Broadcast.v
Mock.v
Security.v
Spdp.v
Sedp.v
Participant.v
Delivery.v
Recovery.v
ShmemIpc.v
Shmem.v
ShmemRuns.v
InteropShmem.v
DdsParticipant.v
UdpRuns.v
UdpMetatraffic.v
InteropRtps.v
Adapt.v
Acl.v
