(* ===== verification/Prelude.v ===== *)
(** * rust-DDS: a verification development

    rust-DDS is a DDS middleware: an application creates a participant,
    publishers and subscribers on named topics, and samples travel between
    them in process (src/mock), through shared memory and rendezvous files
    (src/shmem) or over RTPS/UDP (src/rtps); src/adapt.rs makes a RELAY node
    of any participant.  The library models the code of src/src as Rocq
    functions and proves what makes each part correct.

    ** Conventions

    - A byte is a [byte], a string its UTF-8 bytes, an integer of a fixed
      width a [Z] with its range predicate; every cast and wrap-around is
      written out ([as_u], [as_i], [fetch_add]), and an unchecked [+] or [-]
      panics or wraps as the [BuildProfile] says.
    - A Rust [Result] is [res E A], whose third constructor [Panic] is an index
      or slice out of range, a failed [copy_from_slice] or an overflow of a
      checked build; "never panics" is therefore a theorem.  A [&mut self]
      method is state passing, or the [SR] monad where readers are composed;
      [runs] is the outcome of code that has no error but may panic or, in
      [OutOfFuel], not return.
    - An [Arc] that several parts share is an index into an explicit store
      (the queues of Mock, Shmem, Participant), so that aliasing is visible.
    - Clocks, random bytes, the file system, the operating system's answers
      and third-party code are arguments: tokio's [Notify] (class [Notify] of
      SubQueue, with its documented laws and a realisation), the hex crate,
      HMAC-SHA-256, AES-GCM, the random source, the outcome of every send
      ([Socket]), of every system call on a rendezvous file ([ShmemIpc]) and of
      binding and joining ([OsNet] of DdsParticipant).  [Bind] opens the sockets
      itself, call by call, over the class [Kernel] with its laws, which a small
      host realises; clap and serde_json are parameters of [Cli].
    - Concurrency is a list of events: each call, each round of a task, each
      arrival of a datagram is a step, and the theorems are about all lists.
      The granularity is finer where the code relies on it: the atomic actions
      of the subscriber queue (SubQueue), the lock sections of the matching
      (Sedp), the system calls of a file write (ShmemIpc).  In the runs of
      Shmem and InteropShmem a write to a rendezvous file is one step; what
      overlapping writes do is in ShmemIpc.
    - A loop of the source that is not structural has a fuel argument.  The
      fuel is a length of the input (of the buffer, pattern or chunk) plus a
      constant, each round consumes at least one byte, and running out of fuel
      is a value of its own ([Panic] or [OutOfFuel]), so that the totality
      theorems show it never happens; where the source does not terminate
      (Fragment, Reliable), no fuel gives a result.  The scan of [missing] has
      33 rounds of fuel for its window of 32 numbers, and runs out of it
      exactly when no fuel is enough ([missing_out_of_fuel]).

    ** Files, and the source they model

    - [Prelude]: bytes, integers, outcomes, slices, their lemmas, the tactics
      [len_tac], [sub_norm], [read_step], the rewrite database [len], and
      [returned_ok], which evaluates a concrete run for an instance.
    - [Utf8]: UTF-8 validity, the encoding of a character and lossy decoding,
      of the standard library.
    - [Codec]: RtpsDecodeError (rtps/mod.rs) and the class [WireCodec] of
      fixed-size wire formats with its laws, which Guid, Locator and Message
      discharge and the composite decoders use.
    - [Guid], [Locator], [Message], [Cdr], [Xcdr]: the wire formats of
      rtps/guid.rs, locator.rs, message.rs, cdr.rs, xcdr.rs.
    - [Fragment]: rtps/fragment.rs; [Reassembly]: its theorems, against an
      abstract collector of index sets.
    - [Reliable]: rtps/reliable.rs, send history and receive tracker.
    - [Wildcard], [Persist], [Pcap], [Transport]: rtps/wildcard.rs,
      persist.rs, pcap.rs and the port arithmetic and bind retries of
      transport.rs; [Socket]: its sends, datagram channels and receive loop;
      [Bind]: its sockets, as sequences of system calls.
    - [Types]: types.rs, error.rs, relay.rs; [Observability]:
      observability/health.rs and metrics.rs.
    - [SubQueue]: the subscriber queue, its receiver and the Deadline watcher
      of participant.rs, as functions and as interleaved atomic actions.
    - [Counters], [Broadcast]: what the brokers of mock/mod.rs and
      shmem/broker.rs have in common; [Mock]: mock/mod.rs, the in-process
      participant over a store of queues.
    - [Security]: security/plugin.rs, hmac.rs, aes_gcm.rs, discovery.rs,
      replay.rs; [Acl]: security/acl.rs.
    - [Spdp], [Sedp]: rtps/spdp.rs and sedp.rs, discovery of participants and
      of endpoints; [Participant]: rtps/participant.rs, the runtime of readers
      and writers over them and over the wire formats; [Delivery]: theorems on
      what passes from one participant to another; [Recovery]: a reliable
      writer and a reliable reader, and the datagrams between them.
    - [DdsParticipant]: rtps/dds_participant.rs, the participant around that
      runtime with its sockets, channels and tasks; [UdpRuns] and
      [UdpMetatraffic]: theorems on all its runs.
    - [ShmemIpc]: shmem/ipc.rs, the rendezvous files; [Shmem]: shmem/broker.rs,
      participant.rs, pool.rs and loan.rs, processes over one file system;
      [ShmemRuns]: theorems on all their runs.
    - [Adapt]: adapt.rs, over the class [DynParticipant] of participants, whose
      laws Mock is proved to satisfy.
    - [Cli]: bin/main.rs, the rust-dds command; [InteropShmem]:
      bin/shmem_interop_peer.rs over Shmem, two programs over one file system;
      [InteropRtps]: bin/rtps_interop_peer.rs over DdsParticipant.

    ** What the theorems show

    - Wire formats: every encoder is undone by its decoder (messages,
      submessages, parameter lists, XCDR streams, DATA_FRAG, capture and
      rendezvous files), and no decoder panics or runs for ever on arbitrary
      bytes.
    - Reassembly: fed any interleaving of fragments the assembler refines the
      abstract collector, and delivers a payload exactly when its last fragment
      arrives in time.  Streams are told apart by a key that does not name the
      participant; a delivery theorem asks that no other reassembly is under
      way under its key, and leaves those under other keys alone.
    - Reliability: the history is the last 256 samples, the tracker records
      and reports exactly what is missing, and a bounded number of heartbeat
      rounds recovers everything that is still in the history.
    - Queues: back-pressure keeps the first or the last samples; in every
      interleaving the receiver sees the enqueued samples in order and no push
      is missed; a close at the wrong moment is.
    - In process: every reachable state satisfies the routing invariant, a
      publication changes exactly the queues and counters of its topic, and a
      subscriber holds exactly what its topic was sent.
    - Discovery: the table of peers is the declarative one, and an entry comes
      from a datagram with a token for its sender; however the lock sections of
      registrations and discoveries interleave, no match is missed while a
      listener is installed; a new peer is told of every endpoint.
    - RTPS: the state invariant of every run; what a write, an ACKNACK, a
      HEARTBEAT do on the wire; a discovered writer is heard; whatever samples
      were lost within the writer's history, the datagrams of one round per 32
      numbers bring them to the reader, in order; datagrams of participants
      that were not accepted change nothing; the channels are bounded, the
      fan-out of the metatraffic socket loses nothing it accepted, and close
      is final for what is received.
    - Shared memory, for calls that do not overlap, starting without files: a
      received sample was published, on its domain and topic; within a process
      exactly once; between processes when the poller hears it; a file is what
      the last call that did not fail wrote, and never torn; a commit is a
      write; pools are bounded.
    - Sockets: whatever the kernel refuses, what is open after any sequence of
      binds is what succeeded, configured as asked; nothing leaks, and only
      multicast sockets share a port.
    - Programs: what the shared-memory reader reports is what the writer sent,
      in order, and all of it when it keeps up; the loss hook of the RTPS peer
      discards one datagram and changes nothing else, and a run of two peers
      recovers the lost sample; [convert] prints a message that converts back,
      or an error and the exit code of its kind.
    - RELAY: what a subscription delivers is what was sent on its topic, in
      order and within its bounds, and all of it while it is read.
    - Security: plugins undo themselves and accept nothing else, replays
      within the window are refused while time moves forward, access rules are
      first-match with default deny, and the glob matcher means what its
      pattern says, character by character.
    - Where the code does not do what it says, the theorem states what it
      does: the lost wake-up of [recv_close_wakeup], the panic of
      [receive_panics_on_oversized_fragment], the endless split, the lost carry
      of [gap_range], the eviction of [replay_guard], the overflow of
      [recv_tracker_missing], the datagram of [heartbeat_stops_receiver], the
      entry of [token_does_not_bind_the_guid], the torn file of
      [overlapping_writes_tear], the shared files of [rendezvous_isolation], the
      common identity of [shm_guids_collide], the messages lost in
      [node_close_loses_backlog], the tasks of [heartbeats_survive_close], the
      unchecked domain of [run_sockets_spec], the repeated sample of
      [duplicate_is_delivered], the large loan of [shm_loan_commit], the length
      that wraps in [rendezvous_roundtrip], the wide characters of
      [wildcards_take_characters].

    Each file ends with concrete instances of its theorems.

    ** Not modelled

    Parsing of arguments (clap), JSON (serde_json, the serde attributes) and
    logging are other crates'.  The text of I/O errors and the [Debug] strings
    are parameters where a program prints them, and otherwise left out with
    the [Display] strings of Domain and Version.  The kernel behind the
    sockets, and the network between them, are what the theorems quantify
    over.  Memory orderings weaker than sequential consistency and the
    scheduler's fairness are not modelled: a liveness theorem says which
    rounds are enough.
*)

From Stdlib Require Export Init.Byte ZArith Lia.
From coqutil Require Export Byte Word.LittleEndianList.
From stdpp Require Export base gmap sets strings vector numbers countable.
From stdpp Require Export list list_relations.

#[global] Open Scope Z_scope.

(** ** Bytes, machine integers and buffers *)

(** A Rust [u8] of a wire structure is a [byte]; a wider integer is a [Z]
    with its range predicate, and every cast or wrap-around is written out. *)
#[global] Instance byte_eq_dec : EqDecision byte := Byte.byte_eq_dec.

Definition byte_of_N (n : N) : byte := byte.of_Z (Z.of_N n).

Lemma byte_of_to_N (b : byte) : byte_of_N (Byte.to_N b) = b.
Proof. apply byte.of_Z_unsigned. Qed.

#[global] Instance byte_countable : Countable byte :=
  inj_countable' Byte.to_N byte_of_N byte_of_to_N.

Definition u8_or (a b : byte) : byte :=
  byte.of_Z (Z.lor (byte.unsigned a) (byte.unsigned b)).
Definition u8_and (a b : byte) : byte :=
  byte.of_Z (Z.land (byte.unsigned a) (byte.unsigned b)).

Definition is_u8 (z : Z) : Prop := 0 <= z < 256.
Definition is_u16 (z : Z) : Prop := 0 <= z < 65536.
Definition is_u32 (z : Z) : Prop := 0 <= z < 4294967296.
Definition is_u64 (z : Z) : Prop := 0 <= z < 18446744073709551616.
Definition is_i32 (z : Z) : Prop := -2147483648 <= z < 2147483648.
Definition is_i64 (z : Z) : Prop := -9223372036854775808 <= z < 9223372036854775808.

(** [z as uN] and [z as iN]. *)
Definition as_u (w z : Z) : Z := z mod 2 ^ w.
Definition as_i (w z : Z) : Z :=
  let m := z mod 2 ^ w in if m <? 2 ^ (w - 1) then m else m - 2 ^ w.

(** A string literal of the source. *)
Definition bytes_of_ascii (s : string) : list byte := String.list_byte_of_string s.

Definition len {A} (l : list A) : Z := Z.of_nat (length l).

(** [x.to_le_bytes()] and [x.to_be_bytes()] of an [8 * n]-bit integer. *)
Definition to_le (n : nat) (z : Z) : list byte := le_split n z.
Definition from_le (l : list byte) : Z := le_combine l.
Definition to_be (n : nat) (z : Z) : list byte := reverse (le_split n z).
Definition from_be (l : list byte) : Z := le_combine (reverse l).

(** ** Outcomes

    A Rust function that returns [Result<A, E>] is modelled in [res E A]: the
    third constructor is a panic (slice or index out of range, overflow of a
    checked operation, [copy_from_slice] of a wrong length), so that "never
    panics" is a statement one can prove or refute. *)
Inductive res (E A : Type) : Type :=
| Ok (a : A)
| Err (e : E)
| Panic.
Arguments Ok {E A} a.
Arguments Err {E A} e.
Arguments Panic {E A}.

#[global] Instance res_ret E : MRet (res E) := λ A a, Ok a.
#[global] Instance res_bind E : MBind (res E) := λ A B f m,
  match m with Ok a => f a | Err e => Err e | Panic => Panic end.
#[global] Instance res_fmap E : FMap (res E) := λ A B f m,
  match m with Ok a => Ok (f a) | Err e => Err e | Panic => Panic end.

Definition map_err {E F A} (f : E → F) (m : res E A) : res F A :=
  match m with Ok a => Ok a | Err e => Err (f e) | Panic => Panic end.

Definition no_panic {E A} (m : res E A) : Prop :=
  match m with Panic => False | _ => True end.

(** Whether a computation returned, and what: an instance is then evaluated
    to one bit. *)
Definition returned {E A} (m : res E A) : bool := match m with Ok _ => true | _ => false end.
Definition or_else {E A} (d : A) (m : res E A) : A := match m with Ok a => a | _ => d end.

Lemma returned_ok {E A} (d : A) (m : res E A) : returned m = true → m = Ok (or_else d m).
Proof. by destruct m. Qed.

(** The error of a loop that was cut off before it returned. *)
Inductive OutOfFuel : Type := out_of_fuel.

(** Code that cannot fail, and code that may also not return. *)
Notation panics := (res Empty_set).
Notation runs := (res OutOfFuel).

(** A computation without errors, in a context that has some. *)
Definition lift {E A} (m : panics A) : res E A :=
  match m with Ok a => Ok a | Err e => match e with end | Panic => Panic end.

Section outcomes.
Context {E A B : Type}.

Lemma bind_ok (a : A) (f : A → res E B) : Ok a ≫= f = f a.
Proof. reflexivity. Qed.

Lemma bind_err (e : E) (f : A → res E B) : Err e ≫= f = Err e.
Proof. reflexivity. Qed.

Lemma bind_panic (f : A → res E B) : (Panic : res E A) ≫= f = Panic.
Proof. reflexivity. Qed.

Lemma bind_ok_inv (m : res E A) (f : A → res E B) (b : B) :
  m ≫= f = Ok b → ∃ a, m = Ok a ∧ f a = Ok b.
Proof. destruct m; simpl; naive_solver. Qed.

Lemma no_panic_bind (m : res E A) (f : A → res E B) :
  no_panic m → (∀ a, m = Ok a → no_panic (f a)) → no_panic (m ≫= f).
Proof. destruct m; simpl; naive_solver. Qed.
End outcomes.

(** Takes a run of binds that returned apart. *)
Ltac unbind H := repeat (apply bind_ok_inv in H as (? & ? & H)).

(** A [&mut self] method that returns [Result<A, E>]: the state it leaves
    behind is observable on an error too. *)
Definition SR (S E A : Type) : Type := S → res E A * S.

#[global] Instance SR_ret S E : MRet (SR S E) := λ A a s, (Ok a, s).
#[global] Instance SR_bind S E : MBind (SR S E) := λ A B f m s,
  match m s with
  | (Ok a, s') => f a s'
  | (Err e, s') => (Err e, s')
  | (Panic, s') => (Panic, s')
  end.

Definition sr_get {S E} : SR S E S := λ s, (Ok s, s).
Definition sr_put {S E} (s : S) : SR S E unit := λ _, (Ok tt, s).
Definition sr_modify {S E} (f : S → S) : SR S E unit := λ s, (Ok tt, f s).
Definition sr_lift {S E A} (m : res E A) : SR S E A := λ s, (m, s).
Definition sr_err {S E A} (e : E) : SR S E A := λ s, (Err e, s).

Lemma sr_bind_eq {S E A B} (m : SR S E A) (f : A → SR S E B) s :
  (m ≫= f) s = match m s with
               | (Ok a, s') => f a s' | (Err e, s') => (Err e, s') | (Panic, s') => (Panic, s')
               end.
Proof. done. Qed.

Lemma sr_bind_ok {S E A B} (m : SR S E A) (f : A → SR S E B) s a s' :
  m s = (Ok a, s') → (m ≫= f) s = f a s'.
Proof. intros H. by rewrite sr_bind_eq, H. Qed.

(** ** Integer overflow

    The crate builds with Cargo's default profiles: a development build
    panics on an overflowing [+]/[-], a release build wraps. *)
Class BuildProfile : Type := overflow_checks : bool.

Definition uadd `{BuildProfile} {E} (w a b : Z) : res E Z :=
  if a + b <? 2 ^ w then Ok (a + b) else if overflow_checks then Panic else Ok (as_u w (a + b)).
Definition usub `{BuildProfile} {E} (w a b : Z) : res E Z :=
  if b <=? a then Ok (a - b) else if overflow_checks then Panic else Ok (as_u w (a - b)).

Definition umul `{BuildProfile} {E} (w a b : Z) : res E Z :=
  if a * b <? 2 ^ w then Ok (a * b) else if overflow_checks then Panic else Ok (as_u w (a * b)).

Lemma umul_ok `{BuildProfile} {E} w a b : a * b < 2 ^ w → umul (E:=E) w a b = Ok (a * b).
Proof. intros. unfold umul. by rewrite (proj2 (Z.ltb_lt _ _)) by lia. Qed.

(** [a + b] on a signed [w]-bit integer. *)
Definition sadd `{BuildProfile} {E} (w a b : Z) : res E Z :=
  if (- 2 ^ (w - 1) <=? a + b) && (a + b <? 2 ^ (w - 1)) then Ok (a + b)
  else if overflow_checks then Panic else Ok (as_i w (a + b)).

(** [a << n] of a [w]-bit unsigned integer: a count of [w] or more panics in a
    checked build and is masked otherwise. *)
Definition ushl `{BuildProfile} {E} (w a n : Z) : res E Z :=
  if n <? w then Ok (as_u w (Z.shiftl a n))
  else if overflow_checks then Panic else Ok (as_u w (Z.shiftl a (n mod w))).

Lemma ushl_1 `{BuildProfile} {E} w n : 0 <= n < w → ushl (E:=E) w 1 n = Ok (Z.shiftl 1 n).
Proof.
  intros Hn. unfold ushl, as_u. rewrite (proj2 (Z.ltb_lt _ _)) by lia.
  rewrite Z.shiftl_1_l, Z.mod_small; [done|]. split; [lia|apply Z.pow_lt_mono_r; lia].
Qed.

Lemma uadd_ok `{BuildProfile} {E} w a b : a + b < 2 ^ w → uadd (E:=E) w a b = Ok (a + b).
Proof. intros. unfold uadd. by rewrite (proj2 (Z.ltb_lt _ _)) by lia. Qed.

Lemma usub_ok `{BuildProfile} {E} w a b : b <= a → usub (E:=E) w a b = Ok (a - b).
Proof. intros. unfold usub. by rewrite (proj2 (Z.leb_le _ _)) by lia. Qed.

Lemma sadd_ok `{BuildProfile} {E} w a b :
  - 2 ^ (w - 1) <= a + b < 2 ^ (w - 1) → sadd (E:=E) w a b = Ok (a + b).
Proof.
  intros. unfold sadd.
  by rewrite (proj2 (Z.leb_le _ _)), (proj2 (Z.ltb_lt _ _)) by lia.
Qed.

(** ** Slices and indices *)

(** [&buf[a..b]], [&buf[a..]], [buf[i]] and [arr.copy_from_slice(l)]. *)
Definition sub {A} (l : list A) (a n : Z) : list A :=
  take (Z.to_nat n) (drop (Z.to_nat a) l).

Definition slice {E A} (l : list A) (a b : Z) : res E (list A) :=
  if (0 <=? a) && (a <=? b) && (b <=? len l) then Ok (sub l a (b - a)) else Panic.

Definition slice_from {E A} (l : list A) (a : Z) : res E (list A) :=
  if (0 <=? a) && (a <=? len l) then Ok (drop (Z.to_nat a) l) else Panic.

Definition idx {E A} (l : list A) (i : Z) : res E A :=
  if 0 <=? i then
    match l !! Z.to_nat i with Some x => Ok x | None => Panic end
  else Panic.

(** [l[i] = x] *)
Definition set_idx {E A} (l : list A) (i : Z) (x : A) : res E (list A) :=
  if (0 <=? i) && (i <? len l) then Ok (<[Z.to_nat i := x]> l) else Panic.

Fixpoint vec_fill (n : nat) (l : list byte) : vec byte n :=
  match n with
  | O => [#]
  | S n => hd Byte.x00 l ::: vec_fill n (tl l)
  end.

Definition arr_of {E} (n : nat) (l : list byte) : res E (vec byte n) :=
  if (length l =? n)%nat then Ok (vec_fill n l) else Panic.

(** [uN::from_le_bytes([buf[off], .., buf[off + n - 1]])] *)
Fixpoint read_bytes {E} (n : nat) (l : list byte) (off : Z) : res E (list byte) :=
  match n with
  | O => Ok []
  | S n => b ← idx l off; bs ← read_bytes n l (off + 1); Ok (b :: bs)
  end.

Definition read_le {E} (n : nat) (l : list byte) (off : Z) : res E Z :=
  bs ← read_bytes n l off; Ok (from_le bs).
Definition read_be {E} (n : nat) (l : list byte) (off : Z) : res E Z :=
  bs ← read_bytes n l off; Ok (from_be bs).

#[global] Arguments to_le : simpl never.
#[global] Arguments to_be : simpl never.
#[global] Arguments from_le : simpl never.
#[global] Arguments from_be : simpl never.
#[global] Arguments read_le : simpl never.
#[global] Arguments read_be : simpl never.
#[global] Arguments slice : simpl never.
#[global] Arguments slice_from : simpl never.
#[global] Arguments sub : simpl never.
#[global] Arguments idx : simpl never.
#[global] Arguments arr_of : simpl never.
#[global] Arguments len : simpl never.
#[global] Arguments as_i : simpl never.
#[global] Arguments as_u : simpl never.

(** ** Generic lemmas *)

Lemma len_nonneg {A} (l : list A) : 0 <= len l.
Proof. unfold len. lia. Qed.

Lemma len_nil {A} : len (@nil A) = 0.
Proof. reflexivity. Qed.

Lemma len_cons {A} (x : A) l : len (x :: l) = 1 + len l.
Proof. unfold len. simpl length. lia. Qed.

Lemma len_app {A} (l k : list A) : len (l ++ k) = len l + len k.
Proof. unfold len. rewrite length_app. lia. Qed.

Lemma len_take {A} (n : nat) (l : list A) : len (take n l) = Z.min (Z.of_nat n) (len l).
Proof. unfold len. rewrite length_take. lia. Qed.

Lemma len_drop {A} (n : nat) (l : list A) : len (drop n l) = Z.max 0 (len l - Z.of_nat n).
Proof. unfold len. rewrite length_drop. lia. Qed.

Lemma len_to_le n z : len (to_le n z) = Z.of_nat n.
Proof. unfold len, to_le. by rewrite length_le_split. Qed.

Lemma len_to_be n z : len (to_be n z) = Z.of_nat n.
Proof. unfold len, to_be. by rewrite length_reverse, length_le_split. Qed.

Lemma len_vec {A n} (v : vec A n) : len (vec_to_list v) = Z.of_nat n.
Proof. unfold len. by rewrite length_vec_to_list. Qed.

Lemma len_replicate {A} n (x : A) : len (replicate n x) = Z.of_nat n.
Proof. unfold len. by rewrite length_replicate. Qed.

Lemma len_fmap {A B} (f : A → B) l : len (f <$> l) = len l.
Proof. unfold len. by rewrite length_fmap. Qed.

Lemma len_reverse {A} (l : list A) : len (reverse l) = len l.
Proof. unfold len. by rewrite length_reverse. Qed.

Lemma len_zero {A} (l : list A) : len l = 0 → l = [].
Proof. destruct l; [done|]. unfold len. simpl. lia. Qed.

Create Rewrite HintDb len.
#[export] Hint Rewrite @len_nil @len_cons @len_app @len_take @len_drop len_to_le
  len_to_be @len_vec @len_replicate @len_fmap @len_reverse : len.

(** Arithmetic side conditions about lengths: every length is pushed to its
    atoms, each atom is known to be nonnegative, and [lia] decides the rest. *)
Ltac len_atoms :=
  repeat match goal with
  | |- context [len ?l] =>
      lazymatch goal with
      | _ : 0 <= len l |- _ => fail
      | _ => pose proof (len_nonneg l)
      end
  | _ : context [len ?l] |- _ =>
      lazymatch goal with
      | _ : 0 <= len l |- _ => fail
      | _ => pose proof (len_nonneg l)
      end
  end.

Ltac len_tac :=
  autorewrite with len in *; len_atoms;
  unfold is_u8, is_u16, is_u32, is_u64, is_i32, is_i64 in *; lia.

Section sub.
Context {A : Type}.
Implicit Types l k : list A.

Lemma len_sub l a n : 0 <= a → 0 <= n → a + n <= len l → len (sub l a n) = n.
Proof. intros. unfold sub. autorewrite with len. lia. Qed.

Lemma sub_app_skip k l a n : len k <= a → sub (k ++ l) a n = sub l (a - len k) n.
Proof.
  intros. unfold sub. unfold len in *. rewrite drop_app_ge by lia.
  do 2 f_equal. lia.
Qed.

Lemma sub_app_here k l a n : a = 0 → n = len k → sub (k ++ l) a n = k.
Proof. intros -> ->. unfold sub, len. simpl. rewrite Nat2Z.id. apply take_app_length. Qed.

Lemma sub_all l a n : a = 0 → n = len l → sub l a n = l.
Proof. intros -> ->. unfold sub, len. simpl. rewrite Nat2Z.id. apply firstn_all. Qed.

Lemma sub_app_l k l a n : 0 <= a → 0 <= n → a + n <= len k → sub (k ++ l) a n = sub k a n.
Proof.
  intros. unfold sub, len in *. rewrite drop_app_le by lia. apply take_app_le.
  rewrite length_drop. lia.
Qed.

Lemma sub_sub l a n b m : 0 <= a → 0 <= b → 0 <= m → b + m <= n →
  sub (sub l a n) b m = sub l (a + b) m.
Proof.
  intros. unfold sub. rewrite skipn_firstn_comm, take_take, drop_drop. f_equal; [lia|].
  f_equal. lia.
Qed.

Lemma sub_0_app_drop l n : 0 <= n → sub l 0 n ++ drop (Z.to_nat n) l = l.
Proof. intros. unfold sub. simpl. apply take_drop. Qed.

Lemma sub_split l a n m : 0 <= a → 0 <= n → 0 <= m →
  sub l a n ++ sub l (a + n) m = sub l a (n + m).
Proof.
  intros. unfold sub.
  replace (Z.to_nat (a + n)) with (Z.to_nat a + Z.to_nat n)%nat by lia.
  rewrite <- drop_drop, Z2Nat.inj_add by lia.
  generalize (drop (Z.to_nat a) l). intros l'.
  rewrite <- take_take_drop. done.
Qed.

Lemma slice_ok {E} l a b : 0 <= a → a <= b → b <= len l →
  slice (E:=E) l a b = Ok (sub l a (b - a)).
Proof. intros. unfold slice. by repeat rewrite (proj2 (Z.leb_le _ _)) by lia. Qed.

Lemma slice_from_ok {E} l a : 0 <= a → a <= len l →
  slice_from (E:=E) l a = Ok (drop (Z.to_nat a) l).
Proof. intros. unfold slice_from. by repeat rewrite (proj2 (Z.leb_le _ _)) by lia. Qed.

Lemma drop_app_len k l a : a = len k → drop (Z.to_nat a) (k ++ l) = l.
Proof. intros ->. unfold len. rewrite Nat2Z.id. apply drop_app_length. Qed.

Lemma drop_app_skip k l a : len k <= a → drop (Z.to_nat a) (k ++ l) = drop (Z.to_nat (a - len k)) l.
Proof. intros. unfold len in *. rewrite drop_app_ge by lia. f_equal. lia. Qed.

Lemma idx_ok {E} l i : 0 <= i < len l → ∃ x, idx (E:=E) l i = Ok x ∧ l !! Z.to_nat i = Some x.
Proof.
  intros. unfold idx, len in *. rewrite (proj2 (Z.leb_le _ _)) by lia.
  destruct (lookup_lt_is_Some_2 l (Z.to_nat i)) as [x Hx]; [lia|]. rewrite Hx. eauto.
Qed.

Lemma idx_cons_0 {E} (x : A) l : idx (E:=E) (x :: l) 0 = Ok x.
Proof. reflexivity. Qed.

Lemma idx_cons_pos {E} (x : A) l i : 0 < i → idx (E:=E) (x :: l) i = idx l (i - 1).
Proof.
  intros. unfold idx. rewrite !(proj2 (Z.leb_le _ _)) by lia.
  replace (Z.to_nat i) with (S (Z.to_nat (i - 1))) by lia. done.
Qed.

Lemma idx_mid {E} k (x : A) l : idx (E:=E) (k ++ x :: l) (len k) = Ok x.
Proof.
  unfold idx, len. rewrite (proj2 (Z.leb_le _ _)) by lia.
  rewrite Nat2Z.id, lookup_app_r, Nat.sub_diag by lia. done.
Qed.

Lemma idx_of_sub {E} l i (x : A) : 0 <= i → sub l i 1 = [x] → idx (E:=E) l i = Ok x.
Proof.
  intros Hi Hs. unfold idx. rewrite (proj2 (Z.leb_le _ _)) by lia.
  unfold sub in Hs. change (Z.to_nat 1) with 1%nat in Hs.
  destruct (drop (Z.to_nat i) l) as [|y k] eqn:Hd; [done|]. simpl in Hs. injection Hs as ->.
  rewrite <- (Nat.add_0_r (Z.to_nat i)), <- lookup_drop, Hd. done.
Qed.

Lemma idx_app_l {E} k l i : 0 <= i < len k → idx (E:=E) (k ++ l) i = idx k i.
Proof.
  intros. unfold idx, len in *. rewrite !(proj2 (Z.leb_le _ _)) by lia.
  by rewrite lookup_app_l by lia.
Qed.
End sub.

Section read.
Context {E : Type}.

Lemma read_bytes_ok n (l : list byte) off : 0 <= off → off + Z.of_nat n <= len l →
  read_bytes (E:=E) n l off = Ok (sub l off (Z.of_nat n)).
Proof.
  revert off. induction n as [|n IH]; intros off H0 H1.
  { unfold sub. simpl. done. }
  simpl read_bytes. destruct (idx_ok (E:=E) l off) as (x & -> & Hx); [lia|].
  simpl. rewrite IH by lia. simpl. f_equal. unfold sub.
  rewrite !Nat2Z.id, (drop_S _ _ _ Hx). simpl.
  by replace (Z.to_nat (off + 1)) with (S (Z.to_nat off)) by lia.
Qed.

Lemma read_le_ok n (l : list byte) off : 0 <= off → off + Z.of_nat n <= len l →
  read_le (E:=E) n l off = Ok (from_le (sub l off (Z.of_nat n))).
Proof. intros. unfold read_le. by rewrite read_bytes_ok. Qed.

Lemma read_be_ok n (l : list byte) off : 0 <= off → off + Z.of_nat n <= len l →
  read_be (E:=E) n l off = Ok (from_be (sub l off (Z.of_nat n))).
Proof. intros. unfold read_be. by rewrite read_bytes_ok. Qed.
End read.

Lemma from_le_to_le n z : from_le (to_le n z) = z mod 2 ^ (Z.of_nat n * 8).
Proof. apply le_combine_split. Qed.

Lemma from_be_to_be n z : from_be (to_be n z) = z mod 2 ^ (Z.of_nat n * 8).
Proof. unfold from_be, to_be. rewrite reverse_involutive. apply le_combine_split. Qed.

Lemma to_le_from_le l n : n = length l → to_le n (from_le l) = l.
Proof. intros ->. apply split_le_combine. Qed.

Lemma from_le_range l : 0 <= from_le l < 2 ^ (8 * len l).
Proof.
  unfold from_le, len. rewrite <- (split_le_combine l), le_combine_split, length_le_split.
  rewrite (Z.mul_comm 8). apply Z.mod_pos_bound. lia.
Qed.

Lemma from_be_range l : 0 <= from_be l < 2 ^ (8 * len l).
Proof. unfold from_be. rewrite <- (len_reverse l). apply from_le_range. Qed.

Lemma from_le_u16 z : is_u16 z → from_le (to_le 2 z) = z.
Proof. intros. rewrite from_le_to_le. apply Z.mod_small. done. Qed.
Lemma from_le_u32 z : is_u32 z → from_le (to_le 4 z) = z.
Proof. intros. rewrite from_le_to_le. apply Z.mod_small. done. Qed.
Lemma from_le_u64 z : is_u64 z → from_le (to_le 8 z) = z.
Proof. intros. rewrite from_le_to_le. apply Z.mod_small. done. Qed.
Lemma from_be_u16 z : is_u16 z → from_be (to_be 2 z) = z.
Proof. intros. rewrite from_be_to_be. apply Z.mod_small. done. Qed.

Lemma as_i_mod w z : 0 < w → - 2 ^ (w - 1) <= z < 2 ^ (w - 1) → as_i w (z mod 2 ^ w) = z.
Proof.
  intros Hw Hz. unfold as_i. rewrite Z.mod_mod by lia.
  assert (2 ^ w = 2 * 2 ^ (w - 1)) as Hp.
  { rewrite <- Z.pow_succ_r by lia. f_equal. lia. }
  assert (0 < 2 ^ (w - 1)) by (apply Z.pow_pos_nonneg; lia).
  destruct (decide (0 <= z)).
  - rewrite Z.mod_small by lia. by rewrite (proj2 (Z.ltb_lt _ _)) by lia.
  - rewrite <- (Z_mod_plus_full z 1), Z.mod_small by lia.
    rewrite (proj2 (Z.ltb_ge _ _)) by lia. lia.
Qed.

Lemma as_i_id w z : 0 < w → - 2 ^ (w - 1) <= z < 2 ^ (w - 1) → as_i w z = z.
Proof.
  intros Hw Hz. rewrite <- (as_i_mod w z) at 2 by done. unfold as_i. by rewrite Z.mod_mod by lia.
Qed.

Lemma as_i_range w z : 0 < w → - 2 ^ (w - 1) <= as_i w z < 2 ^ (w - 1).
Proof.
  intros Hw. unfold as_i.
  assert (2 ^ w = 2 * 2 ^ (w - 1)) as Hp.
  { rewrite <- Z.pow_succ_r by lia. f_equal. lia. }
  assert (0 < 2 ^ (w - 1)) by (apply Z.pow_pos_nonneg; lia).
  pose proof (Z.mod_pos_bound z (2 ^ w)).
  destruct (_ <? _) eqn:Hl; [apply Z.ltb_lt in Hl|apply Z.ltb_ge in Hl]; lia.
Qed.

Lemma from_le_i32 z : is_i32 z → as_i 32 (from_le (to_le 4 z)) = z.
Proof. intros. rewrite from_le_to_le. apply as_i_mod; [lia|done]. Qed.
Lemma from_le_i64 z : is_i64 z → as_i 64 (from_le (to_le 8 z)) = z.
Proof. intros. rewrite from_le_to_le. apply as_i_mod; [lia|done]. Qed.

Lemma as_u_range w z : 0 <= w → 0 <= as_u w z < 2 ^ w.
Proof. intros. apply Z.mod_pos_bound. lia. Qed.

Lemma as_u_small w z : 0 <= z < 2 ^ w → as_u w z = z.
Proof. apply Z.mod_small. Qed.

Lemma vec_fill_list {n} (v : vec byte n) : vec_fill n (vec_to_list v) = v.
Proof. induction v as [|x n v IH]; simpl; [done|]. by rewrite IH. Qed.

Lemma list_vec_fill n l : length l = n → vec_to_list (vec_fill n l) = l.
Proof.
  revert l. induction n as [|n IH]; intros [|x l] Hl; simpl in *; try done.
  rewrite IH by lia. done.
Qed.

Lemma arr_of_vec {E n} (v : vec byte n) : arr_of (E:=E) n (vec_to_list v) = Ok v.
Proof. unfold arr_of. by rewrite length_vec_to_list, Nat.eqb_refl, vec_fill_list. Qed.

Lemma arr_of_ok {E} n (l : list byte) : len l = Z.of_nat n →
  arr_of (E:=E) n l = Ok (vec_fill n l).
Proof. unfold len, arr_of. intros. by rewrite (proj2 (Nat.eqb_eq _ _)) by lia. Qed.

Lemma vec_to_list_inj_eq {n} (v w : vec byte n) : vec_to_list v = vec_to_list w → v = w.
Proof. intros H. rewrite <- (vec_fill_list v), H. apply vec_fill_list. Qed.

#[global] Arguments vec_fill : simpl never.

#[global] Instance vec_byte_countable n : Countable (vec byte n).
Proof. exact (inj_countable' vec_to_list (vec_fill n) vec_fill_list). Defined.

(** Normalise a read at a known offset of a buffer built by appending. *)
Ltac sub_norm :=
  repeat first
    [ rewrite sub_app_here by len_tac
    | rewrite sub_app_skip by len_tac
    | rewrite sub_all by len_tac
    | rewrite drop_app_len by len_tac
    | rewrite drop_app_skip by len_tac ].

(** Decode steps whose bounds are known. *)
Ltac read_step :=
  first
    [ rewrite bind_ok
    | rewrite slice_ok by len_tac
    | rewrite slice_from_ok by len_tac
    | rewrite read_le_ok by len_tac
    | rewrite read_be_ok by len_tac ].

Ltac ltb_false H := rewrite (proj2 (Z.ltb_ge _ _)) by H.
Ltac ltb_true H := rewrite (proj2 (Z.ltb_lt _ _)) by H.

(** ** Runs *)

Lemma rtc_invariant {A} (P : A → Prop) (R : relation A) x y :
  (∀ a b, R a b → P a → P b) → rtc R x y → P x → P y.
Proof. intros HR. induction 1; eauto. Qed.

(** ** Bits *)

Lemma testbit_small b k i : 0 <= b < 2 ^ k → k <= i → Z.testbit b i = false.
Proof.
  intros Hb Hi. destruct (Z.lt_ge_cases k 0).
  { rewrite Z.pow_neg_r in Hb by done. lia. }
  rewrite <- (Z.mod_small b (2 ^ k)) by done. apply Z.mod_pow2_bits_high. lia.
Qed.

Lemma land_shiftl_small a b k : 0 <= k → 0 <= b < 2 ^ k → Z.land (Z.shiftl a k) b = 0.
Proof.
  intros Hk Hb. apply Z.bits_inj'. intros i Hi. rewrite Z.land_spec, Z.bits_0.
  destruct (Z.lt_ge_cases i k).
  - by rewrite Z.shiftl_spec_low by lia.
  - by rewrite (testbit_small b k), andb_false_r by done.
Qed.

Lemma lor_shiftl_add a b k : 0 <= k → 0 <= b < 2 ^ k → Z.lor (Z.shiftl a k) b = a * 2 ^ k + b.
Proof.
  intros Hk Hb. rewrite <- Z.shiftl_mul_pow2 by done.
  rewrite <- Z.lxor_lor by by apply land_shiftl_small.
  symmetry. apply Z.add_nocarry_lxor. by apply land_shiftl_small.
Qed.
