(* ===== verification/Utf8.v ===== *)
(** * Utf8: the strings of the program

    A Rust [String]/[&str] is the list of its UTF-8 bytes.  This file models
    the two operations of the standard library that decoding relies on: the
    validity test and [String::from_utf8_lossy], which replaces each maximal
    ill-formed prefix by U+FFFD.  The UTF-8 bytes of a character close it. *)

From S2P Require Import Prelude.

Definition between (lo hi : Z) (b : byte) : bool :=
  (lo <=? byte.unsigned b) && (byte.unsigned b <=? hi).
Definition is_cont : byte → bool := between 128 191.

(** The byte at [i], or zero past the end. *)
Definition safe_get (l : list byte) (i : nat) : byte := nth i l x00.

(** Second byte of a three- or four-byte sequence. *)
Definition second3 (b c : byte) : bool :=
  (between 224 224 b && between 160 191 c) || (between 225 236 b && is_cont c)
  || (between 237 237 b && between 128 159 c) || (between 238 239 b && is_cont c).
Definition second4 (b c : byte) : bool :=
  (between 240 240 b && between 144 191 c) || (between 241 243 b && is_cont c)
  || (between 244 244 b && between 128 143 c).

(** Length of the first chunk and whether it is a well-formed character. *)
Definition utf8_chunk (b : byte) (l : list byte) : bool * nat :=
  let g i := safe_get l i in
  if between 0 127 b then (true, 0%nat)
  else if between 194 223 b then
    if is_cont (g 0%nat) then (true, 1%nat) else (false, 0%nat)
  else if between 224 239 b then
    if negb (second3 b (g 0%nat)) then (false, 0%nat)
    else if is_cont (g 1%nat) then (true, 2%nat) else (false, 1%nat)
  else if between 240 244 b then
    if negb (second4 b (g 0%nat)) then (false, 0%nat)
    else if negb (is_cont (g 1%nat)) then (false, 1%nat)
    else if is_cont (g 2%nat) then (true, 3%nat) else (false, 2%nat)
  else (false, 0%nat).

Definition REPLACEMENT : list byte := [xef; xbf; xbd].

(** A chunk consumes at least one byte: the length is enough fuel. *)
Fixpoint lossy (fuel : nat) (l : list byte) : list byte :=
  match fuel, l with
  | S fuel, b :: l =>
      let '(ok, n) := utf8_chunk b l in
      (if ok then b :: take n l else REPLACEMENT) ++ lossy fuel (drop n l)
  | _, _ => []
  end.

Definition from_utf8_lossy (l : list byte) : list byte := lossy (length l) l.

Fixpoint valid (fuel : nat) (l : list byte) : bool :=
  match fuel, l with
  | S fuel, b :: l =>
      let '(ok, n) := utf8_chunk b l in ok && valid fuel (drop n l)
  | _, _ => true
  end.

Definition utf8_valid (l : list byte) : bool := valid (length l) l.

(** A [String] or [&str]. *)
Definition is_str (l : list byte) : Prop := utf8_valid l = true.

Lemma valid_fuel n m l : (length l ≤ n)%nat → (length l ≤ m)%nat → valid n l = valid m l.
Proof.
  revert m l. induction n as [|n IH]; intros [|m] [|b l] Hn Hm; simpl in *; try done; try lia.
  destruct (utf8_chunk b l) as [ok k]. f_equal. apply IH; rewrite length_drop; lia.
Qed.

Lemma lossy_fuel n m l : (length l ≤ n)%nat → (length l ≤ m)%nat → lossy n l = lossy m l.
Proof.
  revert m l. induction n as [|n IH]; intros [|m] [|b l] Hn Hm; simpl in *; try done; try lia.
  destruct (utf8_chunk b l) as [ok k]. f_equal. apply IH; rewrite length_drop; lia.
Qed.

Lemma lossy_valid_id n l : (length l ≤ n)%nat → valid n l = true → lossy n l = l.
Proof.
  revert l. induction n as [|n IH]; intros [|b l] Hn; simpl in *; try done; [lia|].
  destruct (utf8_chunk b l) as [ok k]. intros [-> Hv]%andb_true_iff.
  rewrite IH; [|rewrite length_drop; lia|done]. simpl. by rewrite take_drop.
Qed.

(** A string survives [from_utf8_lossy] unchanged. *)
Lemma from_utf8_lossy_str s : is_str s → from_utf8_lossy s = s.
Proof. by apply lossy_valid_id. Qed.

Lemma safe_get_app l k i : (i < length l)%nat → safe_get (l ++ k) i = safe_get l i.
Proof. intros. unfold safe_get. by rewrite app_nth1. Qed.

Lemma safe_get_cont l i : is_cont (safe_get l i) = true → (i < length l)%nat.
Proof.
  unfold safe_get. intros H. destruct (decide (i < length l)%nat); [done|].
  rewrite nth_overflow in H by lia. done.
Qed.

Lemma second3_pos b l : second3 b (safe_get l 0) = true → (0 < length l)%nat.
Proof.
  unfold safe_get. destruct l; simpl; [|lia]. unfold second3, is_cont. simpl.
  change (between 160 191 x00) with false. change (between 128 191 x00) with false.
  change (between 128 159 x00) with false. by rewrite !andb_false_r.
Qed.

Lemma second4_pos b l : second4 b (safe_get l 0) = true → (0 < length l)%nat.
Proof.
  unfold safe_get. destruct l; simpl; [|lia]. unfold second4, is_cont. simpl.
  change (between 144 191 x00) with false. change (between 128 191 x00) with false.
  change (between 128 143 x00) with false. by rewrite !andb_false_r.
Qed.

(** A well-formed character is recognised from its own bytes. *)
Lemma utf8_chunk_take b l n rest : utf8_chunk b l = (true, n) →
  utf8_chunk b (take n l ++ rest) = (true, n) ∧ (n ≤ length l)%nat.
Proof.
  unfold utf8_chunk.
  destruct (between 0 127 b); [intros [= <-]; split; [done|lia]|].
  destruct (between 194 223 b).
  { destruct (is_cont (safe_get l 0)) eqn:H0; [|done]. intros [= <-].
    apply safe_get_cont in H0 as Hl. destruct l as [|c l]; [simpl in Hl; lia|].
    simpl in *. unfold safe_get in *. simpl in *. rewrite H0. split; [done|lia]. }
  destruct (between 224 239 b).
  { destruct (second3 b (safe_get l 0)) eqn:H0; [|done]. cbn [negb].
    destruct (is_cont (safe_get l 1)) eqn:H1; [|done]. intros [= <-].
    apply safe_get_cont in H1 as Hl. destruct l as [|c [|d l]]; simpl in Hl; [lia..|].
    unfold safe_get in *. simpl in *. rewrite H0, H1. split; [done|lia]. }
  destruct (between 240 244 b); [|done].
  destruct (second4 b (safe_get l 0)) eqn:H0; [|done]. cbn [negb].
  destruct (is_cont (safe_get l 1)) eqn:H1; [|done]. cbn [negb].
  destruct (is_cont (safe_get l 2)) eqn:H2; [|done]. intros [= <-].
  apply safe_get_cont in H2 as Hl. destruct l as [|c [|d [|e l]]]; simpl in Hl; [lia..|].
  unfold safe_get in *. simpl in *. rewrite H0, H1, H2. split; [done|lia].
Qed.

Lemma lossy_valid n l : (length l ≤ n)%nat → utf8_valid (lossy n l) = true.
Proof.
  revert l. induction n as [|n IH]; intros [|b l] Hn; simpl in *; try done.
  destruct (utf8_chunk b l) as [ok k] eqn:Hc.
  assert (utf8_valid (lossy n (drop k l)) = true) as Hrec.
  { apply IH. rewrite length_drop. lia. }
  set (r := lossy n (drop k l)) in *. unfold utf8_valid in *. destruct ok.
  - destruct (utf8_chunk_take b l k r Hc) as [Ht Hk]. simpl. rewrite Ht. simpl.
    rewrite drop_app_length', (valid_fuel _ (length r)); try done.
    + rewrite length_app. lia.
    + rewrite length_take. lia.
  - change (REPLACEMENT ++ r) with (xef :: [xbf; xbd] ++ r).
    cbn [length valid]. change (utf8_chunk xef ([xbf; xbd] ++ r)) with (true, 2%nat).
    change (drop 2 ([xbf; xbd] ++ r)) with r. cbn [andb].
    rewrite (valid_fuel _ (length r)); [done| |done]. simpl. rewrite ?drop_0. lia.
Qed.

(** [from_utf8_lossy] always returns a well-formed string. *)
Lemma from_utf8_lossy_is_str l : is_str (from_utf8_lossy l).
Proof. by apply lossy_valid. Qed.

(** ** Characters *)

(** A Rust [char]: a code point that is not a surrogate. *)
Definition is_char (v : Z) : Prop := 0 <= v < 55296 ∨ 57344 <= v <= 1114111.

(** The UTF-8 bytes of a character (The Unicode Standard, table 3-6). *)
Definition utf8 (r : Z) : list byte :=
  byte.of_Z <$>
  (if r <? 128 then [r]
   else if r <? 2048 then [192 + r / 64; 128 + r mod 64]
   else if r <? 65536 then [224 + r / 4096; 128 + r / 64 mod 64; 128 + r mod 64]
   else [240 + r / 262144; 128 + r / 4096 mod 64; 128 + r / 64 mod 64; 128 + r mod 64]).

Lemma unsigned_small z : 0 <= z < 256 → byte.unsigned (byte.of_Z z) = z.
Proof. intros Hz. rewrite byte.unsigned_of_Z. unfold byte.wrap. by apply Z.mod_small. Qed.

Lemma between_iff lo hi b : between lo hi b = bool_decide (lo <= byte.unsigned b <= hi).
Proof. unfold between. destruct (Z.leb_spec lo (byte.unsigned b)), (Z.leb_spec (byte.unsigned b) hi); symmetry;
  (apply bool_decide_true; lia) || (apply bool_decide_false; lia). Qed.

Lemma between_in lo hi b : lo <= byte.unsigned b <= hi → between lo hi b = true.
Proof. intros. rewrite between_iff. by apply bool_decide_true. Qed.

Lemma between_out lo hi b : byte.unsigned b < lo ∨ hi < byte.unsigned b → between lo hi b = false.
Proof. intros. rewrite between_iff. apply bool_decide_false. lia. Qed.

Ltac euclid := Z.to_euclidean_division_equations; lia.

(** A character is the well-formed chunk of its bytes. *)
Lemma utf8_chunk_char r l : is_char r → ∃ b t, utf8 r = b :: t ∧ utf8_chunk b (t ++ l) = (true, length t).
Proof.
  intros Hr. unfold utf8. unfold is_char in Hr.
  destruct (Z.ltb_spec r 128); [|destruct (Z.ltb_spec r 2048); [|destruct (Z.ltb_spec r 65536)]];
    do 2 eexists; (split; [reflexivity|]); unfold utf8_chunk, safe_get; cbn [app nth fmap list_fmap length].
  - by rewrite between_in by (rewrite unsigned_small; lia).
  - rewrite between_out, (between_in 194 223) by (rewrite unsigned_small; euclid).
    unfold is_cont. by rewrite between_in by (rewrite unsigned_small; euclid).
  - rewrite between_out, (between_out 194 223), (between_in 224 239) by (rewrite unsigned_small; euclid).
    assert (second3 (byte.of_Z (224 + r / 4096)) (byte.of_Z (128 + r / 64 mod 64)) = true) as ->.
    { unfold second3, is_cont. rewrite !between_iff, !unsigned_small by euclid.
      rewrite !orb_true_iff, !andb_true_iff, !bool_decide_eq_true. euclid. }
    unfold is_cont. by rewrite between_in by (rewrite unsigned_small; euclid).
  - rewrite between_out, (between_out 194 223), (between_out 224 239), (between_in 240 244)
      by (rewrite unsigned_small; euclid).
    assert (second4 (byte.of_Z (240 + r / 262144)) (byte.of_Z (128 + r / 4096 mod 64)) = true) as ->.
    { unfold second4, is_cont. rewrite !between_iff, !unsigned_small by euclid.
      rewrite !orb_true_iff, !andb_true_iff, !bool_decide_eq_true. euclid. }
    unfold is_cont. by rewrite !between_in by (rewrite unsigned_small; euclid).
Qed.
