(* ===== verification/Codec.v ===== *)
(** * Codec: the interface of a fixed-size RTPS wire type

    [RtpsDecodeError] (src/rtps/mod.rs) and the contract that every
    [encode]/[decode] pair of src/rtps promises to the code that composes
    them: a fixed wire size, [encode] only appends to the buffer, [decode]
    reads exactly that many bytes, inverts [encode] whatever follows it,
    reports a short input as [Truncated] and never panics.  The message,
    fragment, CDR and discovery codecs are proved against this interface. *)

From S2P Require Import Prelude.

Inductive RtpsDecodeError : Type :=
| Truncated (expected got : Z)
| BadMagic
| InvalidCdrScheme (got : Z).

#[global] Instance RtpsDecodeError_eq_dec : EqDecision RtpsDecodeError.
Proof. solve_decision. Defined.

Notation dres := (res RtpsDecodeError).

Class WireCodec (A : Type) : Type := {
  SIZE : Z;
  encode : A → list byte → list byte;
  decode : list byte → dres A;
  wire_wf : A → Prop }.
Arguments SIZE A {_}.
Arguments decode A {_} buf.

(** The bytes [encode] appends. *)
Definition bytes_of {A} `{WireCodec A} (x : A) : list byte := encode x [].

Class WireCodecLaws (A : Type) `{WireCodec A} : Prop := {
  size_nonneg : 0 <= SIZE A;
  encode_append (x : A) buf : encode x buf = buf ++ bytes_of x;
  len_bytes_of (x : A) : len (bytes_of x) = SIZE A;
  decode_encode (x : A) rest : wire_wf x → decode A (bytes_of x ++ rest) = Ok x;
  decode_total buf : SIZE A <= len buf →
    ∃ x, decode A buf = Ok x ∧ wire_wf x ∧ bytes_of x = sub buf 0 (SIZE A);
  decode_short buf : len buf < SIZE A →
    decode A buf = Err (Truncated (SIZE A) (len buf)) }.

Lemma decode_wf `{WireCodecLaws A} buf (x : A) : decode A buf = Ok x → wire_wf x.
Proof.
  intros Hd. destruct (Z.lt_ge_cases (len buf) (SIZE A)) as [Hl|Hl].
  - by rewrite decode_short in Hd.
  - destruct (decode_total buf Hl) as (y & Hy & Hw & _). congruence.
Qed.

Create Rewrite HintDb codec.
#[export] Hint Rewrite @encode_append using typeclasses eauto : codec.

Section laws.
Context {A : Type} `{WireCodecLaws A}.

Lemma decode_exact (x : A) : wire_wf x → decode A (bytes_of x) = Ok x.
Proof. intros. rewrite <- (app_nil_r (bytes_of x)). by apply decode_encode. Qed.

Lemma decode_no_panic buf : no_panic (decode A buf).
Proof.
  destruct (Z.lt_ge_cases (len buf) (SIZE A)) as [Hs|Hs].
  - by rewrite decode_short.
  - by destruct (decode_total buf Hs) as (x & -> & _).
Qed.

(** [decode] looks at the first [SIZE] bytes only. *)
Lemma decode_prefix buf rest : SIZE A <= len buf → decode A (buf ++ rest) = decode A buf.
Proof.
  intros Hs. pose proof size_nonneg.
  destruct (decode_total buf Hs) as (x & Hx & Hwf & Hb).
  rewrite Hx. rewrite <- (sub_0_app_drop buf (SIZE A)), <- Hb, <- app_assoc by done.
  by apply decode_encode.
Qed.

Lemma decode_ok_inv buf x : decode A buf = Ok x →
  SIZE A <= len buf ∧ wire_wf x ∧ bytes_of x = sub buf 0 (SIZE A).
Proof.
  intros Hx. destruct (Z.lt_ge_cases (len buf) (SIZE A)) as [Hs|Hs].
  - rewrite decode_short in Hx by done. done.
  - destruct (decode_total buf Hs) as (y & Hy & ?). split; [done|].
    rewrite Hx in Hy. by injection Hy as ->.
Qed.

Lemma bytes_of_inj x y : wire_wf x → wire_wf y → bytes_of x = bytes_of y → x = y.
Proof.
  intros Hx Hy Hb. apply decode_exact in Hx, Hy. rewrite Hb in Hx. congruence.
Qed.

(** Every string of the right length is the encoding of a value. *)
Lemma bytes_of_surj l : len l = SIZE A → ∃ x, wire_wf x ∧ bytes_of x = l.
Proof.
  intros Hl. destruct (decode_total l) as (x & _ & Hwf & Hb); [lia|].
  exists x. split; [done|]. by rewrite Hb, sub_all.
Qed.
End laws.

(** It is enough to invert [encode] and to reach every string. *)
Lemma codec_laws_intro A `{WireCodec A} :
  0 <= SIZE A →
  (∀ (x : A) buf, encode x buf = buf ++ bytes_of x) →
  (∀ x : A, len (bytes_of x) = SIZE A) →
  (∀ (x : A) rest, wire_wf x → decode A (bytes_of x ++ rest) = Ok x) →
  (∀ l, len l = SIZE A → ∃ x, wire_wf x ∧ bytes_of x = l) →
  (∀ buf, len buf < SIZE A → decode A buf = Err (Truncated (SIZE A) (len buf))) →
  WireCodecLaws A.
Proof.
  intros Hs Ha Hl Hd Hsurj Hshort. split; [done..| |done].
  intros buf Hbuf. destruct (Hsurj (sub buf 0 (SIZE A))) as (x & Hwf & Hx).
  { apply len_sub; lia. }
  exists x. split_and!; [|done..].
  rewrite <- (sub_0_app_drop buf (SIZE A)), <- Hx by done. by apply Hd.
Qed.

(** Cut a string of known length into the encodings of two parts. *)
Lemma split_at {B} (l : list B) (a b : Z) : 0 <= a → 0 <= b → len l = a + b →
  ∃ l1 l2, l = l1 ++ l2 ∧ len l1 = a ∧ len l2 = b.
Proof.
  intros. exists (take (Z.to_nat a) l), (drop (Z.to_nat a) l).
  rewrite take_drop. autorewrite with len. split_and!; [done|lia..].
Qed.

#[export] Hint Rewrite @len_bytes_of using typeclasses eauto : len.

(** A read of an encoded field at a known offset of a composed buffer. *)
Ltac decode_step :=
  first [ read_step | rewrite decode_exact by done | rewrite decode_encode by done ].
