(* ===== verification/Guid.v ===== *)
(** * Guid: GuidPrefix, EntityId and Guid (src/rtps/guid.rs)

    The three identifiers of RTPS 2.3 9.3.1 with their codecs as instances
    of [WireCodec], the well-known entity ids, the builtin endpoint bits and
    the assignment of user entity ids. *)

From S2P Require Import Prelude Codec.

(** ** GuidPrefix *)

Record GuidPrefix : Type := mkGuidPrefix { prefix_bytes : vec byte 12 }.

Module GuidPrefix.
Definition LEN : Z := 12.

Definition encode (self : GuidPrefix) (buf : list byte) : list byte :=
  buf ++ vec_to_list (prefix_bytes self).

Definition decode (buf : list byte) : dres GuidPrefix :=
  if len buf <? LEN then Err (Truncated LEN (len buf))
  else
    s ← slice buf 0 LEN;
    b ← arr_of 12 s;
    Ok (mkGuidPrefix b).
End GuidPrefix.

#[global] Instance GuidPrefix_eq_dec : EqDecision GuidPrefix.
Proof. solve_decision. Defined.
#[global] Instance GuidPrefix_countable : Countable GuidPrefix.
Proof. refine (inj_countable' prefix_bytes mkGuidPrefix _). by intros []. Defined.

(** [random_guid_prefix]: eight random bytes, then the process id. *)
Definition random_guid_prefix (random_part : vec byte 8) (process_id : Z) : GuidPrefix :=
  mkGuidPrefix (vec_fill 12 (vec_to_list random_part ++ to_le 4 process_id)).

(** ** EntityId *)

Record EntityId : Type := mkEntityId { entity_bytes : vec byte 4 }.

Module EntityId.
Definition LEN : Z := 4.

Definition encode (self : EntityId) (buf : list byte) : list byte :=
  buf ++ vec_to_list (entity_bytes self).

Definition decode (buf : list byte) : dres EntityId :=
  if len buf <? LEN then Err (Truncated LEN (len buf))
  else
    s ← slice buf 0 LEN;
    b ← arr_of 4 s;
    Ok (mkEntityId b).
End EntityId.

#[global] Instance EntityId_eq_dec : EqDecision EntityId.
Proof. solve_decision. Defined.
#[global] Instance EntityId_countable : Countable EntityId.
Proof. refine (inj_countable' entity_bytes mkEntityId _). by intros []. Defined.

Definition entity_id (a b c d : byte) : EntityId := mkEntityId [# a; b; c; d].

Definition ENTITYID_PARTICIPANT : EntityId := entity_id x00 x00 x01 xc1.
Definition ENTITYID_SPDP_WRITER : EntityId := entity_id x00 x01 x00 xc2.
Definition ENTITYID_SPDP_READER : EntityId := entity_id x00 x01 x00 xc7.
Definition ENTITYID_SEDP_PUB_WRITER : EntityId := entity_id x00 x00 x03 xc2.
Definition ENTITYID_SEDP_PUB_READER : EntityId := entity_id x00 x00 x03 xc7.
Definition ENTITYID_SEDP_SUB_WRITER : EntityId := entity_id x00 x00 x04 xc2.
Definition ENTITYID_SEDP_SUB_READER : EntityId := entity_id x00 x00 x04 xc7.
Definition ENTITYID_UNKNOWN : EntityId := entity_id x00 x00 x00 x00.

Definition ENDPOINT_SPDP_ANNOUNCER : Z := Z.shiftl 1 0.
Definition ENDPOINT_SPDP_DETECTOR : Z := Z.shiftl 1 1.
Definition ENDPOINT_SEDP_PUB_ANNOUNCER : Z := Z.shiftl 1 2.
Definition ENDPOINT_SEDP_PUB_DETECTOR : Z := Z.shiftl 1 3.
Definition ENDPOINT_SEDP_SUB_ANNOUNCER : Z := Z.shiftl 1 4.
Definition ENDPOINT_SEDP_SUB_DETECTOR : Z := Z.shiftl 1 5.

(** ** Codec instances of the two arrays *)

#[global] Instance GuidPrefix_codec : WireCodec GuidPrefix := {|
  SIZE := GuidPrefix.LEN; encode := GuidPrefix.encode;
  decode := GuidPrefix.decode; wire_wf _ := True |}.

#[global] Instance EntityId_codec : WireCodec EntityId := {|
  SIZE := EntityId.LEN; encode := EntityId.encode;
  decode := EntityId.decode; wire_wf _ := True |}.

(** The shape shared by every [pub struct T(pub [u8; N])]. *)
Section array_codec.
Context {A : Type} {n : nat} (mk : vec byte n → A) (un : A → vec byte n).
Context (mk_un : ∀ x, mk (un x) = x) (un_mk : ∀ v, un (mk v) = v).

Definition array_decode (buf : list byte) : dres A :=
  if len buf <? Z.of_nat n then Err (Truncated (Z.of_nat n) (len buf))
  else s ← slice buf 0 (Z.of_nat n); b ← arr_of n s; Ok (mk b).

Lemma array_decode_total buf : Z.of_nat n <= len buf →
  array_decode buf = Ok (mk (vec_fill n (sub buf 0 (Z.of_nat n)))).
Proof.
  intros. unfold array_decode. ltb_false lia.
  rewrite slice_ok, bind_ok by lia. rewrite Z.sub_0_r, arr_of_ok; [done|].
  by apply len_sub; lia.
Qed.

Lemma array_laws (C : WireCodec A) :
  SIZE A = Z.of_nat n →
  (∀ x buf, encode x buf = buf ++ vec_to_list (un x)) →
  (∀ buf, decode A buf = array_decode buf) →
  (∀ x : A, wire_wf x) →
  WireCodecLaws A.
Proof using mk_un un_mk.
  intros Hs He Hd Hw.
  assert (∀ x, bytes_of x = vec_to_list (un x)) as Hb by (intros; apply He).
  split; intros; rewrite ?Hb, ?Hs, ?Hd in *.
  - lia.
  - apply He.
  - apply len_vec.
  - rewrite array_decode_total by len_tac. sub_norm. by rewrite vec_fill_list, mk_un.
  - rewrite array_decode_total by done. eexists; split_and!; [done..|].
    rewrite Hb, un_mk, list_vec_fill; [done|].
    apply Nat2Z.inj. apply (len_sub buf 0); lia.
  - unfold array_decode. by ltb_true lia.
Qed.
End array_codec.

#[global] Instance GuidPrefix_laws : WireCodecLaws GuidPrefix.
Proof. by apply (array_laws mkGuidPrefix prefix_bytes); [intros []|..]. Qed.
#[global] Instance EntityId_laws : WireCodecLaws EntityId.
Proof. by apply (array_laws mkEntityId entity_bytes); [intros []|..]. Qed.

(** ** Guid *)

Record Guid : Type := mkGuid { prefix : GuidPrefix; entity : EntityId }.

#[global] Instance Guid_eq_dec : EqDecision Guid.
Proof. solve_decision. Defined.
#[global] Instance Guid_countable : Countable Guid.
Proof.
  refine (inj_countable' (λ g, (prefix g, entity g)) (λ p, mkGuid p.1 p.2) _).
  by intros [].
Defined.

Module Guid.
Definition LEN : Z := GuidPrefix.LEN + EntityId.LEN.

Definition encode (self : Guid) (buf : list byte) : list byte :=
  let buf := Codec.encode (prefix self) buf in
  Codec.encode (entity self) buf.

Definition decode (buf : list byte) : dres Guid :=
  if len buf <? LEN then Err (Truncated LEN (len buf))
  else
    s1 ← slice buf 0 GuidPrefix.LEN;
    p ← Codec.decode GuidPrefix s1;
    s2 ← slice buf GuidPrefix.LEN LEN;
    e ← Codec.decode EntityId s2;
    Ok (mkGuid p e).

Definition to_bytes (self : Guid) : vec byte 16 :=
  vec_fill 16 (vec_to_list (prefix_bytes (prefix self))
               ++ vec_to_list (entity_bytes (entity self))).
End Guid.

#[global] Instance Guid_codec : WireCodec Guid := {|
  SIZE := Guid.LEN; encode := Guid.encode;
  decode := Guid.decode; wire_wf _ := True |}.

Lemma Guid_bytes g : bytes_of g = bytes_of (prefix g) ++ bytes_of (entity g).
Proof. unfold bytes_of at 1. simpl. unfold Guid.encode. by autorewrite with codec. Qed.

Lemma SIZE_GuidPrefix : SIZE GuidPrefix = 12. Proof. done. Qed.
Lemma SIZE_EntityId : SIZE EntityId = 4. Proof. done. Qed.
Lemma SIZE_Guid : SIZE Guid = 16. Proof. done. Qed.
#[export] Hint Rewrite SIZE_GuidPrefix SIZE_EntityId SIZE_Guid : len.

Lemma Guid_decode_app p e rest :
  Guid.decode (bytes_of p ++ bytes_of e ++ rest) = Ok (mkGuid p e).
Proof.
  unfold Guid.decode, Guid.LEN, GuidPrefix.LEN, EntityId.LEN.
  ltb_false len_tac. repeat (decode_step; sub_norm). done.
Qed.

#[global] Instance Guid_laws : WireCodecLaws Guid.
Proof.
  apply codec_laws_intro.
  - done.
  - intros x buf. rewrite Guid_bytes. simpl. unfold Guid.encode.
    autorewrite with codec. by rewrite <- app_assoc.
  - intros x. rewrite Guid_bytes. by autorewrite with len.
  - intros [p e] rest _. rewrite Guid_bytes, <- app_assoc. apply Guid_decode_app.
  - intros l Hl. destruct (split_at l 12 4) as (l1 & l2 & -> & H1 & H2); [lia..|done|].
    destruct (bytes_of_surj (A:=GuidPrefix) l1) as (p & _ & <-); [done|].
    destruct (bytes_of_surj (A:=EntityId) l2) as (e & _ & <-); [done|].
    exists (mkGuid p e). by rewrite Guid_bytes.
  - intros buf Hl. simpl. unfold Guid.decode. by ltb_true done.
Qed.

Lemma Guid_to_bytes g : vec_to_list (Guid.to_bytes g) = bytes_of g.
Proof.
  rewrite Guid_bytes. unfold Guid.to_bytes. rewrite list_vec_fill; [done|].
  by rewrite length_app, !length_vec_to_list.
Qed.

(** ** User-defined entity ids *)

Definition entity_id_for_writer (n : Z) : EntityId :=
  entity_id (byte.of_Z (Z.shiftr n 16)) (byte.of_Z (Z.shiftr n 8)) (byte.of_Z n) x03.

Definition entity_id_for_reader (n : Z) : EntityId :=
  entity_id (byte.of_Z (Z.shiftr n 16)) (byte.of_Z (Z.shiftr n 8)) (byte.of_Z n) x04.

Lemma three_bytes n m : 0 <= n < 2 ^ 24 → 0 <= m < 2 ^ 24 →
  byte.of_Z (Z.shiftr n 16) = byte.of_Z (Z.shiftr m 16) →
  byte.of_Z (Z.shiftr n 8) = byte.of_Z (Z.shiftr m 8) →
  byte.of_Z n = byte.of_Z m → n = m.
Proof.
  intros Hn Hm H1 H2 H3.
  apply (f_equal byte.unsigned) in H1, H2, H3.
  rewrite !byte.unsigned_of_Z in *. unfold byte.wrap in *.
  rewrite !Z.shiftr_div_pow2 in * by lia.
  change (2 ^ 16) with 65536 in *. change (2 ^ 8) with 256 in *.
  change (2 ^ 24) with 16777216 in *. Z.to_euclidean_division_equations. lia.
Qed.

(** The counter-based ids of one participant never collide while the counter
    fits the three bytes it is written to. *)
Lemma entity_id_for_writer_inj n m : 0 <= n < 2 ^ 24 → 0 <= m < 2 ^ 24 →
  entity_id_for_writer n = entity_id_for_writer m → n = m.
Proof. intros Hn Hm [=]. by apply three_bytes. Qed.

Lemma entity_id_for_reader_inj n m : 0 <= n < 2 ^ 24 → 0 <= m < 2 ^ 24 →
  entity_id_for_reader n = entity_id_for_reader m → n = m.
Proof. intros Hn Hm [=]. by apply three_bytes. Qed.

Lemma entity_id_kinds_differ n m : entity_id_for_writer n ≠ entity_id_for_reader m.
Proof. by intros [=]. Qed.
