(* ===== verification/Locator.v ===== *)
(** * Locator: 24-byte transport endpoint addresses (src/rtps/locator.rs) *)

From S2P Require Import Prelude Codec.

(** [std::net::SocketAddr]: an address of either family and a port. *)
Inductive SocketAddr : Type :=
| SocketAddrV4 (ip : vec byte 4) (port : Z)
| SocketAddrV6 (ip : vec byte 16) (port : Z).

#[global] Instance SocketAddr_eq_dec : EqDecision SocketAddr.
Proof. solve_decision. Defined.

Record Locator : Type := mkLocator {
  kind : Z;
  port : Z;
  address : vec byte 16 }.

#[global] Instance Locator_eq_dec : EqDecision Locator.
Proof. solve_decision. Defined.

Definition LOCATOR_KIND_INVALID : Z := -1.
Definition LOCATOR_KIND_UDPV4 : Z := 1.
Definition LOCATOR_KIND_UDPV6 : Z := 2.

Definition Locator_default : Locator :=
  mkLocator LOCATOR_KIND_INVALID 0 (vreplicate 16 x00).

Module Locator.
Definition LEN : Z := 24.

Definition encode (self : Locator) (buf : list byte) : list byte :=
  let buf := buf ++ to_le 4 (kind self) in
  let buf := buf ++ to_le 4 (port self) in
  buf ++ vec_to_list (address self).

Definition decode (buf : list byte) : dres Locator :=
  if len buf <? LEN then Err (Truncated LEN (len buf))
  else
    k ← read_le 4 buf 0;
    p ← read_le 4 buf 4;
    s ← slice buf 8 24;
    a ← arr_of 16 s;
    Ok (mkLocator (as_i 32 k) p a).

Definition udp_v4 (addr : vec byte 4) (port : Z) : Locator :=
  mkLocator LOCATOR_KIND_UDPV4 port
    (vec_fill 16 (replicate 12 x00 ++ vec_to_list addr)).

Definition udp_v6 (addr : vec byte 16) (port : Z) : Locator :=
  mkLocator LOCATOR_KIND_UDPV6 port addr.

(** [u16::try_from(port).ok()?], then the address of the kind. *)
Definition udp_addr (self : Locator) : option SocketAddr :=
  if port self <? 65536 then
    if kind self =? LOCATOR_KIND_UDPV4 then
      Some (SocketAddrV4 (vec_fill 4 (sub (vec_to_list (address self)) 12 4)) (port self))
    else if kind self =? LOCATOR_KIND_UDPV6 then
      Some (SocketAddrV6 (address self) (port self))
    else None
  else None.

Definition wf (l : Locator) : Prop := is_i32 (kind l) ∧ is_u32 (port l).
End Locator.

#[global] Instance Locator_codec : WireCodec Locator := {|
  SIZE := Locator.LEN; encode := Locator.encode;
  decode := Locator.decode; wire_wf := Locator.wf |}.

Lemma Locator_bytes l :
  bytes_of l = to_le 4 (kind l) ++ to_le 4 (port l) ++ vec_to_list (address l).
Proof. unfold bytes_of. simpl. unfold Locator.encode. by rewrite <- app_assoc. Qed.

Lemma SIZE_Locator : SIZE Locator = 24. Proof. done. Qed.
#[export] Hint Rewrite SIZE_Locator : len.

(** A 4-byte field of a wire string is the encoding of its value. *)
Lemma le32_surj (l : list byte) : len l = 4 → ∃ z, is_u32 z ∧ to_le 4 z = l.
Proof.
  intros Hl. exists (from_le l). split.
  - pose proof (from_le_range l) as Hr. rewrite Hl in Hr. done.
  - apply to_le_from_le. unfold len in Hl. lia.
Qed.

Lemma to_le_mod n z : to_le n (z mod 2 ^ (Z.of_nat n * 8)) = to_le n z.
Proof.
  rewrite <- from_le_to_le. apply to_le_from_le. symmetry. apply length_le_split.
Qed.

Lemma le_i32_surj (l : list byte) : len l = 4 → ∃ z, is_i32 z ∧ to_le 4 z = l.
Proof.
  intros Hl. destruct (le32_surj l Hl) as (u & Hu & <-). exists (as_i 32 u). split.
  - apply (as_i_range 32 u). lia.
  - rewrite <- to_le_mod. rewrite <- (to_le_mod 4 u). f_equal. unfold as_i.
    change (Z.of_nat 4 * 8) with 32.
    destruct (_ <? _); [by rewrite Z.mod_mod|].
    change (u mod 2 ^ 32 - 2 ^ 32) with (u mod 2 ^ 32 + -(1) * 2 ^ 32).
    by rewrite Z_mod_plus_full, Z.mod_mod.
Qed.

Lemma arr_surj n (l : list byte) : len l = Z.of_nat n → ∃ v : vec byte n, vec_to_list v = l.
Proof. intros. exists (vec_fill n l). apply list_vec_fill. unfold len in *. lia. Qed.

#[global] Instance Locator_laws : WireCodecLaws Locator.
Proof.
  apply codec_laws_intro.
  - done.
  - intros x buf. rewrite Locator_bytes. simpl. unfold Locator.encode. by rewrite <- !app_assoc.
  - intros x. rewrite Locator_bytes. by autorewrite with len.
  - intros [k p a] rest [Hk Hp]. rewrite Locator_bytes, <- !app_assoc.
    change (decode Locator) with Locator.decode. unfold Locator.decode, Locator.LEN. ltb_false len_tac. repeat (decode_step; sub_norm).
    by rewrite arr_of_vec, bind_ok, from_le_i32, from_le_u32.
  - intros l Hl.
    destruct (split_at l 4 20) as (l1 & l2 & -> & H1 & H2); [lia..|done|].
    destruct (split_at l2 4 16) as (l3 & l4 & -> & H3 & H4); [lia..|].
    destruct (le_i32_surj l1 H1) as (k & Hk & <-).
    destruct (le32_surj l3 H3) as (p & Hp & <-).
    destruct (arr_surj 16 l4 H4) as (a & <-).
    exists (mkLocator k p a). by rewrite Locator_bytes.
  - intros buf Hl. simpl. unfold Locator.decode. by ltb_true done.
Qed.

(** A UDP locator is the socket address it was built from, as long as the
    port fits a UDP port. *)
Lemma udp_addr_udp_v4 a p : 0 <= p < 65536 →
  Locator.udp_addr (Locator.udp_v4 a p) = Some (SocketAddrV4 a p).
Proof.
  intros Hp. unfold Locator.udp_addr, Locator.udp_v4. cbn [port kind address].
  ltb_true lia. rewrite Z.eqb_refl. do 2 f_equal. rewrite list_vec_fill by (rewrite length_app, length_replicate, length_vec_to_list; done).
  sub_norm. apply vec_fill_list.
Qed.

Lemma udp_addr_udp_v6 a p : 0 <= p < 65536 →
  Locator.udp_addr (Locator.udp_v6 a p) = Some (SocketAddrV6 a p).
Proof. intros Hp. unfold Locator.udp_addr. simpl. by ltb_true lia. Qed.
