(* ===== verification/Message.v ===== *)
(** * Message: RTPS framing (src/rtps/message.rs)

    Protocol version, vendor id, sequence numbers, the 20-byte header, the
    4-byte submessage header, the DATA, HEARTBEAT, ACKNACK and GAP bodies,
    the submessage iterator and the message wrapper.  A submessage field
    [flags: u8] is a [byte]; integers wider than a byte are [Z] with their
    range in [wire_wf]. *)

From S2P Require Import Prelude Codec Guid Locator.

(** ** ProtocolVersion *)

Record ProtocolVersion : Type := mkProtocolVersion { major : byte; minor : byte }.

#[global] Instance ProtocolVersion_eq_dec : EqDecision ProtocolVersion.
Proof. solve_decision. Defined.

Definition PROTOCOL_VERSION_2_3 : ProtocolVersion := mkProtocolVersion x02 x03.

Module ProtocolVersion.
Definition LEN : Z := 2.

Definition encode (self : ProtocolVersion) (buf : list byte) : list byte :=
  let buf := buf ++ [major self] in
  buf ++ [minor self].

Definition decode (buf : list byte) : dres ProtocolVersion :=
  if len buf <? LEN then Err (Truncated LEN (len buf))
  else
    a ← idx buf 0;
    b ← idx buf 1;
    Ok (mkProtocolVersion a b).
End ProtocolVersion.

#[global] Instance ProtocolVersion_codec : WireCodec ProtocolVersion := {|
  SIZE := ProtocolVersion.LEN; encode := ProtocolVersion.encode;
  decode := ProtocolVersion.decode; wire_wf _ := True |}.

(** ** VendorId *)

Record VendorId : Type := mkVendorId { vendor_bytes : vec byte 2 }.

#[global] Instance VendorId_eq_dec : EqDecision VendorId.
Proof. solve_decision. Defined.

Definition VENDOR_ID_RUST_DDS : VendorId := mkVendorId [# x01; x28].

Module VendorId.
Definition LEN : Z := 2.

Definition encode (self : VendorId) (buf : list byte) : list byte :=
  buf ++ vec_to_list (vendor_bytes self).

Definition decode (buf : list byte) : dres VendorId :=
  if len buf <? LEN then Err (Truncated LEN (len buf))
  else
    s ← slice buf 0 LEN;
    b ← arr_of 2 s;
    Ok (mkVendorId b).
End VendorId.

#[global] Instance VendorId_codec : WireCodec VendorId := {|
  SIZE := VendorId.LEN; encode := VendorId.encode;
  decode := VendorId.decode; wire_wf _ := True |}.

(** ** SequenceNumber *)

Record SequenceNumber : Type := mkSequenceNumber { high : Z; low : Z }.

#[global] Instance SequenceNumber_eq_dec : EqDecision SequenceNumber.
Proof. solve_decision. Defined.

Module SequenceNumber.
Definition LEN : Z := 8.

Definition encode (self : SequenceNumber) (buf : list byte) : list byte :=
  let buf := buf ++ to_le 4 (high self) in
  buf ++ to_le 4 (low self).

Definition decode (buf : list byte) : dres SequenceNumber :=
  if len buf <? LEN then Err (Truncated LEN (len buf))
  else
    h ← read_le 4 buf 0;
    l ← read_le 4 buf 4;
    Ok (mkSequenceNumber (as_i 32 h) l).

(** [(u64::from(high as u32)) << 32 | u64::from(low)] *)
Definition to_u64 (self : SequenceNumber) : Z :=
  Z.lor (as_u 64 (Z.shiftl (as_u 32 (high self)) 32)) (low self).

Definition from_u64 (v : Z) : SequenceNumber :=
  mkSequenceNumber (as_i 32 (Z.shiftr v 32)) (as_u 32 v).

Definition wf (s : SequenceNumber) : Prop := is_i32 (high s) ∧ is_u32 (low s).
End SequenceNumber.

#[global] Instance SequenceNumber_codec : WireCodec SequenceNumber := {|
  SIZE := SequenceNumber.LEN; encode := SequenceNumber.encode;
  decode := SequenceNumber.decode; wire_wf := SequenceNumber.wf |}.

(** ** Header *)

Definition RTPS_MAGIC : list byte := [x52; x54; x50; x53].

Record Header : Type := mkHeader {
  protocol_version : ProtocolVersion;
  vendor_id : VendorId;
  guid_prefix : GuidPrefix }.

#[global] Instance Header_eq_dec : EqDecision Header.
Proof. solve_decision. Defined.

Module Header.
Definition LEN : Z := 20.

Definition encode (self : Header) (buf : list byte) : list byte :=
  let buf := buf ++ RTPS_MAGIC in
  let buf := Codec.encode (protocol_version self) buf in
  let buf := Codec.encode (vendor_id self) buf in
  Codec.encode (guid_prefix self) buf.

Definition decode (buf : list byte) : dres Header :=
  if len buf <? LEN then Err (Truncated LEN (len buf))
  else
    m ← slice buf 0 4;
    if negb (bool_decide (m = RTPS_MAGIC)) then Err BadMagic
    else
      s1 ← slice buf 4 6; pv ← Codec.decode ProtocolVersion s1;
      s2 ← slice buf 6 8; vid ← Codec.decode VendorId s2;
      s3 ← slice buf 8 20; gp ← Codec.decode GuidPrefix s3;
      Ok (mkHeader pv vid gp).
End Header.

(** ** SubmessageHeader *)

Definition SUBMSG_DATA : byte := x15.
Definition SUBMSG_GAP : byte := x08.
Definition SUBMSG_HEARTBEAT : byte := x07.
Definition SUBMSG_ACKNACK : byte := x06.
Definition SUBMSG_INFO_TS : byte := x09.
Definition SUBMSG_PAD : byte := x01.

Definition FLAG_ENDIANNESS : byte := x01.
Definition FLAG_INLINE_QOS : byte := x02.
Definition FLAG_DATA : byte := x04.

Record SubmessageHeader : Type := mkSubmessageHeader {
  submessage_id : byte;
  flags : byte;
  octets_to_next_header : Z }.

#[global] Instance SubmessageHeader_eq_dec : EqDecision SubmessageHeader.
Proof. solve_decision. Defined.

Module SubmessageHeader.
Definition LEN : Z := 4.

Definition encode (self : SubmessageHeader) (buf : list byte) : list byte :=
  let buf := buf ++ [submessage_id self] in
  let buf := buf ++ [flags self] in
  buf ++ to_le 2 (octets_to_next_header self).

Definition decode (buf : list byte) : dres SubmessageHeader :=
  if len buf <? LEN then Err (Truncated LEN (len buf))
  else
    i ← idx buf 0;
    f ← idx buf 1;
    o ← read_le 2 buf 2;
    Ok (mkSubmessageHeader i f o).
End SubmessageHeader.

#[global] Instance SubmessageHeader_codec : WireCodec SubmessageHeader := {|
  SIZE := SubmessageHeader.LEN; encode := SubmessageHeader.encode;
  decode := SubmessageHeader.decode;
  wire_wf h := is_u16 (octets_to_next_header h) |}.

(** [header.encode(&mut out); out.extend_from_slice(&body); out], with
    [octets_to_next_header: body.len() as u16]: the tail of every
    [encode_*_submessage]. *)
Definition finish_submessage (id flags : byte) (body : list byte) : list byte :=
  let header := mkSubmessageHeader id flags (as_u 16 (len body)) in
  let out := encode header [] in
  out ++ body.

(** ** DATA *)

Record DataSubmessage : Type := mkDataSubmessage {
  data_reader_entity_id : EntityId;
  data_writer_entity_id : EntityId;
  seq_num : SequenceNumber;
  payload : option (list byte) }.

#[global] Instance DataSubmessage_eq_dec : EqDecision DataSubmessage.
Proof. solve_decision. Defined.

Definition encode_data_submessage (writer_entity_id reader_entity_id : EntityId)
    (seq_num : SequenceNumber) (serialised_payload : list byte) : list byte :=
  let body := [] ++ to_le 2 0 in
  let body := body ++ to_le 2 16 in
  let body := encode reader_entity_id body in
  let body := encode writer_entity_id body in
  let body := encode seq_num body in
  let body := body ++ serialised_payload in
  finish_submessage SUBMSG_DATA (u8_or FLAG_ENDIANNESS FLAG_DATA) body.

Definition decode_data_submessage (flags : byte) (body : list byte) : dres DataSubmessage :=
  if len body <? 20 then Err (Truncated 20 (len body))
  else
    s1 ← slice body 4 8; reader ← decode EntityId s1;
    s2 ← slice body 8 12; writer ← decode EntityId s2;
    s3 ← slice body 12 20; sn ← decode SequenceNumber s3;
    payload ← (if negb (bool_decide (u8_and flags FLAG_DATA = x00)) && (20 <? len body)
               then p ← slice_from body 20; Ok (Some p)
               else Ok None);
    Ok (mkDataSubmessage reader writer sn payload).

(** ** HEARTBEAT *)

Record Heartbeat : Type := mkHeartbeat {
  hb_reader_entity_id : EntityId;
  hb_writer_entity_id : EntityId;
  first_sn : SequenceNumber;
  last_sn : SequenceNumber;
  hb_count : Z }.

#[global] Instance Heartbeat_eq_dec : EqDecision Heartbeat.
Proof. solve_decision. Defined.

Definition encode_heartbeat_submessage (hb : Heartbeat) : list byte :=
  let body := encode (hb_reader_entity_id hb) [] in
  let body := encode (hb_writer_entity_id hb) body in
  let body := encode (first_sn hb) body in
  let body := encode (last_sn hb) body in
  let body := body ++ to_le 4 (hb_count hb) in
  finish_submessage SUBMSG_HEARTBEAT FLAG_ENDIANNESS body.

Definition decode_heartbeat_submessage (body : list byte) : dres Heartbeat :=
  if len body <? 28 then Err (Truncated 28 (len body))
  else
    s1 ← slice body 0 4; reader ← decode EntityId s1;
    s2 ← slice body 4 8; writer ← decode EntityId s2;
    s3 ← slice body 8 16; first ← decode SequenceNumber s3;
    s4 ← slice body 16 24; last ← decode SequenceNumber s4;
    count ← read_le 4 body 24;
    Ok (mkHeartbeat reader writer first last (as_i 32 count)).

(** ** ACKNACK *)

Record AckNack : Type := mkAckNack {
  an_reader_entity_id : EntityId;
  an_writer_entity_id : EntityId;
  base : SequenceNumber;
  bitmap : Z;
  an_count : Z }.

#[global] Instance AckNack_eq_dec : EqDecision AckNack.
Proof. solve_decision. Defined.

Definition encode_acknack_submessage (an : AckNack) : list byte :=
  let body := encode (an_reader_entity_id an) [] in
  let body := encode (an_writer_entity_id an) body in
  let body := encode (base an) body in
  let body := body ++ to_le 4 32 in
  let body := body ++ to_le 4 (bitmap an) in
  let body := body ++ to_le 4 (an_count an) in
  finish_submessage SUBMSG_ACKNACK FLAG_ENDIANNESS body.

Definition decode_acknack_submessage (body : list byte) : dres AckNack :=
  if len body <? 28 then Err (Truncated 28 (len body))
  else
    s1 ← slice body 0 4; reader ← decode EntityId s1;
    s2 ← slice body 4 8; writer ← decode EntityId s2;
    s3 ← slice body 8 16; base ← decode SequenceNumber s3;
    bitmap ← read_le 4 body 20;
    count ← read_le 4 body 24;
    Ok (mkAckNack reader writer base bitmap (as_i 32 count)).

(** ** GAP *)

Record Gap : Type := mkGap {
  gap_reader_entity_id : EntityId;
  gap_writer_entity_id : EntityId;
  gap_start : SequenceNumber;
  gap_end : SequenceNumber }.

Definition encode_gap_submessage (g : Gap) : list byte :=
  let body := encode (gap_reader_entity_id g) [] in
  let body := encode (gap_writer_entity_id g) body in
  let body := encode (gap_start g) body in
  let body := body ++ to_le 4 (high (gap_end g)) in
  let body := body ++ to_le 4 (as_u 32 (low (gap_end g) + 1)) in
  let body := body ++ to_le 4 0 in
  finish_submessage SUBMSG_GAP FLAG_ENDIANNESS body.

(** ** Submessage iteration *)

Record RawSubmessage : Type := mkRawSubmessage {
  raw_id : byte;
  raw_flags : byte;
  raw_body : list byte }.

#[global] Instance RawSubmessage_eq_dec : EqDecision RawSubmessage.
Proof. solve_decision. Defined.

Record SubmessageIter : Type := mkSubmessageIter {
  si_body : list byte;
  errored : bool }.

(** The items the iterator yields: [Result<RawSubmessage, RtpsDecodeError>]. *)
Definition Item : Type := RawSubmessage + RtpsDecodeError.

Module SubmessageIter.
(** A zero [octetsToNextHeader] of anything but PAD and INFO_TS extends the
    submessage to the end of the message. *)
Definition extend_length (id : byte) (length : Z) (rest : list byte) : Z :=
  if (length =? 0) && negb (bool_decide (id = SUBMSG_PAD))
       && negb (bool_decide (id = SUBMSG_INFO_TS))
  then len rest else length.

Definition new (body : list byte) : SubmessageIter := mkSubmessageIter body false.

(** [Iterator::next]; the outer outcome is [Ok] unless an index panics. *)
Definition next (self : SubmessageIter) : res Empty_set (option Item * SubmessageIter) :=
  let body := si_body self in
  if errored self || (len body <? 4) then Ok (None, self)
  else
    id ← idx body 0;
    flags ← idx body 1;
    length0 ← read_le 2 body 2;
    rest ← slice_from body 4;
    let length := extend_length id length0 rest in
    if len rest <? length then
      Ok (Some (inr (Truncated length (len rest))), mkSubmessageIter body true)
    else
      msg_body ← slice rest 0 length;
      remainder ← slice_from rest length;
      Ok (Some (inl (mkRawSubmessage id flags msg_body)),
          mkSubmessageIter remainder (errored self)).

(** The items of a whole [for] loop over the iterator.  Out of fuel is
    [Panic] here, which [submessage_iter_total] rules out. *)
Fixpoint collect (fuel : nat) (self : SubmessageIter) : res Empty_set (list Item) :=
  match fuel with
  | O => Panic
  | S fuel =>
      r ← next self;
      match r with
      | (None, _) => Ok []
      | (Some it, self') => its ← collect fuel self'; Ok (it :: its)
      end
  end.

(** Every item but the last consumes at least four bytes. *)
Definition items (body : list byte) : res Empty_set (list Item) :=
  collect (S (length body)) (new body).
End SubmessageIter.

(** ** Message wrapping *)

Definition wrap_in_rtps_message (header : Header) (submessages : list byte) : list byte :=
  let out := Header.encode header [] in
  out ++ submessages.

(** ** Codec laws of the fixed-size types *)

Lemma SIZE_ProtocolVersion : SIZE ProtocolVersion = 2. Proof. done. Qed.
Lemma SIZE_VendorId : SIZE VendorId = 2. Proof. done. Qed.
Lemma SIZE_SequenceNumber : SIZE SequenceNumber = 8. Proof. done. Qed.
Lemma SIZE_SubmessageHeader : SIZE SubmessageHeader = 4. Proof. done. Qed.
#[export] Hint Rewrite SIZE_ProtocolVersion SIZE_VendorId SIZE_SequenceNumber
  SIZE_SubmessageHeader : len.

#[global] Instance VendorId_laws : WireCodecLaws VendorId.
Proof. by apply (array_laws mkVendorId vendor_bytes); [intros []|..]. Qed.

#[global] Instance ProtocolVersion_laws : WireCodecLaws ProtocolVersion.
Proof.
  apply codec_laws_intro.
  - done.
  - intros x buf. simpl. unfold ProtocolVersion.encode. by rewrite <- app_assoc.
  - done.
  - intros [a b] rest _. simpl. unfold ProtocolVersion.decode, ProtocolVersion.LEN.
    by ltb_false len_tac.
  - intros l Hl. destruct l as [|a [|b [|]]]; try (exfalso; len_tac).
    by exists (mkProtocolVersion a b).
  - intros buf Hl. simpl. unfold ProtocolVersion.decode. by ltb_true done.
Qed.

Lemma SequenceNumber_bytes s : bytes_of s = to_le 4 (high s) ++ to_le 4 (low s).
Proof. done. Qed.

#[global] Instance SequenceNumber_laws : WireCodecLaws SequenceNumber.
Proof.
  apply codec_laws_intro.
  - done.
  - intros x buf. rewrite SequenceNumber_bytes. simpl. unfold SequenceNumber.encode.
    by rewrite <- app_assoc.
  - intros x. rewrite SequenceNumber_bytes. by autorewrite with len.
  - intros [h l] rest [Hh Hl]. rewrite SequenceNumber_bytes, <- app_assoc.
    change (decode SequenceNumber) with SequenceNumber.decode.
    unfold SequenceNumber.decode, SequenceNumber.LEN. ltb_false len_tac.
    repeat (decode_step; sub_norm). by rewrite from_le_i32, from_le_u32.
  - intros l Hl. destruct (split_at l 4 4) as (l1 & l2 & -> & H1 & H2); [lia..|done|].
    destruct (le_i32_surj l1 H1) as (h & Hh & <-).
    destruct (le32_surj l2 H2) as (lo & Hlo & <-).
    by exists (mkSequenceNumber h lo).
  - intros buf Hl. simpl. unfold SequenceNumber.decode. by ltb_true done.
Qed.

Lemma SubmessageHeader_bytes h :
  bytes_of h = submessage_id h :: flags h :: to_le 2 (octets_to_next_header h).
Proof. done. Qed.

#[global] Instance SubmessageHeader_laws : WireCodecLaws SubmessageHeader.
Proof.
  apply codec_laws_intro.
  - done.
  - intros x buf. rewrite SubmessageHeader_bytes. simpl. unfold SubmessageHeader.encode.
    by rewrite <- !app_assoc.
  - done.
  - intros [i f o] rest Ho. rewrite SubmessageHeader_bytes.
    cbn [submessage_id flags octets_to_next_header].
    change (decode SubmessageHeader) with SubmessageHeader.decode.
    unfold SubmessageHeader.decode, SubmessageHeader.LEN. ltb_false len_tac.
    change (i :: f :: to_le 2 o) with ([i; f] ++ to_le 2 o). rewrite <- app_assoc.
    rewrite !idx_app_l by len_tac. rewrite idx_cons_0, bind_ok, idx_cons_pos, idx_cons_0, bind_ok by lia.
    rewrite read_le_ok, bind_ok by len_tac. sub_norm. by rewrite from_le_u16.
  - intros l Hl. destruct l as [|i [|f o]]; [exfalso; len_tac..|]. exists (mkSubmessageHeader i f (from_le o)).
    rewrite SubmessageHeader_bytes. simpl. rewrite to_le_from_le by (rewrite !len_cons in Hl; autorewrite with len in Hl; unfold len in Hl; lia).
    split; [|done]. pose proof (from_le_range o) as Hr.
    replace (8 * len o) with 16 in Hr by len_tac. done.
  - intros buf Hl. simpl. unfold SubmessageHeader.decode. by ltb_true done.
Qed.

Lemma Header_bytes h buf :
  Header.encode h buf = buf ++ RTPS_MAGIC ++ bytes_of (protocol_version h)
    ++ bytes_of (vendor_id h) ++ bytes_of (guid_prefix h).
Proof. unfold Header.encode. autorewrite with codec. by rewrite <- !app_assoc. Qed.

Lemma len_RTPS_MAGIC : len RTPS_MAGIC = 4. Proof. done. Qed.
#[export] Hint Rewrite len_RTPS_MAGIC : len.

Lemma Header_decode_encode h rest : Header.decode (Header.encode h [] ++ rest) = Ok h.
Proof.
  rewrite Header_bytes, app_nil_l, <- !app_assoc. destruct h as [v d g].
  cbn [protocol_version vendor_id guid_prefix].
  unfold Header.decode, Header.LEN. ltb_false len_tac.
  repeat (read_step; sub_norm). rewrite bool_decide_true by done. cbn [negb].
  repeat (decode_step; sub_norm). done.
Qed.

Lemma Header_decode_short buf : len buf < 20 → Header.decode buf = Err (Truncated 20 (len buf)).
Proof. intros. unfold Header.decode, Header.LEN. by ltb_true lia. Qed.

Lemma Header_surj buf : 20 <= len buf → sub buf 0 4 = RTPS_MAGIC →
  ∃ h, Header.encode h [] = sub buf 0 20.
Proof.
  intros Hl Hm.
  assert (len (sub buf 4 16) = 16) as H16 by (apply len_sub; lia).
  destruct (split_at (sub buf 4 16) 2 14) as (l1 & r1 & Hs & H1 & Hr1); [lia..|].
  destruct (split_at r1 2 12) as (l2 & l3 & -> & H2 & H3); [lia..|].
  destruct (bytes_of_surj (A:=ProtocolVersion) l1) as (pv & _ & <-); [done|].
  destruct (bytes_of_surj (A:=VendorId) l2) as (vid & _ & <-); [done|].
  destruct (bytes_of_surj (A:=GuidPrefix) l3) as (gp & _ & <-); [done|].
  exists (mkHeader pv vid gp). rewrite Header_bytes. cbn [protocol_version vendor_id guid_prefix].
  rewrite <- Hs, <- Hm, app_nil_l. apply (sub_split buf 0 4 16); lia.
Qed.

Lemma Header_decode_bad_magic buf : 20 <= len buf → sub buf 0 4 ≠ RTPS_MAGIC →
  Header.decode buf = Err BadMagic.
Proof.
  intros Hl Hm. unfold Header.decode, Header.LEN. ltb_false len_tac.
  repeat read_step. by rewrite bool_decide_false.
Qed.

Lemma Header_decode_cases buf :
  (len buf < 20 ∧ Header.decode buf = Err (Truncated 20 (len buf)))
  ∨ (20 <= len buf ∧ sub buf 0 4 ≠ RTPS_MAGIC ∧ Header.decode buf = Err BadMagic)
  ∨ (∃ h, 20 <= len buf ∧ Header.encode h [] = sub buf 0 20 ∧ Header.decode buf = Ok h).
Proof.
  destruct (Z.lt_ge_cases (len buf) 20) as [Hl|Hl].
  { left. split; [done|]. by apply Header_decode_short. }
  right. destruct (decide (sub buf 0 4 = RTPS_MAGIC)) as [Hm|Hm]; [right|left].
  - destruct (Header_surj buf Hl Hm) as (h & Hh). exists h. split_and!; [done..|].
    rewrite <- (sub_0_app_drop buf 20), <- Hh by lia. apply Header_decode_encode.
  - split_and!; [done..|]. by apply Header_decode_bad_magic.
Qed.

(** The three outcomes of [Header::decode] and when each happens: a short
    packet, a packet of another protocol, and otherwise the header whose
    encoding is the first twenty bytes. *)
Theorem header_decode_outcomes buf :
  (len buf < 20 ∧ Header.decode buf = Err (Truncated 20 (len buf)))
  ∨ (20 <= len buf ∧ sub buf 0 4 ≠ RTPS_MAGIC ∧ Header.decode buf = Err BadMagic)
  ∨ (∃ h, 20 <= len buf ∧ Header.encode h [] = sub buf 0 20 ∧ Header.decode buf = Ok h).
Proof. apply Header_decode_cases. Qed.

(** ** Sequence numbers as 64-bit integers *)

Lemma to_u64_eq s : SequenceNumber.wf s →
  SequenceNumber.to_u64 s = as_u 32 (high s) * 2 ^ 32 + low s.
Proof.
  intros [Hh Hl]. unfold SequenceNumber.to_u64.
  pose proof (as_u_range 32 (high s)).
  rewrite (as_u_small 64).
  - apply lor_shiftl_add; [lia|done].
  - rewrite Z.shiftl_mul_pow2 by lia. lia.
Qed.

Lemma to_u64_range s : SequenceNumber.wf s → is_u64 (SequenceNumber.to_u64 s).
Proof.
  intros Hs. rewrite to_u64_eq by done. destruct Hs as [Hh Hl].
  pose proof (as_u_range 32 (high s)). unfold is_u64, is_u32 in *.
  change (2 ^ 32) with 4294967296 in *. lia.
Qed.

Lemma from_u64_wf v : is_u64 v → SequenceNumber.wf (SequenceNumber.from_u64 v).
Proof.
  intros Hv. split; simpl; [apply (as_i_range 32); lia|apply (as_u_range 32); lia].
Qed.

Lemma as_u_as_i w z : 0 < w → as_u w (as_i w z) = z mod 2 ^ w.
Proof.
  intros. unfold as_u, as_i. assert (0 < 2 ^ w) by (apply Z.pow_pos_nonneg; lia).
  destruct (_ <? _); [by rewrite Z.mod_mod by lia|].
  replace (z mod 2 ^ w - 2 ^ w) with (z mod 2 ^ w + -(1) * 2 ^ w) by lia.
  by rewrite Z_mod_plus_full, Z.mod_mod by lia.
Qed.

Lemma as_i_as_u w z : 0 < w → - 2 ^ (w - 1) <= z < 2 ^ (w - 1) → as_i w (as_u w z) = z.
Proof. apply as_i_mod. Qed.

Lemma to_u64_from_u64 v : is_u64 v → SequenceNumber.to_u64 (SequenceNumber.from_u64 v) = v.
Proof.
  intros Hv. rewrite to_u64_eq by by apply from_u64_wf. simpl.
  rewrite as_u_as_i by lia. rewrite Z.shiftr_div_pow2 by lia.
  unfold is_u64, as_u in *. change (2 ^ 32) with 4294967296.
  Z.to_euclidean_division_equations. lia.
Qed.

Lemma from_u64_to_u64 s : SequenceNumber.wf s →
  SequenceNumber.from_u64 (SequenceNumber.to_u64 s) = s.
Proof.
  intros Hs. pose proof (to_u64_eq s Hs) as He. destruct Hs as [Hh Hl]. destruct s as [h l].
  pose proof (as_u_range 32 h). simpl in *.
  unfold SequenceNumber.from_u64. rewrite He. rewrite Z.shiftr_div_pow2 by lia.
  rewrite Z.div_add_l, Z.div_small, Z.add_0_r by done. f_equal.
  - apply as_i_as_u; [lia|done].
  - unfold as_u at 1. rewrite Z.add_comm, Z_mod_plus_full. by apply Z.mod_small.
Qed.

(** [to_u64] and [from_u64] are inverse bijections between the 8-byte wire
    sequence numbers and [u64], so reliability bookkeeping never aliases two
    of them. *)
Theorem sequence_number_u64_bijection s v : SequenceNumber.wf s → is_u64 v →
  (is_u64 (SequenceNumber.to_u64 s) ∧ SequenceNumber.from_u64 (SequenceNumber.to_u64 s) = s)
  ∧ SequenceNumber.wf (SequenceNumber.from_u64 v)
  ∧ SequenceNumber.to_u64 (SequenceNumber.from_u64 v) = v.
Proof.
  intros Hs Hv. split_and!.
  - by apply to_u64_range.
  - by apply from_u64_to_u64.
  - by apply from_u64_wf.
  - by apply to_u64_from_u64.
Qed.

(** ** Submessages *)

(** The wire form of a submessage; every [encode_*_submessage] produces one. *)
Definition raw_bytes (r : RawSubmessage) : list byte :=
  finish_submessage (raw_id r) (raw_flags r) (raw_body r).

(** A submessage whose length field means its length: the body fits the
    16-bit field, and it is not empty unless its id may be empty. *)
Definition raw_wf (r : RawSubmessage) : Prop :=
  len (raw_body r) < 65536 ∧
  (raw_body r = [] → raw_id r = SUBMSG_PAD ∨ raw_id r = SUBMSG_INFO_TS).

Lemma finish_submessage_eq id fl body :
  finish_submessage id fl body = [id; fl] ++ to_le 2 (as_u 16 (len body)) ++ body.
Proof. done. Qed.

Lemma len_finish id fl body : len (finish_submessage id fl body) = 4 + len body.
Proof. rewrite finish_submessage_eq. len_tac. Qed.
#[export] Hint Rewrite len_finish : len.

Lemma drop_finish id fl body : drop 4 (finish_submessage id fl body) = body.
Proof. reflexivity. Qed.

Lemma next_raw r rest : raw_wf r →
  SubmessageIter.next (SubmessageIter.new (raw_bytes r ++ rest)) =
  Ok (Some (inl r), SubmessageIter.new rest).
Proof.
  destruct r as [id fl body]. intros [Hl Hz]. cbn [raw_body raw_id] in *.
  unfold SubmessageIter.next, SubmessageIter.new, raw_bytes. cbn [si_body errored raw_id raw_flags raw_body].
  rewrite finish_submessage_eq, <- !app_assoc.
  ltb_false len_tac. cbn [orb].
  rewrite !idx_app_l by len_tac. rewrite idx_cons_0, bind_ok, idx_cons_pos, idx_cons_0, bind_ok by lia.
  rewrite read_le_ok, bind_ok, slice_from_ok, bind_ok by len_tac. sub_norm.
  rewrite from_le_u16 by (apply (as_u_range 16); lia).
  rewrite as_u_small by len_tac. sub_norm.
  change (drop (Z.to_nat 0) ?l) with l.
  assert (SubmessageIter.extend_length id (len body) (body ++ rest) = len body) as ->.
  { unfold SubmessageIter.extend_length.
    destruct (len body =? 0) eqn:H0; [|done]. apply Z.eqb_eq, len_zero in H0.
    destruct (Hz H0) as [-> | ->]; by rewrite ?(bool_decide_true (_ = _)) by done. }
  ltb_false len_tac. rewrite slice_ok, bind_ok, slice_from_ok, bind_ok by len_tac. sub_norm.
  done.
Qed.

(** Fuel: any amount above the length of what is left gives the same items. *)
Lemma next_consumes s r s' : errored s = false →
  SubmessageIter.next s = Ok (Some (inl r), s') →
  errored s' = false ∧ len (si_body s') + 4 + len (raw_body r) = len (si_body s).
Proof.
  intros He. unfold SubmessageIter.next. rewrite He. cbn [orb].
  destruct (len (si_body s) <? 4) eqn:H4; [done|]. apply Z.ltb_ge in H4.
  destruct (idx_ok (E:=Empty_set) (si_body s) 0) as (i & -> & _); [lia|].
  destruct (idx_ok (E:=Empty_set) (si_body s) 1) as (f & -> & _); [lia|].
  rewrite !bind_ok, read_le_ok, bind_ok, slice_from_ok, bind_ok by lia.
  set (rest := drop _ _). set (l := SubmessageIter.extend_length _ _ _).
  destruct (len rest <? l) eqn:Hl; [done|]. apply Z.ltb_ge in Hl.
  assert (0 <= l) as Hl0.
  { unfold l, SubmessageIter.extend_length.
    destruct (_ && _); [apply len_nonneg|]. apply from_le_range. }
  rewrite slice_ok, bind_ok, slice_from_ok, bind_ok by lia. intros [= <- <-].
  cbn [si_body errored raw_body]. rewrite len_sub by lia. split; [done|].
  autorewrite with len. unfold rest in *. autorewrite with len in *. lia.
Qed.

(** [next] never panics, and after an error the iterator is finished. *)
Lemma next_outcome s :
  SubmessageIter.next s = Ok (None, s)
  ∨ (∃ e, SubmessageIter.next s = Ok (Some (inr e), mkSubmessageIter (si_body s) true))
  ∨ (∃ r s', errored s = false ∧ SubmessageIter.next s = Ok (Some (inl r), s')).
Proof.
  destruct s as [b e]. unfold SubmessageIter.next. cbn [si_body errored].
  destruct e; [by left|]. cbn [orb].
  destruct (len b <? 4) eqn:H4; [by left|]. apply Z.ltb_ge in H4.
  destruct (idx_ok (E:=Empty_set) b 0) as (i & -> & _); [lia|].
  destruct (idx_ok (E:=Empty_set) b 1) as (f & -> & _); [lia|].
  rewrite !bind_ok, read_le_ok, bind_ok, slice_from_ok, bind_ok by lia.
  set (rest := drop _ _). set (l := SubmessageIter.extend_length _ _ _).
  destruct (len rest <? l) eqn:Hl; [by right; left; eauto|]. apply Z.ltb_ge in Hl.
  assert (0 <= l) as Hl0.
  { unfold l, SubmessageIter.extend_length.
    destruct (_ && _); [apply len_nonneg|]. apply from_le_range. }
  right; right. rewrite slice_ok, bind_ok, slice_from_ok, bind_ok by lia.
  do 2 eexists; split; reflexivity.
Qed.

Lemma next_errored b : SubmessageIter.next (mkSubmessageIter b true) = Ok (None, mkSubmessageIter b true).
Proof. done. Qed.

Lemma next_some_len s it s' : SubmessageIter.next s = Ok (Some it, s') → 4 <= len (si_body s).
Proof.
  unfold SubmessageIter.next. destruct (errored s); [done|]. cbn [orb].
  by destruct (Z.ltb_spec (len (si_body s)) 4).
Qed.

Lemma collect_errored n b : (0 < n)%nat → SubmessageIter.collect n (mkSubmessageIter b true) = Ok [].
Proof. by destruct n; [lia|]. Qed.

Lemma collect_fuel s n m : (length (si_body s) < n)%nat → (length (si_body s) < m)%nat →
  SubmessageIter.collect n s = SubmessageIter.collect m s.
Proof.
  revert s m. induction n as [|n IH]; intros s [|m] Hn Hm; [lia..|].
  simpl. destruct (next_outcome s) as [-> | [(e & He) | (r & s' & He & Hs)]]; [done| |].
  - pose proof (next_some_len _ _ _ He) as H4. unfold len in H4. rewrite He. simpl.
    by rewrite !collect_errored by lia.
  - rewrite Hs. simpl. destruct (next_consumes s r s' He Hs) as [_ Hlen].
    pose proof (len_nonneg (raw_body r)). unfold len in *.
    rewrite (IH s' m) by lia. done.
Qed.

Lemma items_cons r rest : raw_wf r →
  SubmessageIter.items (raw_bytes r ++ rest) =
  its ← SubmessageIter.items rest; Ok (inl r :: its).
Proof.
  intros Hr. unfold SubmessageIter.items at 1. cbn [SubmessageIter.collect].
  rewrite next_raw by done. rewrite bind_ok. unfold SubmessageIter.items.
  erewrite collect_fuel; [done|..]; simpl.
  - pose proof (len_finish (raw_id r) (raw_flags r) (raw_body r)) as Hf.
    unfold raw_bytes. rewrite length_app. pose proof (len_nonneg (raw_body r)). unfold len in *. lia.
  - lia.
Qed.

Lemma items_short rest : len rest < 4 → SubmessageIter.items rest = Ok [].
Proof.
  intros Hs. unfold SubmessageIter.items. simpl. unfold SubmessageIter.next, SubmessageIter.new.
  cbn [si_body errored orb]. by ltb_true done.
Qed.

(** The iterator over the concatenation of any well-formed submessages,
    followed by fewer than four stray bytes, yields exactly these
    submessages in order. *)
Theorem submessage_iter_concat rs trail : Forall raw_wf rs → len trail < 4 →
  SubmessageIter.items (concat (raw_bytes <$> rs) ++ trail) = Ok (inl <$> rs).
Proof.
  intros Hrs Ht. induction Hrs as [|r rs Hr _ IH]; [by apply items_short|].
  rewrite fmap_cons. cbn [concat]. rewrite <- app_assoc, items_cons by done. by rewrite IH.
Qed.

Definition item_list (rs : list RawSubmessage) (e : option RtpsDecodeError) : list Item :=
  (inl <$> rs) ++ match e with Some err => [inr err] | None => [] end.

Lemma collect_total n s : (length (si_body s) < n)%nat → ∃ rs e,
  SubmessageIter.collect n s = Ok (item_list rs e) ∧ 4 * len rs <= len (si_body s).
Proof.
  revert s. induction n as [|n IH]; intros s Hn; [lia|]. simpl.
  destruct (next_outcome s) as [-> | [(e & He) | (r & s' & He & Hs)]].
  - exists [], None. split; [done|len_tac].
  - exists [], (Some e). pose proof (next_some_len _ _ _ He) as H4. unfold len in H4.
    rewrite He, bind_ok, collect_errored by lia. split; [done|len_tac].
  - destruct (next_consumes s r s' He Hs) as [_ Hl]. pose proof (len_nonneg (raw_body r)).
    destruct (IH s') as (rs & e & Hc & Hlen); [unfold len in *; lia|]. exists (r :: rs), e.
    rewrite Hs, bind_ok, Hc. split; [done|]. len_tac.
Qed.

(** C38. On any input whatever the iterator terminates without panicking, yields
    at most one submessage per four bytes and at most one error, which is
    then the last item. *)
Theorem submessage_iter_total body : ∃ rs e,
  SubmessageIter.items body = Ok (item_list rs e) ∧ 4 * len rs <= len body.
Proof. apply (collect_total _ (SubmessageIter.new body)). simpl. lia. Qed.

(** *** DATA *)

(** The payload a reader sees: an empty one is not distinguished from none. *)
Definition data_payload (p : list byte) : option (list byte) :=
  if bool_decide (p = []) then None else Some p.

Definition data_body (writer reader : EntityId) (sn : SequenceNumber) (p : list byte) : list byte :=
  to_le 2 0 ++ to_le 2 16 ++ bytes_of reader ++ bytes_of writer ++ bytes_of sn ++ p.

Lemma encode_data_eq w r sn p :
  encode_data_submessage w r sn p =
  raw_bytes (mkRawSubmessage SUBMSG_DATA x05 (data_body w r sn p)).
Proof.
  unfold encode_data_submessage, data_body, raw_bytes. autorewrite with codec.
  by rewrite <- !app_assoc.
Qed.

Lemma len_data_body w r sn p : len (data_body w r sn p) = 20 + len p.
Proof. unfold data_body. len_tac. Qed.

Lemma decode_data_body w r sn p : SequenceNumber.wf sn →
  decode_data_submessage x05 (data_body w r sn p) =
  Ok (mkDataSubmessage r w sn (data_payload p)).
Proof.
  intros Hsn. unfold decode_data_submessage. pose proof (len_data_body w r sn p) as Hl.
  ltb_false len_tac. rewrite Hl. unfold data_body.
  repeat (decode_step; sub_norm). simpl.
  change (bool_decide (u8_and x05 FLAG_DATA = x00)) with false. cbn [negb andb].
  unfold data_payload. case_bool_decide as Hp.
  - subst p. rewrite (proj2 (Z.ltb_ge _ _)) by len_tac. done.
  - ltb_true ltac:(destruct p; [done|len_tac]). done.
Qed.

Lemma data_raw_wf w r sn p : len p <= 65515 →
  raw_wf (mkRawSubmessage SUBMSG_DATA x05 (data_body w r sn p)).
Proof.
  intros Hp. split; simpl.
  - rewrite len_data_body. lia.
  - intros Hb. pose proof (len_data_body w r sn p) as Hl. rewrite Hb in Hl. len_tac.
Qed.

(** A DATA message as a writer sends it is parsed back by a receiver: the
    header, exactly one submessage, and in it the ids, the sequence number
    and the payload that were sent.  The bound is the 16-bit length field. *)
Theorem data_message_roundtrip h w r sn p : SequenceNumber.wf sn → len p <= 65515 →
  let msg := wrap_in_rtps_message h (encode_data_submessage w r sn p) in
  Header.decode msg = Ok h ∧
  ∃ raw, SubmessageIter.items (drop 20 msg) = Ok [inl raw] ∧
    raw_id raw = SUBMSG_DATA ∧
    decode_data_submessage (raw_flags raw) (raw_body raw)
    = Ok (mkDataSubmessage r w sn (data_payload p)).
Proof.
  intros Hsn Hp msg. split; [apply Header_decode_encode|].
  exists (mkRawSubmessage SUBMSG_DATA x05 (data_body w r sn p)). split_and!; [|done|].
  - unfold msg, wrap_in_rtps_message.
    change 20%nat with (Z.to_nat 20). rewrite drop_app_len by (rewrite Header_bytes; len_tac).
    rewrite encode_data_eq, <- (app_nil_r (raw_bytes _)).
    rewrite items_cons by by apply data_raw_wf. by rewrite items_short.
  - by apply decode_data_body.
Qed.

(** *** HEARTBEAT and ACKNACK *)

Definition heartbeat_wf (hb : Heartbeat) : Prop :=
  SequenceNumber.wf (first_sn hb) ∧ SequenceNumber.wf (last_sn hb) ∧ is_i32 (hb_count hb).

Definition heartbeat_body (hb : Heartbeat) : list byte :=
  bytes_of (hb_reader_entity_id hb) ++ bytes_of (hb_writer_entity_id hb)
  ++ bytes_of (first_sn hb) ++ bytes_of (last_sn hb) ++ to_le 4 (hb_count hb).

Lemma encode_heartbeat_eq hb :
  encode_heartbeat_submessage hb =
  raw_bytes (mkRawSubmessage SUBMSG_HEARTBEAT FLAG_ENDIANNESS (heartbeat_body hb)).
Proof.
  unfold encode_heartbeat_submessage, heartbeat_body, raw_bytes. autorewrite with codec.
  by rewrite <- !app_assoc.
Qed.

Lemma decode_heartbeat_body hb : heartbeat_wf hb →
  decode_heartbeat_submessage (heartbeat_body hb) = Ok hb.
Proof.
  destruct hb as [r w f l c]. intros (Hf & Hl & Hc). simpl in *.
  unfold decode_heartbeat_submessage, heartbeat_body.
  cbn [hb_reader_entity_id hb_writer_entity_id first_sn last_sn hb_count].
  ltb_false len_tac. repeat (decode_step; sub_norm). by rewrite from_le_i32.
Qed.

Lemma len_heartbeat_body hb : len (heartbeat_body hb) = 28.
Proof. unfold heartbeat_body. len_tac. Qed.

Definition acknack_wf (an : AckNack) : Prop :=
  SequenceNumber.wf (base an) ∧ is_u32 (bitmap an) ∧ is_i32 (an_count an).

Definition acknack_body (an : AckNack) : list byte :=
  bytes_of (an_reader_entity_id an) ++ bytes_of (an_writer_entity_id an)
  ++ bytes_of (base an) ++ to_le 4 32 ++ to_le 4 (bitmap an) ++ to_le 4 (an_count an).

Lemma encode_acknack_eq an :
  encode_acknack_submessage an =
  raw_bytes (mkRawSubmessage SUBMSG_ACKNACK FLAG_ENDIANNESS (acknack_body an)).
Proof.
  unfold encode_acknack_submessage, acknack_body, raw_bytes. autorewrite with codec.
  by rewrite <- !app_assoc.
Qed.

Lemma decode_acknack_body an : acknack_wf an →
  decode_acknack_submessage (acknack_body an) = Ok an.
Proof.
  destruct an as [r w b m c]. intros (Hb & Hm & Hc). simpl in *.
  unfold decode_acknack_submessage, acknack_body.
  cbn [an_reader_entity_id an_writer_entity_id base bitmap an_count].
  ltb_false len_tac. repeat (decode_step; sub_norm). by rewrite from_le_i32, from_le_u32.
Qed.

Lemma len_acknack_body an : len (acknack_body an) = 28.
Proof. unfold acknack_body. len_tac. Qed.

Lemma fixed_raw_wf id fl body : len body = 28 → raw_wf (mkRawSubmessage id fl body).
Proof. intros Hl. split; simpl; [lia|]. intros ->. done. Qed.

(** A HEARTBEAT and an ACKNACK in one message come out of the iterator as
    two submessages and decode to the values that were encoded. *)
Theorem reliability_submessages_roundtrip hb an : heartbeat_wf hb → acknack_wf an →
  ∃ r1 r2,
    SubmessageIter.items (encode_heartbeat_submessage hb ++ encode_acknack_submessage an)
    = Ok [inl r1; inl r2] ∧
    raw_id r1 = SUBMSG_HEARTBEAT ∧ decode_heartbeat_submessage (raw_body r1) = Ok hb ∧
    raw_id r2 = SUBMSG_ACKNACK ∧ decode_acknack_submessage (raw_body r2) = Ok an.
Proof.
  intros Hhb Han. rewrite encode_heartbeat_eq, encode_acknack_eq, <- (app_nil_r (raw_bytes (mkRawSubmessage SUBMSG_ACKNACK _ _))).
  do 2 eexists. split_and!.
  - rewrite items_cons by apply fixed_raw_wf, len_heartbeat_body.
    rewrite items_cons by apply fixed_raw_wf, len_acknack_body. by rewrite items_short.
  - done.
  - by apply decode_heartbeat_body.
  - done.
  - by apply decode_acknack_body.
Qed.

(** *** Decoders never panic *)

Ltac no_panic_tac :=
  repeat first
    [ progress read_step
    | apply no_panic_bind; [|intros ? _]
    | apply decode_no_panic
    | exact I ].

Lemma decode_data_no_panic f body : no_panic (decode_data_submessage f body).
Proof.
  unfold decode_data_submessage. destruct (_ <? 20) eqn:H20; [done|]. apply Z.ltb_ge in H20.
  no_panic_tac. destruct (_ && _); no_panic_tac.
Qed.

Lemma decode_heartbeat_no_panic body : no_panic (decode_heartbeat_submessage body).
Proof.
  unfold decode_heartbeat_submessage. destruct (_ <? 28) eqn:H28; [done|]. apply Z.ltb_ge in H28.
  no_panic_tac.
Qed.

Lemma decode_acknack_no_panic body : no_panic (decode_acknack_submessage body).
Proof.
  unfold decode_acknack_submessage. destruct (_ <? 28) eqn:H28; [done|]. apply Z.ltb_ge in H28.
  no_panic_tac.
Qed.

(** No byte string makes a message decoder panic. *)
Theorem message_decoders_never_panic buf f :
  no_panic (Header.decode buf) ∧ no_panic (SubmessageIter.items buf)
  ∧ no_panic (decode_data_submessage f buf) ∧ no_panic (decode_heartbeat_submessage buf)
  ∧ no_panic (decode_acknack_submessage buf).
Proof.
  split_and!.
  - by destruct (Header_decode_cases buf) as [[_ ->] | [(_ & _ & ->) | (h & _ & _ & ->)]].
  - by destruct (collect_total (S (length buf)) (SubmessageIter.new buf) ltac:(simpl; lia)) as (rs & e & Hi & _);
      unfold SubmessageIter.items; rewrite Hi.
  - apply decode_data_no_panic.
  - apply decode_heartbeat_no_panic.
  - apply decode_acknack_no_panic.
Qed.

(** *** GAP *)

(** The range a GAP body declares (RTPS 2.3 9.4.5.4, no bitmap words):
    [gapStart, bitmapBase - 1]. *)
Definition gap_declared_start (body : list byte) : dres SequenceNumber :=
  s ← slice body 8 16; decode SequenceNumber s.
Definition gap_declared_bitmap_base (body : list byte) : dres SequenceNumber :=
  s ← slice body 16 24; decode SequenceNumber s.

Definition gap_wf (g : Gap) : Prop :=
  SequenceNumber.wf (gap_start g) ∧ SequenceNumber.wf (gap_end g).

Definition gap_body (g : Gap) : list byte :=
  bytes_of (gap_reader_entity_id g) ++ bytes_of (gap_writer_entity_id g)
  ++ bytes_of (gap_start g) ++ bytes_of (mkSequenceNumber (high (gap_end g)) (as_u 32 (low (gap_end g) + 1)))
  ++ to_le 4 0.

Lemma encode_gap_eq g :
  encode_gap_submessage g = raw_bytes (mkRawSubmessage SUBMSG_GAP FLAG_ENDIANNESS (gap_body g)).
Proof.
  unfold encode_gap_submessage, gap_body, raw_bytes. autorewrite with codec.
  rewrite SequenceNumber_bytes. simpl. by rewrite <- !app_assoc.
Qed.

(** A GAP declares exactly the range it was built for, unless the low word
    of its end is [u32::MAX]: then the carry into the high word is lost and
    the bitmap base is below the end. *)
Theorem gap_range g : gap_wf g →
  let body := drop 4 (encode_gap_submessage g) in
  gap_declared_start body = Ok (gap_start g) ∧
  ∃ b, gap_declared_bitmap_base body = Ok b ∧
    SequenceNumber.to_u64 b =
      SequenceNumber.to_u64 (gap_end g) + 1
      - (if low (gap_end g) =? 4294967295 then 2 ^ 32 else 0).
Proof.
  destruct g as [r w s [h l]]. intros [Hs [Hh Hl]]. cbv zeta.
  rewrite encode_gap_eq. unfold raw_bytes. rewrite drop_finish. cbn [high low gap_start gap_end] in *.
  assert (SequenceNumber.wf (mkSequenceNumber h (as_u 32 (l + 1)))) as Hw.
  { split; simpl; [done|]. apply (as_u_range 32). lia. }
  unfold gap_body. cbn [gap_reader_entity_id gap_writer_entity_id gap_start gap_end high low raw_body].
  unfold gap_declared_start, gap_declared_bitmap_base. split.
  - by repeat (decode_step; sub_norm).
  - eexists. split; [by repeat (decode_step; sub_norm)|].
    rewrite !to_u64_eq by done. simpl. unfold is_u32, as_u in *.
    change (2 ^ 32) with 4294967296.
    destruct (Z.eqb_spec l 4294967295); Z.to_euclidean_division_equations; lia.
Qed.

(** ** Concrete instances *)

Lemma sequence_number_u64_bijection_witness :
  SequenceNumber.from_u64 (SequenceNumber.to_u64 (mkSequenceNumber 1 7)) = mkSequenceNumber 1 7 ∧
  SequenceNumber.to_u64 (SequenceNumber.from_u64 (2 ^ 63 + 5)) = 2 ^ 63 + 5.
Proof.
  destruct (sequence_number_u64_bijection (mkSequenceNumber 1 7) (2 ^ 63 + 5)) as [[_ H1] [_ H2]].
  - split; simpl; unfold is_i32, is_u32; lia.
  - unfold is_u64. lia.
  - split; assumption.
Defined.

Lemma submessage_iter_concat_witness :
  let rs := [mkRawSubmessage SUBMSG_DATA x05 [x01; x02; x03]; mkRawSubmessage SUBMSG_PAD x01 []] in
  SubmessageIter.items (concat (raw_bytes <$> rs) ++ [x00; x00]) = Ok (inl <$> rs).
Proof.
  apply submessage_iter_concat.
  - apply Forall_cons; split; [by split|]. apply Forall_cons; split; [|apply Forall_nil; exact I].
    split; [done|]. intros _. left. reflexivity.
  - done.
Defined.

Lemma data_message_roundtrip_witness :
  let h := mkHeader PROTOCOL_VERSION_2_3 VENDOR_ID_RUST_DDS (mkGuidPrefix (vreplicate 12 x07)) in
  let msg := wrap_in_rtps_message h
    (encode_data_submessage ENTITYID_UNKNOWN ENTITYID_UNKNOWN (mkSequenceNumber 0 1) [x2a]) in
  Header.decode msg = Ok h.
Proof.
  apply (data_message_roundtrip _ ENTITYID_UNKNOWN ENTITYID_UNKNOWN (mkSequenceNumber 0 1) [x2a]).
  - split; simpl; unfold is_i32, is_u32; lia.
  - done.
Defined.

Lemma reliability_submessages_roundtrip_witness :
  let hb := mkHeartbeat ENTITYID_UNKNOWN ENTITYID_UNKNOWN (mkSequenceNumber 0 1)
              (mkSequenceNumber 0 9) 3 in
  let an := mkAckNack ENTITYID_UNKNOWN ENTITYID_UNKNOWN (mkSequenceNumber 0 4) 5 2 in
  ∃ r1 r2,
    SubmessageIter.items (encode_heartbeat_submessage hb ++ encode_acknack_submessage an)
    = Ok [inl r1; inl r2] ∧
    raw_id r1 = SUBMSG_HEARTBEAT ∧ decode_heartbeat_submessage (raw_body r1) = Ok hb ∧
    raw_id r2 = SUBMSG_ACKNACK ∧ decode_acknack_submessage (raw_body r2) = Ok an.
Proof.
  apply reliability_submessages_roundtrip; repeat split; simpl; lia.
Defined.

(** The carry that GAP loses: 2^32 - 1 is followed by 0, not by 2^32. *)
Lemma gap_range_witness :
  let g := mkGap ENTITYID_UNKNOWN ENTITYID_UNKNOWN (mkSequenceNumber 0 1)
             (mkSequenceNumber 0 4294967295) in
  ∃ b, gap_declared_bitmap_base (drop 4 (encode_gap_submessage g)) = Ok b ∧
    SequenceNumber.to_u64 b = 0.
Proof.
  destruct (gap_range (mkGap ENTITYID_UNKNOWN ENTITYID_UNKNOWN (mkSequenceNumber 0 1)
    (mkSequenceNumber 0 4294967295))) as (_ & b & Hb & Hv).
  - split; split; simpl; unfold is_i32, is_u32; lia.
  - exists b. split; [exact Hb|]. rewrite Hv. reflexivity.
Defined.
