(* ===== verification/Cdr.v ===== *)
(** * Cdr: PL_CDR_LE parameter lists and payload encapsulation
    (src/rtps/cdr.rs) *)

From S2P Require Import Prelude Utf8 Codec Guid Locator.

Definition CDR_LE : Z := 1.
Definition PL_CDR_LE : Z := 3.

Definition PID_PAD : Z := 0.
Definition PID_SENTINEL : Z := 1.
Definition PID_USER_DATA : Z := 44.
Definition PID_TOPIC_NAME : Z := 5.
Definition PID_TYPE_NAME : Z := 7.
Definition PID_PROTOCOL_VERSION : Z := 21.
Definition PID_VENDOR_ID : Z := 22.
Definition PID_METATRAFFIC_UNICAST_LOCATOR : Z := 50.
Definition PID_METATRAFFIC_MULTICAST_LOCATOR : Z := 51.
Definition PID_DEFAULT_UNICAST_LOCATOR : Z := 47.
Definition PID_DEFAULT_MULTICAST_LOCATOR : Z := 48.
Definition PID_PARTICIPANT_LEASE_DURATION : Z := 2.
Definition PID_PARTICIPANT_GUID : Z := 80.
Definition PID_ENDPOINT_GUID : Z := 90.
Definition PID_BUILTIN_ENDPOINT_SET : Z := 88.
Definition PID_RELIABILITY : Z := 26.
Definition PID_DURABILITY : Z := 29.
Definition PID_DISCOVERY_TOKEN : Z := 32769.
Definition PID_ENDPOINT_TOKEN : Z := 32770.

(** ** The encoder *)

Record PlCdrEncoder : Type := mkPlCdrEncoder { enc_buf : list byte }.

Module PlCdrEncoder.
Definition new : PlCdrEncoder :=
  let buf := [] ++ to_le 2 PL_CDR_LE in
  mkPlCdrEncoder (buf ++ [x00; x00]).

Definition add_param (pid : Z) (value : list byte) (self : PlCdrEncoder) : PlCdrEncoder :=
  let padded := Z.land (len value + 3) (Z.lnot 3) in
  let buf := enc_buf self ++ to_le 2 pid in
  let buf := buf ++ to_le 2 (as_u 16 padded) in
  let buf := buf ++ value in
  mkPlCdrEncoder (buf ++ replicate (Z.to_nat (padded - len value)) x00).

Definition add_u32 (pid v : Z) (self : PlCdrEncoder) : PlCdrEncoder :=
  add_param pid (to_le 4 v) self.

Definition add_locator (pid : Z) (loc : Locator) (self : PlCdrEncoder) : PlCdrEncoder :=
  add_param pid (encode loc []) self.

Definition add_guid (pid : Z) (guid : Guid) (self : PlCdrEncoder) : PlCdrEncoder :=
  add_param pid (encode guid []) self.

Definition add_string (pid : Z) (s : list byte) (self : PlCdrEncoder) : PlCdrEncoder :=
  let raw := [] ++ to_le 4 (as_u 32 (len s + 1)) in
  let raw := raw ++ s in
  let raw := raw ++ [x00] in
  add_param pid raw self.

Definition add_bytes (pid : Z) (v : list byte) (self : PlCdrEncoder) : PlCdrEncoder :=
  add_param pid v self.

Definition finish (self : PlCdrEncoder) : list byte :=
  let buf := enc_buf self ++ to_le 2 PID_SENTINEL in
  buf ++ [x00; x00].
End PlCdrEncoder.

(** ** The decoder *)

Record Param : Type := mkParam { pid : Z; value : list byte }.

#[global] Instance Param_eq_dec : EqDecision Param.
Proof. solve_decision. Defined.

Record PlCdrDecoder : Type := mkPlCdrDecoder { dec_buf : list byte; pos : Z }.

Module PlCdrDecoder.
Definition new (buf : list byte) : dres PlCdrDecoder :=
  if len buf <? 4 then Err (Truncated 4 (len buf))
  else
    scheme ← read_le 2 buf 0;
    if negb (scheme =? PL_CDR_LE) then Err (InvalidCdrScheme scheme)
    else Ok (mkPlCdrDecoder buf 4).

(** [Iterator::next]: one round of its [loop] per unit of fuel.  Out of fuel
    is [Panic], here and below, which [parameter_list_total] rules out. *)
Fixpoint next_loop (fuel : nat) (self : PlCdrDecoder)
    : res Empty_set (option Param * PlCdrDecoder) :=
  match fuel with
  | O => Panic
  | S fuel =>
      let buf := dec_buf self in
      if len buf <? pos self + 4 then Ok (None, self)
      else
        pid ← read_le 2 buf (pos self);
        length ← read_le 2 buf (pos self + 2);
        let self := mkPlCdrDecoder buf (pos self + 4) in
        if pid =? PID_SENTINEL then Ok (None, self)
        else if pid =? PID_PAD then next_loop fuel self
        else if len buf <? pos self + length then Ok (None, self)
        else
          value ← slice buf (pos self) (pos self + length);
          Ok (Some (mkParam pid value), mkPlCdrDecoder buf (pos self + length))
  end.

(** Each round advances the cursor by at least four bytes. *)
Definition next (self : PlCdrDecoder) : res Empty_set (option Param * PlCdrDecoder) :=
  next_loop (S (length (dec_buf self))) self.

(** The parameters of a [for] loop over the decoder. *)
Fixpoint collect (fuel : nat) (self : PlCdrDecoder) : res Empty_set (list Param) :=
  match fuel with
  | O => Panic
  | S fuel =>
      r ← next self;
      match r with
      | (None, _) => Ok []
      | (Some p, self') => ps ← collect fuel self'; Ok (p :: ps)
      end
  end.

Definition params (self : PlCdrDecoder) : res Empty_set (list Param) :=
  collect (S (length (dec_buf self))) self.
End PlCdrDecoder.

(** [if let Some((0, rest)) = s.split_last() { s = rest }] *)
Definition strip_nul (s : list byte) : list byte :=
  match reverse s with
  | b :: rest => if bool_decide (b = x00) then reverse rest else s
  | [] => s
  end.

Definition decode_string (b : list byte) : dres (list byte) :=
  if len b <? 4 then Err (Truncated 4 (len b))
  else
    n ← read_le 4 b 0;
    if len b <? 4 + n then Err (Truncated (4 + n) (len b))
    else
      s ← slice b 4 (4 + n);
      Ok (from_utf8_lossy (strip_nul s)).

Definition decode_guid (b : list byte) : dres Guid := decode Guid b.

(** ** Payload encapsulation *)

Definition wrap_payload (payload : list byte) : list byte :=
  let out := [] ++ to_le 2 CDR_LE in
  let out := out ++ [x00; x00] in
  out ++ payload.

Definition unwrap_payload (b : list byte) : dres (list byte) :=
  if len b <? 4 then Err (Truncated 4 (len b))
  else
    scheme ← read_le 2 b 0;
    if negb (scheme =? CDR_LE) && negb (scheme =? PL_CDR_LE)
    then Err (InvalidCdrScheme scheme)
    else slice_from b 4.

(** ** Parameter lists *)

(** [(n + 3) & !3] is [n] rounded up to a multiple of four. *)
Lemma pad4 n : Z.land (n + 3) (Z.lnot 3) = 4 * ((n + 3) / 4).
Proof.
  change 3 with (Z.ones 2) at 2. rewrite <- Z.ldiff_land, Z.ldiff_ones_r by lia.
  rewrite Z.shiftl_mul_pow2, Z.shiftr_div_pow2 by lia. change (2 ^ 2) with 4. lia.
Qed.

Definition padding (v : list byte) : list byte :=
  replicate (Z.to_nat (4 * ((len v + 3) / 4) - len v)) x00.

(** The value as the reader sees it: padded to a multiple of four bytes. *)
Definition padded (v : list byte) : list byte := v ++ padding v.

Lemma len_padded v : len (padded v) = 4 * ((len v + 3) / 4).
Proof. unfold padded, padding. autorewrite with len. pose proof (len_nonneg v).
  Z.to_euclidean_division_equations. lia. Qed.

Definition param_bytes (p : Param) : list byte :=
  to_le 2 (pid p) ++ to_le 2 (len (padded (value p))) ++ padded (value p).

(** A parameter the format can carry. *)
Definition param_wf (p : Param) : Prop :=
  is_u16 (pid p) ∧ pid p ≠ PID_PAD ∧ pid p ≠ PID_SENTINEL ∧ len (value p) <= 65532.

Lemma padded_u16 v : len v <= 65532 → is_u16 (len (padded v)).
Proof.
  intros. rewrite len_padded. pose proof (len_nonneg v). unfold is_u16.
  Z.to_euclidean_division_equations. lia.
Qed.

Lemma add_param_eq p enc : len (value p) <= 65532 →
  enc_buf (PlCdrEncoder.add_param (pid p) (value p) enc) = enc_buf enc ++ param_bytes p.
Proof.
  intros Hl. unfold PlCdrEncoder.add_param, param_bytes. simpl.
  rewrite pad4, <- len_padded, as_u_small by by apply padded_u16.
  rewrite len_padded. unfold padded, padding. by rewrite <- !app_assoc.
Qed.

Definition add_params (ps : list Param) (enc : PlCdrEncoder) : PlCdrEncoder :=
  foldl (λ enc p, PlCdrEncoder.add_param (pid p) (value p) enc) enc ps.

Lemma add_params_eq ps enc : Forall param_wf ps →
  enc_buf (add_params ps enc) = enc_buf enc ++ concat (param_bytes <$> ps).
Proof.
  intros Hps. revert enc. induction Hps as [|p ps Hp _ IH]; intros enc.
  - by rewrite app_nil_r.
  - change (add_params (p :: ps) enc)
      with (add_params ps (PlCdrEncoder.add_param (pid p) (value p) enc)).
    rewrite IH, add_param_eq by apply Hp. rewrite fmap_cons. cbn [concat]. by rewrite <- app_assoc.
Qed.

Lemma len_param_bytes p : len (param_bytes p) = 4 + len (padded (value p)).
Proof. unfold param_bytes. len_tac. Qed.

(** Reading the parameter at the cursor. *)
Lemma next_param k pre p rest : param_wf p →
  PlCdrDecoder.next_loop (S k) (mkPlCdrDecoder (pre ++ param_bytes p ++ rest) (len pre)) =
  Ok (Some (mkParam (pid p) (padded (value p))),
      mkPlCdrDecoder (pre ++ param_bytes p ++ rest) (len pre + len (param_bytes p))).
Proof.
  intros (Hpid & Hp & Hs & Hv). pose proof (padded_u16 _ Hv) as Hu.
  cbn [PlCdrDecoder.next_loop dec_buf pos]. rewrite len_param_bytes.
  unfold param_bytes. rewrite <- !app_assoc.
  ltb_false len_tac. repeat (read_step; sub_norm). rewrite !from_le_u16 by done.
  rewrite !(proj2 (Z.eqb_neq _ _)) by done. ltb_false len_tac.
  repeat (read_step; sub_norm). do 3 f_equal. lia.
Qed.

Lemma next_sentinel k pre rest :
  PlCdrDecoder.next_loop (S k)
    (mkPlCdrDecoder (pre ++ to_le 2 PID_SENTINEL ++ [x00; x00] ++ rest) (len pre)) =
  Ok (None, mkPlCdrDecoder (pre ++ to_le 2 PID_SENTINEL ++ [x00; x00] ++ rest) (len pre + 4)).
Proof.
  cbn [PlCdrDecoder.next_loop dec_buf pos]. ltb_false len_tac.
  repeat (read_step; sub_norm). by rewrite from_le_u16.
Qed.

Lemma collect_params fuel pre ps rest : Forall param_wf ps → (length ps < fuel)%nat →
  PlCdrDecoder.collect fuel
    (mkPlCdrDecoder (pre ++ concat (param_bytes <$> ps) ++ to_le 2 PID_SENTINEL
                     ++ [x00; x00] ++ rest) (len pre))
  = Ok ((λ p, mkParam (pid p) (padded (value p))) <$> ps).
Proof.
  intros Hps. revert fuel pre. induction Hps as [|p ps Hp _ IH]; intros [|fuel] pre Hf; try (simpl in Hf; lia).
  - cbn [PlCdrDecoder.collect]. unfold PlCdrDecoder.next.
    rewrite fmap_nil. cbn [concat]. rewrite app_nil_l, next_sentinel. done.
  - cbn [PlCdrDecoder.collect]. unfold PlCdrDecoder.next. rewrite fmap_cons. cbn [concat].
    rewrite <- (app_assoc (param_bytes p)), next_param by done. rewrite bind_ok.
    rewrite (app_assoc pre), <- len_app. rewrite IH by (simpl in Hf; lia). done.
Qed.

Lemma decode_add_params ps rest : Forall param_wf ps →
  ∃ dec, PlCdrDecoder.new (PlCdrEncoder.finish (add_params ps PlCdrEncoder.new) ++ rest) = Ok dec ∧
    PlCdrDecoder.params dec = Ok ((λ p, mkParam (pid p) (padded (value p))) <$> ps).
Proof.
  intros Hps. set (b := _ ++ rest).
  assert (b = (to_le 2 PL_CDR_LE ++ [x00; x00]) ++ concat (param_bytes <$> ps)
              ++ to_le 2 PID_SENTINEL ++ [x00; x00] ++ rest) as Hb.
  { unfold b, PlCdrEncoder.finish. rewrite add_params_eq by done. by rewrite <- !app_assoc. }
  exists (mkPlCdrDecoder b 4). split.
  - unfold PlCdrDecoder.new. rewrite Hb, <- (app_assoc (to_le 2 PL_CDR_LE)).
    ltb_false len_tac. rewrite read_le_ok, bind_ok by len_tac. sub_norm. by rewrite from_le_u16.
  - unfold PlCdrDecoder.params. cbn [dec_buf]. rewrite Hb. apply collect_params; [done|].
    rewrite !length_app. enough (length ps ≤ length (concat (param_bytes <$> ps)))%nat by lia.
    clear. induction ps as [|p ps IH]; [done|]. rewrite fmap_cons. cbn [concat]. rewrite length_app.
    pose proof (len_param_bytes p). pose proof (len_nonneg (padded (value p))).
    unfold len in *. simpl. lia.
Qed.

(** Round trip of parameter lists: whatever parameters are added, the
    decoder yields them in order, each value padded to four bytes, and stops
    at the sentinel, ignoring what follows. *)
Theorem parameter_list_roundtrip ps rest : Forall param_wf ps →
  ∃ dec, PlCdrDecoder.new (PlCdrEncoder.finish (add_params ps PlCdrEncoder.new) ++ rest) = Ok dec ∧
    PlCdrDecoder.params dec = Ok ((λ p, mkParam (pid p) (padded (value p))) <$> ps).
Proof. apply decode_add_params. Qed.

Lemma padded_id v : len v mod 4 = 0 → padded v = v.
Proof.
  intros Hv. unfold padded, padding. pose proof (len_nonneg v).
  replace (4 * ((len v + 3) / 4) - len v) with 0; [by rewrite app_nil_r|].
  Z.to_euclidean_division_equations. lia.
Qed.

(** ** Decoding arbitrary input *)

Definition next_good (buf : list byte) (p : Z)
    (r : res Empty_set (option Param * PlCdrDecoder)) : Prop :=
  match r with
  | Ok (None, d) => True
  | Ok (Some x, d) => dec_buf d = buf ∧ p + 4 + len (value x) <= pos d <= len buf
  | _ => False
  end.

Lemma next_loop_outcome n buf p : 0 <= p → Z.max 0 (len buf - p) < Z.of_nat n →
  next_good buf p (PlCdrDecoder.next_loop n (mkPlCdrDecoder buf p)).
Proof.
  revert p. induction n as [|n IH]; intros p Hp Hn; [lia|].
  cbn [PlCdrDecoder.next_loop dec_buf pos].
  destruct (Z.ltb_spec (len buf) (p + 4)); [done|].
  rewrite !read_le_ok, !bind_ok by lia.
  destruct (_ =? PID_SENTINEL); [done|].
  destruct (_ =? PID_PAD).
  { specialize (IH (p + 4) ltac:(lia) ltac:(lia)). unfold next_good in *.
    destruct (PlCdrDecoder.next_loop _ _) as [[[x|] d]| |]; try exact IH.
    destruct IH. split; [done|lia]. }
  set (l := from_le _). assert (0 <= l) by apply from_le_range.
  destruct (Z.ltb_spec (len buf) (p + 4 + l)); [done|].
  rewrite slice_ok, bind_ok by lia. simpl. rewrite len_sub by lia. split; [done|lia].
Qed.

Lemma next_loop_fuel n m buf p : 0 <= p →
  Z.max 0 (len buf - p) < Z.of_nat n → Z.max 0 (len buf - p) < Z.of_nat m →
  PlCdrDecoder.next_loop n (mkPlCdrDecoder buf p) = PlCdrDecoder.next_loop m (mkPlCdrDecoder buf p).
Proof.
  revert m p. induction n as [|n IH]; intros m p Hp Hn Hm; [lia|].
  cbn [PlCdrDecoder.next_loop dec_buf pos].
  destruct (Z.ltb_spec (len buf) (p + 4)) as [Hlt|Hge].
  { destruct m as [|m]; [lia|]. cbn [PlCdrDecoder.next_loop dec_buf pos]. by ltb_true lia. }
  destruct m as [|m]; [lia|]. cbn [PlCdrDecoder.next_loop dec_buf pos]. ltb_false lia.
  rewrite !read_le_ok, !bind_ok by lia.
  destruct (_ =? PID_SENTINEL); [done|]. destruct (_ =? PID_PAD); [|done]. apply IH; lia.
Qed.

(** The bytes a parameter list takes, headers included. *)
Definition params_size (ps : list Param) : Z :=
  foldr (λ x acc, 4 + len (value x) + acc) 0 ps.

Lemma collect_params_total n buf p : 0 <= p → Z.max 0 (len buf - p) < Z.of_nat n → ∃ ps,
  PlCdrDecoder.collect n (mkPlCdrDecoder buf p) = Ok ps
  ∧ params_size ps <= Z.max 0 (len buf - p).
Proof.
  revert p. induction n as [|n IH]; intros p Hp Hn; [lia|].
  cbn [PlCdrDecoder.collect]. unfold PlCdrDecoder.next. cbn [dec_buf].
  pose proof (next_loop_outcome (S (length buf)) buf p Hp ltac:(unfold len; lia)) as Hg. unfold next_good in Hg.
  destruct (PlCdrDecoder.next_loop _ _) as [[[x|] [b q]]| |]; [|exists []; split; simpl; [done|lia]|done..].
  simpl in Hg. destruct Hg as [-> Hq]. pose proof (len_nonneg (value x)).
  destruct (IH q) as (ps & Hc & Hsum); [lia..|]. exists (x :: ps).
  rewrite bind_ok, Hc. split; [done|]. simpl. lia.
Qed.

(** On any input the parameter-list decoder terminates without panicking and
    never reports more data than it was given; the loop over pad entries
    needs no more fuel than the bytes that are left. *)
Theorem parameter_list_total buf :
  (len buf < 4 ∧ PlCdrDecoder.new buf = Err (Truncated 4 (len buf)))
  ∨ (∃ s, s ≠ PL_CDR_LE ∧ PlCdrDecoder.new buf = Err (InvalidCdrScheme s))
  ∨ (∃ ps, PlCdrDecoder.new buf = Ok (mkPlCdrDecoder buf 4) ∧
       PlCdrDecoder.params (mkPlCdrDecoder buf 4) = Ok ps ∧
       params_size ps <= len buf - 4 ∧
       ∀ n p, 4 <= p → Z.max 0 (len buf - p) < Z.of_nat n →
         PlCdrDecoder.next_loop n (mkPlCdrDecoder buf p) = PlCdrDecoder.next (mkPlCdrDecoder buf p)).
Proof.
  unfold PlCdrDecoder.new. destruct (Z.ltb_spec (len buf) 4) as [Hl|Hl]; [by left|right].
  rewrite read_le_ok, bind_ok by lia. set (s := from_le _).
  destruct (Z.eqb_spec s PL_CDR_LE) as [Hs|Hs]; [right|left; eauto].
  destruct (collect_params_total (S (length buf)) buf 4) as (ps & Hps & Hsum); [lia|unfold len; lia|].
  exists ps. split_and!; [done|done|lia|]. intros n p Hp Hn. apply next_loop_fuel; [lia|lia|].
  simpl. unfold len. lia.
Qed.

(** *** Strings *)

Lemma strip_nul_snoc s : strip_nul (s ++ [x00]) = s.
Proof. unfold strip_nul. rewrite reverse_snoc. rewrite bool_decide_true by done. apply reverse_involutive. Qed.

(** The bytes [add_string] stores. *)
Definition cdr_string (s : list byte) : list byte := to_le 4 (as_u 32 (len s + 1)) ++ s ++ [x00].

Lemma add_string_eq p s enc :
  PlCdrEncoder.add_string p s enc = PlCdrEncoder.add_param p (cdr_string s) enc.
Proof. unfold PlCdrEncoder.add_string, cdr_string. by rewrite app_nil_l, <- app_assoc. Qed.

Lemma decode_cdr_string s rest : is_str s → len s < 4294967295 →
  decode_string (cdr_string s ++ rest) = Ok s.
Proof.
  intros Hs Hl. unfold decode_string, cdr_string. rewrite <- !app_assoc.
  ltb_false len_tac. rewrite read_le_ok, bind_ok by len_tac. sub_norm.
  rewrite from_le_u32 by (apply (as_u_range 32); lia). rewrite as_u_small by len_tac.
  ltb_false len_tac. rewrite slice_ok, bind_ok by len_tac. sub_norm.
  rewrite (app_assoc s). sub_norm. by rewrite strip_nul_snoc, from_utf8_lossy_str.
Qed.

Lemma decode_string_no_panic b : no_panic (decode_string b).
Proof.
  unfold decode_string. destruct (Z.ltb_spec (len b) 4); [done|].
  rewrite read_le_ok, bind_ok by lia. set (n := from_le _). assert (0 <= n) by apply from_le_range.
  destruct (Z.ltb_spec (len b) (4 + n)); [done|]. by rewrite slice_ok, bind_ok by lia.
Qed.

Lemma decode_string_is_str b s : decode_string b = Ok s → is_str s.
Proof.
  unfold decode_string. destruct (_ <? 4); [done|]. intros (n & _ & H)%bind_ok_inv.
  destruct (_ <? 4 + n); [done|]. apply bind_ok_inv in H as (x & _ & [= <-]).
  apply from_utf8_lossy_is_str.
Qed.

(** *** Encapsulation *)

Lemma unwrap_wrap p : unwrap_payload (wrap_payload p) = Ok p.
Proof.
  unfold unwrap_payload, wrap_payload. rewrite app_nil_l, <- !app_assoc. ltb_false len_tac.
  rewrite read_le_ok, bind_ok by len_tac. sub_norm. rewrite from_le_u16 by done. simpl.
  rewrite slice_from_ok by len_tac. done.
Qed.

Lemma unwrap_payload_no_panic b : no_panic (unwrap_payload b).
Proof.
  unfold unwrap_payload. destruct (Z.ltb_spec (len b) 4); [done|].
  rewrite read_le_ok, bind_ok by lia. destruct (_ && _); [done|].
  by rewrite slice_from_ok by lia.
Qed.

Lemma len_wrap_payload p : len (wrap_payload p) = 4 + len p.
Proof. unfold wrap_payload. len_tac. Qed.
#[export] Hint Rewrite len_wrap_payload : len.

(** Round trip of the typed parameters: a string, a GUID, a locator or a
    [u32] read back from the padded value is the one that was added. *)
Theorem typed_parameters_roundtrip s g l v p :
  is_str s → len s <= 65527 → Locator.wf l → is_u32 v →
  decode_string (padded (cdr_string s)) = Ok s
  ∧ decode_guid (padded (bytes_of g)) = Ok g
  ∧ decode Locator (padded (bytes_of l)) = Ok l
  ∧ from_le (padded (to_le 4 v)) = v
  ∧ unwrap_payload (wrap_payload p) = Ok p
  ∧ len (cdr_string s) <= 65532.
Proof.
  intros Hs Hl Hw Hv. unfold padded. split_and!.
  - apply decode_cdr_string; [done|lia].
  - by apply (decode_encode (A:=Guid)).
  - by apply decode_encode.
  - unfold padding. rewrite len_to_le.
    change (replicate (Z.to_nat (4 * ((Z.of_nat 4 + 3) / 4) - Z.of_nat 4)) x00) with (@nil byte).
    rewrite app_nil_r. by apply from_le_u32.
  - apply unwrap_wrap.
  - unfold cdr_string. len_tac.
Qed.

(** ** Concrete instances *)

Lemma parameter_list_roundtrip_witness :
  let ps := [mkParam 5 [x61; x62; x63; x00; x00]; mkParam 90 []] in
  ∃ dec, PlCdrDecoder.new (PlCdrEncoder.finish (add_params ps PlCdrEncoder.new) ++ [x09]) = Ok dec ∧
    PlCdrDecoder.params dec = Ok ((λ p, mkParam (pid p) (padded (value p))) <$> ps).
Proof.
  apply parameter_list_roundtrip. repeat constructor; simpl; done || lia.
Defined.

Lemma typed_parameters_roundtrip_witness :
  decode_string (padded (cdr_string [x68; x69])) = Ok [x68; x69] ∧
  unwrap_payload (wrap_payload [x01]) = Ok [x01].
Proof.
  destruct (typed_parameters_roundtrip [x68; x69]
    (mkGuid (mkGuidPrefix (vreplicate 12 x01)) ENTITYID_UNKNOWN) (Locator.udp_v4 [# x7f; x00; x00; x01] 7400) 5 [x01])
    as (H1 & _ & _ & _ & H2 & _).
  - vm_compute. reflexivity.
  - done.
  - split; simpl; unfold is_i32, is_u32, LOCATOR_KIND_UDPV4; lia.
  - unfold is_u32. lia.
  - split; assumption.
Defined.
