(* ===== verification/Xcdr.v ===== *)
(** * Xcdr: the CDR/XCDR1 codec of typed payloads (src/rtps/xcdr.rs)

    An [f32]/[f64] is represented by its IEEE 754 bit pattern (the value of
    [to_bits]), a [char] by its code point.  A reader method may move the
    cursor before it fails, so the readers are state-passing ([SR]). *)

From S2P Require Import Prelude Utf8 Codec Cdr.

Definition CDR_BE : Z := 0.
Definition ENCAP_HEADER_LEN : Z := 4.

(** ** The encoder *)

Record XcdrEncoder : Type := mkXcdrEncoder { xbuf : list byte }.

Module XcdrEncoder.
Definition new : XcdrEncoder :=
  let buf := [] ++ to_le 2 CDR_LE in
  mkXcdrEncoder (buf ++ [x00; x00]).

Definition bytes (self : XcdrEncoder) : list byte := xbuf self.
Definition length (self : XcdrEncoder) : Z := len (xbuf self).

Definition align (n : Z) (self : XcdrEncoder) : XcdrEncoder :=
  let pad := (n - len (xbuf self) mod n) mod n in
  mkXcdrEncoder (xbuf self ++ replicate (Z.to_nat pad) x00).

Definition extend (bs : list byte) (self : XcdrEncoder) : XcdrEncoder :=
  mkXcdrEncoder (xbuf self ++ bs).

Definition write_bool (v : bool) (self : XcdrEncoder) : XcdrEncoder :=
  extend [if v then x01 else x00] self.
Definition write_u8 (v : byte) (self : XcdrEncoder) : XcdrEncoder := extend [v] self.
Definition write_i8 (v : Z) (self : XcdrEncoder) : XcdrEncoder := extend [byte.of_Z v] self.
Definition write_char (v : Z) (self : XcdrEncoder) : XcdrEncoder := write_u8 (byte.of_Z v) self.
Definition write_i16 (v : Z) (self : XcdrEncoder) : XcdrEncoder :=
  extend (to_le 2 v) (align 2 self).
Definition write_u16 (v : Z) (self : XcdrEncoder) : XcdrEncoder :=
  extend (to_le 2 v) (align 2 self).
Definition write_i32 (v : Z) (self : XcdrEncoder) : XcdrEncoder :=
  extend (to_le 4 v) (align 4 self).
Definition write_u32 (v : Z) (self : XcdrEncoder) : XcdrEncoder :=
  extend (to_le 4 v) (align 4 self).
Definition write_i64 (v : Z) (self : XcdrEncoder) : XcdrEncoder :=
  extend (to_le 8 v) (align 8 self).
Definition write_u64 (v : Z) (self : XcdrEncoder) : XcdrEncoder :=
  extend (to_le 8 v) (align 8 self).
Definition write_f32 (bits : Z) (self : XcdrEncoder) : XcdrEncoder :=
  extend (to_le 4 bits) (align 4 self).
Definition write_f64 (bits : Z) (self : XcdrEncoder) : XcdrEncoder :=
  extend (to_le 8 bits) (align 8 self).

Definition write_string (s : list byte) (self : XcdrEncoder) : XcdrEncoder :=
  let self := align 4 self in
  let n := as_u 32 (len s + 1) in
  let self := extend (to_le 4 n) self in
  let self := extend s self in
  extend [x00] self.

Definition write_bytes_seq (b : list byte) (self : XcdrEncoder) : XcdrEncoder :=
  let self := align 4 self in
  let n := as_u 32 (len b) in
  let self := extend (to_le 4 n) self in
  extend b self.
End XcdrEncoder.

(** ** The decoder *)

Record XcdrDecoder : Type := mkXcdrDecoder { xd_buf : list byte; xd_pos : Z }.

Notation reader := (SR XcdrDecoder RtpsDecodeError).

Module XcdrDecoder.
Definition new (buf : list byte) : dres XcdrDecoder :=
  if len buf <? ENCAP_HEADER_LEN then Err (Truncated ENCAP_HEADER_LEN (len buf))
  else
    scheme ← read_le 2 buf 0;
    if negb (scheme =? CDR_LE) && negb (scheme =? CDR_BE)
    then Err (InvalidCdrScheme scheme)
    else Ok (mkXcdrDecoder buf ENCAP_HEADER_LEN).

(** [self.buf.len() - self.pos] *)
Definition remaining `{BuildProfile} (self : XcdrDecoder) : res Empty_set Z :=
  usub 64 (len (xd_buf self)) (xd_pos self).

Definition align (n : Z) : reader unit :=
  sr_modify (λ self,
    let pad := (n - xd_pos self mod n) mod n in
    mkXcdrDecoder (xd_buf self) (xd_pos self + pad)).

Definition need (n : Z) : reader unit := λ self,
  (if len (xd_buf self) <? xd_pos self + n
   then Err (Truncated (xd_pos self + n) (len (xd_buf self))) else Ok tt, self).

Definition advance (n : Z) : reader unit :=
  sr_modify (λ self, mkXcdrDecoder (xd_buf self) (xd_pos self + n)).

Definition read_u8 : reader byte :=
  _ ← need 1;
  self ← sr_get;
  v ← sr_lift (idx (xd_buf self) (xd_pos self));
  _ ← advance 1;
  mret v.

Definition read_bool : reader bool :=
  _ ← need 1;
  self ← sr_get;
  b ← sr_lift (idx (xd_buf self) (xd_pos self));
  let v := negb (bool_decide (b = x00)) in
  _ ← advance 1;
  mret v.

Definition read_i8 : reader Z := v ← read_u8; mret (as_i 8 (byte.unsigned v)).

Definition read_char : reader Z :=
  v ← read_u8;
  mret (if byte.unsigned v <? 128 then byte.unsigned v else 65533).

Definition read_u16 : reader Z :=
  _ ← align 2; _ ← need 2;
  self ← sr_get;
  v ← sr_lift (read_le 2 (xd_buf self) (xd_pos self));
  _ ← advance 2;
  mret v.

Definition read_i16 : reader Z :=
  _ ← align 2; _ ← need 2;
  self ← sr_get;
  v ← sr_lift (read_le 2 (xd_buf self) (xd_pos self));
  _ ← advance 2;
  mret (as_i 16 v).

(** The common body of the 32- and 64-bit readers: copy [n] bytes into a
    local array and advance. *)
Definition read_array (n : nat) : reader (vec byte n) :=
  _ ← align (Z.of_nat n); _ ← need (Z.of_nat n);
  self ← sr_get;
  s ← sr_lift (slice (xd_buf self) (xd_pos self) (xd_pos self + Z.of_nat n));
  b ← sr_lift (arr_of n s);
  _ ← advance (Z.of_nat n);
  mret b.

Definition read_i32 : reader Z := b ← read_array 4; mret (as_i 32 (from_le (vec_to_list b))).
Definition read_u32 : reader Z := b ← read_array 4; mret (from_le (vec_to_list b)).
Definition read_i64 : reader Z := b ← read_array 8; mret (as_i 64 (from_le (vec_to_list b))).
Definition read_u64 : reader Z := b ← read_array 8; mret (from_le (vec_to_list b)).
Definition read_f32 : reader Z := bits ← read_u32; mret bits.
Definition read_f64 : reader Z := bits ← read_u64; mret bits.

Definition read_string : reader (list byte) :=
  n ← read_u32;
  if n =? 0 then mret []
  else
    _ ← need n;
    self ← sr_get;
    raw ← sr_lift (slice (xd_buf self) (xd_pos self) (xd_pos self + n));
    _ ← advance n;
    mret (from_utf8_lossy (strip_nul raw)).

Definition read_bytes_seq : reader (list byte) :=
  n ← read_u32;
  _ ← need n;
  self ← sr_get;
  out ← sr_lift (slice (xd_buf self) (xd_pos self) (xd_pos self + n));
  _ ← advance n;
  mret out.
End XcdrDecoder.

(** ** Values

    The universe of fields an IDL-generated codec composes. *)
Inductive XValue : Type :=
| XBool (v : bool) | XU8 (v : byte) | XI8 (v : Z) | XChar (v : Z)
| XI16 (v : Z) | XU16 (v : Z) | XI32 (v : Z) | XU32 (v : Z) | XI64 (v : Z) | XU64 (v : Z)
| XF32 (bits : Z) | XF64 (bits : Z) | XString (s : list byte) | XBytes (b : list byte).

Inductive XKind : Type :=
| KBool | KU8 | KI8 | KChar | KI16 | KU16 | KI32 | KU32 | KI64 | KU64 | KF32 | KF64
| KString | KBytes.

Definition kind_of (v : XValue) : XKind :=
  match v with
  | XBool _ => KBool | XU8 _ => KU8 | XI8 _ => KI8 | XChar _ => KChar
  | XI16 _ => KI16 | XU16 _ => KU16 | XI32 _ => KI32 | XU32 _ => KU32
  | XI64 _ => KI64 | XU64 _ => KU64 | XF32 _ => KF32 | XF64 _ => KF64
  | XString _ => KString | XBytes _ => KBytes
  end.

Definition write_value (v : XValue) : XcdrEncoder → XcdrEncoder :=
  match v with
  | XBool v => XcdrEncoder.write_bool v | XU8 v => XcdrEncoder.write_u8 v
  | XI8 v => XcdrEncoder.write_i8 v | XChar v => XcdrEncoder.write_char v
  | XI16 v => XcdrEncoder.write_i16 v | XU16 v => XcdrEncoder.write_u16 v
  | XI32 v => XcdrEncoder.write_i32 v | XU32 v => XcdrEncoder.write_u32 v
  | XI64 v => XcdrEncoder.write_i64 v | XU64 v => XcdrEncoder.write_u64 v
  | XF32 v => XcdrEncoder.write_f32 v | XF64 v => XcdrEncoder.write_f64 v
  | XString s => XcdrEncoder.write_string s | XBytes b => XcdrEncoder.write_bytes_seq b
  end.

Definition read_value (k : XKind) : reader XValue :=
  match k with
  | KBool => v ← XcdrDecoder.read_bool; mret (XBool v)
  | KU8 => v ← XcdrDecoder.read_u8; mret (XU8 v)
  | KI8 => v ← XcdrDecoder.read_i8; mret (XI8 v)
  | KChar => v ← XcdrDecoder.read_char; mret (XChar v)
  | KI16 => v ← XcdrDecoder.read_i16; mret (XI16 v)
  | KU16 => v ← XcdrDecoder.read_u16; mret (XU16 v)
  | KI32 => v ← XcdrDecoder.read_i32; mret (XI32 v)
  | KU32 => v ← XcdrDecoder.read_u32; mret (XU32 v)
  | KI64 => v ← XcdrDecoder.read_i64; mret (XI64 v)
  | KU64 => v ← XcdrDecoder.read_u64; mret (XU64 v)
  | KF32 => v ← XcdrDecoder.read_f32; mret (XF32 v)
  | KF64 => v ← XcdrDecoder.read_f64; mret (XF64 v)
  | KString => v ← XcdrDecoder.read_string; mret (XString v)
  | KBytes => v ← XcdrDecoder.read_bytes_seq; mret (XBytes v)
  end.

Fixpoint read_values (ks : list XKind) : reader (list XValue) :=
  match ks with
  | [] => mret []
  | k :: ks => v ← read_value k; vs ← read_values ks; mret (v :: vs)
  end.

Definition write_values (vs : list XValue) (e : XcdrEncoder) : XcdrEncoder :=
  foldl (λ e v, write_value v e) e vs.

(** The values each method accepts; of a string, those its reader gives back. *)
Definition xvalue_wf (v : XValue) : Prop :=
  match v with
  | XBool _ | XU8 _ => True
  | XI8 v => -128 <= v < 128
  | XChar v => is_char v
  | XI16 v => -32768 <= v < 32768
  | XU16 v => is_u16 v
  | XI32 v => is_i32 v
  | XU32 v | XF32 v => is_u32 v
  | XI64 v => is_i64 v
  | XU64 v | XF64 v => is_u64 v
  | XString s => is_str s ∧ len s < 4294967295
  | XBytes b => len b < 4294967296
  end.

(** ** Round trip *)

(** [m] reads exactly the bytes [suf] that follow [pre], giving [a]. *)
Definition reads {A} (m : reader A) (pre suf : list byte) (a : A) : Prop :=
  ∀ rest, m (mkXcdrDecoder (pre ++ suf ++ rest) (len pre))
          = (Ok a, mkXcdrDecoder (pre ++ suf ++ rest) (len pre + len suf)).

Lemma reads_bind {A B} (m : reader A) (f : A → reader B) pre s1 s2 a b :
  reads m pre s1 a → reads (f a) (pre ++ s1) s2 b → reads (m ≫= f) pre (s1 ++ s2) b.
Proof.
  intros H1 H2 rest. rewrite <- app_assoc. erewrite sr_bind_ok by apply H1.
  specialize (H2 rest). rewrite <- app_assoc in H2. rewrite len_app in H2.
  rewrite H2. do 2 f_equal. len_tac.
Qed.

Lemma reads_ret {A B} (m : reader A) (f : A → B) pre s a :
  reads m pre s a → reads (v ← m; mret (f v)) pre s (f a).
Proof. intros H rest. by erewrite sr_bind_ok by apply H. Qed.

Definition pad_bytes (n : Z) (pre : list byte) : list byte :=
  replicate (Z.to_nat ((n - len pre mod n) mod n)) x00.

Lemma align_eq n e : XcdrEncoder.align n e = XcdrEncoder.extend (pad_bytes n (xbuf e)) e.
Proof. done. Qed.

Lemma len_pad_bytes n pre : 0 < n → len (pad_bytes n pre) = (n - len pre mod n) mod n.
Proof.
  intros Hn. unfold pad_bytes. rewrite len_replicate.
  pose proof (Z.mod_pos_bound (n - len pre mod n) n Hn). lia.
Qed.

Lemma reads_align n pre : 0 < n → reads (XcdrDecoder.align n) pre (pad_bytes n pre) tt.
Proof.
  intros Hn rest. unfold XcdrDecoder.align, sr_modify. cbn [xd_buf xd_pos].
  by rewrite len_pad_bytes.
Qed.

Lemma need_ok n buf p : p + n <= len buf →
  XcdrDecoder.need n (mkXcdrDecoder buf p) = (Ok tt, mkXcdrDecoder buf p).
Proof. intros. unfold XcdrDecoder.need. cbn [xd_buf xd_pos]. by ltb_false lia. Qed.

(** [need] and the state accesses consume nothing. *)
Lemma reads_need {B} (f : unit → reader B) n pre s b : n <= len s →
  reads (f tt) pre s b → reads (XcdrDecoder.need n ≫= f) pre s b.
Proof.
  intros Hn H rest. rewrite sr_bind_eq, need_ok by len_tac. apply H.
Qed.

Lemma reads_u8 pre b : reads XcdrDecoder.read_u8 pre [b] b.
Proof.
  intros rest. unfold XcdrDecoder.read_u8. rewrite sr_bind_eq, need_ok by len_tac.
  unfold sr_get, sr_lift, XcdrDecoder.advance, sr_modify.
  rewrite !sr_bind_eq. cbn [xd_buf xd_pos app]. by rewrite idx_mid.
Qed.

Lemma reads_bool pre b : reads XcdrDecoder.read_bool pre [b] (negb (bool_decide (b = x00))).
Proof.
  intros rest. unfold XcdrDecoder.read_bool. rewrite sr_bind_eq, need_ok by len_tac.
  unfold sr_get, sr_lift, XcdrDecoder.advance, sr_modify.
  rewrite !sr_bind_eq. cbn [xd_buf xd_pos app]. by rewrite idx_mid.
Qed.

(** The common tail of [read_u16] and [read_i16]. *)
Definition int_at (n : nat) (f : Z → Z) : reader Z :=
  _ ← XcdrDecoder.need (Z.of_nat n);
  self ← sr_get;
  v ← sr_lift (read_le n (xd_buf self) (xd_pos self));
  _ ← XcdrDecoder.advance (Z.of_nat n);
  mret (f v).

Lemma reads_int_at n f pre bs : len bs = Z.of_nat n → reads (int_at n f) pre bs (f (from_le bs)).
Proof.
  intros Hl rest. unfold int_at. rewrite sr_bind_eq, need_ok by len_tac.
  unfold sr_get, sr_lift, XcdrDecoder.advance, sr_modify.
  rewrite !sr_bind_eq. cbn [xd_buf xd_pos].
  rewrite read_le_ok by len_tac. sub_norm. rewrite sr_bind_eq. cbn. by rewrite Hl.
Qed.

Lemma reads_16 f pre v :
  reads (XcdrDecoder.align 2 ≫= λ _, int_at 2 f) pre (pad_bytes 2 pre ++ to_le 2 v)
    (f (v mod 2 ^ 16)).
Proof.
  eapply reads_bind; [by apply reads_align|].
  change 16 with (Z.of_nat 2 * 8). rewrite <- from_le_to_le. by apply reads_int_at.
Qed.

Lemma reads_array (n : nat) pre bs : (0 < n)%nat → len bs = Z.of_nat n →
  reads (XcdrDecoder.read_array n) pre (pad_bytes (Z.of_nat n) pre ++ bs) (vec_fill n bs).
Proof.
  intros Hn Hl. unfold XcdrDecoder.read_array. eapply reads_bind; [apply reads_align; lia|].
  apply reads_need; [lia|]. intros rest. set (q := pre ++ _).
  unfold sr_get, sr_lift, XcdrDecoder.advance, sr_modify.
  rewrite !sr_bind_eq. cbn [xd_buf xd_pos]. rewrite slice_ok by len_tac. sub_norm.
  rewrite sr_bind_eq, arr_of_ok by done. cbn. by rewrite Hl.
Qed.

Lemma reads_int n pre v : (0 < n)%nat →
  reads (b ← XcdrDecoder.read_array n; mret (from_le (vec_to_list b))) pre
    (pad_bytes (Z.of_nat n) pre ++ to_le n v) (v mod 2 ^ (Z.of_nat n * 8)).
Proof.
  intros Hn. rewrite <- from_le_to_le.
  pose proof (reads_ret _ (λ b, from_le (vec_to_list b)) _ _ _
    (reads_array n pre (to_le n v) Hn (len_to_le n v))) as H.
  cbv beta in H. rewrite list_vec_fill in H by apply length_le_split. exact H.
Qed.

Lemma reads_signed n w pre v : (0 < n)%nat → w = Z.of_nat n * 8 →
  - 2 ^ (w - 1) <= v < 2 ^ (w - 1) →
  reads (b ← XcdrDecoder.read_array n; mret (as_i w (from_le (vec_to_list b)))) pre
    (pad_bytes (Z.of_nat n) pre ++ to_le n v) v.
Proof.
  intros Hn -> Hv.
  pose proof (reads_ret _ (λ b, as_i (Z.of_nat n * 8) (from_le (vec_to_list b))) _ _ _
    (reads_array n pre (to_le n v) Hn (len_to_le n v))) as H.
  cbv beta in H. rewrite list_vec_fill in H by apply length_le_split.
  rewrite from_le_to_le, as_i_mod in H by (done || lia). exact H.
Qed.

Lemma reads_unsigned n pre v : (0 < n)%nat → 0 <= v < 2 ^ (Z.of_nat n * 8) →
  reads (b ← XcdrDecoder.read_array n; mret (from_le (vec_to_list b))) pre
    (pad_bytes (Z.of_nat n) pre ++ to_le n v) v.
Proof. intros Hn Hv. pose proof (reads_int n pre v Hn) as H. by rewrite Z.mod_small in H. Qed.

Lemma reads_u32 pre v : is_u32 v →
  reads XcdrDecoder.read_u32 pre (pad_bytes 4 pre ++ to_le 4 v) v.
Proof. intros Hv. apply (reads_unsigned 4); [lia|done]. Qed.

Lemma reads_string pre s : is_str s → len s < 4294967295 →
  reads XcdrDecoder.read_string pre
    ((pad_bytes 4 pre ++ to_le 4 (len s + 1)) ++ s ++ [x00]) s.
Proof.
  intros Hs Hl. unfold XcdrDecoder.read_string.
  eapply reads_bind; [apply reads_u32; len_tac|].
  rewrite (proj2 (Z.eqb_neq _ _)) by len_tac.
  apply reads_need; [len_tac|]. intros rest. set (q := pre ++ _).
  unfold sr_get, sr_lift, XcdrDecoder.advance, sr_modify.
  rewrite !sr_bind_eq. cbn [xd_buf xd_pos]. rewrite slice_ok by len_tac. sub_norm.
  rewrite sr_bind_eq, strip_nul_snoc, from_utf8_lossy_str by done. cbn.
  do 2 f_equal. len_tac.
Qed.

Lemma reads_bytes_seq pre b : len b < 4294967296 →
  reads XcdrDecoder.read_bytes_seq pre ((pad_bytes 4 pre ++ to_le 4 (len b)) ++ b) b.
Proof.
  intros Hl. unfold XcdrDecoder.read_bytes_seq.
  eapply reads_bind; [apply reads_u32; len_tac|].
  apply reads_need; [len_tac|]. intros rest. set (q := pre ++ _).
  unfold sr_get, sr_lift, XcdrDecoder.advance, sr_modify.
  rewrite !sr_bind_eq. cbn [xd_buf xd_pos]. rewrite slice_ok by len_tac. sub_norm.
  by rewrite sr_bind_eq.
Qed.

Lemma extend_extend a b e :
  XcdrEncoder.extend b (XcdrEncoder.extend a e) = XcdrEncoder.extend (a ++ b) e.
Proof. unfold XcdrEncoder.extend. simpl. by rewrite <- app_assoc. Qed.

Ltac write_tac :=
  cbn [write_value];
  unfold XcdrEncoder.write_i16, XcdrEncoder.write_u16, XcdrEncoder.write_i32,
    XcdrEncoder.write_u32, XcdrEncoder.write_i64, XcdrEncoder.write_u64,
    XcdrEncoder.write_f32, XcdrEncoder.write_f64, XcdrEncoder.write_string,
    XcdrEncoder.write_bytes_seq;
  cbv zeta; rewrite ?align_eq, ?extend_extend; reflexivity.

(** What comes back of a character, and of a value. *)
Definition narrow_char (v : Z) : Z := let b := v mod 256 in if b <? 128 then b else 65533.

Definition received (v : XValue) : XValue := match v with XChar c => XChar (narrow_char c) | _ => v end.

(** What a write appends, and that its reader consumes exactly that. *)
Lemma write_read_value v e : xvalue_wf v →
  ∃ s, write_value v e = XcdrEncoder.extend s e ∧ reads (read_value (kind_of v)) (xbuf e) s (received v).
Proof.
  intros Hv.
  destruct v; cbn [xvalue_wf] in Hv; eexists; (split; [write_tac|]);
    cbn [kind_of read_value received].
  - apply (reads_ret _ XBool). destruct v; [exact (reads_bool _ x01)|exact (reads_bool _ x00)].
  - apply (reads_ret _ XU8), reads_u8.
  - apply (reads_ret _ XI8).
    replace v with (as_i 8 (byte.unsigned (byte.of_Z v))) at 2.
    { apply (reads_ret _ (λ b, as_i 8 (byte.unsigned b))), reads_u8. }
    rewrite byte.unsigned_of_Z. by apply (as_i_mod 8).
  - apply (reads_ret _ XChar).
    assert (byte.unsigned (byte.of_Z v) = v mod 256) as Hb by (by rewrite byte.unsigned_of_Z).
    pose proof (reads_ret _ (λ b, if byte.unsigned b <? 128 then byte.unsigned b else 65533)
      _ _ _ (reads_u8 (xbuf e) (byte.of_Z v))) as H. cbv beta in H. by rewrite Hb in H.
  - apply (reads_ret _ XI16). rewrite <- (as_i_mod 16 v) at 2 by (done || lia).
    apply (reads_16 (as_i 16)).
  - apply (reads_ret _ XU16). rewrite <- (Z.mod_small v (2 ^ 16)) at 2 by done.
    apply (reads_16 id).
  - apply (reads_ret _ XI32). by apply (reads_signed 4 32); [lia|..].
  - apply (reads_ret _ XU32). by apply (reads_unsigned 4); [lia|..].
  - apply (reads_ret _ XI64). by apply (reads_signed 8 64); [lia|..].
  - apply (reads_ret _ XU64). by apply (reads_unsigned 8); [lia|..].
  - apply (reads_ret _ XF32), (reads_ret _ id). by apply (reads_unsigned 4); [lia|..].
  - apply (reads_ret _ XF64), (reads_ret _ id). by apply (reads_unsigned 8); [lia|..].
  - apply (reads_ret _ XString). destruct Hv as [Hs Hl]. cbn [xbuf].
    rewrite as_u_small by len_tac. pose proof (reads_string (xbuf e) s Hs Hl) as H.
    by rewrite <- !app_assoc in *.
  - apply (reads_ret _ XBytes). rewrite as_u_small by len_tac.
    pose proof (reads_bytes_seq (xbuf e) b Hv) as H. by rewrite <- !app_assoc in *.
Qed.

Lemma received_ascii vs : Forall xvalue_wf vs → (∀ c, XChar c ∈ vs → c < 128) → received <$> vs = vs.
Proof.
  intros Hvs Hc. rewrite <- (list_fmap_id vs) at 2. apply list_fmap_ext. intros i v Hv.
  apply (Forall_lookup_1 _ _ _ _ Hvs) in Hv as Hw. apply list_elem_of_lookup_2 in Hv.
  destruct v; try done. specialize (Hc _ Hv). cbn [xvalue_wf] in Hw. unfold is_char in Hw.
  cbn [received]. unfold narrow_char. rewrite Z.mod_small by lia. by ltb_true lia.
Qed.

Lemma write_read_values vs e : Forall xvalue_wf vs →
  ∃ s, write_values vs e = XcdrEncoder.extend s e
       ∧ reads (read_values (kind_of <$> vs)) (xbuf e) s (received <$> vs).
Proof.
  intros Hvs. revert e. induction Hvs as [|v vs Hv _ IH]; intros e.
  - exists []. split; [unfold XcdrEncoder.extend; rewrite app_nil_r; by destruct e|].
    intros rest. cbn. do 2 f_equal. len_tac.
  - destruct (write_read_value v e Hv) as (s1 & Hw & Hr).
    destruct (IH (write_value v e)) as (s2 & Hws & Hrs).
    exists (s1 ++ s2). split.
    + change (write_values (v :: vs) e) with (write_values vs (write_value v e)).
      by rewrite Hws, Hw, extend_extend.
    + cbn. eapply reads_bind; [exact Hr|]. apply (reads_ret _ (cons (received v))). by rewrite Hw in Hrs.
Qed.

Lemma xcdr_new_header : xbuf XcdrEncoder.new = to_le 2 CDR_LE ++ [x00; x00].
Proof. done. Qed.

(** C37. Round trip of the payload codec: the values written in any sequence -
    integers of their width, any characters, valid strings and byte sequences
    shorter than 4 GiB - are read back in that sequence, alignment padding
    included, and the cursor then stands exactly at the end of what was
    written.  A character travels as its low byte, and a byte above 127 is
    read as U+FFFD: the values come back unchanged when every character is
    ASCII. *)
Theorem xcdr_roundtrip vs rest : Forall xvalue_wf vs →
  let buf := XcdrEncoder.bytes (write_values vs XcdrEncoder.new) in
  ∃ d, XcdrDecoder.new (buf ++ rest) = Ok d ∧
    read_values (kind_of <$> vs) d = (Ok (received <$> vs), mkXcdrDecoder (buf ++ rest) (len buf)) ∧
    ((∀ c, XChar c ∈ vs → c < 128) → received <$> vs = vs).
Proof.
  intros Hvs buf. destruct (write_read_values vs XcdrEncoder.new Hvs) as (s & Hw & Hr).
  assert (buf = xbuf XcdrEncoder.new ++ s) as Hb by (unfold buf; by rewrite Hw).
  exists (mkXcdrDecoder (buf ++ rest) 4). rewrite Hb. split_and!.
  - unfold XcdrDecoder.new, ENCAP_HEADER_LEN. rewrite xcdr_new_header, <- !app_assoc.
    ltb_false len_tac. rewrite read_le_ok, bind_ok by len_tac. sub_norm. by rewrite from_le_u16.
  - specialize (Hr rest). rewrite <- app_assoc, len_app. exact Hr.
  - by apply received_ascii.
Qed.

(** ** Arbitrary input *)

(** A Hoare triple over the readers: no panic, and on success [Q]. *)
Definition safe {A} (P : XcdrDecoder → Prop) (m : reader A) (Q : A → XcdrDecoder → Prop) : Prop :=
  ∀ d, P d → match m d with
             | (Ok a, d') => Q a d'
             | (Err _, _) => True
             | (Panic, _) => False
             end.

Definition at_least (n : Z) (d : XcdrDecoder) : Prop :=
  0 <= xd_pos d ∧ xd_pos d + n <= len (xd_buf d).
Definition cursor_ok (d : XcdrDecoder) : Prop := 0 <= xd_pos d.

Lemma safe_bind {A B} P Q R (m : reader A) (f : A → reader B) :
  safe P m Q → (∀ a, safe (Q a) (f a) R) → safe P (m ≫= f) R.
Proof.
  intros Hm Hf d Hd. rewrite sr_bind_eq. specialize (Hm d Hd).
  destruct (m d) as [[a|e|] d']; [by apply Hf|done|done].
Qed.

Lemma safe_ret {A} P (a : A) (Q : A → XcdrDecoder → Prop) : (∀ d, P d → Q a d) → safe P (mret a) Q.
Proof. intros H d Hd. by apply H. Qed.

Lemma safe_align n : 0 < n → safe cursor_ok (XcdrDecoder.align n) (λ _, cursor_ok).
Proof.
  intros Hn [b p] Hp. unfold cursor_ok in *. simpl in *.
  pose proof (Z.mod_pos_bound (n - p mod n) n Hn). lia.
Qed.

Lemma safe_need n : 0 <= n → safe cursor_ok (XcdrDecoder.need n) (λ _, at_least n).
Proof.
  intros Hn [b p] Hp. unfold cursor_ok, at_least, XcdrDecoder.need in *. simpl in *.
  by destruct (Z.ltb_spec (len b) (p + n)).
Qed.

(** Reading [n] bytes at the cursor once they are known to be there. *)
Lemma safe_here {A B} n (g : XcdrDecoder → dres A) (f : A → B) :
  0 <= n → (∀ d, at_least n d → ∃ a, g d = Ok a) →
  safe (at_least n)
    (self ← sr_get; v ← sr_lift (g self); _ ← XcdrDecoder.advance n; mret (f v))
    (λ _, cursor_ok).
Proof.
  intros Hn Hg d Hd. destruct (Hg d Hd) as (a & Ha). destruct Hd as [H1 H2].
  unfold sr_get, sr_lift, XcdrDecoder.advance, sr_modify. rewrite !sr_bind_eq, Ha, !sr_bind_eq.
  unfold cursor_ok. simpl. lia.
Qed.

Lemma idx_here d : at_least 1 d → ∃ a, idx (E:=RtpsDecodeError) (xd_buf d) (xd_pos d) = Ok a.
Proof. intros [H1 H2]. destruct (idx_ok (E:=RtpsDecodeError) (xd_buf d) (xd_pos d)) as (x & ? & _); [lia|eauto]. Qed.

Lemma slice_here n d : 0 <= n → at_least n d →
  ∃ s, slice (E:=RtpsDecodeError) (xd_buf d) (xd_pos d) (xd_pos d + n) = Ok s ∧ len s = n.
Proof.
  intros Hn [H1 H2]. eexists. split; [apply slice_ok; lia|]. rewrite len_sub; lia.
Qed.

Lemma safe_read_u8 : safe cursor_ok XcdrDecoder.read_u8 (λ _, cursor_ok).
Proof.
  eapply safe_bind; [by apply safe_need|]. intros ?.
  apply (safe_here 1 _ id); [lia|apply idx_here].
Qed.

Lemma safe_read_bool : safe cursor_ok XcdrDecoder.read_bool (λ _, cursor_ok).
Proof.
  eapply safe_bind; [by apply safe_need|]. intros ?.
  apply (safe_here 1 _ (λ b, negb (bool_decide (b = x00)))); [lia|apply idx_here].
Qed.

Lemma safe_read_16 f :
  safe cursor_ok (XcdrDecoder.align 2 ≫= λ _, int_at 2 f) (λ _, cursor_ok).
Proof.
  eapply safe_bind; [by apply safe_align|]. intros ?.
  eapply safe_bind; [by apply (safe_need 2)|]. intros ?.
  apply (safe_here 2 _ f); [lia|]. intros d [H1 H2]. eexists. apply read_le_ok; simpl; lia.
Qed.

Lemma safe_array n : (0 < n)%nat → safe cursor_ok (XcdrDecoder.read_array n) (λ _, cursor_ok).
Proof.
  intros Hn. eapply safe_bind; [apply safe_align; lia|]. intros ?.
  eapply safe_bind; [apply safe_need; lia|]. intros ? d Hd.
  destruct (slice_here (Z.of_nat n) d) as (s & Hs & Hl); [lia|done|]. destruct Hd as [H1 H2].
  unfold sr_get, sr_lift, XcdrDecoder.advance, sr_modify.
  rewrite !sr_bind_eq, Hs, !sr_bind_eq, arr_of_ok by done.
  unfold cursor_ok. simpl. lia.
Qed.

Lemma safe_read_u32 : safe cursor_ok XcdrDecoder.read_u32 (λ n d, 0 <= n ∧ cursor_ok d).
Proof.
  eapply safe_bind; [by apply safe_array; lia|]. intros b d Hd. split; [apply from_le_range|done].
Qed.

Lemma safe_slice {B} n (f : list byte → B) : 0 <= n →
  safe cursor_ok
    (_ ← XcdrDecoder.need n; self ← sr_get;
     raw ← sr_lift (slice (xd_buf self) (xd_pos self) (xd_pos self + n));
     _ ← XcdrDecoder.advance n; mret (f raw)) (λ _, cursor_ok).
Proof.
  intros Hn. eapply safe_bind; [by apply safe_need|]. intros ?. apply (safe_here n _ f); [done|].
  intros d Hd. destruct (slice_here n d Hn Hd) as (s & -> & _). eauto.
Qed.

Lemma safe_read_value k : safe cursor_ok (read_value k) (λ _, cursor_ok).
Proof.
  assert (∀ A B (m : reader A) (f : A → B),
    safe cursor_ok m (λ _, cursor_ok) → safe cursor_ok (v ← m; mret (f v)) (λ _, cursor_ok)) as Hf.
  { intros A B m f Hm. eapply safe_bind; [exact Hm|]. intros a. by apply safe_ret. }
  assert (safe cursor_ok XcdrDecoder.read_u32 (λ _, cursor_ok)) as H32.
  { apply (Hf _ _ _ (λ b, from_le (vec_to_list b))). apply safe_array. lia. }
  assert (safe cursor_ok XcdrDecoder.read_u64 (λ _, cursor_ok)) as H64.
  { apply (Hf _ _ _ (λ b, from_le (vec_to_list b))). apply safe_array. lia. }
  destruct k; cbn [read_value].
  - apply (Hf _ _ _ XBool), safe_read_bool.
  - apply (Hf _ _ _ XU8), safe_read_u8.
  - apply (Hf _ _ _ XI8), (Hf _ _ _ (λ b, as_i 8 (byte.unsigned b))), safe_read_u8.
  - apply (Hf _ _ _ XChar), (Hf _ _ _ (λ b, if byte.unsigned b <? 128 then byte.unsigned b else 65533)), safe_read_u8.
  - apply (Hf _ _ _ XI16), (safe_read_16 (as_i 16)).
  - apply (Hf _ _ _ XU16), (safe_read_16 id).
  - apply (Hf _ _ _ XI32), (Hf _ _ _ (λ b, as_i 32 (from_le (vec_to_list b)))), safe_array. lia.
  - apply (Hf _ _ _ XU32), H32.
  - apply (Hf _ _ _ XI64), (Hf _ _ _ (λ b, as_i 64 (from_le (vec_to_list b)))), safe_array. lia.
  - apply (Hf _ _ _ XU64), H64.
  - apply (Hf _ _ _ XF32), (Hf _ _ _ id), H32.
  - apply (Hf _ _ _ XF64), (Hf _ _ _ id), H64.
  - apply (Hf _ _ _ XString). eapply safe_bind; [apply safe_read_u32|]. intros n.
    destruct (n =? 0); [by apply safe_ret; intros d [_ ?]|].
    intros d [Hn Hd]. exact (safe_slice n (λ raw, from_utf8_lossy (strip_nul raw)) Hn d Hd).
  - apply (Hf _ _ _ XBytes). eapply safe_bind; [apply safe_read_u32|]. intros n d [Hn Hd].
    exact (safe_slice n id Hn d Hd).
Qed.

Lemma safe_read_values ks : safe cursor_ok (read_values ks) (λ _, cursor_ok).
Proof.
  induction ks as [|k ks IH]; [by apply safe_ret|].
  eapply safe_bind; [apply safe_read_value|]. intros v.
  eapply safe_bind; [apply IH|]. intros vs. by apply safe_ret.
Qed.

(** No input makes any sequence of reads panic. *)
Theorem xcdr_readers_never_panic buf ks d :
  XcdrDecoder.new buf = Ok d → no_panic (read_values ks d).1.
Proof.
  unfold XcdrDecoder.new. destruct (len buf <? _); [done|].
  intros (s & _ & H)%bind_ok_inv. destruct (_ && _); [done|]. injection H as <-.
  pose proof (safe_read_values ks (mkXcdrDecoder buf ENCAP_HEADER_LEN)) as Hs.
  destruct (read_values ks _) as [[] d']; simpl; try done. by apply Hs.
Qed.

(** [remaining] subtracts the cursor from the length without a check: it is
    the number of unread bytes while the cursor is inside the buffer, but a
    failed aligned read leaves the cursor past the end, and then the method
    panics in a checked build and wraps in a release build. *)
Theorem xcdr_remaining `{BuildProfile} d :
  cursor_ok d → is_u64 (xd_pos d) →
  XcdrDecoder.remaining d =
    if xd_pos d <=? len (xd_buf d) then Ok (len (xd_buf d) - xd_pos d)
    else if overflow_checks then Panic else Ok (2 ^ 64 + len (xd_buf d) - xd_pos d).
Proof.
  intros Hc Hu. unfold XcdrDecoder.remaining, usub. destruct (Z.leb_spec (xd_pos d) (len (xd_buf d))); [done|].
  destruct overflow_checks; [done|]. f_equal. unfold as_u.
  rewrite <- (Z_mod_plus_full _ 1), Z.mod_small; [lia|]. unfold is_u64, cursor_ok in *. len_tac.
Qed.

(** ** Concrete instances *)

Lemma xcdr_roundtrip_witness :
  let vs := [XU8 x01; XU64 258; XString [x68; x69]; XI16 (-2); XBytes [x00; xff]; XBool true; XChar 233;
             XChar 321] in
  let buf := XcdrEncoder.bytes (write_values vs XcdrEncoder.new) in
  ∃ d, XcdrDecoder.new (buf ++ [x00]) = Ok d ∧
    read_values (kind_of <$> vs) d
    = (Ok [XU8 x01; XU64 258; XString [x68; x69]; XI16 (-2); XBytes [x00; xff]; XBool true; XChar 65533;
           XChar 65], mkXcdrDecoder (buf ++ [x00]) (len buf)).
Proof.
  intros vs buf. destruct (xcdr_roundtrip vs [x00]) as (d & H1 & H2 & _).
  - repeat (apply Forall_cons; split); try apply Forall_nil; simpl; try exact I;
      unfold is_u64, is_char; try lia; split; vm_compute; reflexivity.
  - exists d. split; [exact H1|exact H2].
Defined.

Lemma xcdr_readers_never_panic_witness :
  no_panic (read_values [KU8; KU64] (mkXcdrDecoder [x01; x00; x00; x00; x07] 4)).1.
Proof. apply (xcdr_readers_never_panic [x01; x00; x00; x00; x07]). vm_compute. reflexivity. Defined.

(** After a read that failed past the end, [remaining] underflows. *)
Lemma xcdr_remaining_witness :
  let d := (XcdrDecoder.read_u32 (mkXcdrDecoder [x01; x00; x00; x00; x07] 5)).2 in
  xd_pos d = 8 ∧ XcdrDecoder.remaining (H:=true) d = Panic.
Proof.
  split; [vm_compute; reflexivity|].
  rewrite (@xcdr_remaining true); [vm_compute; reflexivity| |].
  - vm_compute. discriminate.
  - vm_compute. split; [discriminate|reflexivity].
Defined.
