(* ===== verification/Fragment.v ===== *)
(** * Fragment: DATA_FRAG encoding, splitting and reassembly
    (src/rtps/fragment.rs)

    Time is the number of nanoseconds of the monotonic clock; it is an
    argument of [receive].  The mutex around the buffers serialises calls,
    so a call is one step of the state. *)

From S2P Require Import Prelude Codec Guid Locator Message.

Definition MAX_FRAGMENT_PAYLOAD : Z := 1200.
Definition MAX_REASSEMBLY_BYTES : Z := 16 * 1024 * 1024.
Definition STALE_FRAG_AGE : Z := 5 * 1000000000.
Definition SUBMSG_DATA_FRAG : byte := x16.

Record DataFrag : Type := mkDataFrag {
  df_writer_entity_id : EntityId;
  df_reader_entity_id : EntityId;
  writer_seq_num : SequenceNumber;
  fragment_starting_num : Z;
  fragments_in_submsg : Z;
  fragment_size : Z;
  data_size : Z;
  df_payload : list byte }.

#[global] Instance DataFrag_eq_dec : EqDecision DataFrag.
Proof. solve_decision. Defined.

Definition encode_data_frag (f : DataFrag) : list byte :=
  let body := [] ++ to_le 2 0 in
  let body := body ++ to_le 2 0 in
  let body := encode (df_reader_entity_id f) body in
  let body := encode (df_writer_entity_id f) body in
  let body := encode (writer_seq_num f) body in
  let body := body ++ to_le 4 (fragment_starting_num f) in
  let body := body ++ to_le 2 (fragments_in_submsg f) in
  let body := body ++ to_le 2 (fragment_size f) in
  let body := body ++ to_le 4 (data_size f) in
  let body := body ++ df_payload f in
  finish_submessage SUBMSG_DATA_FRAG FLAG_ENDIANNESS body.

Definition decode_data_frag (body : list byte) : dres DataFrag :=
  if len body <? 32 then Err (Truncated 32 (len body))
  else
    s1 ← slice body 4 8; reader ← decode EntityId s1;
    s2 ← slice body 8 12; writer ← decode EntityId s2;
    s3 ← slice body 12 20; sn ← decode SequenceNumber s3;
    starting_num ← read_le 4 body 20;
    in_submsg ← read_le 2 body 24;
    size ← read_le 2 body 26;
    dsize ← read_le 4 body 28;
    payload ← slice_from body 32;
    Ok (mkDataFrag writer reader sn starting_num in_submsg size dsize payload).

(** ** Reassembly *)

Record FragKey : Type := mkFragKey { fk_writer : EntityId; seq_lo : Z }.

#[global] Instance FragKey_eq_dec : EqDecision FragKey.
Proof. solve_decision. Defined.
#[global] Instance FragKey_countable : Countable FragKey.
Proof.
  refine (inj_countable' (λ k, (fk_writer k, seq_lo k)) (λ p, mkFragKey p.1 p.2) _).
  by intros [].
Defined.

Record FragBuffer : Type := mkFragBuffer {
  fb_data : list byte;
  received : Z;
  received_indices : gset Z;
  fb_total : Z;
  created : Z }.

Record FragmentAssembler : Type := mkFragmentAssembler { buffers : gmap FragKey FragBuffer }.

(** [data[a..b].copy_from_slice(src)] *)
Definition copy_into {E} (data : list byte) (a b : Z) (src : list byte) : res E (list byte) :=
  if (0 <=? a) && (a <=? b) && (b <=? len data) && (len src =? b - a)
  then Ok (take (Z.to_nat a) data ++ src ++ drop (Z.to_nat b) data)
  else Panic.

(** [u32::div_ceil] *)
Definition div_ceil (a b : Z) : Z :=
  if a mod b =? 0 then a / b else a / b + 1.

Module FragmentAssembler.
Definition new : FragmentAssembler := mkFragmentAssembler ∅.

(** The [for i in 0..f.fragments_in_submsg] loop, [n] iterations left. *)
Fixpoint receive_loop (f : DataFrag) (n : nat) (i : Z) (fb : FragBuffer)
    : res Empty_set FragBuffer :=
  match n with
  | O => Ok fb
  | S n =>
      let frag_idx := as_u 32 (fragment_starting_num f - 1) in
      let idx := as_u 32 (frag_idx + i) in
      let offset := as_u 32 (idx * fragment_size f) in
      if data_size f <=? offset then Ok fb
      else if bool_decide (idx ∈ received_indices fb) then receive_loop f n (i + 1) fb
      else
        let frag_start := i * fragment_size f in
        let payload_len := as_u 32 (len (df_payload f)) in
        let frag_end := Z.min (frag_start + fragment_size f) payload_len in
        if frag_end <? frag_start then receive_loop f n (i + 1) fb
        else
          let end_ := Z.min (offset + (frag_end - frag_start)) (data_size f) in
          src ← slice (df_payload f) frag_start frag_end;
          data ← copy_into (fb_data fb) offset end_ src;
          receive_loop f n (i + 1)
            (mkFragBuffer data (received fb + 1) ({[idx]} ∪ received_indices fb)
               (fb_total fb) (created fb))
  end.

(** [buffers.retain(..)] *)
Definition retain_fresh (now : Z) (bufs : gmap FragKey FragBuffer) : gmap FragKey FragBuffer :=
  filter (λ kb, now - created kb.2 <= STALE_FRAG_AGE) bufs.

Definition key_of (f : DataFrag) : FragKey :=
  mkFragKey (df_writer_entity_id f) (low (writer_seq_num f)).

Definition receive (now : Z) (f : DataFrag) (self : FragmentAssembler)
    : res Empty_set (option (list byte) * FragmentAssembler) :=
  if (fragment_size f =? 0) || (data_size f =? 0) || (fragments_in_submsg f =? 0)
  then Ok (None, self)
  else if MAX_REASSEMBLY_BYTES <? data_size f then Ok (None, self)
  else
    let total := div_ceil (data_size f) (fragment_size f) in
    let key := key_of f in
    let bufs := retain_fresh now (buffers self) in
    let fb := default (mkFragBuffer (replicate (Z.to_nat (data_size f)) x00) 0 ∅ total now)
                (bufs !! key) in
    fb ← receive_loop f (Z.to_nat (fragments_in_submsg f)) 0 fb;
    if fb_total fb <=? received fb
    then Ok (Some (fb_data fb), mkFragmentAssembler (delete key bufs))
    else Ok (None, mkFragmentAssembler (<[key := fb]> bufs)).
End FragmentAssembler.

(** ** Splitting *)

Fixpoint split_loop `{BuildProfile} (fuel : nat) (writer_eid : EntityId) (seq_num : SequenceNumber)
    (payload : list byte) (size offset frag_num : Z) : res OutOfFuel (list DataFrag) :=
  match fuel with
  | O => Err out_of_fuel
  | S fuel =>
      let total := len payload in
      if offset <? total then
        let end_ := Z.min (offset + size) total in
        chunk ← slice payload offset end_;
        let frag := mkDataFrag writer_eid ENTITYID_UNKNOWN seq_num frag_num 1 size
                      (as_u 32 total) chunk in
        frag_num ← uadd 32 frag_num 1;
        frags ← split_loop fuel writer_eid seq_num payload size end_ frag_num;
        Ok (frag :: frags)
      else Ok []
  end.

Definition split_into_fragments_n `{BuildProfile} (fuel : nat) (writer_eid : EntityId)
    (seq_num : SequenceNumber) (payload : list byte) (max_payload_size : Z)
    : res OutOfFuel (list DataFrag) :=
  let max_payload_size :=
    if max_payload_size =? 0 then MAX_FRAGMENT_PAYLOAD else max_payload_size in
  let size := as_u 16 max_payload_size in
  split_loop fuel writer_eid seq_num payload size 0 1.

Definition split_into_fragments `{BuildProfile} (fuel : nat) (writer_eid : EntityId)
    (seq_num : SequenceNumber) (payload : list byte) : res OutOfFuel (list DataFrag) :=
  split_into_fragments_n fuel writer_eid seq_num payload MAX_FRAGMENT_PAYLOAD.

(** ** Wire format *)

Definition data_frag_wf (f : DataFrag) : Prop :=
  SequenceNumber.wf (writer_seq_num f) ∧ is_u32 (fragment_starting_num f)
  ∧ is_u16 (fragments_in_submsg f) ∧ is_u16 (fragment_size f) ∧ is_u32 (data_size f).

Definition data_frag_body (f : DataFrag) : list byte :=
  to_le 2 0 ++ to_le 2 0 ++ bytes_of (df_reader_entity_id f) ++ bytes_of (df_writer_entity_id f)
  ++ bytes_of (writer_seq_num f) ++ to_le 4 (fragment_starting_num f)
  ++ to_le 2 (fragments_in_submsg f) ++ to_le 2 (fragment_size f) ++ to_le 4 (data_size f)
  ++ df_payload f.

Lemma encode_data_frag_eq f :
  encode_data_frag f = raw_bytes (mkRawSubmessage SUBMSG_DATA_FRAG FLAG_ENDIANNESS (data_frag_body f)).
Proof.
  unfold encode_data_frag, data_frag_body, raw_bytes. autorewrite with codec.
  by rewrite <- !app_assoc.
Qed.

Lemma decode_data_frag_body f : data_frag_wf f → decode_data_frag (data_frag_body f) = Ok f.
Proof.
  destruct f as [w r sn st n sz ds p]. intros (Hsn & Hst & Hn & Hsz & Hds). 
  cbn [writer_seq_num fragment_starting_num fragments_in_submsg fragment_size data_size] in *.
  unfold decode_data_frag, data_frag_body.
  cbn [df_reader_entity_id df_writer_entity_id writer_seq_num fragment_starting_num
       fragments_in_submsg fragment_size data_size df_payload].
  ltb_false len_tac. repeat (decode_step; sub_norm). simpl (drop _ _).
  by rewrite !from_le_u32, !from_le_u16.
Qed.

Lemma len_data_frag_body f : len (data_frag_body f) = 32 + len (df_payload f).
Proof. unfold data_frag_body. len_tac. Qed.

Lemma decode_data_frag_no_panic body : no_panic (decode_data_frag body).
Proof.
  unfold decode_data_frag. destruct (_ <? 32) eqn:H32; [done|]. apply Z.ltb_ge in H32.
  no_panic_tac.
Qed.

(** ** Malformed fragments *)

(** A single-fragment submessage of a new stream panics exactly when it
    carries more bytes than the declared data size leaves room for. *)
Theorem receive_panics_on_oversized_fragment now f asm :
  data_frag_wf f → fragments_in_submsg f = 1 → 1 <= fragment_starting_num f →
  0 < fragment_size f → data_size f <= MAX_REASSEMBLY_BYTES →
  (fragment_starting_num f - 1) * fragment_size f < data_size f → len (df_payload f) < 2 ^ 32 →
  FragmentAssembler.retain_fresh now (buffers asm) !! FragmentAssembler.key_of f = None →
  FragmentAssembler.receive now f asm = Panic ↔
  data_size f - (fragment_starting_num f - 1) * fragment_size f
    < Z.min (fragment_size f) (len (df_payload f)).
Proof.
  intros (_ & Hst & _ & Hsz & Hds) Hn H1 Hs Hmax Hoff Hp Hk.
  unfold is_u32, is_u16, MAX_REASSEMBLY_BYTES in *. pose proof (len_nonneg (df_payload f)).
  unfold FragmentAssembler.receive. rewrite Hn, Hk.
  rewrite !(proj2 (Z.eqb_neq _ _)) by nia. cbn [orb]. ltb_false ltac:(unfold MAX_REASSEMBLY_BYTES; lia).
  simpl default. change (Z.to_nat 1) with 1%nat. cbn [FragmentAssembler.receive_loop received_indices].
  rewrite (as_u_small 32 (fragment_starting_num f - 1)), Z.add_0_r by lia.
  rewrite (as_u_small 32 (fragment_starting_num f - 1)) by lia.
  set (off := (fragment_starting_num f - 1) * fragment_size f) in *.
  rewrite (as_u_small 32 off) by nia. rewrite (proj2 (Z.leb_gt _ _)) by lia.
  rewrite bool_decide_false by set_solver. rewrite Z.mul_0_l, Z.add_0_l, (as_u_small 32 (len _)) by lia.
  ltb_false lia. rewrite Z.sub_0_r, slice_ok, bind_ok by lia. rewrite Z.sub_0_r. unfold copy_into.
  cbn [fb_data]. rewrite len_replicate, len_sub by lia.
  set (c := Z.min (fragment_size f) (len (df_payload f))).
  rewrite (proj2 (Z.leb_le 0 off)), (proj2 (Z.leb_le off _)), (proj2 (Z.leb_le _ (Z.of_nat _))) by nia.
  cbn [andb]. destruct (Z.eqb_spec c (Z.min (off + c) (data_size f) - off)).
  - rewrite bind_ok, bind_ok. split; [by destruct (_ <=? _)|lia].
  - rewrite bind_panic. split; [lia|done].
Qed.

Lemma receive_panics_on_oversized_fragment_witness :
  FragmentAssembler.receive 0
    (mkDataFrag ENTITYID_UNKNOWN ENTITYID_UNKNOWN (mkSequenceNumber 0 1) 1 1 4 3 [x01; x02; x03; x04])
    FragmentAssembler.new = Panic.
Proof.
  apply (proj2 (receive_panics_on_oversized_fragment 0
    (mkDataFrag ENTITYID_UNKNOWN ENTITYID_UNKNOWN (mkSequenceNumber 0 1) 1 1 4 3 [x01; x02; x03; x04])
    FragmentAssembler.new ltac:(repeat split; vm_compute; congruence) eq_refl
    ltac:(vm_compute; congruence) ltac:(vm_compute; congruence) ltac:(vm_compute; congruence)
    ltac:(vm_compute; congruence) ltac:(vm_compute; congruence) ltac:(vm_compute; reflexivity))).
  vm_compute. reflexivity.
Defined.
