(* ===== verification/Reassembly.v ===== *)
(** * Reassembly: fragments travel (src/rtps/fragment.rs)

    An abstract collector remembers which fragment indices of each stream it
    has seen.  The assembler refines it on genuine fragments, in any order
    and with any duplication and interleaving, so a payload is delivered
    exactly when its last missing fragment arrives. *)

From S2P Require Import Prelude Codec Guid Locator Message Fragment.

(** ** Streams *)

Record Stream : Type := mkStream {
  st_writer : EntityId;
  st_sn : SequenceNumber;
  st_payload : list byte;
  st_size : Z }.

Definition stream_wf (st : Stream) : Prop :=
  SequenceNumber.wf (st_sn st) ∧ 0 < st_size st < 65536
  ∧ 0 < len (st_payload st) <= MAX_REASSEMBLY_BYTES.

Definition stream_key (st : Stream) : FragKey := mkFragKey (st_writer st) (low (st_sn st)).

Definition nfrags (st : Stream) : Z := div_ceil (len (st_payload st)) (st_size st).

(** The bytes of fragment [i] and the fragment itself. *)
Definition chunk (st : Stream) (i : Z) : list byte :=
  sub (st_payload st) (i * st_size st)
      (Z.min (st_size st) (len (st_payload st) - i * st_size st)).

Definition frag_at (st : Stream) (i : Z) : DataFrag :=
  mkDataFrag (st_writer st) ENTITYID_UNKNOWN (st_sn st) (i + 1) 1 (st_size st)
    (len (st_payload st)) (chunk st i).

Lemma div_ceil_lt a b i : 0 < b → 0 <= a → 0 <= i → i < div_ceil a b ↔ i * b < a.
Proof.
  intros Hb Ha Hi. unfold div_ceil. pose proof (Z.div_mod a b). pose proof (Z.mod_pos_bound a b).
  destruct (Z.eqb_spec (a mod b) 0); split; intros; nia.
Qed.

Lemma div_ceil_nonneg a b : 0 < b → 0 <= a → 0 <= div_ceil a b.
Proof.
  intros Hb Ha. unfold div_ceil. pose proof (Z.div_pos a b). destruct (_ =? 0); lia.
Qed.

Section stream.
Context (st : Stream) (Hst : stream_wf st).

Lemma frag_lt i : 0 <= i → i < nfrags st ↔ i * st_size st < len (st_payload st).
Proof using Hst. intros. apply div_ceil_lt; [apply Hst|apply len_nonneg|done]. Qed.

Lemma nfrags_pos : 0 < nfrags st.
Proof using Hst. apply frag_lt; [lia|]. apply Hst. Qed.

Lemma len_chunk i : 0 <= i < nfrags st →
  len (chunk st i) = Z.min (st_size st) (len (st_payload st) - i * st_size st)
  ∧ 0 < len (chunk st i).
Proof using Hst.
  intros Hi. pose proof (proj1 (frag_lt i ltac:(lia))) as Hlt.
  destruct Hst as (_ & Hs & _). unfold chunk. rewrite len_sub by nia. lia.
Qed.

Lemma nfrags_bound : nfrags st <= len (st_payload st).
Proof using Hst.
  pose proof nfrags_pos. pose proof (proj1 (frag_lt (nfrags st - 1) ltac:(lia))) as Hlt.
  destruct Hst as (_ & Hs & _). nia.
Qed.
End stream.

(** ** Splitting yields the fragments of the stream, in order *)

Section split.
Context `{BuildProfile}.
Context (st : Stream) (Hst : stream_wf st).

Lemma split_loop_spec fuel i : 0 <= i <= nfrags st → nfrags st - i < Z.of_nat fuel →
  split_loop fuel (st_writer st) (st_sn st) (st_payload st) (st_size st)
    (Z.min (i * st_size st) (len (st_payload st))) (i + 1)
  = Ok (frag_at st <$> seqZ i (nfrags st - i)).
Proof using Hst.
  revert i. induction fuel as [|fuel IH]; intros i Hi Hf; [lia|].
  cbn [split_loop]. pose proof (nfrags_bound st Hst) as Hb.
  destruct (Z.eq_dec i (nfrags st)) as [->|Hne].
  { assert (¬ nfrags st * st_size st < len (st_payload st)) as Hn.
    { rewrite <- (frag_lt st Hst) by lia. lia. }
    rewrite (proj2 (Z.ltb_ge _ _)) by lia. by rewrite Z.sub_diag, seqZ_nil. }
  pose proof (proj1 (frag_lt st Hst i ltac:(lia)) ltac:(lia)) as Hlt.
  rewrite (Z.min_l (i * st_size st)) by lia.
  ltb_true lia. destruct Hst as (Hsn & Hs & Hl). unfold MAX_REASSEMBLY_BYTES in Hl.
  rewrite slice_ok, bind_ok by nia.
  unfold uadd. ltb_true lia. rewrite bind_ok.
  replace (i * st_size st + st_size st) with ((i + 1) * st_size st) by lia.
  rewrite IH, bind_ok by lia.
  rewrite (seqZ_cons i) by lia. rewrite fmap_cons.
  replace (Z.succ i) with (i + 1) by lia.
  replace (Z.pred (nfrags st - i)) with (nfrags st - (i + 1)) by lia.
  do 2 f_equal. unfold frag_at, chunk. f_equal; [apply as_u_small; lia|].
  f_equal. lia.
Qed.
End split.

(** Splitting returns, and returns the fragments of the stream in order,
    unless the fragment size is a multiple of 65536: then the 16-bit cast
    makes it zero and the loop does not end on a nonempty payload. *)
Theorem split_into_fragments_spec `{BuildProfile} w sn p max :
  SequenceNumber.wf sn → 0 < len p <= MAX_REASSEMBLY_BYTES → 0 <= max →
  let size := as_u 16 (if max =? 0 then MAX_FRAGMENT_PAYLOAD else max) in
  (size ≠ 0 → ∀ fuel, len p < Z.of_nat fuel →
     split_into_fragments_n fuel w sn p max
     = Ok (frag_at (mkStream w sn p size) <$> seqZ 0 (nfrags (mkStream w sn p size))))
  ∧ (size = 0 → ∀ fuel, ∃ e, split_into_fragments_n fuel w sn p max = e ∧ ∀ frags, e ≠ Ok frags).
Proof.
  intros Hsn Hp Hmax size. assert (0 <= size < 65536) as Hs by (apply (as_u_range 16); lia).
  unfold split_into_fragments_n. fold size. split.
  - intros Hne fuel Hf. set (st := mkStream w sn p size).
    assert (stream_wf st) as Hst by (split_and!; simpl; (done || lia)).
    pose proof (nfrags_bound st Hst) as Hb. pose proof (nfrags_pos st Hst). simpl in Hb.
    pose proof (split_loop_spec st Hst fuel 0 ltac:(lia) ltac:(lia)) as Hl.
    rewrite Z.sub_0_r in Hl. simpl in Hl. rewrite Z.min_l in Hl by lia. exact Hl.
  - intros -> fuel. eexists. split; [reflexivity|]. generalize 1.
    induction fuel as [|fuel IH]; intros n frags; [done|]. cbn [split_loop].
    ltb_true lia. replace (Z.min (0 + 0) (len p)) with 0 by lia.
    rewrite slice_ok, bind_ok by lia. intros (m & _ & H1)%bind_ok_inv.
    apply bind_ok_inv in H1 as (fs & H1 & _). by apply (IH m fs).
Qed.

(** ** One call of [receive] *)

(** A buffer of stream [st]: what it claims to have received is there. *)
Definition buffer_ok (st : Stream) (fb : FragBuffer) : Prop :=
  len (fb_data fb) = len (st_payload st) ∧
  received fb = Z.of_nat (size (received_indices fb)) ∧
  fb_total fb = nfrags st ∧
  ∀ i, i ∈ received_indices fb →
    0 <= i < nfrags st ∧ sub (fb_data fb) (i * st_size st) (len (chunk st i)) = chunk st i.

Definition empty_buffer (st : Stream) (now : Z) : FragBuffer :=
  mkFragBuffer (replicate (Z.to_nat (len (st_payload st))) x00) 0 ∅ (nfrags st) now.

Lemma empty_buffer_ok st now : buffer_ok st (empty_buffer st now).
Proof.
  split_and!; simpl; [|done|done|set_solver].
  rewrite len_replicate. pose proof (len_nonneg (st_payload st)). lia.
Qed.

(** The effect of fragment [i] on the buffer. *)
Definition fill (st : Stream) (i : Z) (fb : FragBuffer) : FragBuffer :=
  if bool_decide (i ∈ received_indices fb) then fb
  else mkFragBuffer
         (take (Z.to_nat (i * st_size st)) (fb_data fb) ++ chunk st i
          ++ drop (Z.to_nat (i * st_size st + len (chunk st i))) (fb_data fb))
         (received fb + 1) ({[i]} ∪ received_indices fb) (fb_total fb) (created fb).

Section receive.
Context (st : Stream) (Hst : stream_wf st) (i : Z) (Hi : 0 <= i < nfrags st).

Lemma receive_loop_frag fb : buffer_ok st fb →
  FragmentAssembler.receive_loop (frag_at st i) 1 0 fb = Ok (fill st i fb).
Proof using Hst Hi.
  intros (Hd & _ & _ & _). pose proof (nfrags_bound st Hst).
  pose proof (proj1 (frag_lt st Hst i ltac:(lia)) ltac:(lia)) as Hlt.
  destruct (len_chunk st Hst i Hi) as [Hc Hc0]. destruct Hst as (_ & Hs & Hl).
  unfold MAX_REASSEMBLY_BYTES in Hl. cbn [FragmentAssembler.receive_loop].
  unfold frag_at. cbn [fragment_starting_num fragment_size data_size df_payload].
  rewrite Z.add_simpl_r, (as_u_small 32 i), Z.add_0_r, (as_u_small 32 i) by lia.
  rewrite (as_u_small 32 (i * st_size st)) by nia.
  rewrite (proj2 (Z.leb_gt _ _)) by lia. unfold fill. case_bool_decide; [done|].
  rewrite Z.mul_0_l, Z.add_0_l, as_u_small, Z.min_r by lia.
  ltb_false lia. rewrite Z.sub_0_r, Z.min_l by lia.
  rewrite slice_ok, bind_ok by lia. rewrite sub_all by lia. unfold copy_into.
  rewrite !(proj2 (Z.leb_le _ _)), (proj2 (Z.eqb_eq _ _)) by nia. done.
Qed.

Lemma sub_before (l : list byte) a b (src : list byte) c n :
  0 <= c → 0 <= n → c + n <= a → a <= len l →
  sub (take (Z.to_nat a) l ++ src ++ drop (Z.to_nat b) l) c n = sub l c n.
Proof.
  intros. rewrite sub_app_l by len_tac. unfold sub. rewrite skipn_firstn_comm, take_take.
  f_equal. lia.
Qed.

Lemma sub_after (l : list byte) a b (src : list byte) c n :
  0 <= a → a <= b → b <= len l → len src = b - a → b <= c → 0 <= n →
  sub (take (Z.to_nat a) l ++ src ++ drop (Z.to_nat b) l) c n = sub l c n.
Proof.
  intros. rewrite !sub_app_skip by len_tac. unfold sub. rewrite drop_drop. do 2 f_equal.
  autorewrite with len. lia.
Qed.

Lemma fill_ok fb : buffer_ok st fb → buffer_ok st (fill st i fb).
Proof using Hst Hi.
  intros (Hd & Hr & Ht & Hin). unfold fill. case_bool_decide as Hni; [done|].
  pose proof (proj1 (frag_lt st Hst i ltac:(lia)) ltac:(lia)) as Hlt.
  destruct (len_chunk st Hst i Hi) as [Hc Hc0]. pose proof Hst as (_ & Hs & Hl).
  split_and!; cbn [fb_data received received_indices fb_total]; [|..|done|].
  - autorewrite with len. nia.
  - rewrite Hr, size_union by by apply disjoint_singleton_l. rewrite size_singleton. lia.
  - intros j Hj. rewrite elem_of_union, elem_of_singleton in Hj.
    destruct Hj as [Hj|Hj].
    { rewrite Hj. split; [done|]. rewrite sub_app_skip by (autorewrite with len; nia).
      apply sub_app_here; autorewrite with len; nia. }
    destruct (Hin j Hj) as [Hjr Hjs]. split; [done|]. rewrite <- Hjs at 2.
    destruct (len_chunk st Hst j Hjr) as [Hcj Hcj0]. pose proof (proj1 (frag_lt st Hst j ltac:(lia)) ltac:(lia)).
    assert (j ≠ i) by congruence.
    destruct (Z.lt_ge_cases j i).
    + apply sub_before; nia.
    + apply sub_after; nia.
Qed.
End receive.

(** A buffer that has every fragment holds the payload. *)
Lemma buffer_complete st fb : stream_wf st → buffer_ok st fb → nfrags st <= received fb →
  fb_data fb = st_payload st.
Proof.
  intros Hst (Hd & Hr & Ht & Hin) Hn. pose proof (nfrags_pos st Hst).
  assert (received_indices fb = list_to_set (seqZ 0 (nfrags st))) as Hall.
  { apply set_subseteq_size_eq.
    - intros j Hj. apply elem_of_list_to_set, elem_of_seqZ. destruct (Hin j Hj). lia.
    - rewrite size_list_to_set by apply NoDup_seqZ. rewrite length_seqZ. lia. }
  apply list_eq. intros n. destruct (decide (n < length (fb_data fb))%nat) as [Hlt|Hge].
  2:{ rewrite !lookup_ge_None_2; [done| |]; unfold len in *; lia. }
  pose proof Hst as (_ & Hs & _). set (j := Z.of_nat n / st_size st).
  pose proof (Z.div_mod (Z.of_nat n) (st_size st)). pose proof (Z.mod_pos_bound (Z.of_nat n) (st_size st)).
  assert (0 <= j) as Hj0 by (apply Z.div_pos; lia).
  assert (j < nfrags st) as Hjn by (apply frag_lt; [done|done|]; unfold len in *; lia).
  destruct (Hin j) as [_ Hsub].
  { rewrite Hall. apply elem_of_list_to_set, elem_of_seqZ. lia. }
  destruct (len_chunk st Hst j ltac:(lia)) as [Hc _].
  apply (f_equal (λ l, l !! (n - Z.to_nat (j * st_size st))%nat)) in Hsub. revert Hsub.
  rewrite Hc. unfold chunk, sub. rewrite !lookup_take_lt by (unfold len in *; nia).
  rewrite !lookup_drop. by replace (Z.to_nat (j * st_size st) + (n - Z.to_nat (j * st_size st)))%nat with n by nia.
Qed.

(** ** Refinement to an abstract collector *)

(** What a collector knows of a stream: the indices it has seen and when the
    first of them arrived. *)
Notation Collector := (gmap FragKey (gset Z * Z)).

Definition collect_step (st : Stream) (now i : Z) (A : Collector)
    : option (list byte) * Collector :=
  let A := filter (λ kS, now - kS.2.2 <= STALE_FRAG_AGE) A in
  let k := stream_key st in
  let '(seen, t0) := default (∅, now) (A !! k) in
  let seen := {[i]} ∪ seen in
  if nfrags st <=? Z.of_nat (size seen) then (Some (st_payload st), delete k A)
  else (None, <[k := (seen, t0)]> A).

Definition abstract (asm : FragmentAssembler) : Collector :=
  (λ fb, (received_indices fb, created fb)) <$> buffers asm.

Section refinement.
(** The streams in flight: every fragment on the wire belongs to the stream
    that owns its key. *)
Context (T : FragKey → option Stream).
Context (T_key : ∀ k st, T k = Some st → stream_key st = k ∧ stream_wf st).

Definition asm_ok (asm : FragmentAssembler) : Prop :=
  map_Forall (λ k fb, ∃ st, T k = Some st ∧ buffer_ok st fb) (buffers asm).

Lemma asm_ok_retain now asm : asm_ok asm →
  map_Forall (λ k fb, ∃ st, T k = Some st ∧ buffer_ok st fb)
    (FragmentAssembler.retain_fresh now (buffers asm)).
Proof using Type. intros H k fb Hk%map_lookup_filter_Some_1_1. by apply (H k). Qed.

Lemma abstract_retain now asm :
  (λ fb, (received_indices fb, created fb))
    <$> FragmentAssembler.retain_fresh now (buffers asm)
  = filter (λ kS, now - kS.2.2 <= STALE_FRAG_AGE) (abstract asm).
Proof using Type.
  apply map_eq. intros k. unfold abstract, FragmentAssembler.retain_fresh.
  rewrite lookup_fmap, !map_lookup_filter, lookup_fmap. 
  destruct (buffers asm !! k) as [fb|]; [|done]. simpl. by repeat case_guard.
Qed.

Lemma fill_abstract st i fb :
  received_indices (fill st i fb) = {[i]} ∪ received_indices fb
  ∧ created (fill st i fb) = created fb.
Proof using Type.
  unfold fill. case_bool_decide; [|done]. split; [|done].
  rewrite subseteq_union_1_L; [done|]. by apply singleton_subseteq_l.
Qed.

Lemma receive_refines asm st now i :
  asm_ok asm → T (stream_key st) = Some st → 0 <= i < nfrags st →
  ∃ out asm', FragmentAssembler.receive now (frag_at st i) asm = Ok (out, asm')
    ∧ asm_ok asm' ∧ collect_step st now i (abstract asm) = (out, abstract asm').
Proof using T_key.
  intros Hasm HT Hi. destruct (T_key _ _ HT) as [_ Hst].
  pose proof Hst as (_ & Hs & Hl). set (bufs := FragmentAssembler.retain_fresh now (buffers asm)).
  set (fb := default (empty_buffer st now) (bufs !! stream_key st)).
  assert (buffer_ok st fb) as Hfb.
  { unfold fb. destruct (bufs !! stream_key st) as [fb'|] eqn:Hk; [|apply empty_buffer_ok].
    destruct (asm_ok_retain now asm Hasm _ _ Hk) as (st' & HT' & Hok). simplify_eq. done. }
  pose proof (fill_ok st Hst i Hi fb Hfb) as Hfill.
  destruct (fill_abstract st i fb) as [Hidx Hcr]. pose proof Hfill as (_ & Hrec & Htot & _).
  assert (default (∅, now) (filter (λ kS : FragKey * (gset Z * Z), now - kS.2.2 <= STALE_FRAG_AGE) (abstract asm) !! stream_key st)
          = (received_indices fb, created fb)) as Hdef.
  { rewrite <- abstract_retain, lookup_fmap. fold bufs. unfold fb.
    by destruct (bufs !! stream_key st). }
  unfold collect_step. rewrite Hdef, <- Hidx, <- Hcr, <- Hrec.
  unfold FragmentAssembler.receive. cbn [frag_at fragment_size data_size fragments_in_submsg].
  rewrite !(proj2 (Z.eqb_neq _ _)) by lia. cbn [orb]. ltb_false lia.
  change (FragmentAssembler.key_of (frag_at st i)) with (stream_key st).
  change (mkFragBuffer (replicate _ x00) 0 ∅ (div_ceil _ _) now) with (empty_buffer st now).
  fold bufs. fold fb. change (Z.to_nat 1) with 1%nat. rewrite (receive_loop_frag st Hst i Hi fb Hfb), bind_ok, Htot.
  destruct (Z.leb_spec (nfrags st) (received (fill st i fb))) as [Hle|Hgt].
  - do 2 eexists. split; [done|]. split.
    + apply map_Forall_delete. by apply asm_ok_retain.
    + rewrite (buffer_complete st) by done. f_equal. unfold abstract at 2. simpl.
      rewrite fmap_delete. unfold bufs. by rewrite abstract_retain.
  - do 2 eexists. split; [done|]. split.
    + apply map_Forall_insert_2; [eauto|]. by apply asm_ok_retain.
    + f_equal. unfold abstract at 2. simpl. rewrite fmap_insert. unfold bufs. by rewrite abstract_retain.
Qed.
End refinement.

(** ** Traces *)

Record Arrival : Type := mkArrival { at_time : Z; of_stream : Stream; index : Z }.

(** The assembler fed with the fragments of a list of arrivals. *)
Fixpoint deliver (evs : list Arrival) (asm : FragmentAssembler)
    : res Empty_set (list (option (list byte)) * FragmentAssembler) :=
  match evs with
  | [] => Ok ([], asm)
  | e :: evs =>
      r ← FragmentAssembler.receive (at_time e) (frag_at (of_stream e) (index e)) asm;
      let '(out, asm) := r in
      rs ← deliver evs asm;
      let '(outs, asm) := rs in
      Ok (out :: outs, asm)
  end.

Fixpoint collect_run (evs : list Arrival) (A : Collector) : list (option (list byte)) * Collector :=
  match evs with
  | [] => ([], A)
  | e :: evs =>
      let '(out, A) := collect_step (of_stream e) (at_time e) (index e) A in
      let '(outs, A) := collect_run evs A in
      (out :: outs, A)
  end.

Definition arrival_ok (T : FragKey → option Stream) (e : Arrival) : Prop :=
  T (stream_key (of_stream e)) = Some (of_stream e) ∧ 0 <= index e < nfrags (of_stream e).

Lemma deliver_refines T evs asm :
  (∀ k st, T k = Some st → stream_key st = k ∧ stream_wf st) →
  asm_ok T asm → Forall (arrival_ok T) evs →
  ∃ outs asm', deliver evs asm = Ok (outs, asm') ∧ asm_ok T asm'
    ∧ collect_run evs (abstract asm) = (outs, abstract asm').
Proof.
  intros HT Hasm Hevs. revert asm Hasm. induction Hevs as [|e evs [He Hi] _ IH]; intros asm Hasm.
  - by exists [], asm.
  - destruct (receive_refines T HT asm (of_stream e) (at_time e) (index e) Hasm He Hi)
      as (out & asm1 & Hr & Hok & Hc).
    destruct (IH asm1 Hok) as (outs & asm2 & Hd & Hok2 & Hc2).
    exists (out :: outs), asm2. simpl. rewrite Hr, bind_ok, Hd, bind_ok, Hc, Hc2. done.
Qed.

(** C5. On genuine fragments, whatever their order, repetition, interleaving and
    timing, the assembler is the abstract collector: it never panics, it
    delivers a payload exactly when the collector has seen every index, and
    what it delivers is the payload of the stream. *)
Theorem reassembly_refines_collector T evs asm :
  (∀ k st, T k = Some st → stream_key st = k ∧ stream_wf st) →
  asm_ok T asm → Forall (arrival_ok T) evs →
  ∃ outs asm', deliver evs asm = Ok (outs, asm') ∧ asm_ok T asm'
    ∧ collect_run evs (abstract asm) = (outs, abstract asm').
Proof. apply deliver_refines. Qed.

(** The indices of one stream in a list of arrivals. *)
Definition seen_of (k : FragKey) (evs : list Arrival) : gset Z :=
  list_to_set (index <$> filter (λ e, stream_key (of_stream e) = k) evs).

Section collector.
Context (st : Stream) (t0 : Z).

Definition in_progress (A : Collector) (seen : gset Z) : Prop :=
  match A !! stream_key st with
  | None => seen = ∅
  | Some (s, t) => s = seen ∧ t0 <= t
  end.

Lemma in_progress_fresh A seen now : now <= t0 + STALE_FRAG_AGE → in_progress A seen →
  in_progress (filter (λ kS : FragKey * (gset Z * Z), now - kS.2.2 <= STALE_FRAG_AGE) A) seen.
Proof using Type.
  intros Hnow. unfold in_progress. rewrite map_lookup_filter.
  destruct (A !! stream_key st) as [[s t]|]; [|done]. simpl. intros [-> Ht].
  by rewrite option_guard_True by (simpl; lia).
Qed.

Lemma collect_step_other A seen st' now i : stream_key st' ≠ stream_key st →
  now <= t0 + STALE_FRAG_AGE → in_progress A seen →
  in_progress (collect_step st' now i A).2 seen.
Proof using Type.
  intros Hk Hnow HA%(in_progress_fresh _ _ now); [|done]. unfold collect_step.
  destruct (default _ _) as [s t]. unfold in_progress in *.
  destruct (_ <=? _); simpl; [rewrite lookup_delete_ne by done|rewrite lookup_insert_ne by done];
    exact HA.
Qed.

Lemma collect_step_own A seen now i : t0 <= now <= t0 + STALE_FRAG_AGE → in_progress A seen →
  if nfrags st <=? Z.of_nat (size ({[i]} ∪ seen))
  then (collect_step st now i A).1 = Some (st_payload st)
       ∧ (collect_step st now i A).2 !! stream_key st = None
  else (collect_step st now i A).1 = None
       ∧ in_progress (collect_step st now i A).2 ({[i]} ∪ seen).
Proof using Type.
  intros Hnow HA%(in_progress_fresh _ _ now); [|lia]. unfold collect_step.
  unfold in_progress in HA. set (A' := filter _ A) in *.
  destruct (A' !! stream_key st) as [[s t]|] eqn:Hk; simpl.
  - destruct HA as [-> Ht]. destruct (_ <=? _); simpl; [by rewrite lookup_delete_eq|].
    split; [done|]. unfold in_progress. by rewrite lookup_insert_eq.
  - subst seen. destruct (_ <=? _); simpl; [by rewrite lookup_delete_eq|].
    split; [done|]. unfold in_progress. rewrite lookup_insert_eq. split; [done|lia].
Qed.

Lemma collect_run_pending evs A seen :
  Forall (λ e, t0 <= at_time e <= t0 + STALE_FRAG_AGE ∧
               (stream_key (of_stream e) = stream_key st → of_stream e = st)) evs →
  (Z.of_nat (size (seen_of (stream_key st) evs ∪ seen)) < nfrags st) →
  in_progress A seen →
  in_progress (collect_run evs A).2 (seen_of (stream_key st) evs ∪ seen)
  ∧ ∀ j e, evs !! j = Some e → stream_key (of_stream e) = stream_key st →
      (collect_run evs A).1 !! j = Some None.
Proof using Type.
  intros Hevs. revert A seen. induction Hevs as [|e evs [Ht He] _ IH]; intros A seen Hsz HA.
  { simpl. split; [|done]. unfold seen_of. simpl. by rewrite union_empty_l_L. }
  cbn [collect_run]. destruct (collect_step _ _ _ A) as [out A'] eqn:Hc.
  destruct (decide (stream_key (of_stream e) = stream_key st)) as [Hk|Hk].
  - assert (seen_of (stream_key st) (e :: evs) ∪ seen
            = seen_of (stream_key st) evs ∪ ({[index e]} ∪ seen)) as Hs.
    { unfold seen_of. rewrite filter_cons_True by done. simpl.
      by rewrite (comm_L (∪) {[index e]}), <- (assoc_L (∪)). }
    rewrite Hs in *. rewrite (He Hk) in Hc. pose proof (collect_step_own A seen (at_time e) (index e) Ht HA) as Hown.
    rewrite Hc in Hown. simpl in Hown.
    assert (size ({[index e]} ∪ seen) <= size (seen_of (stream_key st) evs ∪ ({[index e]} ∪ seen)))%nat
      by (apply subseteq_size, union_subseteq_r).
    rewrite (proj2 (Z.leb_gt _ _)) in Hown by lia. destruct Hown as [-> HA'].
    destruct (IH A' _ Hsz HA') as [H1 H2]. destruct (collect_run evs A') as [outs A''].
    split; [done|]. intros [|j] e' Hj Hk'; [done|]. by apply (H2 j e').
  - assert (seen_of (stream_key st) (e :: evs) = seen_of (stream_key st) evs) as Hs.
    { unfold seen_of. by rewrite filter_cons_False by done. }
    rewrite Hs in *. pose proof (collect_step_other A seen (of_stream e) (at_time e) (index e) Hk ltac:(lia) HA) as HA'.
    rewrite Hc in HA'. simpl in HA'. destruct (IH A' _ Hsz HA') as [H1 H2].
    destruct (collect_run evs A') as [outs A'']. split; [done|].
    intros [|j] e' Hj Hk'; simpl in Hj; [congruence|]. by apply (H2 j e').
Qed.
End collector.

Lemma collect_run_snoc evs e A :
  collect_run (evs ++ [e]) A =
  let '(outs, A1) := collect_run evs A in
  let '(out, A2) := collect_step (of_stream e) (at_time e) (index e) A1 in
  (outs ++ [out], A2).
Proof.
  revert A. induction evs as [|e' evs IH]; intros A; simpl.
  - by destruct (collect_step _ _ _ _).
  - destruct (collect_step _ _ _ A) as [o A']. rewrite IH.
    destruct (collect_run evs A') as [outs A1]. by destruct (collect_step _ _ _ A1).
Qed.

(** ** One key at a time *)

(** [b] came from [a] by handling fragments of key [k]: under any other key
    it holds what [a] held, unless that was dropped as stale. *)
Definition beside (k : FragKey) (a b : FragmentAssembler) : Prop :=
  ∀ k', k' ≠ k → buffers b !! k' = buffers a !! k' ∨ buffers b !! k' = None.

Lemma beside_refl k a : beside k a a.
Proof. by left. Qed.

Lemma beside_trans k a b c : beside k a b → beside k b c → beside k a c.
Proof. intros H1 H2 k' Hk. destruct (H1 k' Hk), (H2 k' Hk); (left; congruence) || (right; congruence). Qed.

Lemma beside_absent k k' a b : beside k a b → k' ≠ k → buffers a !! k' = None → buffers b !! k' = None.
Proof. intros H Hk Ha. destruct (H k' Hk); congruence. Qed.

Lemma retain_fresh_lookup now bufs k :
  FragmentAssembler.retain_fresh now bufs !! k =
  fb ← bufs !! k; guard (now - created fb <= STALE_FRAG_AGE);; Some fb.
Proof.
  unfold FragmentAssembler.retain_fresh. rewrite map_lookup_filter.
  destruct (bufs !! k) as [fb|]; [|done]. simpl. by repeat case_guard.
Qed.

(** What a fragment does depends on the buffer of its own key alone. *)
Lemma receive_local now f a b out a' :
  let k := FragmentAssembler.key_of f in
  buffers a !! k = buffers b !! k → FragmentAssembler.receive now f a = Ok (out, a') →
  ∃ b', FragmentAssembler.receive now f b = Ok (out, b') ∧
    buffers a' !! k = buffers b' !! k ∧ beside k b b'.
Proof.
  intros k Hk Ha. unfold FragmentAssembler.receive in *.
  destruct (_ || _); [injection Ha as <- <-; exists b; split_and!; [done..|apply beside_refl]|].
  destruct (_ <? _); [injection Ha as <- <-; exists b; split_and!; [done..|apply beside_refl]|].
  fold k in Ha. fold k.
  assert (FragmentAssembler.retain_fresh now (buffers a) !! k
          = FragmentAssembler.retain_fresh now (buffers b) !! k) as Hr by by rewrite !retain_fresh_lookup, Hk.
  rewrite Hr in Ha. apply bind_ok_inv in Ha as (fb & -> & Ha). rewrite bind_ok.
  assert (∀ k', FragmentAssembler.retain_fresh now (buffers b) !! k' = buffers b !! k'
                ∨ FragmentAssembler.retain_fresh now (buffers b) !! k' = None) as Hf.
  { intros k'. rewrite retain_fresh_lookup. destruct (buffers b !! k') as [fb'|]; [|by left].
    simpl. case_guard; [by left|by right]. }
  destruct (_ <=? _); injection Ha as <- <-; eexists; (split; [done|]); simpl.
  - rewrite !lookup_delete_eq. split; [done|]. intros k' Hne. simpl. by rewrite lookup_delete_ne by done.
  - rewrite !lookup_insert_eq. split; [done|]. intros k' Hne. simpl. by rewrite lookup_insert_ne by done.
Qed.

Lemma deliver_local k evs a b outs a' :
  Forall (λ e, stream_key (of_stream e) = k) evs → buffers a !! k = buffers b !! k →
  deliver evs a = Ok (outs, a') →
  ∃ b', deliver evs b = Ok (outs, b') ∧ buffers a' !! k = buffers b' !! k ∧ beside k b b'.
Proof.
  intros Hevs. revert a b outs. induction Hevs as [|e evs He _ IH]; intros a b outs Hk; cbn [deliver].
  { intros [= <- <-]. exists b. split_and!; [done..|apply beside_refl]. }
  intros ([out a1] & Hr & Hd)%bind_ok_inv. cbv iota beta in Hd.
  apply bind_ok_inv in Hd as ([os a2] & Hd & [= <- <-]).
  assert (FragmentAssembler.key_of (frag_at (of_stream e) (index e)) = k) as Hke by done.
  destruct (receive_local _ _ a b out a1 ltac:(by rewrite Hke) Hr) as (b1 & Hr1 & Hk1 & Hb1).
  rewrite Hke in Hk1, Hb1. destruct (IH a1 b1 os Hk1 Hd) as (b2 & Hd2 & Hk2 & Hb2).
  exists b2. rewrite Hr1, bind_ok, Hd2, bind_ok. split_and!; [done..|by eapply beside_trans].
Qed.

Lemma deliver_completes T evs now i st asm t0 :
  (∀ k st, T k = Some st → stream_key st = k ∧ stream_wf st) →
  asm_ok T asm → buffers asm !! stream_key st = None →
  T (stream_key st) = Some st → Forall (arrival_ok T) evs → 0 <= i < nfrags st →
  Forall (λ e, t0 <= at_time e <= t0 + STALE_FRAG_AGE) evs → t0 <= now <= t0 + STALE_FRAG_AGE →
  (∀ j, j ∈ seen_of (stream_key st) evs ↔ 0 <= j < nfrags st ∧ j ≠ i) →
  ∃ outs asm', deliver (evs ++ [mkArrival now st i]) asm = Ok (outs ++ [Some (st_payload st)], asm')
    ∧ buffers asm' !! stream_key st = None
    ∧ ∀ j e, evs !! j = Some e → stream_key (of_stream e) = stream_key st → outs !! j = Some None.
Proof.
  intros HT Hasm Hnone Hst Hevs Hi Ht Hnow Hseen. destruct (HT _ _ Hst) as [_ Hwf].
  destruct (deliver_refines T (evs ++ [mkArrival now st i]) asm HT Hasm)
    as (outs & asm' & Hd & _ & Hc).
  { apply Forall_app. split; [done|]. by constructor. }
  rewrite collect_run_snoc in Hc.
  assert (seen_of (stream_key st) evs = list_to_set (seqZ 0 (nfrags st)) ∖ {[i]}) as Hs.
  { apply set_eq. intros j. rewrite Hseen, elem_of_difference, elem_of_list_to_set, elem_of_seqZ,
      elem_of_singleton. lia. }
  assert ({[i]} ∪ seen_of (stream_key st) evs = list_to_set (seqZ 0 (nfrags st))) as Hfull.
  { apply set_eq. intros j. rewrite elem_of_union, Hseen, elem_of_list_to_set, elem_of_seqZ,
      elem_of_singleton. lia. }
  assert (size (list_to_set (seqZ 0 (nfrags st)) : gset Z) = Z.to_nat (nfrags st)) as Hsize.
  { by rewrite size_list_to_set, length_seqZ by apply NoDup_seqZ. }
  destruct (collect_run_pending st t0 evs (abstract asm) ∅) as [Hp Ho].
  - apply Forall_forall. intros e He. rewrite Forall_forall in Ht, Hevs. split; [by apply Ht|].
    intros Hk. destruct (Hevs e He) as [HTe _]. rewrite Hk in HTe. congruence.
  - rewrite union_empty_r_L, Hs, size_difference, size_singleton, Hsize by
      (apply singleton_subseteq_l, elem_of_list_to_set, elem_of_seqZ; lia). lia.
  - unfold in_progress, abstract. by rewrite lookup_fmap, Hnone.
  - rewrite union_empty_r_L in Hp. destruct (collect_run evs (abstract asm)) as [outs1 A1]. simpl in *.
    pose proof (collect_step_own st t0 A1 _ now i Hnow Hp) as Hown.
    rewrite Hfull, Hsize, Z2Nat.id, Z.leb_refl in Hown by lia.
    destruct (collect_step st now i A1) as [out A2]. simpl in *. destruct Hown as [-> Hk].
    injection Hc as <- ->. exists outs1, asm'. split_and!; [done| |done].
    unfold abstract in Hk. rewrite lookup_fmap in Hk. by destruct (buffers asm' !! stream_key st).
Qed.

(** A stream alone on the wire completes whatever other streams left behind
    in the assembler. *)
Lemma deliver_completes_alone evs now i st asm t0 :
  stream_wf st → buffers asm !! stream_key st = None → 0 <= i < nfrags st →
  Forall (λ e, of_stream e = st ∧ 0 <= index e < nfrags st ∧ t0 <= at_time e <= t0 + STALE_FRAG_AGE) evs →
  t0 <= now <= t0 + STALE_FRAG_AGE →
  (∀ j, j ∈ seen_of (stream_key st) evs ↔ 0 <= j < nfrags st ∧ j ≠ i) →
  ∃ outs asm', deliver (evs ++ [mkArrival now st i]) asm = Ok (outs ++ [Some (st_payload st)], asm')
    ∧ buffers asm' !! stream_key st = None ∧ beside (stream_key st) asm asm'
    ∧ ∀ j, is_Some (evs !! j) → outs !! j = Some None.
Proof.
  intros Hst Hk Hi Hevs Hnow Hseen. set (T := λ k, if decide (k = stream_key st) then Some st else None).
  assert (T (stream_key st) = Some st) as HT by (unfold T; by rewrite decide_True).
  destruct (deliver_completes T evs now i st FragmentAssembler.new t0) as (outs & asm1 & Hd & Hn & Ho); try done.
  - intros k st'. unfold T. case_decide; [|done]. by intros [= <-].
  - eapply Forall_impl; [exact Hevs|]. intros e (He & Hi' & _). unfold arrival_ok. by rewrite He.
  - eapply Forall_impl; [exact Hevs|]. by intros e (_ & _ & He).
  - apply (deliver_local (stream_key st) _ _ asm) in Hd as (asm' & Hd & Hk' & Hb); [|..].
    + exists outs, asm'. split_and!; [done|congruence|done|]. intros j [e He].
      apply (Ho j e He). apply (Forall_lookup_1 _ _ _ _ Hevs) in He as [He _]. by rewrite He.
    + apply Forall_app. split; [|by constructor]. eapply Forall_impl; [exact Hevs|]. intros e [He _]. simpl. by rewrite He.
    + done.
Qed.

(** C35. Delivery: when the arrivals of a stream cover every index but one, and
    the missing one then arrives, all within five seconds, that arrival
    delivers the payload, no earlier one delivered anything, and the buffer
    is gone - whatever other streams do in between. *)
Theorem reassembly_delivers T evs now i st asm t0 :
  (∀ k st, T k = Some st → stream_key st = k ∧ stream_wf st) →
  asm_ok T asm → buffers asm !! stream_key st = None →
  T (stream_key st) = Some st → Forall (arrival_ok T) evs → 0 <= i < nfrags st →
  Forall (λ e, t0 <= at_time e <= t0 + STALE_FRAG_AGE) evs → t0 <= now <= t0 + STALE_FRAG_AGE →
  (∀ j, j ∈ seen_of (stream_key st) evs ↔ 0 <= j < nfrags st ∧ j ≠ i) →
  ∃ outs asm', deliver (evs ++ [mkArrival now st i]) asm = Ok (outs ++ [Some (st_payload st)], asm')
    ∧ buffers asm' !! stream_key st = None
    ∧ ∀ j e, evs !! j = Some e → stream_key (of_stream e) = stream_key st → outs !! j = Some None.
Proof. apply deliver_completes. Qed.

(** ** Concrete instances *)

Definition demo_stream : Stream :=
  mkStream ENTITYID_UNKNOWN (mkSequenceNumber 0 1) [x01; x02; x03] 2.
Definition demo_streams (k : FragKey) : option Stream :=
  if decide (k = stream_key demo_stream) then Some demo_stream else None.

Lemma demo_streams_ok k st : demo_streams k = Some st → stream_key st = k ∧ stream_wf st.
Proof.
  unfold demo_streams. case_decide as Hk; [|discriminate]. intros [= <-]. split; [done|].
  repeat split; vm_compute; congruence.
Qed.

Lemma split_into_fragments_spec_witness :
  split_into_fragments_n (H:=true) 10 ENTITYID_UNKNOWN (mkSequenceNumber 0 1) [x01; x02; x03] 2
  = Ok [frag_at demo_stream 0; frag_at demo_stream 1].
Proof.
  destruct (@split_into_fragments_spec true ENTITYID_UNKNOWN (mkSequenceNumber 0 1)
    [x01; x02; x03] 2) as [H _].
  - repeat split; vm_compute; congruence.
  - split; vm_compute; congruence.
  - lia.
  - apply (H ltac:(vm_compute; congruence) 10%nat). vm_compute. reflexivity.
Defined.

Lemma reassembly_refines_collector_witness :
  ∃ outs asm', deliver [mkArrival 5 demo_stream 1; mkArrival 6 demo_stream 0] FragmentAssembler.new
                 = Ok (outs, asm') ∧
    asm_ok demo_streams asm' ∧
    collect_run [mkArrival 5 demo_stream 1; mkArrival 6 demo_stream 0]
      (abstract FragmentAssembler.new) = (outs, abstract asm').
Proof.
  apply reassembly_refines_collector.
  - apply demo_streams_ok.
  - apply map_Forall_empty.
  - repeat (apply Forall_cons; split); try (apply Forall_nil; exact I);
      repeat split; vm_compute; congruence.
Defined.

Lemma reassembly_delivers_witness :
  ∃ outs asm', deliver ([mkArrival 5 demo_stream 1] ++ [mkArrival 6 demo_stream 0])
                 FragmentAssembler.new = Ok (outs ++ [Some [x01; x02; x03]], asm') ∧
    buffers asm' !! stream_key demo_stream = None.
Proof.
  destruct (reassembly_delivers demo_streams [mkArrival 5 demo_stream 1] 6 0 demo_stream
    FragmentAssembler.new 5) as (outs & asm' & H1 & H2 & _).
  - apply demo_streams_ok.
  - apply map_Forall_empty.
  - reflexivity.
  - unfold demo_streams. by rewrite decide_True.
  - apply Forall_cons; split; [|apply Forall_nil; exact I]. repeat split; vm_compute; congruence.
  - split; vm_compute; congruence.
  - apply Forall_cons; split; [|apply Forall_nil; exact I]. split; vm_compute; congruence.
  - split; vm_compute; congruence.
  - intros j. change (nfrags demo_stream) with 2.
    replace (seen_of (stream_key demo_stream) [mkArrival 5 demo_stream 1]) with ({[1]} : gset Z)
      by (vm_compute; reflexivity).
    rewrite elem_of_singleton. lia.
  - exists outs, asm'. split; assumption.
Defined.
