(* ===== verification/Reliable.v ===== *)
(** * Reliable: send history and receive tracker (src/rtps/reliable.rs)

    A call holds the mutex for its whole body, so it is one step of the
    state.  The two counters are separate atomics. *)

From S2P Require Import Prelude.

Definition HEARTBEAT_PERIOD : Z := 200 * 1000000.
Definition MAX_HISTORY_DEPTH : Z := 256.
Definition MAX_REORDER_AHEAD : Z := 8192.

Section reliable.
Context `{BuildProfile}.

(** ** SendHistory *)

Record SendHistory : Type := mkSendHistory {
  sh_msg : list (option (list byte));
  sh_sn : list Z;
  highest : Z;
  lowest : Z;
  any : bool;
  hb_count : Z }.

Definition SendHistory_new : SendHistory :=
  let depth := Z.to_nat MAX_HISTORY_DEPTH in
  mkSendHistory (replicate depth None) (replicate depth 0) 0 0 false 0.

Definition SendHistory_store (seq : Z) (msg : list byte) (self : SendHistory)
    : res Empty_set SendHistory :=
  let depth := MAX_HISTORY_DEPTH in
  let i := seq mod depth in
  msgs ← set_idx (sh_msg self) i (Some msg);
  sns ← set_idx (sh_sn self) i seq;
  let '(lo, hi) := if negb (any self) then (seq, seq) else (lowest self, highest self) in
  let hi := if hi <? seq then seq else hi in
  let lo :=
    if depth <=? hi then
      let lb := hi - depth + 1 in if lo <? lb then lb else lo
    else lo in
  Ok (mkSendHistory msgs sns hi lo true (hb_count self)).

Definition SendHistory_get (seq : Z) (self : SendHistory) : res Empty_set (option (list byte)) :=
  let depth := MAX_HISTORY_DEPTH in
  if negb (any self) || (seq <? lowest self) || (highest self <? seq) then Ok None
  else
    let i := seq mod depth in
    sn ← idx (sh_sn self) i;
    if negb (sn =? seq) then Ok None else idx (sh_msg self) i.

Definition SendHistory_first_last (self : SendHistory) : option (Z * Z) :=
  if negb (any self) then None else Some (lowest self, highest self).

Definition SendHistory_next_hb_count (self : SendHistory) : res Empty_set (Z * SendHistory) :=
  let old := hb_count self in
  count ← sadd 32 old 1;
  Ok (count, mkSendHistory (sh_msg self) (sh_sn self) (highest self) (lowest self) (any self)
               (as_i 32 (old + 1))).

(** ** RecvTracker *)

Record RecvTracker : Type := mkRecvTracker {
  expected : Z;
  ahead : gset Z;
  init_done : bool;
  ack_count : Z }.

Definition RecvTracker_new : RecvTracker := mkRecvTracker 0 ∅ false 0.

Definition RecvTracker_init_expected (first_sn : Z) (self : RecvTracker) : RecvTracker :=
  if negb (init_done self) then mkRecvTracker first_sn (ahead self) true (ack_count self)
  else self.

(** The [loop] that advances the watermark; every round removes an element
    of [ahead], so its size is enough fuel. *)
Fixpoint advance_loop (fuel : nat) (expected : Z) (ahead : gset Z) : res Empty_set (Z * gset Z) :=
  match fuel with
  | O => Ok (expected, ahead)
  | S fuel =>
      if bool_decide (expected ∈ ahead) then
        expected' ← uadd 64 expected 1;
        advance_loop fuel expected' (ahead ∖ {[expected]})
      else Ok (expected, ahead)
  end.

Definition RecvTracker_record (seq : Z) (self : RecvTracker) : res Empty_set (bool * RecvTracker) :=
  let self := RecvTracker_init_expected seq self in
  if seq <? expected self then Ok (false, self)
  else if seq =? expected self then
    e ← uadd 64 (expected self) 1;
    r ← advance_loop (S (size (ahead self))) e (ahead self);
    let '(e, a) := r in
    Ok (true, mkRecvTracker e a (init_done self) (ack_count self))
  else if bool_decide (seq ∈ ahead self) then Ok (false, self)
  else
    let a := if seq - expected self <=? MAX_REORDER_AHEAD then {[seq]} ∪ ahead self else ahead self in
    Ok (true, mkRecvTracker (expected self) a (init_done self) (ack_count self)).

(** The [while sn <= end] loop of [missing]. *)
Fixpoint missing_loop (fuel : nat) (base end_ sn : Z) (ahead : gset Z) (bitmap : Z) (need : bool)
    : runs (Z * bool) :=
  match fuel with
  | O => Err out_of_fuel
  | S fuel =>
      if sn <=? end_ then
        r ← (if negb (bool_decide (sn ∈ ahead)) then
               d ← usub 64 sn base;
               bit ← ushl 32 1 d;
               Ok (Z.lor bitmap bit, true)
             else Ok (bitmap, need));
        let '(bitmap, need) := (r : Z * bool) in
        sn ← uadd 64 sn 1;
        missing_loop fuel base end_ sn ahead bitmap need
      else Ok (bitmap, need)
  end.

(** At most 32 sequence numbers are scanned, unless the scan reaches
    [u64::MAX]; see [missing_never_returns]. *)
Definition RecvTracker_missing (last_sn : Z) (self : RecvTracker) : runs (Z * Z * bool) :=
  if negb (init_done self) then Ok (0, 0, false)
  else
    let base := expected self in
    if last_sn <? base then Ok (base, 0, false)
    else
      lim ← uadd 64 base 31;
      let end_ := if lim <? last_sn then lim else last_sn in
      r ← missing_loop 33 base end_ base (ahead self) 0 false;
      let '(bitmap, need_ack) := r in
      Ok (base, bitmap, need_ack).

Definition RecvTracker_next_ack_count (self : RecvTracker) : res Empty_set (Z * RecvTracker) :=
  let old := ack_count self in
  count ← sadd 32 old 1;
  Ok (count, mkRecvTracker (expected self) (ahead self) (init_done self) (as_i 32 (old + 1))).

(** ** SendHistory implements the window of the last 256 messages *)

(** Store [ms] under [first], [first + 1], ... *)
Definition store_all (first : Z) (ms : list (list byte)) (h : SendHistory) : res Empty_set SendHistory :=
  foldl (λ r im, h ← r; SendHistory_store (first + Z.of_nat im.1) im.2 h) (Ok h)
    (zip (seq 0 (length ms)) ms).

(** The ring after the messages [ms] with numbers [first..]. *)
Definition window (first : Z) (ms : list (list byte)) (h : SendHistory) : Prop :=
  let hi := first + len ms - 1 in
  let lo := Z.max first (hi - MAX_HISTORY_DEPTH + 1) in
  len (sh_msg h) = MAX_HISTORY_DEPTH ∧ len (sh_sn h) = MAX_HISTORY_DEPTH ∧
  any h = true ∧ highest h = hi ∧ lowest h = lo ∧
  ∀ s m, lo <= s → ms !! Z.to_nat (s - first) = Some m → first <= s →
    sh_sn h !! Z.to_nat (s mod MAX_HISTORY_DEPTH) = Some s ∧
    sh_msg h !! Z.to_nat (s mod MAX_HISTORY_DEPTH) = Some (Some m).

Lemma set_idx_ok {E A} (l : list A) i x : 0 <= i < len l →
  set_idx (E:=E) l i x = Ok (<[Z.to_nat i := x]> l).
Proof. intros. unfold set_idx. by rewrite (proj2 (Z.leb_le _ _)), (proj2 (Z.ltb_lt _ _)) by lia. Qed.

Lemma store_first first m : 0 <= first → ∃ h,
  SendHistory_store first m SendHistory_new = Ok h ∧ window first [m] h.
Proof using Type.
  intros Hf. unfold SendHistory_store. pose proof (Z.mod_pos_bound first MAX_HISTORY_DEPTH eq_refl).
  assert (len (sh_msg SendHistory_new) = 256) as Hlm by done.
  assert (len (sh_sn SendHistory_new) = 256) as Hls by done.
  unfold MAX_HISTORY_DEPTH in *.
  rewrite !set_idx_ok, !bind_ok by lia.
  cbn [any SendHistory_new negb]. rewrite Z.ltb_irrefl.
  eexists. split; [done|]. unfold window. cbn [sh_msg sh_sn any highest lowest].
  change (len [m]) with 1. unfold MAX_HISTORY_DEPTH in *.
  split_and!; [by unfold len; rewrite length_insert|by unfold len; rewrite length_insert|done|lia| |].
  { destruct (Z.leb_spec 256 first); [|lia]. destruct (Z.ltb_spec first (first - 256 + 1)); lia. }
  intros s x Hs Hx Hfs. apply lookup_lt_Some in Hx as Hlt. simpl in Hlt.
  assert (s = first) as -> by lia. rewrite Z.sub_diag in Hx. simpl in Hx. injection Hx as <-.
  split; apply list_lookup_insert_eq; unfold len in *; lia.
Qed.

Lemma window_store first ms h m : 0 <= first → ms ≠ [] → window first ms h → ∃ h',
  SendHistory_store (first + len ms) m h = Ok h' ∧ window first (ms ++ [m]) h'.
Proof using Type.
  intros Hf Hne (Hm & Hs & Ha & Hhi & Hlo & Hw). pose proof (len_nonneg ms).
  assert (0 < len ms) by (destruct ms; [done|len_tac]). clear Hne.
  set (n := first + len ms) in *. unfold SendHistory_store.
  pose proof (Z.mod_pos_bound n MAX_HISTORY_DEPTH eq_refl) as Hi.
  rewrite !set_idx_ok, !bind_ok by lia. rewrite Ha. cbn [negb]. rewrite Hhi, Hlo.
  ltb_true lia. eexists. split; [done|].
  unfold window. cbn [sh_msg sh_sn any highest lowest]. rewrite len_app. change (len [m]) with 1.
  unfold MAX_HISTORY_DEPTH in *.
  split_and!; [by unfold len; rewrite length_insert|by unfold len; rewrite length_insert|done|lia| |].
  { destruct (Z.leb_spec 256 n); [|lia].
    destruct (Z.ltb_spec (Z.max first (n - 1 - 256 + 1)) (n - 256 + 1)); lia. }
  intros s x Hsl Hx Hfs. apply lookup_lt_Some in Hx as Hlt. rewrite length_app in Hlt. simpl in Hlt.
  destruct (Z.eq_dec s n) as [->|Hsn].
  - unfold n in Hx. rewrite Z.add_simpl_l in Hx. unfold len in Hx. rewrite Nat2Z.id, lookup_app_r, Nat.sub_diag in Hx by lia.
    injection Hx as <-. split; apply list_lookup_insert_eq; unfold len in *; lia.
  - assert (s < n) by (unfold n, len in *; lia).
    rewrite lookup_app_l in Hx by (unfold n, len in *; lia).
    assert (s mod 256 ≠ n mod 256) as Hmod.
    { intros He. Z.to_euclidean_division_equations. lia. }
    pose proof (Z.mod_pos_bound s 256 eq_refl).
    rewrite !list_lookup_insert_ne by lia. apply Hw; [lia|done|done].
Qed.

(** What a window answers. *)
Lemma window_reads first ms h : window first ms h →
  let hi := first + len ms - 1 in
  let lo := Z.max first (hi - 255) in
  SendHistory_first_last h = Some (lo, hi) ∧
  ∀ s, SendHistory_get s h =
    Ok (if (lo <=? s) && (s <=? hi) then ms !! Z.to_nat (s - first) else None).
Proof using Type.
  intros (Hm & Hs & Ha & Hhi & Hlo & Hw).
  unfold MAX_HISTORY_DEPTH in *. cbv zeta.
  replace (first + len ms - 1 - 255) with (first + len ms - 1 - 256 + 1) by lia. split.
  - unfold SendHistory_first_last. by rewrite Ha, Hhi, Hlo.
  - intros s. unfold SendHistory_get. rewrite Ha, Hhi, Hlo. cbn [negb orb].
    set (lo := Z.max _ _) in *. set (hi := _ - 1) in *.
    rewrite !Z.ltb_antisym.
    destruct (Z.leb_spec lo s) as [Hls|]; [|done]. cbn [negb orb].
    destruct (Z.leb_spec s hi) as [Hsh|]; [|done]. cbn [negb andb].
    destruct (lookup_lt_is_Some_2 ms (Z.to_nat (s - first))) as [x Hx].
    { unfold hi, len in *. lia. }
    destruct (Hw s x Hls Hx ltac:(lia)) as [H1 H2].
    pose proof (Z.mod_pos_bound s 256 eq_refl). unfold MAX_HISTORY_DEPTH.
    unfold idx. rewrite (proj2 (Z.leb_le _ _)) by lia. rewrite H1, H2, Hx, bind_ok.
    by rewrite Z.eqb_refl.
Qed.

Lemma store_all_window first ms : 0 <= first → ms ≠ [] →
  ∃ h, store_all first ms SendHistory_new = Ok h ∧
    let hi := first + len ms - 1 in
    let lo := Z.max first (hi - 255) in
    SendHistory_first_last h = Some (lo, hi) ∧
    ∀ s, SendHistory_get s h =
      Ok (if (lo <=? s) && (s <=? hi) then ms !! Z.to_nat (s - first) else None).
Proof using Type.
  intros Hf Hne.
  assert (∃ h, store_all first ms SendHistory_new = Ok h ∧ window first ms h) as (h & Hh & Hw).
  { induction ms as [|m ms IH] using rev_ind; [done|]. clear Hne.
    unfold store_all. rewrite length_app, seq_app, zip_with_app by by rewrite length_seq.
    rewrite foldl_app. simpl. change (Z.of_nat (length ms)) with (len ms).
    destruct (decide (ms = [])) as [->|Hne].
    - simpl. change (len []) with 0. rewrite Z.add_0_r. by apply store_first.
    - destruct (IH Hne) as (h & Hh & Hw). unfold store_all in Hh. rewrite Hh, bind_ok.
      by apply window_store. }
  exists h. split; [done|]. by apply window_reads.
Qed.

(** A writer that stores contiguous messages can retransmit exactly the last
    256 of them: [get] returns the message of every number in the window and
    nothing outside it, and [first_last] reports the window. *)
Theorem send_history_window first ms : 0 <= first → ms ≠ [] →
  ∃ h, store_all first ms SendHistory_new = Ok h ∧
    let hi := first + len ms - 1 in
    let lo := Z.max first (hi - 255) in
    SendHistory_first_last h = Some (lo, hi) ∧
    ∀ s, SendHistory_get s h =
      Ok (if (lo <=? s) && (s <=? hi) then ms !! Z.to_nat (s - first) else None).
Proof using Type. apply store_all_window. Qed.

(** ** RecvTracker *)

(** The numbers the tracker counts as received. *)
Definition has (tr : RecvTracker) (s : Z) : Prop :=
  init_done tr = true ∧ (s < expected tr ∨ s ∈ ahead tr).

#[global] Instance has_dec tr s : Decision (has tr s).
Proof. unfold has. apply _. Defined.

(** The invariant: the watermark itself is missing, and the buffered numbers
    lie in a bounded window above it. *)
Definition tracker_wf (tr : RecvTracker) : Prop :=
  (init_done tr = false → ahead tr = ∅) ∧ 0 <= expected tr < 2 ^ 64 ∧
  ∀ s, s ∈ ahead tr → expected tr < s <= expected tr + MAX_REORDER_AHEAD ∧ s < 2 ^ 64 - 1.

Lemma new_wf : tracker_wf RecvTracker_new.
Proof using Type. split_and!; simpl; [done|lia|lia|set_solver]. Qed.

Lemma init_expected_wf first tr : tracker_wf tr → 0 <= first < 2 ^ 64 →
  tracker_wf (RecvTracker_init_expected first tr)
  ∧ init_done (RecvTracker_init_expected first tr) = true.
Proof using Type.
  intros Hw Hf. unfold RecvTracker_init_expected. destruct (init_done tr) eqn:Hd; simpl; [done|].
  destruct Hw as (Hi & He & Ha).
  - split; [|done]. split_and!; simpl; [done|lia|lia|]. rewrite Hi by done. set_solver.
Qed.

Lemma init_expected_idem a b tr :
  RecvTracker_init_expected a (RecvTracker_init_expected b tr) = RecvTracker_init_expected b tr.
Proof using Type.
  unfold RecvTracker_init_expected. destruct (init_done tr) eqn:Hd; simpl; [by rewrite Hd|done].
Qed.

Lemma advance_loop_spec fuel e a : (size a < fuel)%nat → 0 <= e < 2 ^ 64 →
  (∀ s, s ∈ a → e <= s < 2 ^ 64 - 1) →
  ∃ e' a', advance_loop fuel e a = Ok (e', a') ∧ e <= e' < 2 ^ 64 ∧ (e' ∉ a')
    ∧ (∀ x, e <= x < e' → x ∈ a) ∧ (∀ x, x ∈ a' ↔ x ∈ a ∧ e' <= x).
Proof using Type.
  revert e a. induction fuel as [|fuel IH]; intros e a Hsz He Ha; [lia|].
  cbn [advance_loop]. case_bool_decide as Hin.
  - pose proof (Ha e Hin). rewrite uadd_ok, bind_ok by lia.
    destruct (IH (e + 1) (a ∖ {[e]})) as (e' & a' & -> & Hr1 & Hr2 & Hr3 & Hr4).
    + rewrite size_difference, size_singleton by by apply singleton_subseteq_l.
      assert (size a ≠ 0)%nat; [|lia]. intros Hz%size_empty_iff. set_solver.
    + lia.
    + intros s [Hs Hne]%elem_of_difference. pose proof (Ha s Hs).
      rewrite not_elem_of_singleton in Hne. lia.
    + exists e', a'. split_and!; [done|lia|lia|done| |].
      * intros x Hx. destruct (Z.eq_dec x e) as [->|]; [done|].
        by pose proof (Hr3 x ltac:(lia)) as [? _]%elem_of_difference.
      * intros x. rewrite Hr4, elem_of_difference, elem_of_singleton. split; [tauto|].
        intros [Hx Hle]. split_and!; [done|lia|done].
  - exists e, a. split_and!; [done|lia|lia|done|lia|]. intros x. split; [|by intros [? _]].
    intros Hx. split; [done|]. by apply Ha.
Qed.

(** What [record] leaves behind. *)
Definition recorded (seq : Z) (tr tr' : RecvTracker) : Prop :=
  tracker_wf tr' ∧ init_done tr' = true ∧ expected tr <= expected tr' ∧
  ∀ s, has tr' s ↔ has tr s ∨ (s = seq ∧ seq <= expected tr + MAX_REORDER_AHEAD).

Lemma recorded_again seq tr : tracker_wf tr → init_done tr = true → has tr seq → recorded seq tr tr.
Proof using Type. intros Hw Hi Hh. split_and!; [done|done|lia|].
  intros s. split; [auto|]. by intros [?|[-> _]].
Qed.

Section initialised.
Context (seq : Z) (tr : RecvTracker) (Hwf : tracker_wf tr) (Hinit : init_done tr = true)
  (Hseq : 0 <= seq < 2 ^ 64 - 1).

Lemma recorded_next : seq = expected tr → ∃ e a,
  (e' ← uadd 64 (expected tr) 1; advance_loop (S (size (ahead tr))) e' (ahead tr)) = Ok (e, a)
  ∧ recorded seq tr (mkRecvTracker e a (init_done tr) (ack_count tr)).
Proof using Hwf Hinit Hseq.
  intros Heq. destruct Hwf as (Hi & He & Ha). rewrite uadd_ok, bind_ok by lia.
  destruct (advance_loop_spec (S (size (ahead tr))) (expected tr + 1) (ahead tr))
    as (e & a & -> & H1 & H2 & H3 & H4); [lia|lia|intros s Hs; pose proof (Ha s Hs); lia|].
  exists e, a. split; [done|]. unfold recorded, tracker_wf, has.
  cbn [init_done expected ahead]. rewrite Hinit. split_and!; [done|lia|lia| |done|lia|].
  - intros s Hs. assert (s ≠ e) by congruence. apply H4 in Hs as [Hs ?]. pose proof (Ha s Hs). lia.
  - intros s. rewrite H4. unfold MAX_REORDER_AHEAD. split.
    + intros [_ [Hs|[Hs _]]]; [|auto]. destruct (decide (s < expected tr)); [auto|].
      destruct (Z.eq_dec s seq) as [->|]; [right; lia|]. left. split; [done|]. right. apply H3. lia.
    + intros [[_ [Hs|Hs]]|[-> _]]; (split; [done|]); [left; lia| |left; lia].
      destruct (decide (s < e)); [by left|]. right. split; [done|lia].
Qed.

Lemma recorded_ahead : expected tr < seq → seq ∉ ahead tr →
  recorded seq tr (mkRecvTracker (expected tr)
    (if seq - expected tr <=? MAX_REORDER_AHEAD then {[seq]} ∪ ahead tr else ahead tr)
    (init_done tr) (ack_count tr)).
Proof using Hwf Hinit Hseq.
  intros Hlt Hni. destruct Hwf as (Hi & He & Ha). unfold recorded, tracker_wf, has.
  cbn [init_done expected ahead]. rewrite Hinit.
  destruct (Z.leb_spec (seq - expected tr) MAX_REORDER_AHEAD); split_and!; try (done || lia).
  - intros s. rewrite elem_of_union, elem_of_singleton. intros [->|Hs]; [lia|auto].
  - intros s. rewrite elem_of_union, elem_of_singleton. split.
    + intros [_ [Hs|[->|Hs]]]; [auto|right; lia|auto].
    + intros [[_ [Hs|Hs]]|[-> _]]; auto.
  - intros s. split; [auto|]. intros [Hs|[-> ?]]; [done|lia].
Qed.

Lemma record_initialised : ∃ tr',
  RecvTracker_record seq tr = Ok (negb (bool_decide (has tr seq)), tr') ∧ recorded seq tr tr'.
Proof using Hwf Hinit Hseq.
  unfold RecvTracker_record, RecvTracker_init_expected. rewrite Hinit. cbn [negb].
  pose proof Hwf as (_ & _ & Ha).
  destruct (Z.ltb_spec seq (expected tr)) as [Hlt|Hge].
  { assert (has tr seq) by (split; auto). exists tr. rewrite bool_decide_true by done.
    split; [done|]. by apply recorded_again. }
  destruct (Z.eqb_spec seq (expected tr)) as [Heq|Hne].
  { destruct (recorded_next Heq) as (e & a & Hadv & Hrec). eexists. split; [|exact Hrec].
    rewrite bool_decide_false by (intros [_ [?|Hs]]; [lia|pose proof (Ha seq Hs); lia]).
    apply bind_ok_inv in Hadv as (e' & -> & Hadv). by rewrite bind_ok, Hadv, bind_ok, Hinit. }
  case_bool_decide as Hin.
  { assert (has tr seq) by (split; auto). exists tr. rewrite bool_decide_true by done.
    split; [done|]. by apply recorded_again. }
  eexists. split; [|by apply recorded_ahead; [lia|]].
  rewrite bool_decide_false by (intros [_ [?|?]]; [lia|done]). by rewrite Hinit.
Qed.
End initialised.

(** [record] reports a number as new exactly when the tracker does not count
    it as received, keeps the invariant, and counts it from then on - unless
    it is more than [MAX_REORDER_AHEAD] above the watermark: then it is
    reported as new every time it arrives. *)
Theorem recv_tracker_record seq tr : tracker_wf tr → 0 <= seq < 2 ^ 64 - 1 →
  let tr0 := RecvTracker_init_expected seq tr in
  ∃ tr', RecvTracker_record seq tr = Ok (negb (bool_decide (has tr0 seq)), tr')
    ∧ recorded seq tr0 tr' ∧ (size (ahead tr') <= Z.to_nat MAX_REORDER_AHEAD)%nat.
Proof using Type.
  intros Hw Hs tr0. destruct (init_expected_wf seq tr Hw ltac:(lia)) as [Hw0 Hi0].
  destruct (record_initialised seq tr0 Hw0 Hi0 Hs) as (tr' & Hr & Hrec). exists tr'.
  split; [|split; [done|]].
  - rewrite <- Hr. unfold RecvTracker_record. unfold tr0. by rewrite init_expected_idem.
  - destruct Hrec as ((_ & _ & Ha) & _).
    transitivity (size (list_to_set (seqZ (expected tr' + 1) MAX_REORDER_AHEAD) : gset Z)).
    + apply subseteq_size. intros s Hsa. apply elem_of_list_to_set, elem_of_seqZ.
      pose proof (Ha s Hsa). lia.
    + rewrite size_list_to_set by apply NoDup_seqZ. by rewrite length_seqZ.
Qed.

(** *** What is missing *)

(** The body of the scan. *)
Definition mark (base sn : Z) (a : gset Z) (bm : Z) (need : bool) : runs (Z * bool) :=
  if negb (bool_decide (sn ∈ a)) then d ← usub 64 sn base; bit ← ushl 32 1 d; Ok (Z.lor bm bit, true)
  else Ok (bm, need).

Lemma missing_loop_S fuel base end_ sn a bm need :
  missing_loop (S fuel) base end_ sn a bm need =
  if sn <=? end_ then
    r ← mark base sn a bm need; sn ← uadd 64 sn 1; missing_loop fuel base end_ sn a r.1 r.2
  else Ok (bm, need).
Proof using Type.
  cbn [missing_loop]. fold (mark base sn a bm need). destruct (sn <=? end_); [|done].
  by destruct (mark _ _ _ _ _) as [[]| |].
Qed.

Lemma mark_ok base sn a bm need : base <= sn <= base + 31 → mark base sn a bm need =
  Ok (if decide (sn ∈ a) then (bm, need) else (Z.lor bm (Z.shiftl 1 (sn - base)), true)).
Proof using Type.
  intros Hs. unfold mark. case_decide as Hin; [by rewrite bool_decide_true|]. rewrite bool_decide_false by done.
  cbn [negb]. by rewrite usub_ok, bind_ok, ushl_1, bind_ok by lia.
Qed.

Lemma missing_loop_spec fuel base end_ sn a bm need :
  base <= sn <= end_ + 1 → end_ <= base + 31 → end_ - sn + 1 < Z.of_nat fuel → end_ < 2 ^ 64 - 1 → 0 <= bm →
  ∃ bm' need', missing_loop fuel base end_ sn a bm need = Ok (bm', need') ∧ 0 <= bm'
    ∧ (need = true → need' = true)
    ∧ ∀ n, 0 <= n → Z.testbit bm' n
        = Z.testbit bm n || bool_decide (sn <= base + n <= end_ ∧ (base + n ∉ a)).
Proof using Type.
  revert sn bm need. induction fuel as [|fuel IH]; intros sn bm need Hsn H31 Hf Hend Hbm; [lia|].
  rewrite missing_loop_S. destruct (Z.leb_spec sn end_) as [Hle|Hgt].
  2:{ exists bm, need. split_and!; [done..|]. intros n Hn.
      by rewrite bool_decide_false, orb_false_r by lia. }
  rewrite mark_ok, bind_ok, uadd_ok, bind_ok by lia. case_decide as Hin; cbn [fst snd].
  - destruct (IH (sn + 1) bm need) as (bm' & need' & -> & H1 & H2 & H3); [lia..|].
    exists bm', need'. split_and!; [done..|]. intros n Hn. rewrite H3 by done. f_equal.
    apply bool_decide_ext. split; [intros []; split; [lia|done]|].
    intros [Hr Hni]. split; [|done]. assert (base + n ≠ sn) by congruence. lia.
  - assert (0 <= Z.lor bm (Z.shiftl 1 (sn - base))) as Hbm'.
    { apply Z.lor_nonneg. split; [done|]. apply Z.shiftl_nonneg. lia. }
    destruct (IH (sn + 1) _ true ltac:(lia) ltac:(lia) ltac:(lia) ltac:(lia) Hbm') as (bm' & need' & -> & H1 & H2 & H3).
    exists bm', need'. split_and!; [done|done|auto|]. intros n Hn.
    rewrite H3, Z.lor_spec, <- orb_assoc by done. f_equal.
    destruct (Z.eq_dec (base + n) sn) as [Heq|Hne].
    + replace n with (0 + (sn - base)) at 1 by lia. rewrite Z.shiftl_spec, Z.add_simpl_r by lia.
      simpl. rewrite bool_decide_true; [done|]. split; [lia|]. by rewrite Heq.
    + replace (Z.testbit (Z.shiftl 1 (sn - base)) n) with false.
      * simpl. apply bool_decide_ext. split; intros []; (split; [lia|done]).
      * symmetry. rewrite Z.shiftl_1_l. apply Z.pow2_bits_false. lia.
Qed.

Lemma missing_spec tr last : tracker_wf tr → init_done tr = true →
  expected tr <= last → last < 2 ^ 64 - 1 → expected tr + 31 < 2 ^ 64 →
  ∃ bm, RecvTracker_missing last tr = Ok (expected tr, bm, true) ∧ 0 <= bm
    ∧ ∀ n, 0 <= n → Z.testbit bm n
        = bool_decide (n < 32 ∧ expected tr + n <= last ∧ ¬ has tr (expected tr + n)).
Proof using Type.
  intros (_ & He & Ha) Hi Hle Hlast H31. unfold RecvTracker_missing. rewrite Hi. cbn [negb].
  ltb_false lia. rewrite uadd_ok, bind_ok by lia.
  set (e := if _ <? last then _ else _).
  assert (e = Z.min (expected tr + 31) last) as ->.
  { unfold e. destruct (Z.ltb_spec (expected tr + 31) last); lia. }
  assert (expected tr ∉ ahead tr) as Hni by (intros Hs; pose proof (Ha _ Hs); lia).
  (* the first round already finds the watermark missing *)
  change 33%nat with (S 32). rewrite missing_loop_S, (proj2 (Z.leb_le _ _)) by lia.
  rewrite mark_ok, bind_ok, uadd_ok, bind_ok, decide_False, Z.sub_diag by (done || lia). cbn [fst snd].
  destruct (missing_loop_spec 32 (expected tr) (Z.min (expected tr + 31) last) (expected tr + 1)
              (ahead tr) (Z.lor 0 (Z.shiftl 1 0)) true)
    as (bm & need & -> & H0 & Hneed & Hbits); [lia|lia|lia|lia|done|].
  rewrite (Hneed eq_refl), bind_ok. exists bm. split_and!; [done|done|].
  intros n Hn. rewrite Hbits by done. change (Z.lor 0 (Z.shiftl 1 0)) with 1.
  destruct (Z.eq_dec n 0) as [->|Hn0].
  - simpl. symmetry. apply bool_decide_true. rewrite Z.add_0_r.
    split_and!; [lia|lia|]. intros [_ [?|?]]; [lia|done].
  - replace (Z.testbit 1 n) with false by (destruct n; [done|done|lia]). cbn [orb].
    apply bool_decide_ext. split.
    + intros [? ?]. split_and!; [lia|lia|]. intros [_ [?|?]]; [lia|done].
    + intros (? & ? & Hnot). split; [lia|]. intros ?. apply Hnot. split; auto.
Qed.

(** The ACKNACK content is exact: the base is the watermark, and bit [n] is
    set exactly for the numbers up to the writer's last, within one 32-bit
    window, that have not been received.  The limit near [u64::MAX] is where
    the addition of 31 to the watermark overflows. *)
Theorem recv_tracker_missing tr last : tracker_wf tr → init_done tr = true → 0 <= last < 2 ^ 64 - 1 →
  (last < expected tr → RecvTracker_missing last tr = Ok (expected tr, 0, false)) ∧
  (expected tr <= last → expected tr + 31 < 2 ^ 64 →
   ∃ bm, RecvTracker_missing last tr = Ok (expected tr, bm, true) ∧
     ∀ n, 0 <= n → Z.testbit bm n = true ↔
       n < 32 ∧ expected tr + n <= last ∧ ¬ has tr (expected tr + n)) ∧
  (expected tr <= last → 2 ^ 64 <= expected tr + 31 → overflow_checks = true →
   RecvTracker_missing last tr = Panic).
Proof using Type.
  intros Hw Hi Hlast. split_and!.
  - intros Hlt. unfold RecvTracker_missing. rewrite Hi. cbn [negb]. by ltb_true lia.
  - intros Hle H31. destruct (missing_spec tr last Hw Hi Hle ltac:(lia) H31) as (bm & -> & _ & Hb).
    exists bm. split; [done|]. intros n Hn. rewrite Hb by done. by rewrite bool_decide_eq_true.
  - intros Hle H31 Hc. unfold RecvTracker_missing. rewrite Hi. cbn [negb]. ltb_false lia.
    unfold uadd. ltb_false lia. by rewrite Hc.
Qed.

(** *** When the scan of [missing] does not end *)

(** The arithmetic of a release build never panics, that of a checked build
    never wraps. *)
Lemma uadd_release w a b : overflow_checks = false → ∃ c, uadd (E:=OutOfFuel) w a b = Ok c.
Proof using Type. intros Hc. unfold uadd. rewrite Hc. destruct (_ <? _); by eexists. Qed.

Lemma uadd_range w a b c : 0 <= w → 0 <= a → 0 <= b → uadd (E:=OutOfFuel) w a b = Ok c → 0 <= c < 2 ^ w.
Proof using Type.
  intros Hw Ha Hb. unfold uadd. destruct (Z.ltb_spec (a + b) (2 ^ w)); [intros [= <-]; lia|].
  destruct overflow_checks; [done|]. intros [= <-]. by apply as_u_range.
Qed.

Lemma uadd_checked w a b : overflow_checks = true →
  uadd (E:=OutOfFuel) w a b = Ok (a + b) ∧ a + b < 2 ^ w ∨ uadd (E:=OutOfFuel) w a b = Panic.
Proof using Type.
  intros Hc. unfold uadd. destruct (Z.ltb_spec (a + b) (2 ^ w)); [by left|rewrite Hc; by right].
Qed.

Lemma mark_release base sn a bm need : overflow_checks = false → ∃ r, mark base sn a bm need = Ok r.
Proof using Type.
  intros Hc. unfold mark, usub, ushl. rewrite Hc. destruct (negb _); [|by eexists].
  destruct (base <=? sn); rewrite bind_ok; destruct (_ <? 32); by eexists.
Qed.

Lemma mark_checked base sn a bm need : overflow_checks = true →
  (∃ r, mark base sn a bm need = Ok r) ∨ mark base sn a bm need = Panic.
Proof using Type.
  intros Hc. unfold mark, usub, ushl. rewrite Hc. destruct (negb _); [|left; by eexists].
  destruct (base <=? sn); [|by right]. rewrite bind_ok. destruct (_ <? 32); [left; by eexists|by right].
Qed.

(** A scan that ends at [u64::MAX] of a release build starts again at 0. *)
Lemma missing_loop_wraps fuel base sn a bm need : overflow_checks = false → 0 <= sn < 2 ^ 64 →
  missing_loop fuel base (2 ^ 64 - 1) sn a bm need = Err out_of_fuel.
Proof using Type.
  intros Hc. revert sn bm need. induction fuel as [|fuel IH]; intros sn bm need Hs; [done|].
  rewrite missing_loop_S, (proj2 (Z.leb_le _ _)) by lia.
  destruct (mark_release base sn a bm need Hc) as [r ->]. rewrite bind_ok.
  destruct (uadd_release 64 sn 1 Hc) as [sn' Hsn]. rewrite Hsn, bind_ok. apply IH.
  by eapply uadd_range; [..|exact Hsn]; lia.
Qed.

Lemma uadd_wraps a b c : overflow_checks = false → 0 <= a + b < 2 * 2 ^ 64 → uadd (E:=OutOfFuel) 64 a b = Ok c →
  a + b < 2 ^ 64 ∧ c = a + b ∨ 2 ^ 64 <= a + b ∧ c = a + b - 2 ^ 64.
Proof using Type.
  intros Hc Hab. unfold uadd. rewrite Hc. destruct (Z.ltb_spec (a + b) (2 ^ 64)); intros [= <-]; [by left|right].
  split; [done|]. unfold as_u. symmetry. apply (Z.mod_unique _ _ 1); lia.
Qed.

(** Any other scan ends within its fuel. *)
Lemma missing_loop_ends fuel base end_ sn a bm need :
  sn <= end_ + 1 → end_ - sn + 1 < Z.of_nat fuel → overflow_checks = true ∨ end_ < 2 ^ 64 - 1 →
  missing_loop fuel base end_ sn a bm need ≠ Err out_of_fuel.
Proof using Type.
  revert sn bm need. induction fuel as [|fuel IH]; intros sn bm need Hs Hf He; [lia|].
  rewrite missing_loop_S. destruct (Z.leb_spec sn end_); [|done].
  assert ((∃ r, mark base sn a bm need = Ok r) ∨ mark base sn a bm need = Panic) as [[r ->]| ->]; [|rewrite bind_ok|done].
  { destruct overflow_checks eqn:Hc; [by apply mark_checked|left; by apply mark_release]. }
  destruct He as [Hc|He].
  - destruct (uadd_checked 64 sn 1 Hc) as [[-> _]| ->]; [|done]. rewrite bind_ok. apply IH; [lia..|by left].
  - rewrite uadd_ok, bind_ok by lia. apply IH; [lia..|by right].
Qed.

Lemma missing_loop_release fuel base end_ sn a bm need : overflow_checks = false →
  missing_loop fuel base end_ sn a bm need ≠ Panic.
Proof using Type.
  intros Hc. revert sn bm need. induction fuel as [|fuel IH]; intros sn bm need; [done|].
  rewrite missing_loop_S. destruct (sn <=? end_); [|done].
  destruct (mark_release base sn a bm need Hc) as [r ->]. rewrite bind_ok.
  destruct (uadd_release 64 sn 1 Hc) as [sn' ->]. by rewrite bind_ok.
Qed.

Lemma missing_checked last tr : overflow_checks = true → RecvTracker_missing last tr ≠ Err out_of_fuel.
Proof using Type.
  intros Hc. unfold RecvTracker_missing. destruct (negb _); [done|]. destruct (Z.ltb_spec last (expected tr)); [done|].
  destruct (uadd_checked 64 (expected tr) 31 Hc) as [[-> _]| ->]; [|done]. rewrite bind_ok.
  match goal with |- context [missing_loop ?n ?b ?e ?s ?a ?m ?d] =>
    pose proof (missing_loop_ends n b e s a m d) as Hl; destruct (missing_loop n b e s a m d) as [[]| |] end; [done| |done].
  rename e into o. destruct o. intros _. apply Hl; [..|by left|done]; destruct (Z.ltb_spec (expected tr + 31) last); lia.
Qed.

Lemma missing_release last tr : overflow_checks = false → RecvTracker_missing last tr ≠ Panic.
Proof using Type.
  intros Hc. unfold RecvTracker_missing. destruct (negb _); [done|]. destruct (last <? expected tr); [done|].
  destruct (uadd_release 64 (expected tr) 31 Hc) as [lim ->]. rewrite bind_ok.
  match goal with |- context [missing_loop ?n ?b ?e ?s ?a ?m ?d] =>
    pose proof (missing_loop_release n b e s a m d Hc); by destruct (missing_loop n b e s a m d) as [[]| |] end.
Qed.

(** The fuel of [missing] is enough: it runs out exactly in the one case in
    which the loop of the code does not end, and there no fuel is enough. *)
Theorem missing_out_of_fuel last tr : is_u64 (expected tr) → is_u64 last →
  (RecvTracker_missing last tr = Err out_of_fuel ↔
     overflow_checks = false ∧ init_done tr = true ∧ expected tr = 2 ^ 64 - 32 ∧ last = 2 ^ 64 - 1) ∧
  (RecvTracker_missing last tr = Err out_of_fuel → ∀ fuel,
     missing_loop fuel (expected tr) last (expected tr) (ahead tr) 0 false = Err out_of_fuel).
Proof using Type.
  unfold is_u64. intros He Hl.
  assert (RecvTracker_missing last tr = Err out_of_fuel ↔
     overflow_checks = false ∧ init_done tr = true ∧ expected tr = 2 ^ 64 - 32 ∧ last = 2 ^ 64 - 1) as Hiff.
  { split.
    - intros Hm. destruct overflow_checks eqn:Hc; [by apply missing_checked in Hm|]. split; [done|].
      revert Hm. unfold RecvTracker_missing. destruct (init_done tr); [|done]. cbn [negb].
      destruct (Z.ltb_spec last (expected tr)); [done|]. destruct (uadd_release 64 (expected tr) 31 Hc) as [lim Hlim].
      pose proof (uadd_wraps (expected tr) 31 lim Hc ltac:(lia) Hlim) as Hw. rewrite Hlim, bind_ok.
      set (end_ := if lim <? last then lim else last). intros Hm.
      assert (end_ = Z.min lim last) as He_ by (unfold end_; destruct (Z.ltb_spec lim last); lia).
      destruct (Z.eq_dec end_ (2 ^ 64 - 1)) as [Hend|Hend]; [split_and!; (done || lia)|]. exfalso.
      destruct (Z.le_gt_cases (expected tr) (end_ + 1)) as [Hle|Hgt].
      + pose proof (missing_loop_ends 33 (expected tr) end_ (expected tr) (ahead tr) 0 false Hle) as Hn.
        destruct (missing_loop _ _ _ _ _ _ _) as [[]|[]|]; [done| |done]. apply Hn; [lia|right; lia|done].
      + change 33%nat with (S 32) in Hm. rewrite missing_loop_S, (proj2 (Z.leb_gt _ _)) in Hm by lia. done.
    - intros (Hc & Hi & Hb & ->). unfold RecvTracker_missing. rewrite Hi, Hb. cbn [negb]. ltb_false lia.
      rewrite uadd_ok, bind_ok, Z.ltb_irrefl by lia. by rewrite missing_loop_wraps by first [done|lia]. }
  split; [exact Hiff|]. intros (Hc & _ & -> & ->)%Hiff fuel. apply missing_loop_wraps; [done|lia].
Qed.

Lemma missing_stops tr : init_done tr = true → expected tr = 2 ^ 64 - 32 →
  RecvTracker_missing (2 ^ 64 - 1) tr = (if overflow_checks then Panic else Err out_of_fuel) ∧
  (overflow_checks = false → ∀ fuel,
     missing_loop fuel (expected tr) (2 ^ 64 - 1) (expected tr) (ahead tr) 0 false
     = Err out_of_fuel).
Proof using Type.
  intros Hi He. split; [|intros Hc fuel; apply missing_loop_wraps; [done|lia]].
  unfold RecvTracker_missing. rewrite Hi, He. cbn [negb]. ltb_false lia.
  rewrite uadd_ok, bind_ok by lia. rewrite Z.ltb_irrefl.
  destruct overflow_checks eqn:Hc; [|by rewrite missing_loop_wraps by first [done|lia]].
  enough (missing_loop 33 (2 ^ 64 - 32) (2 ^ 64 - 1) (2 ^ 64 - 32) (ahead tr) 0 false = Panic) as ->
    by done.
  assert (∀ n fuel bm need, (n < fuel)%nat → (n < 32)%nat → missing_loop fuel (2 ^ 64 - 32) (2 ^ 64 - 1)
    (2 ^ 64 - 1 - Z.of_nat n) (ahead tr) bm need = Panic) as Hn; [|apply (Hn 31%nat); lia].
  induction n as [|n IH]; intros [|fuel] bm need Hf H32; try lia;
    rewrite missing_loop_S, (proj2 (Z.leb_le _ _)), mark_ok, bind_ok by lia.
  - unfold uadd. ltb_false lia. by rewrite Hc.
  - rewrite uadd_ok, bind_ok by lia.
    replace (2 ^ 64 - 1 - Z.of_nat (Datatypes.S n) + 1) with (2 ^ 64 - 1 - Z.of_nat n) by lia. apply IH; lia.
Qed.

(** Non-termination: with its watermark at [u64::MAX - 31] and a writer
    that announces [u64::MAX] as its last number, [missing] scans forever in a
    release build, whatever the fuel, and panics in a checked one. *)
Theorem missing_never_returns tr : init_done tr = true → expected tr = 2 ^ 64 - 32 →
  RecvTracker_missing (2 ^ 64 - 1) tr = (if overflow_checks then Panic else Err out_of_fuel) ∧
  (overflow_checks = false → ∀ fuel,
     missing_loop fuel (expected tr) (2 ^ 64 - 1) (expected tr) (ahead tr) 0 false
     = Err out_of_fuel).
Proof using Type. apply missing_stops. Qed.

(** *** Recovery

    One HEARTBEAT round: the reader asks for what is missing, the writer
    resends what its history holds, the reader records it. *)
Definition nacked (base bitmap : Z) : list Z :=
  Z.add base <$> filter (λ n, Z.testbit bitmap n = true) (seqZ 0 32).

Fixpoint resend (h : SendHistory) (ss : list Z) (tr : RecvTracker) : runs RecvTracker :=
  match ss with
  | [] => Ok tr
  | s :: ss =>
      m ← lift (SendHistory_get s h);
      match m with
      | Some _ => r ← lift (RecvTracker_record s tr); resend h ss r.2
      | None => resend h ss tr
      end
  end.

Definition recovery_round (h : SendHistory) (last : Z) (tr : RecvTracker) : runs RecvTracker :=
  r ← RecvTracker_missing last tr;
  let '(base, bitmap, need_ack) := (r : Z * Z * bool) in
  if need_ack then resend h (nacked base bitmap) tr else Ok tr.

Fixpoint recovery_rounds (n : nat) (h : SendHistory) (last : Z) (tr : RecvTracker)
    : runs RecvTracker :=
  match n with
  | O => Ok tr
  | S n => tr ← recovery_round h last tr; recovery_rounds n h last tr
  end.

Definition holds (h : SendHistory) (lo hi : Z) : Prop :=
  ∀ s, lo <= s <= hi → ∃ m, SendHistory_get s h = Ok (Some m).

Lemma resend_spec h ss tr : tracker_wf tr → init_done tr = true →
  Forall (λ s, expected tr <= s <= expected tr + 31 ∧ s < 2 ^ 64 - 1
               ∧ ∃ m, SendHistory_get s h = Ok (Some m)) ss →
  ∃ tr', resend h ss tr = Ok tr' ∧ tracker_wf tr' ∧ init_done tr' = true ∧ expected tr <= expected tr'
    ∧ ∀ s, has tr s ∨ s ∈ ss → has tr' s.
Proof using Type.
  intros Hw Hi Hss.
  assert (∀ e, expected tr <= e → Forall (λ s, s <= e + 31) ss) as Hmono.
  { intros e He. eapply Forall_impl; [exact Hss|]. simpl. lia. }
  assert (0 <= expected tr) as H0 by apply Hw.
  assert (Forall (λ s, 0 <= s < 2 ^ 64 - 1 ∧ ∃ m, SendHistory_get s h = Ok (Some m)) ss) as Hget.
  { eapply Forall_impl; [exact Hss|]. simpl. intros s (?&?&?). split; [lia|done]. }
  clear Hss. revert tr Hw Hi Hmono H0. induction Hget as [|s ss [Hs (m & Hm)] _ IH]; intros tr Hw Hi Hmono H0.
  { exists tr. split_and!; [done..|lia|]. intros s [?|Hs]; [done|]. by apply not_elem_of_nil in Hs. }
  cbn [resend]. rewrite Hm. cbn [lift]. rewrite bind_ok.
  destruct (record_initialised s tr Hw Hi Hs) as (tr1 & -> & Hw1 & Hi1 & He1 & Hh1).
  cbn [lift]. rewrite bind_ok. cbn [snd].
  destruct (IH tr1 Hw1 Hi1) as (tr2 & Hr & Hw2 & Hi2 & He2 & Hh2).
  { intros e He. apply (Forall_cons_1 _ s), (Hmono e). lia. }
  { lia. }
  exists tr2. split_and!; [done..|lia|]. intros x Hx. apply Hh2.
  destruct Hx as [Hx|[->|Hx]%elem_of_cons]; [left; apply Hh1; auto| |by right].
  left. apply Hh1. right. split; [done|].
  pose proof (Forall_cons_1 _ _ _ (Hmono (expected tr) ltac:(lia))) as [? _].
  unfold MAX_REORDER_AHEAD. lia.
Qed.

Lemma watermark_at_least tr m : tracker_wf tr → init_done tr = true →
  (∀ s, expected tr <= s < m → has tr s) → m <= expected tr.
Proof using Type.
  intros (_ & _ & Ha) Hi Hm. destruct (Z.lt_ge_cases (expected tr) m) as [Hlt|]; [|lia].
  destruct (Hm (expected tr)) as [_ [?|Hs]]; [lia|lia|]. pose proof (Ha _ Hs). lia.
Qed.

Lemma recovery_round_spec h lo hi tr : tracker_wf tr → init_done tr = true → holds h lo hi →
  lo <= expected tr → hi + 32 < 2 ^ 64 → ∃ tr', recovery_round h hi tr = Ok tr' ∧
    tracker_wf tr' ∧ init_done tr' = true ∧ expected tr <= expected tr'
    ∧ Z.min (hi + 1) (expected tr + 32) <= expected tr'.
Proof using Type.
  intros Hw Hi Hh Hlo Hhi. unfold recovery_round. destruct (Z.lt_ge_cases hi (expected tr)) as [Hlt|Hge].
  { exists tr. unfold RecvTracker_missing. rewrite Hi. cbn [negb]. ltb_true lia.
    split_and!; [done..|lia|lia]. }
  destruct (missing_spec tr hi Hw Hi Hge ltac:(lia) ltac:(lia)) as (bm & -> & _ & Hb).
  rewrite bind_ok.
  assert (∀ s, s ∈ nacked (expected tr) bm ↔
    expected tr <= s < expected tr + 32 ∧ s <= hi ∧ ¬ has tr s) as Hn.
  { intros s. unfold nacked. rewrite list_elem_of_fmap. split.
    - intros (n & -> & [Ht Hn%elem_of_seqZ]%list_elem_of_filter).
      rewrite Hb in Ht by lia. apply bool_decide_eq_true in Ht as (? & ? & ?). split_and!; (lia || done).
    - intros (? & ? & ?). exists (s - expected tr). split; [lia|]. apply list_elem_of_filter.
      split; [|apply elem_of_seqZ; lia]. rewrite Hb by lia. apply bool_decide_eq_true.
      replace (expected tr + (s - expected tr)) with s by lia. split_and!; (lia || done). }
  destruct (resend_spec h (nacked (expected tr) bm) tr Hw Hi) as (tr' & Hr & Hw' & Hi' & He' & Hh').
  { apply Forall_forall. intros s (?&?&?)%Hn. split_and!; [lia..|]. apply Hh. lia. }
  exists tr'. split_and!; [done..|]. apply watermark_at_least; [done..|].
  intros s Hs. apply Hh'. destruct (decide (has tr s)); [by left|]. right. apply Hn.
  split_and!; [lia..|done].
Qed.

(** C13. Liveness: whatever was lost inside the writer's window, eight HEARTBEAT
    rounds whose messages arrive bring the reader's watermark past the
    writer's last message. *)
Theorem reliable_recovery first ms tr : 0 <= first → ms ≠ [] → tracker_wf tr → init_done tr = true →
  let hi := first + len ms - 1 in
  Z.max first (hi - 255) <= expected tr → hi + 32 < 2 ^ 64 →
  ∃ h tr', store_all first ms SendHistory_new = Ok h ∧ recovery_rounds 8 h hi tr = Ok tr'
    ∧ tracker_wf tr' ∧ hi < expected tr'.
Proof using Type.
  intros Hf Hne Hw Hi hi Hlo Hhi.
  destruct (store_all_window first ms Hf Hne) as (h & Hh & _ & Hget). fold hi in Hget.
  exists h. set (lo := Z.max first (hi - 255)) in *.
  assert (holds h lo hi) as Hholds.
  { intros s Hs. rewrite Hget. rewrite (proj2 (Z.leb_le _ _)), (proj2 (Z.leb_le _ _)) by lia. cbn [andb].
    destruct (lookup_lt_is_Some_2 ms (Z.to_nat (s - first))) as [m ->]; [|eauto].
    unfold hi, lo, len in *. lia. }
  assert (∀ n tr, tracker_wf tr → init_done tr = true → lo <= expected tr →
    ∃ tr', recovery_rounds n h hi tr = Ok tr' ∧ tracker_wf tr' ∧
      Z.min (hi + 1) (expected tr + 32 * Z.of_nat n) <= expected tr') as Hn.
  { clear tr Hw Hi Hlo. induction n as [|n IH]; intros tr Hw Hi Hlo.
    - exists tr. split_and!; [done..|lia].
    - destruct (recovery_round_spec h lo hi tr Hw Hi Hholds Hlo Hhi) as (tr1 & Hr & Hw1 & Hi1 & He1 & Hm1).
      destruct (IH tr1 Hw1 Hi1 ltac:(lia)) as (tr2 & Hr2 & Hw2 & Hm2).
      exists tr2. cbn [recovery_rounds]. rewrite Hr, bind_ok. split_and!; [done..|lia]. }
  destruct (Hn 8%nat tr Hw Hi Hlo) as (tr' & Hr & Hw' & Hm). exists tr'. split_and!; [done..|lia].
Qed.
End reliable.

(** ** Concrete instances *)

#[local] Instance demo_profile : BuildProfile := true.

Lemma send_history_window_witness :
  ∃ h, store_all 5 [[x01]; [x02]] SendHistory_new = Ok h ∧
    SendHistory_first_last h = Some (5, 6) ∧ SendHistory_get 6 h = Ok (Some [x02]).
Proof.
  destruct (send_history_window 5 [[x01]; [x02]]) as (h & Hs & Hfl & Hg); [lia|done|].
  exists h. split; [exact Hs|]. split; [exact Hfl|]. apply (Hg 6).
Defined.

Definition demo_tracker : RecvTracker := mkRecvTracker 3 {[5]} true 0.

Lemma demo_tracker_wf : tracker_wf demo_tracker.
Proof.
  split_and!; simpl; [done|lia|lia|]. intros s ->%elem_of_singleton. unfold MAX_REORDER_AHEAD. lia.
Qed.

Lemma recv_tracker_record_witness :
  ∃ tr', RecvTracker_record 5 demo_tracker = Ok (false, tr') ∧ recorded 5 demo_tracker tr'.
Proof.
  destruct (recv_tracker_record 5 demo_tracker demo_tracker_wf) as (tr' & H1 & H2 & _); [lia|].
  exists tr'. split; [exact H1|exact H2].
Defined.

Lemma recv_tracker_missing_witness :
  RecvTracker_missing 2 demo_tracker = Ok (3, 0, false) ∧
  ∃ bm, RecvTracker_missing 5 demo_tracker = Ok (3, bm, true) ∧ Z.testbit bm 1 = true.
Proof.
  split.
  - apply (recv_tracker_missing demo_tracker 2 demo_tracker_wf eq_refl); simpl; lia.
  - destruct (recv_tracker_missing demo_tracker 5 demo_tracker_wf eq_refl) as (_ & H & _); [lia|].
    destruct H as (bm & Hm & Hb); [simpl; lia..|]. exists bm. split; [exact Hm|].
    apply Hb; [lia|]. simpl. split_and!; [lia|lia|]. unfold has, demo_tracker. simpl.
    intros [_ [?|?%elem_of_singleton]]; lia.
Defined.

Lemma reliable_recovery_witness :
  ∃ h tr', store_all 1 [[x01]; [x02]; [x03]; [x04]; [x05]; [x06]] SendHistory_new = Ok h ∧
    recovery_rounds 8 h 6 demo_tracker = Ok tr' ∧ tracker_wf tr' ∧ 6 < expected tr'.
Proof.
  apply (reliable_recovery 1 [[x01]; [x02]; [x03]; [x04]; [x05]; [x06]] demo_tracker);
    [lia|done|apply demo_tracker_wf|done|vm_compute; congruence|vm_compute; reflexivity].
Defined.

(** In both build profiles. *)
Lemma missing_never_returns_witness :
  @RecvTracker_missing true (2 ^ 64 - 1) (mkRecvTracker (2 ^ 64 - 32) ∅ true 0) = Panic ∧
  @missing_loop false 1000 (2 ^ 64 - 32) (2 ^ 64 - 1) (2 ^ 64 - 32) ∅ 0 false = Err out_of_fuel.
Proof.
  split.
  - apply (@missing_never_returns true (mkRecvTracker (2 ^ 64 - 32) ∅ true 0)); reflexivity.
  - apply (@missing_never_returns false (mkRecvTracker (2 ^ 64 - 32) ∅ true 0)); reflexivity.
Defined.
