(* ===== verification/Wildcard.v ===== *)
(** * Wildcard: MQTT-style topic patterns (src/rtps/wildcard.rs)

    A [&str] is its UTF-8 bytes; '/' '+' and '#' are single bytes, so
    splitting and comparing bytes is splitting and comparing characters. *)

From S2P Require Import Prelude.

Definition SLASH : byte := x2f.
Definition HASH : list byte := [x23].
Definition PLUS : list byte := [x2b].

(** [s.split('/').collect()]: never empty. *)
Fixpoint split_slash (s : list byte) : list (list byte) :=
  match s with
  | [] => [[]]
  | c :: s =>
      if bool_decide (c = SLASH) then [] :: split_slash s
      else match split_slash s with
           | seg :: segs => (c :: seg) :: segs
           | [] => [[c]]
           end
  end.

Fixpoint match_segments (p_segs t_segs : list (list byte)) : bool :=
  match p_segs with
  | [] => match t_segs with [] => true | _ => false end
  | p_head :: p_rest =>
      if bool_decide (p_head = HASH) then true
      else match t_segs with
           | [] => false
           | t_head :: t_rest =>
               if bool_decide (p_head = PLUS) || bool_decide (p_head = t_head)
               then match_segments p_rest t_rest else false
           end
  end.

Definition topic_matches (pattern topic : list byte) : bool :=
  match_segments (split_slash pattern) (split_slash topic).

(** ** Specification *)

(** The rules of the matcher, one constructor per rule. *)
Inductive seg_match : list (list byte) → list (list byte) → Prop :=
| match_end : seg_match [] []
| match_hash ps ts : seg_match (HASH :: ps) ts
| match_plus ps t ts : seg_match ps ts → seg_match (PLUS :: ps) (t :: ts)
| match_literal p ps ts : seg_match ps ts → seg_match (p :: ps) (p :: ts).

(** Levels joined by '/'. *)
Fixpoint join_slash (segs : list (list byte)) : list byte :=
  match segs with
  | [] => []
  | [seg] => seg
  | seg :: segs => seg ++ SLASH :: join_slash segs
  end.

Lemma split_nonempty s : split_slash s ≠ [].
Proof. destruct s as [|c s]; simpl; [done|]. case_bool_decide; [done|]. by destruct (split_slash s). Qed.

Lemma join_split s : join_slash (split_slash s) = s.
Proof.
  induction s as [|c s IH]; [done|]. simpl. pose proof (split_nonempty s).
  destruct (split_slash s) as [|seg segs]; [done|]. case_bool_decide as Hc.
  - rewrite Hc, <- IH. done.
  - rewrite <- IH. by destruct segs.
Qed.

Lemma match_segments_spec ps ts : match_segments ps ts = true ↔ seg_match ps ts.
Proof.
  split.
  - revert ts. induction ps as [|p ps IH]; intros ts; simpl.
    + destruct ts; [constructor|done].
    + case_bool_decide as Hh; [subst; constructor|]. destruct ts as [|t ts]; [done|].
      case_bool_decide as Hp; simpl; [subst; by constructor; apply IH|].
      case_bool_decide as Ht; [subst; by constructor; apply IH|done].
  - induction 1 as [|ps ts|ps t ts _ IH|p ps ts _ IH]; simpl; [done| | |].
    + done.
    + by rewrite IH.
    + case_bool_decide; [done|]. rewrite (bool_decide_true (p = p)) by done. by rewrite orb_true_r.
Qed.

Definition literal (segs : list (list byte)) : Prop := Forall (λ p, p ≠ HASH ∧ p ≠ PLUS) segs.

Lemma match_segments_literal ps ts : literal ps → match_segments ps ts = true ↔ ps = ts.
Proof.
  intros Hl. revert ts. induction Hl as [|p ps [Hh Hp] _ IH]; intros ts; simpl.
  - by destruct ts.
  - rewrite bool_decide_false by done. destruct ts as [|t ts]; [done|].
    rewrite (bool_decide_false (p = PLUS)) by done. cbn [orb]. case_bool_decide as Ht.
    + rewrite IH, Ht. split; congruence.
    + split; congruence.
Qed.

(** The matcher decides exactly the documented rules on the '/'-separated
    levels, and a pattern without wildcards matches only the topic it spells. *)
Theorem topic_matches_spec pattern topic :
  (topic_matches pattern topic = true ↔ seg_match (split_slash pattern) (split_slash topic))
  ∧ (literal (split_slash pattern) → topic_matches pattern topic = true ↔ pattern = topic).
Proof.
  split; [apply match_segments_spec|]. intros Hl. unfold topic_matches.
  rewrite match_segments_literal by done. split; [|by intros ->].
  intros Heq. by rewrite <- (join_split pattern), Heq, join_split.
Qed.
