(* ===== verification/Persist.v ===== *)
(** * Persist: the disk cache of TransientLocal samples (src/rtps/persist.rs)

    The file system is the contents of its files, a test that tells which
    paths may be created, and the largest size a file may reach: a write
    past it stores what fits and fails.  A path is its string. *)

From S2P Require Import Prelude.

Definition MAX_PERSISTED_PAYLOAD_BYTES : Z := 64 * 1024 * 1024.

(** [std::io::Error] as far as the code distinguishes it. *)
Inductive IoError : Type := NotFound | UnexpectedEof.

Inductive PersistLoadError : Type :=
| OversizedPayload (got : Z)
| Io (e : IoError).

Record FileSystem : Type := mkFileSystem {
  files : gmap (list byte) (list byte);
  can_create : list byte → bool;
  max_file : nat }.

(** [Path::new(dir).join(name)] for a relative [name]. *)
Definition path_join (dir name : list byte) : list byte :=
  match reverse dir with
  | [] => name
  | c :: _ => if bool_decide (c = x2f) then dir ++ name else dir ++ x2f :: name
  end.

Definition sanitise (topic : list byte) : list byte :=
  (λ c, if bool_decide (c = x2f ∨ c = x5c ∨ c = x3a) then x5f else c) <$> topic.

Definition persist_path (dir topic : list byte) : list byte :=
  let safe := sanitise topic in
  path_join dir (bytes_of_ascii "topic-" ++ safe ++ bytes_of_ascii ".bin").

(** [f.read_exact(&mut buf)] of [n] bytes at the front of what is left. *)
Definition read_exact (n : Z) (rest : list byte) : res PersistLoadError (list byte * list byte) :=
  if len rest <? n then Err (Io UnexpectedEof)
  else Ok (take (Z.to_nat n) rest, drop (Z.to_nat n) rest).

Definition persist_load (dir topic : list byte) (fs : FileSystem)
    : res PersistLoadError (option (list byte)) :=
  match dir with
  | [] => Ok None
  | _ =>
      let path := persist_path dir topic in
      match files fs !! path with
      | None => Err (Io NotFound)
      | Some f =>
          r ← read_exact 4 f;
          let length := from_le r.1 in
          if MAX_PERSISTED_PAYLOAD_BYTES <? length then Err (OversizedPayload length)
          else b ← read_exact length r.2; Ok (Some b.1)
      end
  end.

(** [f.write_all(bs)] on a file that holds [content]. *)
Definition write_all (limit : nat) (bs content : list byte) : list byte :=
  content ++ take (limit - length content) bs.

Definition persist_flush (dir topic payload : list byte) (fs : FileSystem) : FileSystem :=
  match dir with
  | [] => fs
  | _ =>
      let path := persist_path dir topic in
      if can_create fs path then
        let f := [] in
        let len_bytes := to_le 4 (as_u 32 (len payload)) in
        let f := write_all (max_file fs) len_bytes f in
        let f := write_all (max_file fs) payload f in
        mkFileSystem (<[path := f]> (files fs)) (can_create fs) (max_file fs)
      else fs
  end.

(** ** Properties *)

Lemma write_all_fits limit bs content : (length content + length bs ≤ limit)%nat →
  write_all limit bs content = content ++ bs.
Proof. intros. unfold write_all. rewrite take_ge by lia. done. Qed.

(** The file a flush writes is a prefix of header and payload. *)
Lemma flush_contents limit payload :
  write_all limit payload (write_all limit (to_le 4 (as_u 32 (len payload))) [])
  = take limit (to_le 4 (as_u 32 (len payload)) ++ payload).
Proof.
  set (h := to_le 4 _). unfold write_all. rewrite app_nil_l, Nat.sub_0_r, length_take.
  assert (length h = 4)%nat as Hh by apply length_le_split.
  rewrite firstn_app. do 2 f_equal. lia.
Qed.

Lemma read_exact_short n l : len l < n → read_exact n l = Err (Io UnexpectedEof).
Proof. intros. unfold read_exact. by ltb_true lia. Qed.

Lemma read_exact_ok n l : n <= len l →
  read_exact n l = Ok (take (Z.to_nat n) l, drop (Z.to_nat n) l).
Proof. intros. unfold read_exact. by ltb_false lia. Qed.

(** What [persist_load] does with the contents of the file. *)
Definition load_contents (f : list byte) : res PersistLoadError (option (list byte)) :=
  r ← read_exact 4 f;
  let length := from_le r.1 in
  if MAX_PERSISTED_PAYLOAD_BYTES <? length then Err (OversizedPayload length)
  else b ← read_exact length r.2; Ok (Some b.1).

Lemma load_contents_header n z p : is_u32 z →
  load_contents (take n (to_le 4 z ++ p)) =
  if Z.of_nat n <? 4 then Err (Io UnexpectedEof)
  else if MAX_PERSISTED_PAYLOAD_BYTES <? z then Err (OversizedPayload z)
  else b ← read_exact z (take (n - 4) p); Ok (Some b.1).
Proof.
  intros Hz. unfold load_contents. assert (length (to_le 4 z) = 4)%nat as Hh by apply length_le_split.
  pose proof (len_nonneg p). destruct (Z.ltb_spec (Z.of_nat n) 4).
  { by rewrite read_exact_short by (autorewrite with len; lia). }
  rewrite read_exact_ok, bind_ok by (autorewrite with len; lia). cbn [fst snd].
  change (Z.to_nat 4) with 4%nat. rewrite firstn_app, Hh, (take_ge (to_le 4 z)) by lia.
  rewrite take_app_length', drop_app_length' by done. by rewrite from_le_u32.
Qed.

Lemma load_prefix payload n : len payload <= MAX_PERSISTED_PAYLOAD_BYTES →
  load_contents (take n (to_le 4 (as_u 32 (len payload)) ++ payload))
  = if Z.of_nat n <? 4 + len payload then Err (Io UnexpectedEof) else Ok (Some payload).
Proof.
  intros Hl. unfold MAX_PERSISTED_PAYLOAD_BYTES in Hl. pose proof (len_nonneg payload).
  rewrite load_contents_header by (apply (as_u_range 32); lia). rewrite as_u_small by lia.
  rewrite (proj2 (Z.ltb_ge MAX_PERSISTED_PAYLOAD_BYTES _)) by done.
  destruct (Z.ltb_spec (Z.of_nat n) 4).
  { by ltb_true lia. }
  destruct (Z.ltb_spec (Z.of_nat n) (4 + len payload)).
  - by rewrite read_exact_short by (autorewrite with len; lia).
  - rewrite take_ge by (unfold len in *; lia). rewrite read_exact_ok, bind_ok by lia.
    cbn [fst]. unfold len. by rewrite Nat2Z.id, firstn_all.
Qed.

(** What a flush leaves for a load. *)
Lemma load_flushed dir topic payload fs : dir ≠ [] → len payload <= MAX_PERSISTED_PAYLOAD_BYTES →
  persist_load dir topic (persist_flush dir topic payload fs) =
    (if can_create fs (persist_path dir topic) then
       if Z.of_nat (max_file fs) <? 4 + len payload then Err (Io UnexpectedEof) else Ok (Some payload)
     else persist_load dir topic fs).
Proof.
  intros Hdir Hl. destruct dir as [|c dir]; [done|]. unfold persist_flush.
  set (path := persist_path (c :: dir) topic). destruct (can_create fs path); [|done].
  unfold persist_load. cbn [files]. fold path. rewrite lookup_insert_eq, flush_contents.
  by apply load_prefix.
Qed.

(** Round trip through the disk: a payload within the cap is read back
    exactly; if the disk cut the file short, loading reports a truncated
    file rather than a wrong payload; a directory that cannot be written
    leaves the previous sample; other topics keep their files. *)
Theorem persist_roundtrip dir topic payload fs :
  dir ≠ [] → len payload <= MAX_PERSISTED_PAYLOAD_BYTES →
  let path := persist_path dir topic in
  let fs' := persist_flush dir topic payload fs in
  persist_load dir topic fs' =
    (if can_create fs path then
       if Z.of_nat (max_file fs) <? 4 + len payload then Err (Io UnexpectedEof) else Ok (Some payload)
     else persist_load dir topic fs)
  ∧ ∀ topic', sanitise topic' ≠ sanitise topic →
      persist_load dir topic' fs' = persist_load dir topic' fs.
Proof.
  intros Hdir Hl path fs'. split; [by apply load_flushed|].
  destruct dir as [|c dir]; [done|].
  unfold fs', persist_flush. fold path. destruct (can_create fs path); [|done].
  intros topic' Hne. unfold persist_load. cbn [files]. rewrite lookup_insert_ne; [done|].
  unfold path, persist_path, path_join. intros Heq. apply Hne.
  assert (∀ s : list byte, bytes_of_ascii "topic-" ++ s ++ bytes_of_ascii ".bin"
            = bytes_of_ascii "topic-" ++ (s ++ bytes_of_ascii ".bin")) as _ by done.
  destruct (reverse (c :: dir)) as [|d r]; [|case_bool_decide];
    simplify_list_eq; by simplify_list_eq.
Qed.

(** A payload above the cap is written but never loaded. *)
Lemma persist_oversized dir topic payload fs :
  dir ≠ [] → MAX_PERSISTED_PAYLOAD_BYTES < len payload < 2 ^ 32 →
  can_create fs (persist_path dir topic) = true → (4 ≤ max_file fs)%nat →
  persist_load dir topic (persist_flush dir topic payload fs) = Err (OversizedPayload (len payload)).
Proof.
  intros Hdir Hl Hc Hm. destruct dir as [|c dir]; [done|]. unfold persist_flush. rewrite Hc.
  unfold persist_load. cbn [files]. rewrite lookup_insert_eq, flush_contents.
  fold (load_contents (take (max_file fs) (to_le 4 (as_u 32 (len payload)) ++ payload))).
  unfold MAX_PERSISTED_PAYLOAD_BYTES in *.
  rewrite load_contents_header by (apply (as_u_range 32); lia). rewrite as_u_small by lia.
  ltb_false lia. unfold MAX_PERSISTED_PAYLOAD_BYTES. by ltb_true lia.
Qed.

(** ** Concrete instances *)

Lemma persist_roundtrip_witness :
  let fs := mkFileSystem ∅ (λ _, true) 100 in
  persist_load [x64] [x61; x2f; x62] (persist_flush [x64] [x61; x2f; x62] [x07; x08] fs)
  = Ok (Some [x07; x08]).
Proof.
  intros fs.
  destruct (persist_roundtrip [x64] [x61; x2f; x62] [x07; x08] fs) as [H _].
  - discriminate.
  - vm_compute. congruence.
  - exact H.
Defined.
