(* ===== verification/Pcap.v ===== *)
(** * Pcap: the capture container of the wire fixtures (src/rtps/pcap.rs) *)

From S2P Require Import Prelude.

Inductive PcapError : Type :=
| PcapTruncated (expected got : Z)
| PcapBadMagic (got : Z)
| UnsupportedLinkType (got : Z)
| NotIpv4Udp (index : Z).

Definition PCAP_MAGIC_MICROS_LE : Z := 2712847316.
Definition LINKTYPE_RAW : Z := 101.
Definition GLOBAL_HEADER_LEN : Z := 24.
Definition RECORD_HEADER_LEN : Z := 16.
Definition IPV4_HEADER_LEN : Z := 20.
Definition UDP_HEADER_LEN : Z := 8.
Definition IPPROTO_UDP : byte := x11.

Record PcapPacket : Type := mkPcapPacket {
  ts_sec : Z;
  ts_usec : Z;
  src_addr : vec byte 4;
  src_port : Z;
  dst_addr : vec byte 4;
  dst_port : Z;
  pk_payload : list byte }.

#[global] Instance PcapPacket_eq_dec : EqDecision PcapPacket.
Proof. solve_decision. Defined.

(** ** Encode *)

(** The IPv4 and UDP headers and the payload of one record. *)
Definition encode_datagram (pkt : PcapPacket) : list byte :=
  let udp_len := UDP_HEADER_LEN + len (pk_payload pkt) in
  let ip_total_len := IPV4_HEADER_LEN + udp_len in
  let d := [] ++ [x45] in
  let d := d ++ [x00] in
  let d := d ++ to_be 2 (as_u 16 ip_total_len) in
  let d := d ++ to_be 2 0 in
  let d := d ++ to_be 2 0 in
  let d := d ++ [x40] in
  let d := d ++ [IPPROTO_UDP] in
  let d := d ++ to_be 2 0 in
  let d := d ++ vec_to_list (src_addr pkt) in
  let d := d ++ vec_to_list (dst_addr pkt) in
  let d := d ++ to_be 2 (src_port pkt) in
  let d := d ++ to_be 2 (dst_port pkt) in
  let d := d ++ to_be 2 (as_u 16 udp_len) in
  let d := d ++ to_be 2 0 in
  d ++ pk_payload pkt.

Definition encode_record (out : list byte) (pkt : PcapPacket) : list byte :=
  let ip_udp_and_payload := encode_datagram pkt in
  let incl_len := as_u 32 (len ip_udp_and_payload) in
  let out := out ++ to_le 4 (ts_sec pkt) in
  let out := out ++ to_le 4 (ts_usec pkt) in
  let out := out ++ to_le 4 incl_len in
  let out := out ++ to_le 4 incl_len in
  out ++ ip_udp_and_payload.

Definition encode_pcap_file (packets : list PcapPacket) : list byte :=
  let out := [] ++ to_le 4 PCAP_MAGIC_MICROS_LE in
  let out := out ++ to_le 2 2 in
  let out := out ++ to_le 2 4 in
  let out := out ++ to_le 4 0 in
  let out := out ++ to_le 4 0 in
  let out := out ++ to_le 4 65535 in
  let out := out ++ to_le 4 LINKTYPE_RAW in
  foldl encode_record out packets.

(** ** Decode *)

(** [bytes.get(a..b)] *)
Definition get_range (l : list byte) (a b : Z) : option (list byte) :=
  if (a <=? b) && (b <=? len l) then Some (sub l a (b - a)) else None.

Definition decode_ipv4_udp_record (data : list byte) (ts_sec ts_usec index : Z)
    : res PcapError PcapPacket :=
  if len data <? IPV4_HEADER_LEN + UDP_HEADER_LEN then Err (NotIpv4Udp index)
  else
    version_ihl ← idx data 0;
    let ihl_words := Z.land (byte.unsigned version_ihl) 15 in
    let ihl_bytes := ihl_words * 4 in
    if negb (Z.shiftr (byte.unsigned version_ihl) 4 =? 4) || (ihl_bytes <? IPV4_HEADER_LEN)
         || (len data <? ihl_bytes)
    then Err (NotIpv4Udp index)
    else
      protocol ← idx data 9;
      if negb (bool_decide (protocol = IPPROTO_UDP)) then Err (NotIpv4Udp index)
      else
        s ← read_bytes 4 data 12; src_addr ← arr_of 4 s;
        d ← read_bytes 4 data 16; dst_addr ← arr_of 4 d;
        match get_range data ihl_bytes (ihl_bytes + UDP_HEADER_LEN) with
        | None => Err (NotIpv4Udp index)
        | Some udp =>
            src_port ← read_be 2 udp 0;
            dst_port ← read_be 2 udp 2;
            udp_len ← read_be 2 udp 4;
            if udp_len <? UDP_HEADER_LEN then Err (NotIpv4Udp index)
            else
              let payload_len := udp_len - UDP_HEADER_LEN in
              let payload_start := ihl_bytes + UDP_HEADER_LEN in
              match get_range data payload_start (payload_start + payload_len) with
              | None => Err (NotIpv4Udp index)
              | Some payload =>
                  Ok (mkPcapPacket ts_sec ts_usec src_addr src_port dst_addr dst_port payload)
              end
        end.

(** The [while pos < bytes.len()] loop; a record is at least 16 bytes. *)
Fixpoint decode_records (fuel : nat) (bytes : list byte) (pos index : Z)
    : res PcapError (list PcapPacket) :=
  match fuel with
  | O => Ok []
  | S fuel =>
      if pos <? len bytes then
        match get_range bytes pos (pos + RECORD_HEADER_LEN) with
        | None => Err (PcapTruncated (pos + RECORD_HEADER_LEN) (len bytes))
        | Some record_header =>
            ts_sec ← read_le 4 record_header 0;
            ts_usec ← read_le 4 record_header 4;
            incl_len ← read_le 4 record_header 8;
            let pos := pos + RECORD_HEADER_LEN in
            match get_range bytes pos (pos + incl_len) with
            | None => Err (PcapTruncated (pos + incl_len) (len bytes))
            | Some record_data =>
                let pos := pos + incl_len in
                p ← decode_ipv4_udp_record record_data ts_sec ts_usec index;
                ps ← decode_records fuel bytes pos (index + 1);
                Ok (p :: ps)
            end
        end
      else Ok []
  end.

Definition decode_pcap_file (bytes : list byte) : res PcapError (list PcapPacket) :=
  if len bytes <? GLOBAL_HEADER_LEN then Err (PcapTruncated GLOBAL_HEADER_LEN (len bytes))
  else
    magic ← read_le 4 bytes 0;
    if negb (magic =? PCAP_MAGIC_MICROS_LE) then Err (PcapBadMagic magic)
    else
      network ← read_le 4 bytes 20;
      if negb (network =? LINKTYPE_RAW) then Err (UnsupportedLinkType network)
      else decode_records (length bytes) bytes GLOBAL_HEADER_LEN 0.

(** ** Round trip *)

(** A packet the two headers can describe: its lengths fit 16 bits. *)
Definition packet_wf (p : PcapPacket) : Prop :=
  is_u32 (ts_sec p) ∧ is_u32 (ts_usec p) ∧ is_u16 (src_port p) ∧ is_u16 (dst_port p)
  ∧ len (pk_payload p) <= 65507.

Lemma encode_datagram_eq p :
  encode_datagram p =
  [x45; x00] ++ to_be 2 (as_u 16 (28 + len (pk_payload p))) ++ to_be 2 0 ++ to_be 2 0
  ++ [x40] ++ [IPPROTO_UDP] ++ to_be 2 0 ++ vec_to_list (src_addr p) ++ vec_to_list (dst_addr p)
  ++ to_be 2 (src_port p) ++ to_be 2 (dst_port p)
  ++ to_be 2 (as_u 16 (8 + len (pk_payload p))) ++ to_be 2 0 ++ pk_payload p.
Proof.
  unfold encode_datagram, IPV4_HEADER_LEN, UDP_HEADER_LEN.
  replace (20 + (8 + len (pk_payload p))) with (28 + len (pk_payload p)) by lia.
  rewrite app_nil_l, <- !app_assoc. done.
Qed.

Lemma len_datagram p : len (encode_datagram p) = 28 + len (pk_payload p).
Proof. rewrite encode_datagram_eq. len_tac. Qed.

Lemma get_range_ok l a b : 0 <= a → a <= b → b <= len l → get_range l a b = Some (sub l a (b - a)).
Proof. intros. unfold get_range. by rewrite !(proj2 (Z.leb_le _ _)) by lia. Qed.

Lemma decode_datagram p s u i : packet_wf p → 
  decode_ipv4_udp_record (encode_datagram p) s u i =
  Ok (mkPcapPacket s u (src_addr p) (src_port p) (dst_addr p) (dst_port p) (pk_payload p)).
Proof.
  intros (_ & _ & Hsp & Hdp & Hl). unfold decode_ipv4_udp_record, IPV4_HEADER_LEN, UDP_HEADER_LEN.
  rewrite len_datagram. pose proof (len_nonneg (pk_payload p)). ltb_false lia.
  pose proof (len_datagram p) as Hlen. rewrite encode_datagram_eq in *. set (d := _ ++ _) in *.
  rewrite (idx_of_sub d 0 x45), bind_ok by done.
  change (Z.land (byte.unsigned x45) 15 * 4) with 20.
  change (Z.shiftr (byte.unsigned x45) 4 =? 4) with true. cbn [negb orb].
  change (20 <? 20) with false. cbn [orb]. ltb_false lia.
  assert (sub d 9 1 = [IPPROTO_UDP]) as H9 by (unfold d; sub_norm; done).
  assert (sub d 12 4 = vec_to_list (src_addr p)) as H12 by (unfold d; sub_norm; done).
  assert (sub d 16 4 = vec_to_list (dst_addr p)) as H16 by (unfold d; sub_norm; done).
  assert (sub d 20 8 = to_be 2 (src_port p) ++ to_be 2 (dst_port p)
            ++ to_be 2 (as_u 16 (8 + len (pk_payload p))) ++ to_be 2 0) as H20.
  { unfold d. sub_norm. rewrite 3!app_assoc. sub_norm. by rewrite <- !app_assoc. }
  assert (sub d 28 (len (pk_payload p)) = pk_payload p) as H28 by (unfold d; sub_norm; done).
  clearbody d.
  rewrite (idx_of_sub d 9 IPPROTO_UDP), bind_ok by done.
  rewrite bool_decide_true by done. cbn [negb].
  rewrite !read_bytes_ok by lia. change (Z.of_nat 4) with 4. rewrite H12, H16, !bind_ok, !arr_of_vec, !bind_ok.
  rewrite get_range_ok by lia. change (20 + 8 - 20) with 8. rewrite H20.
  rewrite !read_be_ok by len_tac. sub_norm. rewrite !arr_of_vec, !bind_ok, !from_be_u16 by (done || by apply (as_u_range 16)).
  rewrite as_u_small by lia. ltb_false lia.
  rewrite get_range_ok by lia. replace (20 + 8 + (8 + len (pk_payload p) - 8) - (20 + 8)) with (len (pk_payload p)) by lia.
  change (20 + 8) with 28. by rewrite H28.
Qed.

Definition record_bytes (p : PcapPacket) : list byte :=
  to_le 4 (ts_sec p) ++ to_le 4 (ts_usec p) ++ to_le 4 (as_u 32 (len (encode_datagram p)))
  ++ to_le 4 (as_u 32 (len (encode_datagram p))) ++ encode_datagram p.

Lemma len_record p : len (record_bytes p) = 44 + len (pk_payload p).
Proof. unfold record_bytes. autorewrite with len. rewrite len_datagram. lia. Qed.

Lemma encode_records_eq ps out : foldl encode_record out ps = out ++ concat (record_bytes <$> ps).
Proof.
  revert out. induction ps as [|p ps IH]; intros out; [by rewrite app_nil_r|].
  cbn [foldl]. rewrite IH, fmap_cons. cbn [concat]. unfold encode_record, record_bytes.
  by rewrite <- !app_assoc.
Qed.

Lemma decode_records_spec fuel pre ps i : Forall packet_wf ps → (length ps < fuel)%nat →
  decode_records fuel (pre ++ concat (record_bytes <$> ps)) (len pre) i = Ok ps.
Proof.
  intros Hps. revert fuel pre i. induction Hps as [|p ps Hp _ IH]; intros [|fuel] pre i Hf; try (simpl in Hf; lia).
  - cbn [decode_records]. rewrite fmap_nil. cbn [concat]. rewrite app_nil_r. by rewrite Z.ltb_irrefl.
  - cbn [decode_records]. rewrite fmap_cons. cbn [concat].
    pose proof (len_record p) as Hr. pose proof (len_datagram p) as Hd. pose proof (len_nonneg (pk_payload p)).
    set (rest := concat (record_bytes <$> ps)).
    assert (get_range (pre ++ record_bytes p ++ rest) (len pre + 16) (len pre + 16 + len (encode_datagram p))
            = Some (encode_datagram p)) as Hg2.
    { rewrite get_range_ok by len_tac. f_equal. unfold record_bytes. rewrite <- !app_assoc. by sub_norm. }
    ltb_true len_tac. unfold RECORD_HEADER_LEN. rewrite get_range_ok by len_tac.
    set (hdr := sub _ _ (len pre + 16 - len pre)).
    assert (hdr = to_le 4 (ts_sec p) ++ to_le 4 (ts_usec p) ++ to_le 4 (as_u 32 (len (encode_datagram p)))
                  ++ to_le 4 (as_u 32 (len (encode_datagram p)))) as ->.
    { unfold hdr. sub_norm. unfold record_bytes. rewrite <- !app_assoc, 3!app_assoc. sub_norm. by rewrite <- !app_assoc. }
    rewrite !read_le_ok by len_tac. sub_norm. destruct Hp as (Hs & Hu & Hrest).
    rewrite !from_le_u32, !bind_ok by (done || by apply (as_u_range 32)).
    rewrite (as_u_small 32) by (rewrite Hd; destruct Hrest as (_ & _ & ?); lia). rewrite Hg2.
    rewrite decode_datagram by done. rewrite bind_ok.
    replace (len pre + 16 + len (encode_datagram p)) with (len (pre ++ record_bytes p)) by len_tac.
    rewrite (app_assoc pre). unfold rest. rewrite IH by (simpl in Hf; lia). by destruct p.
Qed.

(** Round trip of capture files: decoding an encoded file gives back its
    packets in order. *)
Theorem pcap_roundtrip ps : Forall packet_wf ps → decode_pcap_file (encode_pcap_file ps) = Ok ps.
Proof.
  intros Hps. unfold encode_pcap_file. rewrite encode_records_eq. rewrite app_nil_l, <- !app_assoc.
  unfold decode_pcap_file, GLOBAL_HEADER_LEN. ltb_false len_tac.
  rewrite !read_le_ok, !bind_ok by len_tac. sub_norm. rewrite !from_le_u32 by done. cbn [negb Z.eqb].
  change (PCAP_MAGIC_MICROS_LE =? PCAP_MAGIC_MICROS_LE) with true.
  change (LINKTYPE_RAW =? LINKTYPE_RAW) with true. cbn [negb].
  rewrite 6!app_assoc. set (hd := (_ ++ to_le 4 LINKTYPE_RAW)).
  change 24 with (len hd). apply decode_records_spec; [done|].
  rewrite length_app. enough (length ps ≤ length (concat (record_bytes <$> ps)))%nat.
  { change (length hd) with 24%nat. lia. }
  clear. induction ps as [|p ps IH]; [done|]. rewrite fmap_cons. cbn [concat]. rewrite length_app.
  pose proof (len_record p). pose proof (len_nonneg (pk_payload p)). unfold len in *. simpl. lia.
Qed.

(** ** Arbitrary input *)

Lemma get_range_Some l a b r : 0 <= a → get_range l a b = Some r → a <= b <= len l ∧ len r = b - a.
Proof.
  intros Ha. unfold get_range. destruct (Z.leb_spec a b), (Z.leb_spec b (len l)); try done.
  intros [= <-]. split; [lia|]. apply len_sub; lia.
Qed.

Lemma decode_record_no_panic d s u i : no_panic (decode_ipv4_udp_record d s u i).
Proof.
  unfold decode_ipv4_udp_record, IPV4_HEADER_LEN, UDP_HEADER_LEN.
  destruct (Z.ltb_spec (len d) (20 + 8)); [done|].
  destruct (idx_ok (E:=PcapError) d 0) as (v & -> & _); [lia|]. rewrite bind_ok.
  destruct (_ || _) eqn:Hc; [done|]. apply orb_false_iff in Hc as [[_ Hi%Z.ltb_ge]%orb_false_iff _].
  destruct (idx_ok (E:=PcapError) d 9) as (p & -> & _); [lia|]. rewrite bind_ok.
  destruct (negb _); [done|].
  rewrite !read_bytes_ok, !bind_ok, !arr_of_ok, !bind_ok by (rewrite ?len_sub; lia).
  rewrite !arr_of_ok, !bind_ok by (rewrite ?len_sub; lia).
  set (ihl := Z.land _ 15 * 4) in *. clearbody ihl.
  destruct (get_range d ihl _) as [udp|] eqn:Hg; [|done].
  apply get_range_Some in Hg as [_ Hu]; [|lia].
  rewrite !read_be_ok, !bind_ok by lia. destruct (_ <? 8); [done|]. by destruct (get_range _ _ _).
Qed.

(** Decoding never panics and ends: the cursor advances by at least the
    record header, so the length of the file bounds the rounds. *)
Lemma decode_records_no_panic fuel bytes pos i : 0 <= pos → no_panic (decode_records fuel bytes pos i).
Proof.
  revert pos i. induction fuel as [|fuel IH]; intros pos i Hp; [done|]. cbn [decode_records].
  destruct (_ <? _); [|done]. destruct (get_range bytes pos _) as [h|] eqn:Hh; [|done].
  apply get_range_Some in Hh as [_ Hl]; [|done]. unfold RECORD_HEADER_LEN in *.
  rewrite !read_le_ok, !bind_ok by lia.
  set (n := from_le (sub h 8 _)). assert (0 <= n) by apply from_le_range.
  destruct (get_range bytes _ _); [|done].
  apply no_panic_bind; [apply decode_record_no_panic|]. intros p _.
  apply no_panic_bind; [apply IH; lia|]. done.
Qed.

Lemma decode_records_fuel n m bytes pos i : 0 <= pos →
  len bytes - pos < Z.of_nat n → len bytes - pos < Z.of_nat m →
  decode_records n bytes pos i = decode_records m bytes pos i.
Proof.
  revert m pos i. induction n as [|n IH]; intros m pos i Hp Hn Hm.
  { destruct m; [done|]. cbn [decode_records]. by ltb_false lia. }
  destruct m as [|m]; cbn [decode_records].
  { by ltb_false lia. }
  destruct (Z.ltb_spec pos (len bytes)); [|done].
  destruct (get_range bytes pos _) as [h|] eqn:Hh; [|done].
  apply get_range_Some in Hh as [_ Hl]; [|done]. unfold RECORD_HEADER_LEN in *.
  rewrite !read_le_ok, !bind_ok by lia.
  set (k := from_le (sub h 8 _)). assert (0 <= k) by apply from_le_range.
  destruct (get_range bytes _ _) as [d|] eqn:Hd; [|done].
  destruct (decode_ipv4_udp_record d _ _ i); [|done..]. rewrite !bind_ok.
  by rewrite (IH m) by lia.
Qed.

(** The capture decoder is total: it never panics on any input, and its loop
    has finished within the fuel that [decode_pcap_file] gives it. *)
Theorem pcap_decode_total bytes :
  no_panic (decode_pcap_file bytes) ∧
  ∀ fuel i, len bytes < Z.of_nat fuel →
    decode_records fuel bytes GLOBAL_HEADER_LEN i = decode_records (length bytes) bytes GLOBAL_HEADER_LEN i.
Proof.
  unfold GLOBAL_HEADER_LEN. split.
  - unfold decode_pcap_file, GLOBAL_HEADER_LEN. destruct (Z.ltb_spec (len bytes) 24); [done|].
    rewrite !read_le_ok, !bind_ok by lia. destruct (negb _); [done|]. destruct (negb _); [done|].
    by apply decode_records_no_panic.
  - intros fuel i Hf. pose proof (len_nonneg bytes). 
    destruct (decide (bytes = [])) as [->|Hne].
    + destruct fuel; [done|]. simpl. done.
    + apply decode_records_fuel; [lia|lia|]. unfold len in *. destruct bytes; [done|]. simpl. lia.
Qed.

(** ** Concrete instances *)

Lemma pcap_roundtrip_witness :
  let p := mkPcapPacket 1 2 [# x7f; x00; x00; x01] 7400 [# xef; xff; x00; x01] 7401 [x52; x54; x50; x53] in
  decode_pcap_file (encode_pcap_file [p; p]) = Ok [p; p].
Proof.
  intros p. apply pcap_roundtrip.
  repeat (apply Forall_cons; split); try (apply Forall_nil; exact I); repeat split; vm_compute; congruence.
Defined.
