(* ===== verification/Transport.v ===== *)
(** * Transport: the RTPS port assignment and its addresses
    (src/rtps/transport.rs)

    The sockets themselves are I/O of tokio and socket2; what is modelled is
    the arithmetic that decides where they are bound. *)

From S2P Require Import Prelude Locator.

Definition PORT_BASE : Z := 7400.
Definition DOMAIN_GAIN : Z := 250.
Definition PARTICIPANT_GAIN : Z := 2.

Definition SPDP_MULTICAST_ADDR : vec byte 4 := [# xef; xff; x00; x01].
Definition USER_DATA_MULTICAST_ADDR : vec byte 4 := [# xef; xff; x00; x02].
Definition SPDP_MULTICAST_ADDR_V6 : vec byte 16 :=
  [# xff; x03; x00; x00; x00; x00; x00; x00; x00; x00; x00; x00; x00; x00; x00; x01].
Definition USER_DATA_MULTICAST_ADDR_V6 : vec byte 16 :=
  [# xff; x03; x00; x00; x00; x00; x00; x00; x00; x00; x00; x00; x00; x00; x00; x02].

(** [u16::try_from(v).ok()] *)
Definition to_u16 (v : Z) : option Z := if v <? 65536 then Some v else None.

Section ports.
Context `{BuildProfile}.
Notation panics := (res Empty_set).

Definition meta_multicast_port (domain : Z) : panics (option Z) :=
  d ← umul 32 DOMAIN_GAIN domain;
  p ← uadd 32 PORT_BASE d;
  Ok (to_u16 p).

Definition meta_unicast_port (domain participant_idx : Z) : panics (option Z) :=
  d ← umul 32 DOMAIN_GAIN domain;
  p ← uadd 32 PORT_BASE d;
  p ← uadd 32 p 10;
  i ← umul 32 PARTICIPANT_GAIN participant_idx;
  p ← uadd 32 p i;
  Ok (to_u16 p).

Definition data_unicast_port (domain participant_idx : Z) : panics (option Z) :=
  d ← umul 32 DOMAIN_GAIN domain;
  p ← uadd 32 PORT_BASE d;
  p ← uadd 32 p 11;
  i ← umul 32 PARTICIPANT_GAIN participant_idx;
  p ← uadd 32 p i;
  Ok (to_u16 p).

Definition user_multicast_port (domain : Z) : panics (option Z) :=
  d ← umul 32 DOMAIN_GAIN domain;
  p ← uadd 32 PORT_BASE d;
  p ← uadd 32 p 1;
  Ok (to_u16 p).

(** ** Properties *)

(** Domains and participant indices the formula is meant for: the unicast
    ports of a participant must stay below the next domain. *)
Definition domain_ok (d : Z) : Prop := 0 <= d <= 232.
Definition index_ok (i : Z) : Prop := 0 <= i < 120.

Ltac port_tac :=
  unfold domain_ok, index_ok, PORT_BASE, DOMAIN_GAIN, PARTICIPANT_GAIN in *;
  repeat first [ rewrite bind_ok | rewrite umul_ok by lia | rewrite uadd_ok by lia ].

Lemma port_values d i : domain_ok d → index_ok i →
  meta_multicast_port d = Ok (Some (7400 + 250 * d)) ∧
  user_multicast_port d = Ok (Some (7400 + 250 * d + 1)) ∧
  meta_unicast_port d i = Ok (to_u16 (7400 + 250 * d + 10 + 2 * i)) ∧
  data_unicast_port d i = Ok (to_u16 (7400 + 250 * d + 11 + 2 * i)).
Proof using Type.
  intros Hd Hi.
  unfold meta_multicast_port, user_multicast_port, meta_unicast_port, data_unicast_port.
  port_tac. unfold to_u16. split_and!; try done; by ltb_true lia.
Qed.

(** No two sockets of the port assignment collide: within the valid domains
    and fewer than 120 participants per domain, the two unicast ports are
    injective in domain and index, meta and data ports never meet, neither
    ever equals a multicast port, and the multicast ports always exist. *)
Theorem ports_never_collide d i d' i' p :
  domain_ok d → index_ok i → domain_ok d' → index_ok i' →
  (meta_unicast_port d i = Ok (Some p) → meta_unicast_port d' i' = Ok (Some p) → d = d' ∧ i = i') ∧
  (data_unicast_port d i = Ok (Some p) → data_unicast_port d' i' = Ok (Some p) → d = d' ∧ i = i') ∧
  (meta_unicast_port d i = Ok (Some p) → data_unicast_port d' i' ≠ Ok (Some p)) ∧
  (meta_unicast_port d i = Ok (Some p) ∨ data_unicast_port d i = Ok (Some p) →
     meta_multicast_port d' ≠ Ok (Some p) ∧ user_multicast_port d' ≠ Ok (Some p)) ∧
  (∃ m, meta_multicast_port d = Ok (Some m) ∧ user_multicast_port d = Ok (Some (m + 1))).
Proof using Type.
  intros Hd Hi Hd' Hi'.
  destruct (port_values d i Hd Hi) as (Hm & Hu & Hmu & Hdu).
  destruct (port_values d' i' Hd' Hi') as (Hm' & Hu' & Hmu' & Hdu').
  rewrite Hm, Hu, Hmu, Hdu, Hm', Hu', Hmu', Hdu'. unfold domain_ok, index_ok in *.
  assert (∀ v, @Ok Empty_set _ (to_u16 v) = Ok (Some p) → v = p) as Hinj.
  { intros v [= Hv]. unfold to_u16 in Hv. destruct (_ <? _); congruence. }
  split_and!.
  - intros H1%Hinj H2%Hinj. lia.
  - intros H1%Hinj H2%Hinj. lia.
  - intros H1%Hinj H2%Hinj. lia.
  - intros [H1%Hinj|H1%Hinj]; split; intros [= ?]; lia.
  - eauto.
Qed.

(** ** Binding with retries *)

Definition UNICAST_PORT_RETRIES : Z := 16.

(** [bind_unicast_retry]: [make] binds a candidate port or fails. *)
Fixpoint bind_retry_loop {S E} (n : nat) (i port : Z) (make : Z → S + E) (last_err : option E)
    : S + option E :=
  match n with
  | O => inr last_err
  | S n =>
      let candidate := Z.min 65535 (port + i) in
      match make candidate with
      | inl socket => inl socket
      | inr e => bind_retry_loop n (i + 1) port make (Some e)
      end
  end.

Definition bind_unicast_retry {S E} (port : Z) (make : Z → S + E) : S + option E :=
  bind_retry_loop (Z.to_nat UNICAST_PORT_RETRIES) 0 port make None.

Lemma bind_retry_loop_spec {S E} (make : Z → S + E) n i port e0 : 0 <= i →
  match bind_retry_loop n i port make e0 with
  | inl s => ∃ k, i <= k < i + Z.of_nat n ∧ make (Z.min 65535 (port + k)) = inl s
               ∧ ∀ j, i <= j < k → ∃ e, make (Z.min 65535 (port + j)) = inr e
  | inr _ => ∀ j, i <= j < i + Z.of_nat n → ∃ e, make (Z.min 65535 (port + j)) = inr e
  end.
Proof using Type.
  revert i e0. induction n as [|n IH]; intros i e0 Hi; simpl; [lia|].
  destruct (make (Z.min 65535 (port + i))) as [s|e] eqn:Hm.
  { exists i. split_and!; [lia|lia|done|lia]. }
  specialize (IH (i + 1) (Some e) ltac:(lia)).
  destruct (bind_retry_loop n (i + 1) port make (Some e)) as [s|e'].
  - destruct IH as (k & Hk & Hs & Hj). exists k. split_and!; [lia|lia|done|]. intros j Hjk.
    destruct (Z.eq_dec j i) as [->|]; [eauto|]. apply Hj. lia.
  - intros j Hj. destruct (Z.eq_dec j i) as [->|]; [eauto|]. apply IH. lia.
Qed.

(** Binding takes the first free port of the sixteen candidates that start at
    the requested one, and fails only when all sixteen are taken. *)
Theorem bind_unicast_retry_spec {S E} (make : Z → S + E) port :
  match bind_unicast_retry port make with
  | inl s => ∃ k, 0 <= k < 16 ∧ make (Z.min 65535 (port + k)) = inl s
               ∧ ∀ j, 0 <= j < k → ∃ e, make (Z.min 65535 (port + j)) = inr e
  | inr _ => ∀ j, 0 <= j < 16 → ∃ e, make (Z.min 65535 (port + j)) = inr e
  end.
Proof using Type. apply (bind_retry_loop_spec make 16 0 port None). lia. Qed.
End ports.

(** ** Concrete instances *)

Lemma ports_never_collide_witness :
  data_unicast_port (H:=true) 232 119 ≠ Ok (Some 7410).
Proof.
  destruct (@ports_never_collide true 0 0 232 119 7410) as (_ & _ & H & _).
  - split; lia.
  - split; lia.
  - split; lia.
  - split; lia.
  - apply H. vm_compute. reflexivity.
Defined.
