(* ===== verification/Socket.v ===== *)
(** * Socket: datagrams, channels and the receive framework
    (src/rtps/transport.rs, and what its users share)

    A socket is its port and the log of its sends.  The operating system
    decides each send: [verdict k] is the outcome of the [k]-th one, any
    function of the number of sends so far.  An [mpsc] channel is its queue, its
    capacity ([None] when unbounded) and whether its receiver is alive. *)

From S2P Require Import Prelude Codec Guid Locator Message.

(** [std::io::Error]: an error of the system, or one built by the code. *)
Inductive NetError : Type :=
| Os (code : Z)
| OutOfRange (domain : Z)
| NoFreePort (port : Z).

#[global] Instance NetError_eq_dec : EqDecision NetError.
Proof. solve_decision. Defined.

Definition MAX_UDP_DATAGRAM : Z := 65535.

Record RtpsDatagram : Type := mkRtpsDatagram {
  dg_data : list byte;
  dg_from : SocketAddr }.

#[global] Instance RtpsDatagram_eq_dec : EqDecision RtpsDatagram.
Proof. solve_decision. Defined.

Record RtpsSocket : Type := mkRtpsSocket {
  sock_port : Z;
  sent : list (SocketAddr * list byte);
  verdict : nat → option NetError }.

Module RtpsSocket.
Definition local_port (self : RtpsSocket) : Z := sock_port self.

Definition send_to (buf : list byte) (target : SocketAddr) (self : RtpsSocket)
    : option NetError * RtpsSocket :=
  (verdict self (length (sent self)),
   mkRtpsSocket (sock_port self) (sent self ++ [(target, buf)]) (verdict self)).
End RtpsSocket.

(** ** Channels *)

Record Chan (A : Type) : Type := mkChan {
  chan_cap : option nat;
  chan_open : bool;
  chan_queue : list A }.
Arguments mkChan {A}.
Arguments chan_cap {A}.
Arguments chan_open {A}.
Arguments chan_queue {A}.

Inductive TrySendError : Type := Full | ClosedChan.

Section channels.
Context {A : Type}.

Definition unbounded_channel : Chan A := mkChan None true [].
Definition channel (cap : nat) : Chan A := mkChan (Some cap) true [].

(** [tx.try_send(x)]; an unbounded [tx.send(x)] is the same with no capacity. *)
Definition try_send (x : A) (c : Chan A) : option TrySendError * Chan A :=
  if negb (chan_open c) then (Some ClosedChan, c)
  else
    let full := match chan_cap c with
                | Some cap => (cap <=? length (chan_queue c))%nat | None => false end in
    if full then (Some Full, c)
    else (None, mkChan (chan_cap c) (chan_open c) (chan_queue c ++ [x])).

Definition send_event (x : A) (c : Chan A) : Chan A := (try_send x c).2.

Definition chan_recv (c : Chan A) : option (A * Chan A) :=
  match chan_queue c with
  | [] => None
  | x :: q => Some (x, mkChan (chan_cap c) (chan_open c) q)
  end.
End channels.

(** *** The receive loop of a socket

    The datagrams the system hands over, [Err] being a fatal socket error,
    into the channel of [spawn_receive_loop]; a datagram longer than the buffer
    is cut to it.  The result tells whether the loop is still running. *)
Fixpoint receive_loop (arrivals : list (RtpsDatagram + NetError)) (c : Chan RtpsDatagram)
    : bool * Chan RtpsDatagram :=
  match arrivals with
  | [] => (true, c)
  | inr _ :: _ => (false, c)
  | inl d :: rest =>
      let d := mkRtpsDatagram (take (Z.to_nat MAX_UDP_DATAGRAM) (dg_data d)) (dg_from d) in
      match try_send d c with
      | (None, c) => receive_loop rest c
      | (Some Full, c) => receive_loop rest c
      | (Some ClosedChan, c) => (false, c)
      end
  end.

(** ** What the receivers of messages share *)

(** [.ok()] of a [Result]. *)
Definition ok {E F A} (m : res E A) : res F (option A) :=
  match m with Ok a => Ok (Some a) | Err _ => Ok None | Panic => Panic end.

(** A [for] loop over a list whose body updates a state. *)
Fixpoint for_each {E A S} (f : A → S → res E S) (l : list A) (s : S) : res E S :=
  match l with
  | [] => Ok s
  | x :: l => s ← f x s; for_each f l s
  end.

(** [for result in SubmessageIter::new(body) { let Ok(raw) = result else { break }; .. }] *)
Fixpoint for_submessages {E S} (f : RawSubmessage → S → res E S) (items : list Item) (s : S)
    : res E S :=
  match items with
  | [] => Ok s
  | inr _ :: _ => Ok s
  | inl raw :: items => s ← f raw s; for_submessages f items s
  end.

(** The common head of [handle_packet] (SPDP, SEDP) and of
    [handle_data_packet]: a message without a valid header and the
    participant's own messages are ignored, the submessages of any other are
    handled in order up to the first malformed one. *)
Definition receive_message {E S} (own : GuidPrefix) (f : Header → RawSubmessage → S → res E S)
    (data : list byte) (s : S) : res E S :=
  header ← ok (Header.decode data);
  match header with
  | None => Ok s
  | Some header =>
      if bool_decide (guid_prefix header = own) then Ok s
      else
        body ← slice_from data Header.LEN;
        its ← lift (SubmessageIter.items body);
        for_submessages (f header) its s
  end.

(** ** Lemmas *)

Lemma for_each_app {E A S} (f : A → S → res E S) l k s :
  for_each f (l ++ k) s = s ← for_each f l s; for_each f k s.
Proof.
  revert s. induction l as [|x l IH]; intros s; simpl; [done|].
  destruct (f x s); simpl; [apply IH|done|done].
Qed.

Lemma for_each_pure {E A S} (f : A → S → res E S) (g : A → S → S) l s :
  (∀ x s, f x s = Ok (g x s)) → for_each f l s = Ok (foldl (λ s x, g x s) s l).
Proof.
  intros Hf. revert s. induction l as [|x l IH]; intros s; simpl; [done|].
  by rewrite Hf, bind_ok, IH.
Qed.

Lemma for_submessages_inl {E S} (f : RawSubmessage → S → res E S) rs s :
  for_submessages f (inl <$> rs) s = for_each f rs s.
Proof.
  revert s. induction rs as [|r rs IH]; intros s; simpl; [done|].
  destruct (f r s); simpl; [apply IH|done|done].
Qed.

Lemma for_submessages_items {E S} (f : RawSubmessage → S → res E S) rs e s :
  for_submessages f (item_list rs e) s = for_each f rs s.
Proof.
  unfold item_list. revert s. induction rs as [|r rs IH]; intros s; simpl; [by destruct e|].
  destruct (f r s); simpl; [apply IH|done|done].
Qed.

(** An invariant of the body is one of the loop. *)
Lemma for_each_inv {E A S} (P : S → Prop) (f : A → S → res E S) l s s' :
  (∀ x s s', P s → f x s = Ok s' → P s') → P s → for_each f l s = Ok s' → P s'.
Proof.
  intros Hf. revert s. induction l as [|x l IH]; intros s Hs; simpl; [by intros [= <-]|].
  intros (s1 & H1 & H2)%bind_ok_inv. eauto.
Qed.

Lemma for_each_total {E A S} (P : S → Prop) (f : A → S → res E S) l s :
  (∀ x s, P s → ∃ s', f x s = Ok s' ∧ P s') → P s → ∃ s', for_each f l s = Ok s' ∧ P s'.
Proof.
  intros Hf. revert s. induction l as [|x l IH]; intros s Hs; simpl; [eauto|].
  destruct (Hf x s Hs) as (s1 & -> & H1). by apply IH.
Qed.

(** [ok] of something that does not panic. *)
Lemma ok_total {E F A} (m : res E A) : no_panic m → ∃ o, ok (F:=F) m = Ok o ∧ ∀ a, o = Some a → m = Ok a.
Proof. destruct m; simpl; intros; [eexists|eexists|done]; split; try done; naive_solver. Qed.

(** What a received message does to the state: nothing, or the loop over
    the submessages that can be read. *)
Lemma receive_message_cases {E S} own (f : Header → RawSubmessage → S → res E S) data s :
  (receive_message own f data s = Ok s ∧ ∀ h, Header.decode data = Ok h → guid_prefix h = own) ∨
  ∃ h rs e, Header.decode data = Ok h ∧ guid_prefix h ≠ own ∧
    SubmessageIter.items (drop 20 data) = Ok (item_list rs e) ∧
    receive_message own f data s = for_each (f h) rs s.
Proof.
  unfold receive_message.
  destruct (Header_decode_cases data) as [[_ ->]|[(_ & _ & ->)|(h & Hl & _ & Hd)]];
    [by left|by left|]. rewrite Hd. cbn [ok]. rewrite bind_ok.
  case_bool_decide as Hp; [left; split; [done|naive_solver]|]. right.
  destruct (collect_total (Datatypes.S (length (drop 20 data))) (SubmessageIter.new (drop 20 data)) ltac:(simpl; lia))
    as (rs & e & Hi & _).
  exists h, rs, e. split_and!; [done|done|done|].
  unfold Header.LEN. rewrite slice_from_ok, bind_ok by lia.
  change (Z.to_nat 20) with 20%nat. unfold SubmessageIter.items. rewrite Hi. cbn [lift]. rewrite bind_ok.
  apply for_submessages_items.
Qed.

Section message.
Context {E S : Type} (own : GuidPrefix) (f : Header → RawSubmessage → S → res E S).

Lemma receive_message_own data s h :
  Header.decode data = Ok h → guid_prefix h = own → receive_message own f data s = Ok s.
Proof. intros Hd Hp. unfold receive_message. rewrite Hd. simpl. by rewrite bool_decide_true. Qed.

(** A message as the senders of this crate build it. *)
Lemma receive_message_wrapped h rs s : guid_prefix h ≠ own → Forall raw_wf rs →
  receive_message own f (wrap_in_rtps_message h (concat (raw_bytes <$> rs))) s
  = for_each (f h) rs s.
Proof.
  intros Hp Hrs. unfold receive_message, wrap_in_rtps_message.
  rewrite Header_decode_encode. cbn [ok]. rewrite bind_ok, bool_decide_false by done.
  unfold Header.LEN. rewrite slice_from_ok, bind_ok by (rewrite ?Header_bytes; len_tac).
  rewrite drop_app_len by (rewrite Header_bytes; len_tac).
  assert (SubmessageIter.items (concat (raw_bytes <$> rs)) = Ok (inl <$> rs)) as ->.
  { clear s. induction Hrs as [|r rs Hr _ IH]; [by apply (items_short [])|].
    rewrite fmap_cons. cbn [concat]. by rewrite items_cons, IH by done. }
  cbn [lift]. rewrite bind_ok. apply for_submessages_inl.
Qed.

Lemma receive_message_single h r s : guid_prefix h ≠ own → raw_wf r →
  receive_message own f (wrap_in_rtps_message h (raw_bytes r)) s = f h r s.
Proof.
  intros Hp Hr. rewrite <- (app_nil_r (raw_bytes r)).
  change (raw_bytes r ++ []) with (concat (raw_bytes <$> [r])).
  rewrite receive_message_wrapped by first [done|by apply Forall_singleton]. simpl. by destruct (f h r s).
Qed.

Lemma receive_message_total (P : S → Prop) data s :
  (∀ h r s, guid_prefix h ≠ own → P s → ∃ s', f h r s = Ok s' ∧ P s') → P s →
  ∃ s', receive_message own f data s = Ok s' ∧ P s'.
Proof.
  intros Hf Hs. destruct (receive_message_cases own f data s) as [[-> _]|(h & rs & e & _ & Hp & _ & ->)];
    [eauto|]. apply for_each_total; [|done]. intros r s1 H1. by apply Hf.
Qed.
End message.

Lemma sent_send_to buf dst sk :
  sent (RtpsSocket.send_to buf dst sk).2 = sent sk ++ [(dst, buf)].
Proof. done. Qed.
