(* ===== verification/Bind.v ===== *)
(** * Bind: opening the sockets of the transport (src/rtps/transport.rs)

    The associated functions of [RtpsSocket] as sequences of system calls.
    The kernel is an interface: [sys] answers a call and [sys_close] is what
    dropping a socket does; its laws are the documented behaviour of UDP
    sockets, read off a table of the open sockets of the program.  A socket
    that is dropped on an early return is closed where Rust drops it. *)

From S2P Require Import Prelude Transport Socket.

(** A multicast group, IPv4 or IPv6. *)
Definition Group : Type := vec byte 4 + vec byte 16.

(** The calls of socket2 and tokio; [fd] is the socket they are made on. *)
Inductive SysCall : Type :=
| SysSocket (ipv6 : bool)
| SysReuseAddress (fd : Z)
| SysReusePort (fd : Z)
| SysOnlyV6 (fd : Z)
| SysBind (fd : Z) (port : Z)
| SysNonblocking (fd : Z)
| SysFromStd (fd : Z)
| SysJoin (fd : Z) (group : Group)
| SysLocalAddr (fd : Z).

(** An open socket. *)
Record Sock : Type := mkSock {
  so_ipv6 : bool;
  so_reuse_address : bool;
  so_reuse_port : bool;
  so_only_v6 : bool;
  so_port : option Z;
  so_nonblocking : bool;
  so_registered : bool;
  so_groups : list Group }.

(** ** The kernel *)

Class Kernel (K : Type) : Type := {
  sys : SysCall → K → (Z + NetError) * K;
  sys_close : Z → K → K }.

Definition so_fresh (ipv6 : bool) : Sock := mkSock ipv6 false false false None false false [].

(** What a successful call on a socket does to it; [SysBind] also chooses
    the port. *)
Definition configured (c : SysCall) (s : Sock) : Sock :=
  let '(mkSock v6 ra rp o6 port nb reg gs) := s in
  match c with
  | SysReuseAddress _ => mkSock v6 true rp o6 port nb reg gs
  | SysReusePort _ => mkSock v6 ra true o6 port nb reg gs
  | SysOnlyV6 _ => mkSock v6 ra rp true port nb reg gs
  | SysNonblocking _ => mkSock v6 ra rp o6 port true reg gs
  | SysFromStd _ => mkSock v6 ra rp o6 port nb true gs
  | SysJoin _ g => mkSock v6 ra rp o6 port nb reg (gs ++ [g])
  | _ => s
  end.

Definition bound_at (q : Z) (s : Sock) : Sock :=
  let '(mkSock v6 ra rp o6 _ nb reg gs) := s in mkSock v6 ra rp o6 (Some q) nb reg gs.

(** The socket a call configures. *)
Definition target (c : SysCall) : option Z :=
  match c with
  | SysReuseAddress fd | SysReusePort fd | SysOnlyV6 fd | SysNonblocking fd | SysFromStd fd
  | SysJoin fd _ | SysLocalAddr fd => Some fd
  | _ => None
  end.

Definition shareable (s : Sock) : bool := so_reuse_address s && so_reuse_port s.

(** Two sockets of one family may have the same port only if both may share. *)
Definition compatible (s s' : Sock) : Prop :=
  so_ipv6 s = so_ipv6 s' → so_port s ≠ None → so_port s = so_port s' → shareable s = true ∧ shareable s' = true.

(** The documented behaviour.  A failed call changes no socket; any call may
    fail, for the ports of other programs are not in the table. *)
Class KernelLaws (K : Type) `{!Kernel K} : Type := {
  sockets : K → gmap Z Sock;
  law_failed c k e k' : sys c k = (inr e, k') → sockets k' = sockets k;
  law_socket v6 k fd k' : sys (SysSocket v6) k = (inl fd, k') →
    sockets k !! fd = None ∧ sockets k' = <[fd := so_fresh v6]> (sockets k);
  law_call c fd k z k' : target c = Some fd → sys c k = (inl z, k') →
    sockets k' = alter (configured c) fd (sockets k);
  law_local_addr fd k q k' : sys (SysLocalAddr fd) k = (inl q, k') → (sockets k !! fd) ≫= so_port = Some q;
  law_bind fd p k z k' s : sockets k !! fd = Some s → sys (SysBind fd p) k = (inl z, k') →
    ∃ q, 0 < q < 65536 ∧ (p ≠ 0 → q = p) ∧ sockets k' = <[fd := bound_at q s]> (sockets k) ∧
      ∀ fd' s', fd' ≠ fd → sockets k !! fd' = Some s' → compatible (bound_at q s) s';
  law_close fd k : sockets (sys_close fd k) = delete fd (sockets k) }.

(** ** The code *)

(** An [RtpsSocket]: its tokio socket and the port read back. *)
Record Bound : Type := mkBound { bs_socket : Z; bs_port : Z }.

Section code.
Context {K : Type} `{!Kernel K}.

(** [io::Result] with the state of the kernel. *)
Definition Sys (A : Type) : Type := K → (A + NetError) * K.

#[global] Instance Sys_ret : MRet Sys := λ A a k, (inl a, k).
#[global] Instance Sys_bind : MBind Sys := λ A B f m k,
  match m k with (inl a, k) => f a k | (inr e, k) => (inr e, k) end.

(** [m] owns the socket and drops it when it returns an error. *)
Definition owning {A} (fd : Z) (m : Sys A) : Sys A := λ k,
  match m k with (inl a, k) => (inl a, k) | (inr e, k) => (inr e, sys_close fd k) end.

Definition call (c : SysCall) : Sys Z := sys c.

Definition new_socket2 (ipv6 shared : bool) : Sys Z :=
  socket ← call (SysSocket ipv6);
  owning socket
    (if shared then
       _ ← call (SysReuseAddress socket);
       _ ← call (SysReusePort socket);
       mret socket
     else mret socket).

Definition into_tokio (socket : Z) : Sys Z :=
  owning socket
    (_ ← call (SysNonblocking socket);
     _ ← call (SysFromStd socket);
     mret socket).

Definition finish (socket : Z) : Sys Bound :=
  tokio_socket ← into_tokio socket;
  owning tokio_socket
    (port ← call (SysLocalAddr tokio_socket);
     mret (mkBound tokio_socket port)).

(** The loop of [bind_unicast_retry]. *)
Fixpoint retry_loop (n : nat) (i port : Z) (make : Z → Sys Z) (last_err : option NetError) : Sys Bound := λ k,
  match n with
  | O => (inr (default (NoFreePort port) last_err), k)
  | S n =>
      let candidate := Z.min 65535 (port + i) in
      match make candidate k with
      | (inl socket, k) => finish socket k
      | (inr e, k) => retry_loop n (i + 1) port make (Some e) k
      end
  end.

Definition RtpsSocket_bind_unicast_retry (port : Z) (make : Z → Sys Z) : Sys Bound :=
  retry_loop (Z.to_nat UNICAST_PORT_RETRIES) 0 port make None.

Definition bind_unicast_v4 (port : Z) : Sys Bound :=
  RtpsSocket_bind_unicast_retry port (λ p,
    socket ← new_socket2 false false;
    owning socket
      (_ ← call (SysBind socket p);
       mret socket)).

Definition bind_unicast_v6 (port : Z) : Sys Bound :=
  RtpsSocket_bind_unicast_retry port (λ p,
    socket ← new_socket2 true false;
    owning socket
      (_ ← call (SysOnlyV6 socket);
       _ ← call (SysBind socket p);
       mret socket)).

Definition bind_multicast_v4 (group : vec byte 4) (port : Z) : Sys Bound :=
  socket ← new_socket2 false true;
  _ ← owning socket (call (SysBind socket port));
  tokio_socket ← into_tokio socket;
  owning tokio_socket
    (_ ← call (SysJoin tokio_socket (inl group));
     bound_port ← call (SysLocalAddr tokio_socket);
     mret (mkBound tokio_socket bound_port)).

Definition bind_multicast_v6 (group : vec byte 16) (port : Z) : Sys Bound :=
  socket ← new_socket2 true true;
  _ ← owning socket
        (_ ← call (SysOnlyV6 socket);
         call (SysBind socket port));
  tokio_socket ← into_tokio socket;
  owning tokio_socket
    (_ ← call (SysJoin tokio_socket (inr group));
     bound_port ← call (SysLocalAddr tokio_socket);
     mret (mkBound tokio_socket bound_port)).

(** ** Any sequence of them *)

Inductive BindRequest : Type :=
| Unicast (ipv6 : bool) (port : Z)
| Multicast (group : Group) (port : Z).

Definition bind_one (r : BindRequest) : Sys Bound :=
  match r with
  | Unicast false port => bind_unicast_v4 port
  | Unicast true port => bind_unicast_v6 port
  | Multicast (inl g) port => bind_multicast_v4 g port
  | Multicast (inr g) port => bind_multicast_v6 g port
  end.

(** One after the other; what succeeded, with what was asked for. *)
Fixpoint bind_all (rs : list BindRequest) (k : K) : list (BindRequest * Bound) * K :=
  match rs with
  | [] => ([], k)
  | r :: rs =>
      match bind_one r k with
      | (inl b, k) => let '(bs, k) := bind_all rs k in ((r, b) :: bs, k)
      | (inr _, k) => bind_all rs k
      end
  end.
End code.

(** ** What they do *)

(** The socket a request leaves open at port [q]: never blocking, registered,
    of one family only; shared and member of its group iff it is multicast. *)
Definition group_ipv6 (g : Group) : bool := match g with inl _ => false | inr _ => true end.
Definition request_ipv6 (r : BindRequest) : bool :=
  match r with Unicast v6 _ => v6 | Multicast g _ => group_ipv6 g end.
Definition request_shared (r : BindRequest) : bool := match r with Unicast _ _ => false | Multicast _ _ => true end.
Definition request_groups (r : BindRequest) : list Group := match r with Unicast _ _ => [] | Multicast g _ => [g] end.

Definition opened (r : BindRequest) (q : Z) : Sock :=
  mkSock (request_ipv6 r) (request_shared r) (request_shared r) (request_ipv6 r) (Some q) true true (request_groups r).

(** The ports a request may get: for multicast the one asked for, for unicast
    one of sixteen from it on; 0 stands for any. *)
Definition granted (r : BindRequest) (q : Z) : Prop :=
  0 < q < 65536 ∧
  match r with
  | Multicast _ port => port ≠ 0 → q = port
  | Unicast _ port => ∃ i, 0 <= i < 16 ∧ (Z.min 65535 (port + i) ≠ 0 → q = Z.min 65535 (port + i))
  end.

(** A table in which no two sockets have a port they may not both have. *)
Definition apart (T : gmap Z Sock) : Prop :=
  ∀ fd fd' s s', fd ≠ fd' → T !! fd = Some s → T !! fd' = Some s' → compatible s s'.

Lemma compatible_sym s s' : compatible s s' → compatible s' s.
Proof. unfold compatible. intros H Hv Hp Hq. destruct H; congruence || by split. Qed.

(** From a table [T], [m] ends in a table of [Q] with a result, or in one of
    [E] with an error. *)
Section triples.
Context {K : Type} `{KernelLaws K}.
Notation table := (gmap Z Sock).
Implicit Types (T U : table) (E : table → Prop).

Definition triple {A} T (m : Sys A) (Q : A → table → Prop) E : Prop :=
  ∀ k, sockets k = T → match m k with (inl a, k') => Q a (sockets k') | (inr _, k') => E (sockets k') end.

Lemma triple_ret {A} T (a : A) (Q : A → table → Prop) E : Q a T → triple T (mret a) Q E.
Proof using Type. by intros HQ k <-. Qed.

Lemma triple_bind {A B} T (m : Sys A) (f : A → Sys B) (Q : A → table → Prop) R E :
  triple T m Q E → (∀ a U, Q a U → triple U (f a) R E) → triple T (m ≫= f) R E.
Proof using Type.
  intros Hm Hf k Hk. specialize (Hm k Hk). unfold mbind, Sys_bind.
  destruct (m k) as [[a|e] k']; [|done]. by apply (Hf a _ Hm).
Qed.

Lemma triple_owning {A} T T0 fd (m : Sys A) Q :
  triple T m Q (λ U, delete fd U = T0) → triple T (owning fd m) Q (λ U, U = T0).
Proof using Type.
  intros Hm k Hk. specialize (Hm k Hk). unfold owning.
  destruct (m k) as [[a|e] k']; [done|]. by rewrite law_close.
Qed.

Lemma triple_post {A} T (m : Sys A) Q Q' E :
  triple T m Q E → (∀ a U, Q a U → Q' a U) → triple T m Q' E.
Proof using Type. intros Hm HQ k Hk. specialize (Hm k Hk). destruct (m k) as [[a|e] k']; [by apply HQ|done]. Qed.

Lemma triple_socket T v6 : triple T (call (SysSocket v6))
  (λ fd U, T !! fd = None ∧ U = <[fd := so_fresh v6]> T) (λ U, U = T).
Proof using Type.
  intros k <-. unfold call. destruct (sys _ k) as [[fd|e] k'] eqn:He; [by apply law_socket|by eapply law_failed].
Qed.

Lemma triple_call T fd s c : target c = Some fd → T !! fd = None →
  triple (<[fd := s]> T) (call c) (λ q U, U = <[fd := configured c s]> T ∧ (c = SysLocalAddr fd → so_port s = Some q))
    (λ U, delete fd U = T).
Proof using Type.
  intros Hc HT k Hk. unfold call. destruct (sys c k) as [[z|e] k'] eqn:He.
  - split.
    + rewrite (law_call _ _ _ _ _ Hc He), Hk. by rewrite alter_insert_eq.
    + intros ->. pose proof (law_local_addr _ _ _ _ He) as Hl. by rewrite Hk, lookup_insert_eq in Hl.
  - rewrite (law_failed _ _ _ _ He), Hk. by apply delete_insert_id.
Qed.

Lemma triple_bind_port T fd p s : T !! fd = None →
  triple (<[fd := s]> T) (call (SysBind fd p))
    (λ _ U, ∃ q, 0 < q < 65536 ∧ (p ≠ 0 → q = p) ∧ U = <[fd := bound_at q s]> T ∧
       ∀ fd' s', T !! fd' = Some s' → compatible (bound_at q s) s')
    (λ U, delete fd U = T).
Proof using Type.
  intros HT k Hk. unfold call. destruct (sys _ k) as [[z|e] k'] eqn:He.
  - destruct (law_bind fd p k z k' s) as (q & Hq & Hp & HU & Hc); [by rewrite Hk, lookup_insert_eq|done|].
    exists q. split_and!; [lia|lia|done|by rewrite HU, Hk, insert_insert_eq|].
    intros fd' s' Hs'. apply (Hc fd'); [congruence|]. rewrite Hk, lookup_insert_ne; congruence.
  - rewrite (law_failed _ _ _ _ He), Hk. by apply delete_insert_id.
Qed.

(** *** The parts *)

(** The next call on the socket [fd] of the table [<[fd := _]> T]. *)
Ltac sys_call HT :=
  eapply triple_bind; [apply triple_call; [reflexivity|exact HT]|intros ? ? [-> _]; cbn [configured so_fresh]].
Ltac sys_ret := apply triple_ret.

Lemma new_socket2_spec T v6 shared : triple T (new_socket2 v6 shared)
  (λ fd U, T !! fd = None ∧ U = <[fd := mkSock v6 shared shared false None false false []]> T) (λ U, U = T).
Proof using Type.
  unfold new_socket2. eapply triple_bind; [apply triple_socket|]. intros fd U [HT ->]. apply triple_owning.
  destruct shared; [do 2 sys_call HT|]; by sys_ret.
Qed.

Definition ready (s : Sock) : Sock := configured (SysFromStd 0) (configured (SysNonblocking 0) s).

Lemma into_tokio_spec T fd s : T !! fd = None →
  triple (<[fd := s]> T) (into_tokio fd) (λ fd' U, fd' = fd ∧ U = <[fd := ready s]> T) (λ U, U = T).
Proof using Type.
  intros HT. unfold into_tokio. apply triple_owning. destruct s. do 2 sys_call HT. by sys_ret.
Qed.

(** [SO_REUSE*] and the port of a socket decide which ports it excludes. *)
Definition excludes T (s : Sock) : Prop := ∀ fd' s', T !! fd' = Some s' → compatible s s'.

Lemma finish_spec T fd s q : T !! fd = None → so_port s = Some q →
  triple (<[fd := s]> T) (finish fd) (λ b U, b = mkBound fd q ∧ U = <[fd := ready s]> T) (λ U, U = T).
Proof using Type.
  intros HT Hq. unfold finish. eapply triple_bind; [by apply into_tokio_spec|]. intros fd' U [-> ->]. apply triple_owning.
  eapply triple_bind; [by apply (triple_call _ _ _ (SysLocalAddr fd))|].
  intros p U [-> Hp]. sys_ret. specialize (Hp eq_refl). destruct s; simpl in *. split; [congruence|done].
Qed.

(** A unicast socket before [finish]. *)
Definition half_open (v6 : bool) (q : Z) : Sock := mkSock v6 false false v6 (Some q) false false [].

(** The result of [make]: a socket on the port [p]. *)
Definition made (v6 : bool) (p : Z) T (fd : Z) U : Prop :=
  T !! fd = None ∧ ∃ q, 0 < q < 65536 ∧ (p ≠ 0 → q = p) ∧ U = <[fd := half_open v6 q]> T ∧ excludes T (half_open v6 q).

Lemma retry_loop_spec T v6 make : (∀ p, triple T (make p) (made v6 p T) (λ U, U = T)) →
  ∀ n i port e, 0 <= i → triple T (retry_loop n i port make e)
    (λ b U, T !! bs_socket b = None ∧ U = <[bs_socket b := ready (half_open v6 (bs_port b))]> T ∧
       0 < bs_port b < 65536 ∧ excludes T (half_open v6 (bs_port b)) ∧
       ∃ j, i <= j < i + Z.of_nat n ∧ (Z.min 65535 (port + j) ≠ 0 → bs_port b = Z.min 65535 (port + j)))
    (λ U, U = T).
Proof using Type.
  intros Hmake n. induction n as [|n IH]; intros i port e Hi k Hk; cbn [retry_loop]; [done|].
  pose proof (Hmake (Z.min 65535 (port + i)) k Hk) as Hm. destruct (make _ k) as [[fd|e'] k1].
  - destruct Hm as (HT & q & Hq & Hp & HU & Hx).
    pose proof (finish_spec T fd (half_open v6 q) q HT eq_refl k1 HU) as Hf.
    destruct (finish fd k1) as [[b|e'] k2]; [|done]. destruct Hf as [-> HU2]. simpl. split_and!; try done; try lia.
    exists i. split; [lia|done].
  - pose proof (IH (i + 1) port (Some e') ltac:(lia) k1 Hm) as Hr. destruct (retry_loop n _ _ _ _ k1) as [[b|e''] k2]; [|done].
    destruct Hr as (? & ? & ? & ? & j & Hj & ?). split_and!; try done; try lia. exists j. split; [lia|done].
Qed.

(** *** Every request *)

Definition request_spec T (r : BindRequest) (b : Bound) U : Prop :=
  T !! bs_socket b = None ∧ U = <[bs_socket b := opened r (bs_port b)]> T ∧
  granted r (bs_port b) ∧ excludes T (opened r (bs_port b)).

Lemma unicast_spec T v6 port make : (∀ p, triple T (make p) (made v6 p T) (λ U, U = T)) →
  triple T (RtpsSocket_bind_unicast_retry port make) (request_spec T (Unicast v6 port)) (λ U, U = T).
Proof using Type.
  intros Hmake. eapply triple_post; [by apply (retry_loop_spec T v6)|].
  intros b U (HT & HU & Hq & Hx & j & Hj & Hp). split_and!; try done. split; [done|]. by exists j.
Qed.

Lemma multicast_tail T (r : BindRequest) (g : Group) (port fd q : Z) : r = Multicast g port → T !! fd = None →
  0 < q < 65536 → (port ≠ 0 → q = port) →
  let s := mkSock (group_ipv6 g) true true (group_ipv6 g) (Some q) false false [] in
  excludes T s →
  triple (<[fd := s]> T)
    (tokio_socket ← into_tokio fd;
     owning tokio_socket
       (_ ← call (SysJoin tokio_socket g);
        bound_port ← call (SysLocalAddr tokio_socket);
        mret (mkBound tokio_socket bound_port)))
    (request_spec T r) (λ U, U = T).
Proof using Type.
  intros -> HT Hq Hp s Hx. eapply triple_bind; [by apply into_tokio_spec|]. intros fd' U [-> ->]. apply triple_owning.
  sys_call HT. eapply triple_bind; [by apply (triple_call _ _ _ (SysLocalAddr fd))|].
  intros p U [-> Hl]. sys_ret. specialize (Hl eq_refl). injection Hl as <-. split_and!; done.
Qed.

Lemma bind_one_spec T r : triple T (bind_one r) (request_spec T r) (λ U, U = T).
Proof using Type.
  destruct r as [[] port|[g|g] port]; cbn [bind_one].
  - apply unicast_spec. intros p. eapply triple_bind; [apply new_socket2_spec|]. intros fd U [HT ->]. apply triple_owning.
    sys_call HT. eapply triple_bind; [by apply triple_bind_port|]. intros ? U (q & Hq & Hp & -> & Hx). sys_ret.
    split; [done|]. by exists q.
  - apply unicast_spec. intros p. eapply triple_bind; [apply new_socket2_spec|]. intros fd U [HT ->]. apply triple_owning.
    eapply triple_bind; [by apply triple_bind_port|]. intros ? U (q & Hq & Hp & -> & Hx). sys_ret.
    split; [done|]. by exists q.
  - unfold bind_multicast_v4. eapply triple_bind; [apply new_socket2_spec|]. intros fd U [HT ->].
    eapply triple_bind; [apply triple_owning; by apply triple_bind_port|].
    intros ? U (q & Hq & Hp & -> & Hx). by apply (multicast_tail T _ (inl g) port fd q).
  - unfold bind_multicast_v6. eapply triple_bind; [apply new_socket2_spec|]. intros fd U [HT ->].
    eapply triple_bind; [apply triple_owning; sys_call HT; by apply triple_bind_port|].
    intros ? U (q & Hq & Hp & -> & Hx). by apply (multicast_tail T _ (inr g) port fd q).
Qed.

Lemma apart_insert T fd s : T !! fd = None → apart T → excludes T s → apart (<[fd := s]> T).
Proof using Type.
  intros HT Ha Hx i j si sj Hij Hi Hj. rewrite lookup_insert_Some in Hi, Hj.
  destruct Hi as [[<- <-]|[? Hi]], Hj as [[<- <-]|[? Hj]]; [done|by eapply Hx|by eapply compatible_sym, Hx|by apply (Ha i j)].
Qed.

Lemma bind_all_table rs : ∀ k bs k', apart (sockets k) → bind_all rs k = (bs, k') →
  (∀ fd s, sockets k' !! fd = Some s ↔
     sockets k !! fd = Some s ∨ ∃ r b, (r, b) ∈ bs ∧ fd = bs_socket b ∧ s = opened r (bs_port b)) ∧
  (∀ x, x ∈ bs → sockets k !! bs_socket x.2 = None) ∧
  NoDup ((λ x, bs_socket x.2) <$> bs) ∧ apart (sockets k') ∧
  (fst <$> bs) `sublist_of` rs ∧ Forall (λ '(r, b), granted r (bs_port b)) bs.
Proof using Type.
  induction rs as [|r rs IH]; intros k bs k' Ha; cbn [bind_all].
  { intros [= <- <-]. split_and!; try done; [|by intros ? ?%elem_of_nil|apply NoDup_nil_2].
    intros fd s. split; [by left|]. by intros [?|(? & ? & ?%elem_of_nil & _)]. }
  pose proof (bind_one_spec (sockets k) r k eq_refl) as Hr. destruct (bind_one r k) as [[b|e] k1].
  - destruct Hr as (HT & HU & Hg & Hx). destruct (bind_all rs k1) as [bs1 k2] eqn:E. intros [= <- <-].
    destruct (IH k1 bs1 k2) as (H1 & H2 & H3 & H4 & H5 & H6); [by rewrite HU; apply apart_insert|done|]. rewrite HU in H1, H2.
    split_and!; [| | |done|by apply sublist_skip|by constructor].
    + intros fd s. rewrite H1, lookup_insert_Some. setoid_rewrite elem_of_cons. split.
      * intros [[[<- <-]|[? ?]]|(r' & b' & ? & ?)]; [right; exists r, b; by split; [left|]|by left|].
        right. exists r', b'. by split; [right|].
      * intros [Hs|(r' & b' & [[= -> ->]|?] & ? & ?)]; [left; right; split; [congruence|done]|left; left; by split|].
        right. by exists r', b'.
    + intros x [->|Hx']%elem_of_cons; [done|]. specialize (H2 _ Hx'). by apply lookup_insert_None in H2 as [? _].
    + apply NoDup_cons. split; [|done]. intros (x & He & Hx')%list_elem_of_fmap. specialize (H2 _ Hx').
      apply lookup_insert_None in H2 as [_ []]. done.
  - intros E. rewrite <- Hr in Ha. destruct (IH k1 bs k' Ha E) as (H1 & H2 & H3 & H4 & H5 & H6). rewrite Hr in H1, H2.
    split_and!; try done. by apply sublist_cons.
Qed.

(** C9. The sockets of a program.  However many sockets are asked for, unicast
    and multicast, on whatever kernel that behaves as documented and whatever
    it refuses: exactly the requests that succeeded have left a socket open,
    which is non-blocking and registered, of its own family only, and
    shareable and member of its group iff it is multicast; a refused one has
    leaked none.  A multicast socket has the port asked for, a unicast one a
    port among the sixteen from the one asked for (0 standing for any).  And
    two sockets of one family have the same port only if both are multicast. *)
Theorem bind_all_spec (rs : list BindRequest) (k : K) bs k' : apart (sockets k) → bind_all rs k = (bs, k') →
  (∀ fd s, sockets k' !! fd = Some s ↔
     sockets k !! fd = Some s ∨ ∃ r b, (r, b) ∈ bs ∧ fd = bs_socket b ∧ s = opened r (bs_port b)) ∧
  NoDup ((λ x, bs_socket x.2) <$> bs) ∧ apart (sockets k') ∧
  (fst <$> bs) `sublist_of` rs ∧ Forall (λ '(r, b), granted r (bs_port b)) bs ∧
  (∀ x y, x ∈ bs → y ∈ bs → bs_socket x.2 ≠ bs_socket y.2 → request_ipv6 x.1 = request_ipv6 y.1 →
     bs_port x.2 = bs_port y.2 → request_shared x.1 = true ∧ request_shared y.1 = true).
Proof using Type.
  intros Ha Hb. destruct (bind_all_table rs k bs k' Ha Hb) as (H1 & _ & H3 & H4 & H5 & H6). split_and!; try done.
  intros [r b] [r' b'] Hx Hy Hne Hf Hp. simpl in *.
  assert (compatible (opened r (bs_port b)) (opened r' (bs_port b'))) as Hc
    by (apply (H4 (bs_socket b) (bs_socket b')); [done|apply H1; right; eauto..]).
  destruct (Hc Hf) as [? ?]; [done|simpl; congruence|]. by destruct r, r'.
Qed.
End triples.

(** ** A kernel that behaves as documented *)

(** Its sockets, the next descriptor, the ports other programs hold. *)
Record Host : Type := mkHost {
  h_sockets : gmap Z Sock;
  h_next : Z;
  h_taken : list Z }.

#[global] Instance compatible_dec s s' : Decision (compatible s s').
Proof. unfold compatible. apply _. Defined.

Definition h_free (fd : Z) (s : Sock) (h : Host) (q : Z) : Prop :=
  (q ∉ h_taken h) ∧ map_Forall (λ fd' s', fd' ≠ fd → compatible (bound_at q s) s') (h_sockets h).
#[local] Instance h_free_dec fd s h q : Decision (h_free fd s h q).
Proof. unfold h_free. apply _. Defined.

Definition h_ephemeral (p : Z) : list Z := if p =? 0 then [49152; 49153; 49154; 49155] else [p].

Definition h_sys (c : SysCall) (h : Host) : (Z + NetError) * Host :=
  let put m := mkHost m (h_next h) (h_taken h) in
  match c with
  | SysSocket v6 =>
      match h_sockets h !! h_next h with
      | None => (inl (h_next h), mkHost (<[h_next h := so_fresh v6]> (h_sockets h)) (h_next h + 1) (h_taken h))
      | Some _ => (inr (Os 24), h)
      end
  | SysBind fd p =>
      match h_sockets h !! fd with
      | None => (inr (Os 9), h)
      | Some s =>
          match filter (λ q, 0 < q < 65536 ∧ h_free fd s h q) (h_ephemeral p) with
          | q :: _ => (inl 0, put (<[fd := bound_at q s]> (h_sockets h)))
          | [] => (inr (Os 98), h)
          end
      end
  | SysLocalAddr fd =>
      match (h_sockets h !! fd) ≫= so_port with Some q => (inl q, h) | None => (inr (Os 9), h) end
  | _ => (inl 0, put (match target c with Some fd => alter (configured c) fd (h_sockets h) | None => h_sockets h end))
  end.

#[global] Instance Host_kernel : Kernel Host := {|
  sys := h_sys;
  sys_close fd h := mkHost (delete fd (h_sockets h)) (h_next h) (h_taken h) |}.

#[global] Instance Host_laws : KernelLaws Host.
Proof.
  refine {| sockets := h_sockets |}.
  - intros c h e h'. destruct c; simpl; repeat case_match; by intros [= ? <-] || by intros [=].
  - intros v6 h fd h'. simpl. case_match; [by intros [=]|]. by intros [= <- <-].
  - intros c fd h z h' Hc. destruct c; simplify_eq/=; try by intros [= <- <-].
    destruct ((h_sockets h !! fd) ≫= so_port); [|by intros [=]]. intros [= <- <-]. symmetry. apply map_eq. intros i.
    rewrite lookup_alter. case_decide; [subst|done]. destruct (h_sockets h !! i) as [[]|]; done.
  - intros fd h q h'. simpl. destruct ((h_sockets h !! fd) ≫= so_port) eqn:E; [|by intros [=]]. by intros [= <- <-].
  - intros fd p h z h' s Hs. simpl. rewrite Hs. destruct (filter _ _) as [|q l] eqn:E; [by intros [=]|]. intros [= <- <-].
    assert (q ∈ filter (λ q, 0 < q < 65536 ∧ h_free fd s h q) (h_ephemeral p)) as Hq by (rewrite E; left).
    apply list_elem_of_filter in Hq as [[Hr [_ Hf]] Hin]. exists q. split_and!; [lia|lia| |done|].
    + intros Hp. unfold h_ephemeral in Hin. destruct (Z.eqb_spec p 0); [done|]. by apply list_elem_of_singleton in Hin.
    + intros fd' s' Hne Hs'. by apply (Hf fd' s' Hs').
  - done.
Defined.

(** Port 7410 is another program's.  Two unicast sockets from 7410 on, two
    sockets of the SPDP group, an IPv6 socket on any port. *)
Lemma bind_all_spec_witness :
  let host := mkHost ∅ 3 [7410] in
  let rs := [Unicast false 7410; Unicast false 7410; Multicast (inl SPDP_MULTICAST_ADDR) 7400;
             Multicast (inl SPDP_MULTICAST_ADDR) 7400; Unicast true 0] in
  let '(bs, host') := bind_all rs host in
  (λ x, bs_port x.2) <$> bs = [7411; 7412; 7400; 7400; 49152] ∧ apart (h_sockets host').
Proof.
  intros host rs. destruct (bind_all rs host) as [bs host'] eqn:E. split.
  - change bs with (bs, host').1. rewrite <- E. vm_compute. reflexivity.
  - destruct (bind_all_spec rs host bs host') as (_ & _ & H & _); [|exact E|exact H]. intros fd fd' s s' _ Hs. simpl in Hs. by rewrite lookup_empty in Hs.
Defined.
