(* ===== verification/Types.v ===== *)
(** * Types: samples, QoS, errors and the RELAY envelope
    (src/types.rs, src/error.rs, src/relay.rs)

    A [String] is its UTF-8 bytes, a [DateTime<Utc>] and an [Instant] are
    numbers of nanoseconds.  The serde attributes are not modelled; the
    [hex] crate is a pair of functions with their documented round trip. *)

From stdpp Require Import pretty.
From S2P Require Import Prelude.

Notation str := (list byte).

Definition show (z : Z) : str := bytes_of_ascii (pretty z).

(** ** Errors *)

(** [relay::Error] *)
Inductive RelayError : Type :=
| RelayClosed | RelayNotConnected | RelayTimeout | RelayPayloadTooLarge.

(** [error::Error] *)
Inductive Error : Type :=
| Closed | NotConnected | Timeout | PayloadTooLarge
| DomainOutOfRange | TopicEmpty | QosMismatch | DeadlineMissed | SampleRejected
| ResourceLimits | LoanBuffer | AccessDenied | Other (msg : str).

#[global] Instance RelayError_eq_dec : EqDecision RelayError.
Proof. solve_decision. Defined.
#[global] Instance Error_eq_dec : EqDecision Error.
Proof. solve_decision. Defined.

Definition as_relay (self : Error) : option RelayError :=
  match self with
  | Closed | LoanBuffer => Some RelayClosed
  | NotConnected | DomainOutOfRange | TopicEmpty | QosMismatch | AccessDenied =>
      Some RelayNotConnected
  | Timeout | DeadlineMissed => Some RelayTimeout
  | PayloadTooLarge | SampleRejected | ResourceLimits => Some RelayPayloadTooLarge
  | Other _ => None
  end.

Definition from_relay (e : RelayError) : Error :=
  match e with
  | RelayClosed => Closed
  | RelayNotConnected => NotConnected
  | RelayTimeout => Timeout
  | RelayPayloadTooLarge => PayloadTooLarge
  end.

Notation eres := (res Error).

(** ** Domain *)

Definition MAX_DOMAIN_ID : Z := 232.

Record Domain : Type := mkDomain { domain_id : Z }.

Definition validate_domain (d : Domain) : eres unit :=
  if (domain_id d <? 0) || (MAX_DOMAIN_ID <? domain_id d) then Err DomainOutOfRange else Ok tt.

Definition Domain_new (id : Z) : eres Domain :=
  let d := mkDomain id in
  _ ← validate_domain d;
  Ok d.

(** ** QoS *)

Inductive ReliabilityKind : Type := BestEffort | Reliable.
Inductive DurabilityKind : Type := Volatile | TransientLocal.

#[global] Instance ReliabilityKind_eq_dec : EqDecision ReliabilityKind.
Proof. solve_decision. Defined.
#[global] Instance DurabilityKind_eq_dec : EqDecision DurabilityKind.
Proof. solve_decision. Defined.

Record QoS : Type := mkQoS {
  reliability : ReliabilityKind;
  durability : DurabilityKind;
  history_depth : Z;
  deadline_ns : Z;
  max_sample_size : Z;
  transport_priority : Z;
  latency_budget_ns : Z;
  lifespan_ns : Z;
  publish_period_ns : Z }.

Definition QoS_default : QoS := mkQoS BestEffort Volatile 1 0 0 0 0 0 0.
Definition DEFAULT_QOS : QoS := mkQoS BestEffort Volatile 1 0 0 0 0 0 0.
Definition RELIABLE_QOS : QoS := mkQoS Reliable TransientLocal 1 0 0 0 0 0 0.

(** ** Sample *)

(** [types::Guid], a plain 16-byte array. *)
Notation GuidBytes := (vec byte 16).

Record Sample : Type := mkSample {
  topic : str;
  s_payload : list byte;
  timestamp : Z;
  sequence_number : Z;
  writer_guid : GuidBytes }.

#[global] Instance Sample_eq_dec : EqDecision Sample.
Proof. solve_decision. Defined.

(** ** RELAY envelope *)

Inductive Protocol : Type := Can | Dds | Lin | Mqtt | Rcp | Someip.

#[global] Instance Protocol_eq_dec : EqDecision Protocol.
Proof. solve_decision. Defined.

Definition Protocol_to_i32 (p : Protocol) : Z :=
  match p with Can => 1 | Dds => 2 | Lin => 3 | Mqtt => 4 | Rcp => 5 | Someip => 6 end.

Definition Protocol_try_from (v : Z) : res str Protocol :=
  if v =? 1 then Ok Can else if v =? 2 then Ok Dds else if v =? 3 then Ok Lin
  else if v =? 4 then Ok Mqtt else if v =? 5 then Ok Rcp else if v =? 6 then Ok Someip
  else Err (bytes_of_ascii "unknown protocol: " ++ show v).

Definition Protocol_display (p : Protocol) : str :=
  bytes_of_ascii match p with
                 | Can => "CAN" | Dds => "DDS" | Lin => "LIN"
                 | Mqtt => "MQTT" | Rcp => "RCP" | Someip => "SOMEIP"
                 end.

Record Version : Type := mkVersion { v_major : Z; v_minor : Z; v_patch : Z }.
Definition Version_default : Version := mkVersion 0 0 0.

Record Message : Type := mkMessage {
  protocol : Protocol;
  version : Version;
  id : str;
  m_payload : list byte;
  m_timestamp : Z;
  seq : Z;
  meta : gmap str str }.

Definition Message_new (now : Z) (protocol : Protocol) (id : str) (payload : list byte) : Message :=
  mkMessage protocol Version_default id payload now 0 ∅.

Inductive BackPressurePolicy : Type := DropNewest | DropOldest | Block.

#[global] Instance BackPressurePolicy_eq_dec : EqDecision BackPressurePolicy.
Proof. solve_decision. Defined.

(** A registered callback is an identifier. *)
Record SubscriberOptions : Type := mkSubscriberOptions {
  channel_depth : Z;
  back_pressure : BackPressurePolicy;
  opt_topic : option str;
  deadline_missed : option nat }.

Definition SubscriberOptions_default : SubscriberOptions :=
  mkSubscriberOptions 0 DropNewest None None.

Definition chan_depth (self : SubscriberOptions) (default_depth : Z) : Z :=
  if 0 <? channel_depth self then channel_depth self else default_depth.

Definition with_topic (topic : str) : SubscriberOptions :=
  mkSubscriberOptions 0 DropNewest (Some topic) None.

Definition with_deadline_callback (f : nat) : SubscriberOptions :=
  mkSubscriberOptions 0 DropNewest None (Some f).

(** [Context], with the clock reading as an argument. *)
Record Context_ : Type := mkContext { deadline : option Z }.

Definition Context_background : Context_ := mkContext None.
Definition Context_with_timeout (now d : Z) : Context_ := mkContext (Some (now + d)).
Definition Context_done (now : Z) (self : Context_) : bool :=
  match deadline self with Some d => d <=? now | None => false end.

Inductive HealthStatus : Type := HealthOk | Degraded | Down.

Definition HealthStatus_display (s : HealthStatus) : str :=
  bytes_of_ascii match s with HealthOk => "ok" | Degraded => "degraded" | Down => "down" end.

Record Health : Type := mkHealth { status : HealthStatus; details : str }.

Definition Health_ok : Health := mkHealth HealthOk [].
Definition Health_degraded (details : str) : Health := mkHealth Degraded details.
Definition Health_down (details : str) : Health := mkHealth Down details.

(** ** Sample and envelope *)

Section hex.
(** [hex::encode] and [hex::decode] *)
Context (hex_encode : list byte → str) (hex_decode : str → option (list byte)).

Definition WRITER_GUID_KEY : str := bytes_of_ascii "dds.writer_guid".

Definition Sample_to_message (self : Sample) : Message :=
  let meta := <[WRITER_GUID_KEY := hex_encode (vec_to_list (writer_guid self))]> ∅ in
  mkMessage Dds Version_default (topic self) (s_payload self) (timestamp self)
    (sequence_number self) meta.

Definition Sample_from_message (m : Message) : eres Sample :=
  writer_guid ←
    match meta m !! WRITER_GUID_KEY with
    | None => Ok (vreplicate 16 x00)
    | Some g =>
        bytes ← match hex_decode g with
                | Some bytes => Ok bytes
                | None => Err (Other (bytes_of_ascii "invalid dds.writer_guid hex: " ++ g))
                end;
        if negb (len bytes =? 16) then
          Err (Other (bytes_of_ascii "dds.writer_guid must be 16 bytes (32 hex chars), got "
                      ++ show (len bytes) ++ bytes_of_ascii " bytes"))
        else arr_of 16 bytes
    end;
  Ok (mkSample (id m) (m_payload m) (m_timestamp m) (seq m) writer_guid).

Lemma to_message_meta s :
  meta (Sample_to_message s) !! WRITER_GUID_KEY = Some (hex_encode (vec_to_list (writer_guid s))).
Proof using Type. apply lookup_insert_eq. Qed.

(** A sample survives the envelope, and an envelope is accepted exactly when
    its writer GUID, if present, decodes to sixteen bytes; no input makes
    the conversion panic. *)
Theorem sample_message_roundtrip :
  (∀ b, hex_decode (hex_encode b) = Some b) →
  (∀ s, Sample_from_message (Sample_to_message s) = Ok s) ∧
  (∀ m, no_panic (Sample_from_message m)) ∧
  (∀ m, (∃ s, Sample_from_message m = Ok s) ↔
     ∀ g, meta m !! WRITER_GUID_KEY = Some g → ∃ b, hex_decode g = Some b ∧ len b = 16).
Proof using Type.
  intros Hhex. split_and!.
  - intros s. unfold Sample_from_message. rewrite to_message_meta, Hhex, bind_ok, len_vec.
    cbn [negb Z.eqb]. change (Z.of_nat 16 =? 16) with true. cbn [negb].
    rewrite arr_of_vec, bind_ok. by destruct s.
  - intros m. unfold Sample_from_message. destruct (meta m !! _) as [g|]; [|done].
    destruct (hex_decode g) as [b|]; [|done]. rewrite bind_ok.
    destruct (Z.eqb_spec (len b) 16); [|done]. cbn [negb]. by rewrite arr_of_ok.
  - intros m. unfold Sample_from_message. destruct (meta m !! _) as [g|].
    + destruct (hex_decode g) as [b|] eqn:Hg.
      * rewrite bind_ok. destruct (Z.eqb_spec (len b) 16) as [Hl|Hl]; cbn [negb].
        -- rewrite arr_of_ok, bind_ok by done. split; [|eauto]. intros _ g' [= <-]. eauto.
        -- split; [by intros [? ?]|]. intros H. destruct (H g eq_refl) as (b' & Hb & ?). congruence.
      * split; [by intros [? ?]|]. intros H. destruct (H g eq_refl) as (b' & Hb & ?). congruence.
    + rewrite bind_ok. split; [done|eauto].
Qed.
End hex.

(** ** Small contracts *)

(** Exactly the domains 0 to 232 are accepted. *)
Lemma validate_domain_spec d :
  validate_domain d = if bool_decide (0 <= domain_id d <= 232) then Ok tt else Err DomainOutOfRange.
Proof.
  unfold validate_domain, MAX_DOMAIN_ID. case_bool_decide as Hd.
  - by rewrite !(proj2 (Z.ltb_ge _ _)) by lia.
  - destruct (Z.ltb_spec (domain_id d) 0), (Z.ltb_spec 232 (domain_id d)); (done || lia).
Qed.

(** The error and protocol mappings: every RELAY sentinel is fixed by the
    round trip through the crate's error, only [Other] has no sentinel, and
    a protocol number is accepted exactly when it is the number of a
    protocol, which it then denotes. *)
Theorem relay_mappings :
  (∀ e, as_relay (from_relay e) = Some e) ∧
  (∀ e, as_relay e = None ↔ ∃ m, e = Other m) ∧
  (∀ p, Protocol_try_from (Protocol_to_i32 p) = Ok p) ∧
  (∀ v p, Protocol_try_from v = Ok p ↔ v = Protocol_to_i32 p) ∧
  (∀ id, (∃ d, Domain_new id = Ok d) ↔ 0 <= id <= MAX_DOMAIN_ID).
Proof.
  split_and!.
  - by intros [].
  - intros []; simpl; split; try done; (by intros [? ?] || eauto).
  - by intros [].
  - intros v p. split; [|intros ->; by destruct p]. unfold Protocol_try_from.
    repeat match goal with
           | |- context [v =? ?n] => destruct (Z.eqb_spec v n) as [->|]; [by intros [= <-]|]
           end. done.
  - intros i. unfold Domain_new. rewrite validate_domain_spec. unfold MAX_DOMAIN_ID. simpl.
    case_bool_decide; simpl; split; try done; [eauto|by intros [? ?]].
Qed.

(** ** Concrete instances *)

(** Two digits per byte. *)
Definition demo_hex_encode (l : list byte) : str :=
  b ← l; [byte.of_Z (48 + byte.unsigned b / 16); byte.of_Z (48 + byte.unsigned b mod 16)].

Fixpoint demo_hex_decode (s : str) : option (list byte) :=
  match s with
  | [] => Some []
  | h :: l :: s =>
      (cons (byte.of_Z ((byte.unsigned h - 48) * 16 + (byte.unsigned l - 48)))) <$> demo_hex_decode s
  | _ => None
  end.

Lemma demo_hex_roundtrip l : demo_hex_decode (demo_hex_encode l) = Some l.
Proof.
  induction l as [|b l IH]; [done|].
  change (demo_hex_encode (b :: l)) with
    (byte.of_Z (48 + byte.unsigned b / 16) :: byte.of_Z (48 + byte.unsigned b mod 16)
       :: demo_hex_encode l).
  cbn [demo_hex_decode]. rewrite IH. simpl. do 2 f_equal.
  rewrite <- (byte.of_Z_unsigned b) at 3. f_equal.
  pose proof (byte.unsigned_range b) as Hb.
  rewrite !byte.unsigned_of_Z. unfold byte.wrap.
  rewrite !Z.mod_small by (Z.div_mod_to_equations; lia). Z.div_mod_to_equations. lia.
Qed.

Lemma sample_message_roundtrip_witness :
  let s := mkSample [x74] [x01; x02] 9 3 (vreplicate 16 xab) in
  Sample_from_message demo_hex_decode (Sample_to_message demo_hex_encode s) = Ok s.
Proof.
  apply (sample_message_roundtrip demo_hex_encode demo_hex_decode). apply demo_hex_roundtrip.
Defined.
