(* ===== verification/Cli.v ===== *)
(** * Cli: the rust-dds command line (src/bin/main.rs)

    Parsing the arguments is clap's and JSON is serde_json's: [to_string_pretty]
    and [from_slice] are parameters, like the [Debug] text of a string and the
    text of an error.  A run is what it prints and its exit code; printing
    does not fail. *)

From S2P Require Import Prelude Types.

(** [CARGO_PKG_VERSION] and [RUSTC_VERSION] are set by the build. *)
Class BuildInfo := { cargo_pkg_version : str; rustc_version : str }.

(** [MAX_CONVERT_INPUT_BYTES] *)
Definition MAX_CONVERT_INPUT_BYTES : Z := 512 * 1024 * 1024.

Definition RELAY_SPEC_VERSION : str := bytes_of_ascii "2.0".

Inductive Format : Type := Text | Json.

Inductive Command : Type :=
| Version (format : Format)
| Capabilities
| Status (format : Format)
| Convert (protocol format : str).

Record VersionOutput : Type := mkVersionOutput {
  vo_tool : str;
  vo_protocol : str;
  vo_protocol_int : Z;
  vo_version : str;
  vo_spec_version : str;
  vo_language : str;
  vo_runtime : str }.

Record CapabilitiesOutput : Type := mkCapabilities {
  ca_kind : str;
  ca_tool : str;
  ca_protocol : str;
  ca_protocol_int : Z;
  ca_version : str;
  ca_spec_version : str;
  ca_commands : list str;
  ca_transports : list str;
  ca_features : list str;
  ca_interfaces : list str;
  ca_optional_interfaces : list str;
  ca_adapt : bool }.

(** Without [details], an empty object. *)
Record StatusOutput : Type := mkStatus {
  st_tool : str;
  st_protocol : str;
  st_version : str;
  st_healthy : bool;
  st_connected : bool;
  st_endpoint : str }.

(** What is serialized. *)
Inductive Value : Type :=
| VVersion (v : VersionOutput)
| VCapabilities (c : CapabilitiesOutput)
| VStatus (s : StatusOutput)
| VMessage (m : Message).

(** What a run leaves. *)
Record Ran : Type := mkRan { out : str; err : str; code : Z }.

(** [str::eq_ignore_ascii_case] *)
Definition to_ascii_lowercase (b : byte) : byte :=
  let z := byte.unsigned b in
  if (65 <=? z) && (z <=? 90) then byte.of_Z (z + 32) else b.
Definition eq_ignore_ascii_case (a b : str) : bool :=
  bool_decide (to_ascii_lowercase <$> a = to_ascii_lowercase <$> b).

Section cli.
Context `{!BuildInfo} {E J : Type}.
Context (to_string_pretty : Value → option str) (from_slice : list byte → Sample + J).
Context (debug : str → str) (show_io : E → str) (show_json : J → str).
Context (hex_encode : list byte → str).

(** Standard input: the bytes it gives before it ends or fails. *)
Record Stdin : Type := mkStdin { si_bytes : list byte; si_error : option E }.

(** [Read::take(limit)] and [read_to_end]: a stream is not asked for more than
    [limit] bytes. *)
Definition read_take (limit : Z) (stdin : Stdin) : list byte + E :=
  if limit <=? len (si_bytes stdin) then inl (take (Z.to_nat limit) (si_bytes stdin))
  else match si_error stdin with Some e => inr e | None => inl (si_bytes stdin) end.

(** [println!] and [eprintln!], followed by the end of the process. *)
Definition println (s : str) : panics Ran := Ok (mkRan (s ++ [x0a]) [] 0).
Definition exit_with (s : str) (code : Z) : panics Ran :=
  Ok (mkRan [] (bytes_of_ascii "rust-dds convert: " ++ s ++ [x0a]) code).

Definition println_json (v : Value) : panics Ran :=
  match to_string_pretty v with Some s => println s | None => Panic end.

Definition run_convert (protocol format : str) (stdin : Stdin) : panics Ran :=
  if negb (bool_decide (format = bytes_of_ascii "json")) then
    exit_with (bytes_of_ascii "unsupported format " ++ debug format) 2
  else if negb (eq_ignore_ascii_case protocol (bytes_of_ascii "dds")) then
    exit_with (bytes_of_ascii "protocol " ++ debug protocol
               ++ bytes_of_ascii " is not implemented by rust-dds (only DDS)") 1
  else
    match read_take (MAX_CONVERT_INPUT_BYTES + 1) stdin with
    | inr e => exit_with (bytes_of_ascii "read stdin: " ++ show_io e) 1
    | inl input =>
        if MAX_CONVERT_INPUT_BYTES <? len input then
          exit_with (bytes_of_ascii "stdin exceeds " ++ show MAX_CONVERT_INPUT_BYTES ++ bytes_of_ascii " byte limit") 2
        else
          match from_slice input with
          | inr e => exit_with (bytes_of_ascii "invalid canonical value: " ++ show_json e) 1
          | inl sample => println_json (VMessage (Sample_to_message hex_encode sample))
          end
    end.

Definition ascii_bool (b : bool) : str := bytes_of_ascii (if b then "true" else "false").

(** " — " *)
Definition em_dash : str := [x20; xe2; x80; x94; x20].

Definition version_output : VersionOutput :=
  mkVersionOutput (bytes_of_ascii "rust-dds") (bytes_of_ascii "DDS") 2 cargo_pkg_version RELAY_SPEC_VERSION
    (bytes_of_ascii "rust") rustc_version.

Definition capabilities : CapabilitiesOutput :=
  mkCapabilities (bytes_of_ascii "capabilities") (bytes_of_ascii "rust-dds") (bytes_of_ascii "DDS") 2
    cargo_pkg_version RELAY_SPEC_VERSION
    (bytes_of_ascii <$> ["version"; "capabilities"; "status"; "convert"]%string)
    (bytes_of_ascii <$> ["mock"; "rtps"; "shmem"]%string)
    (bytes_of_ascii <$> ["transient_local"; "back_pressure"; "writer_guid"; "sequence_number"; "deadline";
                         "security"; "observability"; "loaning"]%string)
    (bytes_of_ascii <$> ["Participant"; "Publisher"; "Subscriber"; "LoaningPublisher"]%string)
    (bytes_of_ascii <$> ["HealthProvider"; "MetricsProvider"; "SecurityPlugin"]%string) true.

Definition status_output : StatusOutput :=
  mkStatus (bytes_of_ascii "rust-dds") (bytes_of_ascii "DDS") cargo_pkg_version true false [].

Definition main (command : Command) (stdin : Stdin) : panics Ran :=
  match command with
  | Version format =>
      let v := version_output in
      match format with
      | Json => println_json (VVersion v)
      | Text => println (bytes_of_ascii "rust-dds " ++ vo_version v ++ bytes_of_ascii " (RELAY spec v"
                         ++ vo_spec_version v ++ bytes_of_ascii ", protocol: DDS, runtime: " ++ vo_runtime v
                         ++ bytes_of_ascii ")")
      end
  | Capabilities => println_json (VCapabilities capabilities)
  | Status format =>
      let s := status_output in
      match format with
      | Json => println_json (VStatus s)
      | Text => println (bytes_of_ascii "rust-dds " ++ st_version s ++ em_dash ++ bytes_of_ascii "healthy: "
                         ++ ascii_bool (st_healthy s) ++ bytes_of_ascii ", connected: "
                         ++ ascii_bool (st_connected s))
      end
  | Convert protocol format => run_convert protocol format stdin
  end.

(** ** Converting *)

(** What [convert] accepts: JSON of DDS, with the protocol in any case, and a
    stream that ends within the limit and holds a canonical sample. *)
Definition convertible (protocol format : str) (stdin : Stdin) (s : Sample) : Prop :=
  format = bytes_of_ascii "json" ∧ to_ascii_lowercase <$> protocol = bytes_of_ascii "dds" ∧
  si_error stdin = None ∧ len (si_bytes stdin) <= MAX_CONVERT_INPUT_BYTES ∧ from_slice (si_bytes stdin) = inl s.

Lemma eq_ignore_ascii_case_dds protocol :
  eq_ignore_ascii_case protocol (bytes_of_ascii "dds") = bool_decide (to_ascii_lowercase <$> protocol = bytes_of_ascii "dds").
Proof using Type. done. Qed.

Lemma read_take_ok limit stdin input : 0 <= limit → read_take (limit + 1) stdin = inl input → len input <= limit →
  si_error stdin = None ∧ input = si_bytes stdin.
Proof using Type.
  intros Hl. unfold read_take. destruct (Z.leb_spec (limit + 1) (len (si_bytes stdin))).
  - intros [= <-]. rewrite len_take. lia.
  - destruct (si_error stdin); [done|]. by intros [= <-].
Qed.

Lemma read_take_too_long limit stdin : 0 <= limit →
  (∃ input, read_take (limit + 1) stdin = inl input ∧ limit < len input) ↔ limit < len (si_bytes stdin).
Proof using Type.
  intros Hl. unfold read_take. destruct (Z.leb_spec (limit + 1) (len (si_bytes stdin))).
  - split; [lia|]. intros _. eexists. split; [done|]. rewrite len_take. lia.
  - destruct (si_error stdin).
    + split; [by intros (? & ? & _)|lia].
    + split; [|lia]. intros (? & [= <-] & ?). lia.
Qed.

(** The six ways [convert] ends. *)
Lemma run_convert_cases protocol format stdin r : run_convert protocol format stdin = Ok r →
  (∃ s text, convertible protocol format stdin s ∧
     to_string_pretty (VMessage (Sample_to_message hex_encode s)) = Some text ∧ r = mkRan (text ++ [x0a]) [] 0) ∨
  ((∀ s, ¬ convertible protocol format stdin s) ∧ out r = [] ∧ err r ≠ [] ∧
   code r = if bool_decide (format ≠ bytes_of_ascii "json" ∨
                            to_ascii_lowercase <$> protocol = bytes_of_ascii "dds" ∧
                            MAX_CONVERT_INPUT_BYTES < len (si_bytes stdin))
            then 2 else 1).
Proof using Type.
  assert (0 <= MAX_CONVERT_INPUT_BYTES) as Hm by done. unfold run_convert, exit_with, println_json, println.
  rewrite eq_ignore_ascii_case_dds. intros Hr. destruct (bool_decide_reflect (format = bytes_of_ascii "json")) as [->|Hf]; simpl negb in Hr.
  2: { injection Hr as <-. right. split_and!; [by intros s [? _]|done..|]. rewrite bool_decide_true by auto. done. }
  destruct (bool_decide_reflect (to_ascii_lowercase <$> protocol = bytes_of_ascii "dds")) as [Hp|Hp]; simpl negb in Hr.
  2: { injection Hr as <-. right. split_and!; [by intros s (_ & ? & _)|done..|]. rewrite bool_decide_false by tauto. done. }
  pose proof (read_take_too_long MAX_CONVERT_INPUT_BYTES stdin Hm) as Hlong.
  pose proof (λ i, read_take_ok MAX_CONVERT_INPUT_BYTES stdin i Hm) as Hok.
  destruct (read_take _ stdin) as [input|e] eqn:Hread.
  2: { injection Hr as <-. right. split_and!; [|done..|].
       - intros s (_ & _ & He & Hle & _). unfold read_take in Hread.
         destruct (_ <=? _) eqn:?; [done|]. by rewrite He in Hread.
       - rewrite bool_decide_false; [done|]. intros [[]|[_ Hc]]; [done|]. by apply Hlong in Hc as (? & ? & _). }
  destruct (Z.ltb_spec MAX_CONVERT_INPUT_BYTES (len input)) as [Hc|Hc].
  - injection Hr as <-. apply (λ x, proj1 Hlong (ex_intro _ input (conj eq_refl x))) in Hc.
    right. split_and!; [intros s (_ & _ & _ & ? & _); lia|done..|]. by rewrite bool_decide_true by auto.
  - destruct (Hok input eq_refl Hc) as [He ->]. destruct (from_slice _) as [s|e] eqn:Hs.
    + destruct (to_string_pretty _) as [text|] eqn:Ht; [|done]. injection Hr as <-. left. by exists s, text.
    + injection Hr as <-. right. split_and!; [intros s (_ & _ & _ & _ & ?); congruence|done..|].
      rewrite bool_decide_false; [done|]. intros [|[_ ?]]; [done|lia].
Qed.

Context (hex_decode : str → option (list byte)) (parse_message : str → option Message).

(** The converter.  If messages can be serialized and read back, with white
    space after them, and hexadecimal decodes to what was encoded: [convert]
    never panics; it exits with 0 exactly on a sample it accepts, and then what
    it prints reads back as a message that converts into that sample again; on
    anything else it prints nothing but an error, and exits with 2 if the
    format is not JSON or the stream is longer than 512 MiB, with 1
    otherwise. *)
Theorem convert_spec protocol format stdin :
  (∀ m, ∃ text, to_string_pretty (VMessage m) = Some text ∧ parse_message (text ++ [x0a]) = Some m) →
  (∀ b, hex_decode (hex_encode b) = Some b) →
  ∃ r, main (Convert protocol format) stdin = Ok r ∧
    (code r = 0 ↔ ∃ s, convertible protocol format stdin s) ∧
    (∀ s, convertible protocol format stdin s →
       err r = [] ∧ ∃ m, parse_message (out r) = Some m ∧ Sample_from_message hex_decode m = Ok s) ∧
    (code r ≠ 0 → out r = [] ∧ err r ≠ [] ∧
       code r = if bool_decide (format ≠ bytes_of_ascii "json" ∨
                                to_ascii_lowercase <$> protocol = bytes_of_ascii "dds" ∧
                                MAX_CONVERT_INPUT_BYTES < len (si_bytes stdin))
                then 2 else 1).
Proof using Type.
  intros Hjson Hhex.
  assert (∃ r, run_convert protocol format stdin = Ok r) as [r Hr].
  { unfold run_convert, exit_with. repeat case_match; eauto. unfold println_json.
    edestruct Hjson as (text & -> & _). by eexists. }
  exists r. split; [done|]. destruct (run_convert_cases _ _ _ _ Hr) as [(s & text & Hs & Ht & ->)|(Hno & Ho & He & Hc)].
  - simpl. split; [by split; [eauto|]|]. split; [|done]. intros s' Hs'.
    assert (s' = s) as -> by (destruct Hs as (_ & _ & _ & _ & ?), Hs' as (_ & _ & _ & _ & ?); congruence).
    split; [done|]. destruct (Hjson (Sample_to_message hex_encode s)) as (text' & Ht' & Hp).
    simplify_eq. exists (Sample_to_message hex_encode s). split; [done|].
    by apply (sample_message_roundtrip hex_encode hex_decode).
  - split_and!; [|by intros s ?%Hno|done]. rewrite Hc. split; [by case_bool_decide|by intros [s ?%Hno]].
Qed.
End cli.

(** ** An instance

    A serializer of messages: the binary digits of their number under an
    injection into the positive numbers; and its inverse. *)

#[local] Instance Version_eq_dec : EqDecision Types.Version.
Proof. solve_decision. Defined.
#[local] Instance Message_eq_dec : EqDecision Message.
Proof. solve_decision. Defined.
#[local] Instance Message_countable : Countable Message.
Proof.
  refine (inj_countable (A:=Z * (Z * Z * Z) * str * str * Z * Z * gmap str str)
    (λ m, (Protocol_to_i32 (protocol m), (v_major (version m), v_minor (version m), v_patch (version m)), Types.id m,
           m_payload m, m_timestamp m, seq m, meta m))
    (λ '(p, (a, b, c), i, l, t, n, g),
       match Protocol_try_from p with Ok p => Some (mkMessage p (mkVersion a b c) i l t n g) | _ => None end) _).
  by intros [[] [] ? ? ? ? ?].
Defined.

Fixpoint digits (p : positive) : str :=
  match p with xO p => x30 :: digits p | xI p => x31 :: digits p | xH => [] end.

Fixpoint number (s : str) : positive :=
  match s with
  | b :: s => if bool_decide (b = x30) then xO (number s) else if bool_decide (b = x31) then xI (number s) else xH
  | [] => xH
  end.

Lemma number_digits p : number (digits p ++ [x0a]) = p.
Proof. by induction p as [p IH|p IH|]; simpl; rewrite ?IH. Qed.

Definition demo_pretty (v : Value) : option str :=
  match v with VMessage m => Some (digits (encode m)) | _ => Some [] end.
Definition demo_parse (s : str) : option Message := decode (number s).

(** A stream that is the topic of a sample. *)
Definition demo_sample (input : list byte) : Sample + unit :=
  match input with [] => inr tt | _ => inl (mkSample input [x01; x02] 9 3 (vreplicate 16 xab)) end.

#[local] Instance demo_build : BuildInfo :=
  {| cargo_pkg_version := bytes_of_ascii "1.0"; rustc_version := bytes_of_ascii "rustc" |}.

Definition demo_main : Command → Stdin (E:=unit) → panics Ran :=
  main demo_pretty demo_sample (λ s, s) (λ _, []) (λ _, []) demo_hex_encode.

(** The protocol is accepted in any case; an empty stream is refused. *)
Lemma convert_spec_witness :
  (∃ r m, demo_main (Convert (bytes_of_ascii "dDs") (bytes_of_ascii "json")) (mkStdin (bytes_of_ascii "a/b") None) = Ok r ∧
     code r = 0 ∧ demo_parse (out r) = Some m ∧
     Sample_from_message demo_hex_decode m = Ok (mkSample (bytes_of_ascii "a/b") [x01; x02] 9 3 (vreplicate 16 xab))) ∧
  ∃ r, demo_main (Convert (bytes_of_ascii "DDS") (bytes_of_ascii "json")) (mkStdin [] None) = Ok r ∧ code r = 1 ∧ out r = [].
Proof.
  assert (∀ m, ∃ text, demo_pretty (VMessage m) = Some text ∧ demo_parse (text ++ [x0a]) = Some m) as Hjson.
  { intros m. exists (digits (encode m)). split; [reflexivity|]. unfold demo_parse. rewrite number_digits. apply decode_encode. }
  split.
  - destruct (convert_spec demo_pretty demo_sample (λ s, s) (λ _, []) (λ _, []) demo_hex_encode demo_hex_decode demo_parse
      (bytes_of_ascii "dDs") (bytes_of_ascii "json") (mkStdin (E:=unit) (bytes_of_ascii "a/b") None) Hjson demo_hex_roundtrip)
      as (r & Hr & Hc & Hs & _).
    assert (convertible demo_sample (bytes_of_ascii "dDs") (bytes_of_ascii "json") (mkStdin (E:=unit) (bytes_of_ascii "a/b") None)
      (mkSample (bytes_of_ascii "a/b") [x01; x02] 9 3 (vreplicate 16 xab))) as Hok by (repeat split; discriminate).
    destruct (Hs _ Hok) as (_ & m & Hm & Hx). exists r, m. split; [exact Hr|]. split; [|split; [exact Hm|exact Hx]].
    apply Hc. eexists. exact Hok.
  - destruct (convert_spec demo_pretty demo_sample (λ s, s) (λ _, []) (λ _, []) demo_hex_encode demo_hex_decode demo_parse
      (bytes_of_ascii "DDS") (bytes_of_ascii "json") (mkStdin (E:=unit) [] None) Hjson demo_hex_roundtrip)
      as (r & Hr & Hc & _ & Hf).
    assert (code r = 1) as H1.
    { destruct (decide (code r = 0)) as [H0|H0]; [|apply (Hf H0)].
      apply Hc in H0 as (s & _ & _ & _ & _ & H0). discriminate H0. }
    exists r. split; [exact Hr|]. split; [exact H1|]. apply Hf. rewrite H1. discriminate.
Defined.
