(* ===== verification/Observability.v ===== *)
(** * Observability: health snapshots and per-topic metrics
    (src/observability/health.rs, src/observability/metrics.rs)

    The value types of the two optional participant capabilities; each
    participant gives its own answer to [health] and [topic_metrics]. *)

From S2P Require Import Prelude Types.

Module Observability.
Inductive HealthStatus : Type := Ok | Degraded | Down.

Definition display (s : HealthStatus) : str :=
  bytes_of_ascii match s with Ok => "ok" | Degraded => "degraded" | Down => "down" end.

Record Health : Type := mkHealth { status : HealthStatus; details : option str }.

Definition Health_ok : Health := mkHealth Ok None.
Definition Health_degraded (details : str) : Health := mkHealth Degraded (Some details).
Definition Health_down (details : str) : Health := mkHealth Down (Some details).

Record TopicMetrics : Type := mkTopicMetrics {
  tm_topic : str;
  tm_write_count : Z;
  tm_deliver_count : Z;
  tm_drop_count : Z;
  tm_bytes_written : Z;
  tm_bytes_delivered : Z }.
End Observability.

(** The details of a closed participant: [r#"{"state":"closed"}"#], its quotes as bytes. *)
Definition CLOSED_DETAILS : str :=
  bytes_of_ascii "{" ++ [x22] ++ bytes_of_ascii "state" ++ [x22] ++ bytes_of_ascii ":"
  ++ [x22] ++ bytes_of_ascii "closed" ++ [x22] ++ bytes_of_ascii "}".
