(* ===== verification/SubQueue.v ===== *)
(** * SubQueue: the subscriber queue, its receiver and the Deadline watcher
    (src/participant.rs)

    [SubInner] is the queue shared by the publishing side ([push]), the
    lifecycle handle ([close], [unsubscribe]) and the receiving side
    ([SampleReceiver]).  The operations are given twice: as whole functions,
    and cut at their atomic actions (a flag load, one locked region, one
    [Notify] call) so that their interleavings form a step relation.
    [tokio::sync::Notify] is an interface with its documented contract. *)

From S2P Require Import Prelude Types.

(** ** [tokio::sync::Notify]

    [notified n] is a pending [notified().await]; [poll] tells whether it
    completes.  [permit] is the stored permit, [waiting] the pending future,
    with whether it has been woken.  The laws are the documented behaviour:
    [notify_one] wakes the waiter or stores a permit (at most one),
    [notify_waiters] wakes a waiter and never stores a permit. *)
Class Notify (N : Type) : Type := {
  notify_new : N;
  notify_one : N → N;
  notify_waiters : N → N;
  notified : N → N;
  poll : N → option N;
  permit : N → bool;
  waiting : N → option bool;
  new_permit : permit notify_new = false;
  new_waiting : waiting notify_new = None;
  one_permit n : permit (notify_one n) =
    match waiting n with Some false => permit n | _ => true end;
  one_waiting n : waiting (notify_one n) =
    match waiting n with Some _ => Some true | None => None end;
  all_permit n : permit (notify_waiters n) = permit n;
  all_waiting n : waiting (notify_waiters n) =
    match waiting n with Some _ => Some true | None => None end;
  notified_permit n : permit (notified n) = permit n;
  notified_waiting n : waiting (notified n) = Some false;
  poll_none n : poll n = None ↔ permit n = false ∧ waiting n ≠ Some true;
  poll_some n n' : poll n = Some n' → permit n' = false ∧ waiting n' = None }.

(** The contract is realised by a pair of the permit and the waiter. *)
#[refine, global] Instance notify_model : Notify (bool * option bool) := {|
  notify_new := (false, None);
  notify_one n := match n.2 with
                  | Some false => (n.1, Some true)
                  | w => (true, w)
                  end;
  notify_waiters n := (n.1, match n.2 with Some _ => Some true | None => None end);
  notified n := (n.1, Some false);
  poll n := match n with
            | (true, _) | (_, Some true) => Some (false, None)
            | _ => None
            end;
  permit := fst;
  waiting := snd |}.
Proof.
  all: try done.
  all: try by intros [? [[]|]].
  - intros [[] [[]|]]; simpl; split; try done; by intros [? []].
  - by intros [[] [[]|]] n' [= <-].
Defined.

(** ** The queue *)

Record SubInner (N : Type) : Type := mkSubInner {
  queue : list Sample;
  capacity : Z;
  policy : BackPressurePolicy;
  notify : N;
  closed : bool;
  unsubscribed : bool;
  deadline_notify : N }.
Arguments mkSubInner {N}.
Arguments queue {N}.
Arguments capacity {N}.
Arguments policy {N}.
Arguments notify {N}.
Arguments closed {N}.
Arguments unsubscribed {N}.
Arguments deadline_notify {N}.

Section SubInner.
Context {N : Type} `{!Notify N}.
Notation inner := (SubInner N).
Implicit Types i : inner.

Definition SubInner_new (capacity : Z) (policy : BackPressurePolicy) : inner :=
  mkSubInner [] capacity policy notify_new false false notify_new.

Definition set_queue (q : list Sample) i : inner :=
  mkSubInner q (capacity i) (policy i) (notify i) (closed i) (unsubscribed i) (deadline_notify i).
Definition set_notify (n : N) i : inner :=
  mkSubInner (queue i) (capacity i) (policy i) n (closed i) (unsubscribed i) (deadline_notify i).
Definition set_deadline_notify (n : N) i : inner :=
  mkSubInner (queue i) (capacity i) (policy i) (notify i) (closed i) (unsubscribed i) n.
Definition set_closed i : inner :=
  mkSubInner (queue i) (capacity i) (policy i) (notify i) true (unsubscribed i)
    (deadline_notify i).
Definition set_unsubscribed i : inner :=
  mkSubInner (queue i) (capacity i) (policy i) (notify i) (closed i) true (deadline_notify i).

(** The locked region of [push]: [None] is the early [return false]. *)
Definition push_locked i (sample : Sample) : option inner :=
  let q := queue i in
  match policy i with
  | DropNewest | Block =>
      if capacity i <=? len q then None else Some (set_queue (q ++ [sample]) i)
  | DropOldest =>
      let q := if capacity i <=? len q then tl q else q in
      Some (set_queue (q ++ [sample]) i)
  end.

Definition push i (sample : Sample) : bool * inner :=
  if unsubscribed i || closed i then (false, i)
  else match push_locked i sample with
       | None => (false, i)
       | Some i =>
           let i := set_notify (notify_one (notify i)) i in
           (true, set_deadline_notify (notify_one (deadline_notify i)) i)
       end.

Definition pop i : option Sample * inner :=
  match queue i with
  | [] => (None, i)
  | s :: q => (Some s, set_queue q i)
  end.

Definition close i : inner :=
  let i := set_closed i in
  let i := set_notify (notify_waiters (notify i)) i in
  set_deadline_notify (notify_waiters (deadline_notify i)) i.

Definition unsubscribe i : inner := close (set_unsubscribed i).

Definition try_recv i : option Sample * inner := pop i.

(** *** Functional behaviour *)

Definition is_open i : Prop := unsubscribed i = false ∧ closed i = false.

(** The samples pushed one after the other, with what each [push] returned. *)
Fixpoint push_all i (ss : list Sample) : list bool * inner :=
  match ss with
  | [] => ([], i)
  | s :: ss =>
      let '(b, i) := push i s in
      let '(bs, i) := push_all i ss in
      (b :: bs, i)
  end.

(** What a full queue keeps. *)
Definition keep (p : BackPressurePolicy) (cap : Z) (ss : list Sample) : list Sample :=
  match p with
  | DropNewest | Block => take (Z.to_nat cap) ss
  | DropOldest => drop (Z.to_nat (len ss - cap)) ss
  end.

Lemma push_closed i s : ¬ is_open i → push i s = (false, i).
Proof using Type.
  unfold is_open, push. destruct (unsubscribed i), (closed i); naive_solver.
Qed.

Lemma push_frame i s b i' : push i s = (b, i') →
  capacity i' = capacity i ∧ policy i' = policy i ∧ closed i' = closed i ∧
  unsubscribed i' = unsubscribed i.
Proof using Type.
  unfold push, push_locked. intros H.
  repeat case_match; simplify_eq; by unfold set_queue.
Qed.

Lemma push_open i s : is_open i →
  push i s = (match push_locked i s with Some _ => true | None => false end,
              match push_locked i s with
              | Some i' => mkSubInner (queue i') (capacity i) (policy i)
                  (notify_one (notify i)) false false (notify_one (deadline_notify i))
              | None => i
              end).
Proof using Type.
  intros [Hu Hc]. unfold push. rewrite Hu, Hc. cbn [orb].
  unfold push_locked, set_deadline_notify, set_notify, set_queue.
  destruct (policy i), (capacity i <=? len (queue i)); simpl; rewrite ?Hu, ?Hc; reflexivity.
Qed.

Lemma keep_snoc p cap ss s : 1 <= cap →
  let q := keep p cap ss in
  keep p cap (ss ++ [s]) =
    match p with
    | DropOldest => (if cap <=? len q then tl q else q) ++ [s]
    | _ => if cap <=? len q then q else q ++ [s]
    end.
Proof using Type.
  intros Hcap. unfold keep, len. destruct p; simpl.
  2: { rewrite length_app. simpl. destruct (Z.leb_spec cap (Z.of_nat (length (drop (Z.to_nat (Z.of_nat (length ss) - cap)) ss)))) as [H|H];
       rewrite length_drop in H.
    - replace (Z.to_nat (Z.of_nat (length ss + 1) - cap)) with (S (Z.to_nat (Z.of_nat (length ss) - cap))) by lia.
      rewrite drop_app_le by lia. f_equal.
      generalize (Z.to_nat (Z.of_nat (length ss) - cap)). intros n. clear.
      revert n. induction ss as [|x ss IH]; intros [|n]; try done. apply (IH n).
    - rewrite drop_app_le by lia. do 2 f_equal. lia. }
  all: destruct (Z.leb_spec cap (Z.of_nat (length (take (Z.to_nat cap) ss)))) as [H|H];
       rewrite length_take in H.
  1, 3: by rewrite take_app_le by lia.
  all: rewrite (take_ge ss) by lia; apply take_ge; rewrite length_app; simpl; lia.
Qed.

Lemma push_keeps i s ss : is_open i → 1 <= capacity i →
  queue i = keep (policy i) (capacity i) ss →
  is_open (push i s).2 ∧ capacity (push i s).2 = capacity i ∧ policy (push i s).2 = policy i ∧
  queue (push i s).2 = keep (policy i) (capacity i) (ss ++ [s]).
Proof using Type.
  intros Ho Hcap Hq. rewrite push_open by done. rewrite keep_snoc by done. simpl. rewrite <- Hq.
  unfold push_locked. destruct Ho as [Hu Hc].
  destruct (policy i) eqn:Hp; destruct (capacity i <=? len (queue i));
    split_and!; simpl; rewrite ?Hp; done.
Qed.

Lemma push_all_keeps ss i ss0 : is_open i → 1 <= capacity i →
  queue i = keep (policy i) (capacity i) ss0 →
  queue (push_all i ss).2 = keep (policy i) (capacity i) (ss0 ++ ss).
Proof using Type.
  revert i ss0. induction ss as [|s ss IH]; intros i ss0 Ho Hcap Hq.
  { by rewrite app_nil_r. }
  simpl. destruct (push_keeps i s ss0) as (Ho' & Hc' & Hp' & Hq'); [done..|].
  destruct (push i s) as [b i'] eqn:Hpush. simpl in *.
  specialize (IH i' (ss0 ++ [s])). rewrite Hc', Hp' in IH.
  destruct (push_all i' ss) as [bs i''] eqn:Hall. simpl in *.
  rewrite IH by done. by rewrite <- app_assoc.
Qed.

(** Back-pressure of the direct path: an open queue of capacity at least
    one holds, after any sequence of pushes, the first [capacity] samples
    under [DropNewest] and [Block] and the last [capacity] under
    [DropOldest]; [push] answers [false] exactly when the sample was not
    enqueued, and a closed or unsubscribed queue refuses every sample and
    keeps what it held. *)
Theorem back_pressure_keeps cap pol ss : 1 <= cap →
  queue (push_all (SubInner_new cap pol) ss).2 = keep pol cap ss ∧
  (∀ i s, is_open i →
     (push i s).1 = match policy i with DropOldest => true | _ => len (queue i) <? capacity i end ∧
     ((push i s).1 = false → (push i s).2 = i)) ∧
  (∀ i s, ¬ is_open i → push i s = (false, i)) ∧
  (∀ i s, push (close i) s = (false, close i) ∧ push (unsubscribe i) s = (false, unsubscribe i)).
Proof using Type.
  intros Hcap. split_and!.
  - rewrite (push_all_keeps ss _ []); simpl; try done.
    unfold keep. destruct pol; by rewrite ?take_nil, ?drop_nil.
  - intros i s Ho. rewrite push_open by done. simpl. unfold push_locked.
    destruct (policy i); rewrite ?Z.leb_antisym;
      try (destruct (len (queue i) <? capacity i)); split; done.
  - intros i s. apply push_closed.
  - intros i s. split; apply push_closed; by intros [_ ?].
Qed.

(** ** Interleavings

    A publishing call, cut at its atomic actions. *)
Inductive PushPc : Type :=
| PCheckUnsubscribed (s : Sample)
| PCheckClosed (s : Sample)
| PLocked (s : Sample)
| PNotify
| PNotifyDeadline
| PReturned (b : bool).

(** A [close] call, and the [unsubscribe] call around it. *)
Inductive ClosePc : Type :=
| CUnsubscribe
| CStore
| CNotify
| CNotifyDeadline
| CReturned.

Inductive Thread : Type := Pushing (p : PushPc) | Closing (c : ClosePc).

#[global] Instance PushPc_eq_dec : EqDecision PushPc.
Proof using Type. solve_decision. Defined.
#[global] Instance ClosePc_eq_dec : EqDecision ClosePc.
Proof using Type. solve_decision. Defined.
#[global] Instance Thread_eq_dec : EqDecision Thread.
Proof using Type. solve_decision. Defined.

(** A [recv] call: [pop], load [closed], [notified().await]. *)
Inductive RecvPc : Type :=
| RIdle
| RPop
| RCheckClosed
| RDrain
| RListen
| RWait
| RReturned (r : option Sample).

Definition push_step i (p : PushPc) : inner * PushPc :=
  match p with
  | PCheckUnsubscribed s => (i, if unsubscribed i then PReturned false else PCheckClosed s)
  | PCheckClosed s => (i, if closed i then PReturned false else PLocked s)
  | PLocked s =>
      match push_locked i s with
      | None => (i, PReturned false)
      | Some i => (i, PNotify)
      end
  | PNotify => (set_notify (notify_one (notify i)) i, PNotifyDeadline)
  | PNotifyDeadline => (set_deadline_notify (notify_one (deadline_notify i)) i, PReturned true)
  | PReturned b => (i, PReturned b)
  end.

Definition close_step i (c : ClosePc) : inner * ClosePc :=
  match c with
  | CUnsubscribe => (set_unsubscribed i, CStore)
  | CStore => (set_closed i, CNotify)
  | CNotify => (set_notify (notify_waiters (notify i)) i, CNotifyDeadline)
  | CNotifyDeadline => (set_deadline_notify (notify_waiters (deadline_notify i)) i, CReturned)
  | CReturned => (i, CReturned)
  end.

Definition thread_step i (t : Thread) : inner * Thread :=
  match t with
  | Pushing p => let '(i, p) := push_step i p in (i, Pushing p)
  | Closing c => let '(i, c) := close_step i c in (i, Closing c)
  end.

(** [None]: the receiver is blocked, or not in a call. *)
Definition recv_step i (r : RecvPc) : option (inner * RecvPc) :=
  match r with
  | RIdle | RReturned _ => None
  | RPop => match pop i with
            | (Some s, i) => Some (i, RReturned (Some s))
            | (None, i) => Some (i, RCheckClosed)
            end
  | RCheckClosed => Some (i, if closed i then RDrain else RListen)
  | RDrain => let '(o, i) := pop i in Some (i, RReturned o)
  | RListen => Some (set_notify (notified (notify i)) i, RWait)
  | RWait => match poll (notify i) with
             | None => None
             | Some n => Some (set_notify n i, RPop)
             end
  end.

(** The call alone, up to [fuel] steps. *)
Fixpoint recv_run (fuel : nat) i (r : RecvPc) : inner * RecvPc :=
  match fuel, recv_step i r with
  | S fuel, Some (i, r) => recv_run fuel i r
  | _, _ => (i, r)
  end.

(** One receiver and any number of publishing and closing calls; [enqueued]
    and [received] record what went through the queue. *)
Record World : Type := mkWorld {
  w_inner : inner;
  w_recv : RecvPc;
  w_threads : list Thread;
  enqueued : list Sample;
  received : list Sample }.

Definition enqueued_by (t : Thread) (t' : Thread) : list Sample :=
  match t, t' with Pushing (PLocked s), Pushing PNotify => [s] | _, _ => [] end.

Definition received_by (r : RecvPc) : list Sample :=
  match r with RReturned (Some s) => [s] | _ => [] end.

Definition fresh (t : Thread) : Prop :=
  match t with
  | Pushing (PCheckUnsubscribed _) | Closing CUnsubscribe | Closing CStore => True
  | _ => False
  end.

Definition finished (t : Thread) : Prop :=
  match t with Pushing (PReturned _) | Closing CReturned => True | _ => False end.

Inductive step : World → World → Prop :=
| step_thread w k t i' t' :
    w_threads w !! k = Some t → ¬ finished t → thread_step (w_inner w) t = (i', t') →
    step w (mkWorld i' (w_recv w) (<[k := t']> (w_threads w))
              (enqueued w ++ enqueued_by t t') (received w))
| step_recv w i' r' :
    recv_step (w_inner w) (w_recv w) = Some (i', r') →
    step w (mkWorld i' r' (w_threads w) (enqueued w) (received w ++ received_by r'))
| step_recv_call w :
    (w_recv w = RIdle ∨ ∃ r, w_recv w = RReturned r) →
    step w (mkWorld (w_inner w) RPop (w_threads w) (enqueued w) (received w))
| step_spawn w t :
    fresh t →
    step w (mkWorld (w_inner w) (w_recv w) (w_threads w ++ [t]) (enqueued w) (received w)).

Definition world_init (cap : Z) (pol : BackPressurePolicy) : World :=
  mkWorld (SubInner_new cap pol) RIdle [] [] [].

Definition reachable (cap : Z) (pol : BackPressurePolicy) (w : World) : Prop :=
  rtc step (world_init cap pol) w.

(** The atomic actions of a call, run without interference, are the call. *)
Lemma push_atomic i s :
  let '(i', p) := Nat.iter 5 (λ x, push_step x.1 x.2) (i, PCheckUnsubscribed s) in
  ∃ b, p = PReturned b ∧ push i s = (b, i').
Proof using Type.
  unfold push. simpl. destruct (unsubscribed i); simpl; [eauto|].
  destruct (closed i); simpl; [eauto|].
  destruct (push_locked i s) as [i'|]; simpl; eauto.
Qed.

Lemma close_atomic i :
  Nat.iter 3 (λ x, close_step x.1 x.2) (i, CStore) = (close i, CReturned) ∧
  Nat.iter 4 (λ x, close_step x.1 x.2) (i, CUnsubscribe) = (unsubscribe i, CReturned).
Proof using Type. done. Qed.

(** *** What a step changes *)

Lemma thread_step_frame i t i' t' : thread_step i t = (i', t') →
  capacity i' = capacity i ∧ policy i' = policy i ∧ (closed i = true → closed i' = true).
Proof using Type.
  destruct t as [p|c]; simpl; [destruct p|destruct c]; simpl;
    unfold push_locked; intros; repeat case_match; simplify_eq; done.
Qed.

Lemma recv_step_frame i r i' r' : recv_step i r = Some (i', r') →
  capacity i' = capacity i ∧ policy i' = policy i ∧ closed i' = closed i.
Proof using Type.
  destruct r; simpl; unfold pop; intros; repeat case_match; simplify_eq; done.
Qed.

Lemma recv_step_queue i r i' r' : recv_step i r = Some (i', r') →
  queue i = received_by r' ++ queue i'.
Proof using Type.
  destruct r; simpl; unfold pop; intros; repeat case_match; simplify_eq; done.
Qed.

Lemma thread_step_queue i t i' t' : thread_step i t = (i', t') →
  queue i' `sublist_of` queue i ++ enqueued_by t t' ∧
  (policy i ≠ DropOldest → queue i' = queue i ++ enqueued_by t t') ∧
  len (queue i') <= Z.max (len (queue i)) (Z.max 1 (capacity i)).
Proof using Type.
  destruct t as [p|c]; simpl; [destruct p|destruct c]; simpl;
    try (intros [= <- <-]; simpl; rewrite ?app_nil_r; split_and!; [done|done|lia]).
  unfold push_locked. intros H.
  destruct (policy i), (Z.leb_spec (capacity i) (len (queue i))); simplify_eq; simpl;
    rewrite ?app_nil_r; split_and!; try done; autorewrite with len; try lia.
  - destruct (queue i); [done|]. simpl. by constructor.
  - destruct (queue i); simpl; len_tac.
Qed.

(** *** Invariants of the reachable states *)

Lemma steps_inv (P : World → Prop) w w' : (∀ w1 w2, step w1 w2 → P w1 → P w2) →
  rtc step w w' → P w → P w'.
Proof using Type. intros Hs Hr. induction Hr; eauto. Qed.

Lemma reachable_inv (P : World → Prop) cap pol w : (∀ w1 w2, step w1 w2 → P w1 → P w2) →
  P (world_init cap pol) → reachable cap pol w → P w.
Proof using Type. intros Hs H0 Hr. by eapply steps_inv. Qed.

Record fifo_inv (cap : Z) (pol : BackPressurePolicy) (w : World) : Prop := {
  fi_cap : capacity (w_inner w) = cap;
  fi_pol : policy (w_inner w) = pol;
  fi_bound : len (queue (w_inner w)) <= Z.max 1 cap;
  fi_sub : received w ++ queue (w_inner w) `sublist_of` enqueued w;
  fi_eq : pol ≠ DropOldest → received w ++ queue (w_inner w) = enqueued w;
  fi_closed : w_recv w = RDrain ∨ w_recv w = RReturned None → closed (w_inner w) = true }.

Lemma fifo_inv_step cap pol w w' : step w w' → fifo_inv cap pol w → fifo_inv cap pol w'.
Proof using Type.
  intros Hs Hi. destruct Hs as [w k t i' t' Hk Hf Ht|w i' r' Hr|w Hr|w t Hf].
  - destruct (thread_step_frame _ _ _ _ Ht) as (Hc & Hp & Hcl).
    destruct (thread_step_queue _ _ _ _ Ht) as (Hsub & Heq & Hb). destruct Hi as [Hcap Hpol ????].
    split; simpl; try congruence; try lia; [| |auto].
    + transitivity (received w ++ (queue (w_inner w) ++ enqueued_by t t')).
      { by apply sublist_app. } rewrite app_assoc. by apply sublist_app.
    + intros Hd. rewrite Heq by congruence. rewrite app_assoc. f_equal; auto.
  - destruct (recv_step_frame _ _ _ _ Hr) as (Hc & Hp & Hcl).
    pose proof (recv_step_queue _ _ _ _ Hr) as Hq. destruct Hi as [Hcap Hpol Hb Hsub Heq Hclo].
    rewrite Hq in Hb, Hsub, Heq.
    split; simpl; try congruence; rewrite <- ?app_assoc; auto.
    + clear -Hb. len_tac.
    + rewrite Hcl. clear -Hr Hclo.
      destruct (w_recv w); simpl in Hr; unfold pop in Hr; simplify_eq; try naive_solver;
        repeat case_match; simplify_eq; naive_solver.
  - destruct Hi as [????? Hclo]. split; simpl; try done. by intros [].
  - by destruct Hi.
Qed.

Lemma fifo_inv_reachable cap pol w : 0 <= cap → reachable cap pol w → fifo_inv cap pol w.
Proof using Type.
  intros Hcap. apply reachable_inv; [intros ??; apply fifo_inv_step|].
  split; simpl; try done; [unfold len; simpl; lia|by intros []].
Qed.

(** A sample in the queue is announced: by a [notify_one] still to run, by
    the permit, by the woken future, or by a receiver about to look. *)
Definition about_to_look (r : RecvPc) : Prop :=
  match r with RIdle | RPop | RDrain | RReturned _ => True | _ => False end.

Record wake_inv (w : World) : Prop := {
  wi_wait : is_Some (waiting (notify (w_inner w))) ↔ w_recv w = RWait;
  wi_wake : queue (w_inner w) ≠ [] →
    (∃ k, w_threads w !! k = Some (Pushing PNotify)) ∨
    permit (notify (w_inner w)) = true ∨ waiting (notify (w_inner w)) = Some true ∨
    about_to_look (w_recv w) }.

(** How an action other than [PNotify] leaves the [Notify]. *)
Lemma thread_step_notify i t i' t' : thread_step i t = (i', t') →
  (notify i' = notify i ∨ notify i' = notify_one (notify i) ∧ t = Pushing PNotify ∨
   notify i' = notify_waiters (notify i)) ∧
  (t = Pushing PNotify → notify i' = notify_one (notify i)) ∧
  (t' = Pushing PNotify ∨ queue i' = queue i).
Proof using Type.
  destruct t as [p|c]; simpl; [destruct p|destruct c]; simpl; unfold push_locked;
    intros; repeat case_match; simplify_eq; unfold set_queue, set_notify; simpl; auto.
  all: split_and!; auto; done.
Qed.

Lemma one_wakes (n : N) : permit (notify_one n) = true ∨ waiting (notify_one n) = Some true.
Proof using Type. rewrite one_permit, one_waiting. destruct (waiting n) as [[]|]; auto. Qed.

Lemma wake_inv_thread w k t i' t' enq : w_threads w !! k = Some t →
  thread_step (w_inner w) t = (i', t') → wake_inv w →
  wake_inv (mkWorld i' (w_recv w) (<[k := t']> (w_threads w)) enq (received w)).
Proof using Type.
  intros Hk Ht [Hwait Hwake]. destruct (thread_step_notify _ _ _ _ Ht) as (Hn & Hone & Hq).
  split; simpl.
  - destruct Hn as [-> | [[-> _] | ->]]; [done|rewrite <- Hwait, one_waiting..|].
    2: rewrite <- Hwait, all_waiting.
    all: destruct (waiting _); split; intros [? ?]; done || eauto.
  - intros Hne. destruct (decide (t' = Pushing PNotify)) as [->|Ht'].
    { left. exists k. apply list_lookup_insert_eq. by eapply lookup_lt_Some. }
    destruct Hq as [?|Hq]; [done|]. rewrite Hq in Hne.
    destruct (decide (t = Pushing PNotify)) as [->|Hnt].
    { right. rewrite Hone by done. destruct (one_wakes (notify (w_inner w))); auto. }
    destruct (Hwake Hne) as [[k' Hk'] | H].
    { left. exists k'. rewrite list_lookup_insert_ne; [done|]. intros ->. congruence. }
    right. destruct Hn as [-> | [[_ ?] | ->]]; [done|done|].
    rewrite all_permit, all_waiting. destruct (waiting _) as [[]|]; naive_solver.
Qed.

Lemma recv_step_notify i r i' r' : recv_step i r = Some (i', r') →
  (r = RListen ∧ r' = RWait ∧ notify i' = notified (notify i)) ∨
  (r = RWait ∧ r' = RPop ∧ poll (notify i) = Some (notify i')) ∨
  (r ≠ RWait ∧ r' ≠ RWait ∧ notify i' = notify i).
Proof using Type.
  destruct r; simpl; unfold pop; intros; repeat case_match; simplify_eq; auto;
    right; right; try destruct (closed i'); done.
Qed.

Lemma wake_inv_recv w i' r' enq rcv : recv_step (w_inner w) (w_recv w) = Some (i', r') →
  wake_inv w → wake_inv (mkWorld i' r' (w_threads w) enq rcv).
Proof using Type.
  intros Hr [Hwait Hwake]. split; simpl.
  - destruct (recv_step_notify _ _ _ _ Hr)
      as [(H1 & -> & ->)|[(H1 & -> & H2)|(H1 & H2 & ->)]].
    + rewrite notified_waiting. split; eauto.
    + apply poll_some in H2 as [_ ->]. split; [by intros [? ?]|done].
    + rewrite Hwait. tauto.
  - intros Hne. destruct (w_recv w); simpl in Hr, Hwake; unfold pop in Hr; simplify_eq; simpl.
    + repeat case_match; simplify_eq; auto.
    + destruct (closed _); simpl; [tauto|]. by apply Hwake.
    + repeat case_match; simplify_eq; simpl; auto.
    + destruct (Hwake Hne) as [?|[?|[Hw|[]]]]; auto.
      * right. left. by rewrite notified_permit.
      * assert (is_Some (waiting (notify (w_inner w)))) as Hs by eauto.
        by apply Hwait in Hs.
    + destruct (poll _); simplify_eq. simpl. auto.
Qed.

Lemma wake_inv_step w w' : step w w' → wake_inv w → wake_inv w'.
Proof using Type.
  intros Hs Hi. destruct Hs as [w k t i' t' Hk Hf Ht|w i' r' Hr|w Hr|w t Hf].
  - by eapply wake_inv_thread.
  - by eapply wake_inv_recv.
  - destruct Hi as [Hwait Hwake]. split; simpl; [|auto].
    rewrite Hwait. destruct Hr as [Hr|[r Hr]]; by rewrite Hr.
  - destruct Hi as [Hwait Hwake]. split; simpl; [done|]. intros Hne.
    destruct (Hwake Hne) as [[k Hk]|H]; [|auto]. left. exists k.
    rewrite lookup_app_l; [done|]. by eapply lookup_lt_Some.
Qed.

Lemma wake_inv_reachable cap pol w : reachable cap pol w → wake_inv w.
Proof using Type.
  apply reachable_inv; [apply wake_inv_step|].
  split; simpl; [|done]. rewrite new_waiting. split; [by intros [? ?]|done].
Qed.

(** C3. No push is ever missed: in every reachable state of any number of
    publishing and closing calls interleaved with one receiver, a receiver
    that is blocked in [notified().await] while samples are queued has a
    [notify_one] still on its way; so when no call is running, a blocked
    receiver's queue is empty. *)
Theorem recv_no_lost_push cap pol w : reachable cap pol w →
  w_recv w = RWait → recv_step (w_inner w) (w_recv w) = None →
  (queue (w_inner w) ≠ [] → ∃ k, w_threads w !! k = Some (Pushing PNotify)) ∧
  (Forall finished (w_threads w) → queue (w_inner w) = []).
Proof using Type.
  intros Hr Hw Hb. destruct (wake_inv_reachable _ _ _ Hr) as [_ Hwake].
  assert (queue (w_inner w) ≠ [] → ∃ k, w_threads w !! k = Some (Pushing PNotify)) as Hq.
  { intros Hne. rewrite Hw in Hb, Hwake. simpl in Hb.
    destruct (poll (notify (w_inner w))) eqn:Hp; [done|]. apply poll_none in Hp as [Hp Hn].
    destruct (Hwake Hne) as [?|[?|[?|[]]]]; [done|congruence|congruence]. }
  split; [done|]. intros Hf. destruct (queue (w_inner w)) as [|s q] eqn:Hs; [done|].
  destruct Hq as [k Hk]; [done|]. rewrite Forall_lookup in Hf. by apply Hf in Hk.
Qed.

(** C24. First in, first out, within the bound: whatever the interleaving, what
    the receiver got followed by what is still queued is the sequence of
    enqueued samples, exactly under [DropNewest] and [Block] and with some
    of the enqueued samples dropped under [DropOldest]; the queue never
    exceeds its capacity (one sample at least), and [recv] answers [None]
    only after a [close]. *)
Theorem recv_fifo cap pol w : 0 <= cap → reachable cap pol w →
  received w ++ queue (w_inner w) `sublist_of` enqueued w ∧
  (pol ≠ DropOldest → received w ++ queue (w_inner w) = enqueued w) ∧
  len (queue (w_inner w)) <= Z.max 1 cap ∧
  (w_recv w = RReturned None → closed (w_inner w) = true).
Proof using Type.
  intros Hcap Hr. destruct (fifo_inv_reachable _ _ _ Hcap Hr). split_and!; auto.
Qed.

(** A receiver that has not passed its [closed] load. *)
Definition before_check (r : RecvPc) : Prop := r ≠ RListen ∧ r ≠ RWait.

Lemma closed_recv_stays w w' : rtc step w w' →
  closed (w_inner w) = true ∧ before_check (w_recv w) →
  closed (w_inner w') = true ∧ before_check (w_recv w').
Proof using Type.
  apply steps_inv with (P := λ w, closed (w_inner w) = true ∧ before_check (w_recv w)).
  clear. intros w w' Hs [Hc Hb]. destruct Hs as [w k t i' t' Hk Hf Ht|w i' r' Hr|w Hr|w t Hf];
    simpl; auto.
  - destruct (thread_step_frame _ _ _ _ Ht) as (_ & _ & Hcl). auto.
  - destruct (recv_step_frame _ _ _ _ Hr) as (_ & _ & ->). split; [done|].
    destruct Hb as [Hb1 Hb2]. unfold before_check.
    destruct (w_recv w); simpl in Hr; try done; rewrite ?Hc in Hr; unfold pop in Hr;
      repeat case_match; by simplify_eq.
  - split; [done|]. by unfold before_check.
Qed.

Lemma step_thread' i t r k ts enq rcv i' t' : ts !! k = Some t → ¬ finished t →
  thread_step i t = (i', t') →
  step (mkWorld i r ts enq rcv) (mkWorld i' r (<[k := t']> ts) (enq ++ enqueued_by t t') rcv).
Proof using Type. intros. by apply (step_thread (mkWorld i r ts enq rcv)). Qed.

Lemma step_recv' i r ts enq rcv i' r' : recv_step i r = Some (i', r') →
  step (mkWorld i r ts enq rcv) (mkWorld i' r' ts enq (rcv ++ received_by r')).
Proof using Type. intros. by apply (step_recv (mkWorld i r ts enq rcv)). Qed.

(** [close] between the receiver's load of [closed] and its
    [notified().await]: [notify_waiters] finds no waiter and stores no
    permit, and the receiver blocks on a closed queue. *)
Definition missed_close (cap : Z) (pol : BackPressurePolicy) : World :=
  let n := notified (notify_waiters notify_new) in
  mkWorld (mkSubInner [] cap pol n true false (notify_waiters notify_new)) RWait
    [Closing CReturned] [] [].

Lemma missed_close_reachable cap pol : reachable cap pol (missed_close cap pol).
Proof using Type.
  unfold reachable, world_init, missed_close.
  eapply rtc_l; [apply (step_spawn _ (Closing CStore)); done|]. simpl.
  eapply rtc_l; [apply step_recv_call; left; done|]. simpl.
  eapply rtc_l; [by apply step_recv'|]. simpl.
  eapply rtc_l; [by apply step_recv'|]. simpl.
  eapply rtc_l; [apply (step_thread' _ (Closing CStore) _ 0); [done|by intros []|done]|]. simpl.
  eapply rtc_l; [apply (step_thread' _ (Closing CNotify) _ 0); [done|by intros []|done]|]. simpl.
  eapply rtc_l; [apply (step_thread' _ (Closing CNotifyDeadline) _ 0);
                   [done|by intros []|done]|]. simpl.
  eapply rtc_l; [by apply step_recv'|]. simpl. done.
Qed.

(** C25. [close] against a receiver.  On a closed queue a receive call returns
    after at most three actions, with the oldest queued sample, or [None]
    once the queue is drained; a receive call that has not passed its
    [closed] load when the flag is set never blocks again.  But a [close]
    that runs between that load and [notified().await] is lost: a state is
    reachable in which the queue is closed, every call has returned, and
    the receiver is blocked with no step of its own left; only a new call
    could change it. *)
Theorem recv_close_wakeup cap pol :
  (∀ i, closed i = true →
     recv_run 3 i RPop = (set_queue (tl (queue i)) i, RReturned (head (queue i)))) ∧
  (∀ w w', reachable cap pol w → closed (w_inner w) = true → before_check (w_recv w) →
     rtc step w w' → before_check (w_recv w')) ∧
  (∃ w, reachable cap pol w ∧ closed (w_inner w) = true ∧ Forall finished (w_threads w) ∧
     w_recv w = RWait ∧
     ∀ w', step w w' → ∃ t, fresh t ∧
       w' = mkWorld (w_inner w) (w_recv w) (w_threads w ++ [t]) (enqueued w) (received w)).
Proof using Type.
  split; [|split].
  { intros i Hc. destruct i as [q c p n cl u d]. simpl in Hc. subst cl. by destruct q. }
  { intros w w' _ Hc Hb Hs. by destruct (closed_recv_stays _ _ Hs). }
  exists (missed_close cap pol). split_and!; try done.
  - apply missed_close_reachable.
  - by repeat constructor.
  - intros w' Hs. inversion Hs as [w k t i' t' Hk Hf Ht|w i' r' Hr|w Hr|w t Hf]; subst; eauto.
    + destruct k as [|[|k]]; simplify_eq/=. by destruct Hf.
    + exfalso. simpl in Hr.
      destruct (poll (notified (notify_waiters notify_new))) as [n|] eqn:Hp; [|done].
      assert (poll (notified (notify_waiters (notify_new (N:=N)))) = None) as Hp'.
      { apply poll_none. by rewrite notified_permit, notified_waiting, all_permit, new_permit. }
      congruence.
    + destruct Hr as [Hr|[r Hr]]; done.
Qed.
End SubInner.

(** ** The Deadline watcher *)

(** What the [tokio::select!] of one iteration returned, with the values of
    [closed] and [unsubscribed] read after it. *)
Inductive WatchEvent : Type :=
| Elapsed (closed unsubscribed : bool)
| Notified.

(** [None]: no task is spawned. *)
Definition spawn_deadline_watcher (deadline_ns : Z) : option Z :=
  if deadline_ns =? 0 then None else Some deadline_ns.

(** The loop of the task: how often [callback.fire()] ran, and the events
    left when the task stopped ([None]: it is still waiting). *)
Fixpoint deadline_watcher (evs : list WatchEvent) : nat * option (list WatchEvent) :=
  match evs with
  | [] => (O, None)
  | Notified :: evs => deadline_watcher evs
  | Elapsed c u :: evs =>
      if c || u then (O, Some evs)
      else let '(n, r) := deadline_watcher evs in (S n, r)
  end.

(** The window that has just elapsed, on an open queue. *)
Definition missed (e : WatchEvent) : bool :=
  match e with Elapsed c u => negb (c || u) | Notified => false end.
Definition stops (e : WatchEvent) : bool :=
  match e with Elapsed c u => c || u | Notified => false end.

(** The watcher fires once for every window that elapsed on an open queue
    and for nothing else, re-arms on every notification, and stops at the
    first window that elapses on a closed queue: the notification of [close]
    itself only restarts the window, so the task lingers for one more full
    period, and it is spawned exactly for a non-zero deadline. *)
Theorem deadline_watcher_fires :
  (∀ evs, forallb (negb ∘ stops) evs = true →
     deadline_watcher evs = (length (List.filter missed evs), None)) ∧
  (∀ evs e rest, forallb (negb ∘ stops) evs = true → stops e = true →
     deadline_watcher (evs ++ e :: rest) = (length (List.filter missed evs), Some rest)) ∧
  (∀ n, deadline_watcher (replicate n Notified) = (O, None)) ∧
  (∀ d, is_Some (spawn_deadline_watcher d) ↔ d ≠ 0).
Proof.
  split_and!.
  - induction evs as [|[c u|] evs IH]; simpl; try done.
    destruct (c || u); simpl; [done|]. intros H. by rewrite IH.
  - intros evs e rest Hs He. revert Hs.
    induction evs as [|[c u|] evs IH]; simpl; try done.
    + destruct e as [c u|]; [|done]. simpl in He. by rewrite He.
    + destruct (c || u); simpl; [done|]. intros H. by rewrite IH.
  - induction n; done.
  - intros d. unfold spawn_deadline_watcher. destruct (Z.eqb_spec d 0); split; (done || by intros [? ?]).
Qed.

(** ** Concrete instances *)

Definition demo_sample (n : Z) : Sample := mkSample [x74] [x01] 0 n (vreplicate 16 x00).

Lemma back_pressure_keeps_witness :
  let ss := [demo_sample 1; demo_sample 2; demo_sample 3] in
  queue (push_all (SubInner_new (N:=bool * option bool) 2 DropOldest) ss).2
    = [demo_sample 2; demo_sample 3] ∧
  queue (push_all (SubInner_new (N:=bool * option bool) 2 Block) ss).2
    = [demo_sample 1; demo_sample 2].
Proof.
  intros ss. split.
  - apply (back_pressure_keeps 2 DropOldest ss). lia.
  - apply (back_pressure_keeps 2 Block ss). lia.
Defined.

(** A receiver that went to wait while a push was between its locked region
    and its [notify_one]. *)
Definition demo_blocked : World (N:=bool * option bool) :=
  mkWorld (mkSubInner [demo_sample 1] 1 DropNewest (false, Some false) false false (false, None))
    RWait [Pushing PNotify] [demo_sample 1] [].

Lemma demo_blocked_reachable : reachable 1 DropNewest demo_blocked.
Proof.
  unfold reachable, world_init.
  eapply rtc_l; [apply (step_spawn _ (Pushing (PCheckUnsubscribed (demo_sample 1)))); exact I|]. simpl.
  eapply rtc_l; [apply step_recv_call; left; reflexivity|]. simpl.
  do 3 (eapply rtc_l; [apply step_recv'; reflexivity|]; simpl).
  do 3 (eapply rtc_l; [eapply (step_thread' _ _ _ 0); [reflexivity|intros []|reflexivity]|]; simpl).
  apply rtc_refl.
Qed.

Lemma recv_no_lost_push_witness :
  ∃ k, w_threads demo_blocked !! k = Some (Pushing PNotify).
Proof.
  apply (recv_no_lost_push 1 DropNewest demo_blocked demo_blocked_reachable); [reflexivity..|].
  discriminate.
Defined.

Lemma recv_fifo_witness :
  received demo_blocked ++ queue (w_inner demo_blocked) = enqueued demo_blocked.
Proof.
  apply (recv_fifo 1 DropNewest demo_blocked); [lia|exact demo_blocked_reachable|discriminate].
Defined.
