(* ===== verification/Counters.v ===== *)
(** * Counters: the per-topic counters of every transport

    [TopicCounters] is declared three times in the sources, with the same
    fields and the same [snapshot]: src/mock/mod.rs,
    src/rtps/participant.rs and src/shmem/broker.rs.  Every counter is an
    [AtomicU64]. *)

From S2P Require Import Prelude Types Observability.

(** [AtomicU64::fetch_add] wraps. *)
Definition fetch_add (a b : Z) : Z := as_u 64 (a + b).

Record TopicCounters : Type := mkTopicCounters {
  writes : Z;
  delivers : Z;
  drops : Z;
  bytes_written : Z;
  bytes_delivered : Z }.

Definition TopicCounters_default : TopicCounters := mkTopicCounters 0 0 0 0 0.

Definition TopicCounters_snapshot (self : TopicCounters) (topic : str)
    : Observability.TopicMetrics :=
  Observability.mkTopicMetrics topic (writes self) (delivers self) (drops self) (bytes_written self)
    (bytes_delivered self).

Definition count_write (m : TopicCounters) (n : Z) : TopicCounters :=
  mkTopicCounters (fetch_add (writes m) 1) (delivers m) (drops m)
    (fetch_add (bytes_written m) n) (bytes_delivered m).
Definition count_deliver (m : TopicCounters) (n : Z) : TopicCounters :=
  mkTopicCounters (writes m) (fetch_add (delivers m) 1) (drops m) (bytes_written m)
    (fetch_add (bytes_delivered m) n).
Definition count_drop (m : TopicCounters) : TopicCounters :=
  mkTopicCounters (writes m) (delivers m) (fetch_add (drops m) 1) (bytes_written m)
    (bytes_delivered m).

(** ** Lemmas *)

Definition counters_wf (m : TopicCounters) : Prop :=
  is_u64 (writes m) ∧ is_u64 (delivers m) ∧ is_u64 (drops m) ∧ is_u64 (bytes_written m) ∧
  is_u64 (bytes_delivered m).

Lemma as_u64_range z : is_u64 (as_u 64 z).
Proof. apply as_u_range. lia. Qed.

Lemma fetch_add_then (x y z t : Z) : y + z = t →
  as_u 64 (fetch_add x y + z) = as_u 64 (x + t).
Proof. intros <-. unfold fetch_add, as_u. rewrite Zplus_mod_idemp_l. f_equal. lia. Qed.

Lemma as_u64_0 a : is_u64 a → as_u 64 (a + 0) = a.
Proof. intros. rewrite Z.add_0_r. by apply as_u_small. Qed.

Lemma counters_wf_default : counters_wf TopicCounters_default.
Proof. by unfold counters_wf, is_u64. Qed.

Lemma counters_wf_write m n : counters_wf m → counters_wf (count_write m n).
Proof. intros (?&?&?&?&?). split_and!; simpl; (done || apply as_u64_range). Qed.

(** The counters after [a] deliveries and [r] drops of [n] bytes each. *)
Definition counted (m : TopicCounters) (n a r : Z) : TopicCounters :=
  mkTopicCounters (writes m) (as_u 64 (delivers m + a)) (as_u 64 (drops m + r))
    (bytes_written m) (as_u 64 (bytes_delivered m + n * a)).

Lemma counters_wf_counted m n a r : counters_wf m → counters_wf (counted m n a r).
Proof. intros (?&?&?&?&?). split_and!; simpl; (done || apply as_u64_range). Qed.
