(* ===== verification/Broadcast.v ===== *)
(** * Broadcast: how a broker hands a sample to its subscribers
    (the delivery loop of src/mock/mod.rs and src/shmem/broker.rs)

    Both brokers keep the subscribers of a topic in a list, drop the closed
    ones before a delivery and push a clone of the sample to each of the
    others, counting what the queues take and refuse.  A queue is its index
    in a store. *)

From S2P Require Import Prelude Types Observability SubQueue Counters.

Section broadcast.
Context {N : Type} `{!Notify N}.
Notation inner := (SubInner N).

(** [retain(|sub| !sub.closed)] *)
Definition live (st : list inner) (id : nat) : bool :=
  match st !! id with Some i => negb (closed i) | None => false end.

(** The delivery loop of [publish]. *)
Fixpoint deliver_loop (payload_len : Z) (sample : Sample) (ids : list nat)
    (st : list inner) (m : TopicCounters) : list inner * TopicCounters :=
  match ids with
  | [] => (st, m)
  | id :: ids =>
      match st !! id with
      | None => deliver_loop payload_len sample ids st m
      | Some i =>
          let '(accepted, i) := push i sample in
          deliver_loop payload_len sample ids (<[id := i]> st)
            (if accepted then count_deliver m payload_len else count_drop m)
      end
  end.

(** Does the queue take the sample? *)
Definition accepts (s : Sample) (st : list inner) (id : nat) : bool :=
  match st !! id with Some i => (push i s).1 | None => false end.

Definition accepted (s : Sample) (st : list inner) (ids : list nat) : Z :=
  len (List.filter (accepts s st) ids).

Lemma filter_accepts_insert s st id i ids : id ∉ ids →
  List.filter (accepts s (<[id := i]> st)) ids = List.filter (accepts s st) ids.
Proof using Type.
  intros Hid. apply List.filter_ext_in. intros x Hx. unfold accepts.
  rewrite list_lookup_insert_ne; [done|]. intros ->. apply Hid. by apply list_elem_of_In.
Qed.

Lemma deliver_loop_spec n s ids st m : NoDup ids → Forall (λ id, id < length st)%nat ids →
  counters_wf m →
  let r := deliver_loop n s ids st m in
  length r.1 = length st ∧
  (∀ id, r.1 !! id = if decide (id ∈ ids) then (λ i, (push i s).2) <$> st !! id
                     else st !! id) ∧
  r.2 = counted m n (accepted s st ids) (len ids - accepted s st ids).
Proof using Type.
  intros Hnd. revert st m. induction Hnd as [|id ids Hid Hnd IH]; intros st m Hin Hm.
  { destruct Hm as (?&?&?&?&?). split_and!; try done. destruct m; simpl in *. unfold counted, accepted. simpl.
    rewrite len_nil, Z.sub_diag, Z.mul_0_r, !as_u64_0 by done. done. }
  inversion Hin as [|?? Hlt Hin']; subst.
  destruct (lookup_lt_is_Some_2 st id Hlt) as [i Hi].
  cbn [deliver_loop]. rewrite Hi.
  destruct (push i s) as [acc i'] eqn:Hp.
  destruct (IH (<[id := i']> st) (if acc then count_deliver m n else count_drop m))
    as (Hl & Hlk & Hc).
  { by rewrite length_insert. }
  { destruct Hm as (?&?&?&?&?). destruct acc; split_and!; simpl; (done || apply as_u64_range). }
  split_and!.
  - by rewrite Hl, length_insert.
  - intros j. rewrite Hlk. destruct (decide (j = id)) as [->|Hne].
    + rewrite decide_False by done. rewrite decide_True by by left.
      rewrite list_lookup_insert_eq by done. rewrite Hi. simpl. by rewrite Hp.
    + rewrite list_lookup_insert_ne by done.
      destruct (decide (j ∈ ids)).
      * by rewrite decide_True by by right.
      * rewrite decide_False; [done|]. by intros [?|?]%elem_of_cons.
  - assert (accepted s st (id :: ids) = (if acc then 1 else 0) + accepted s st ids) as ->.
    { unfold accepted. simpl. unfold accepts at 1. rewrite Hi, Hp. simpl.
      destruct acc; by autorewrite with len. }
    rewrite Hc. unfold accepted. rewrite filter_accepts_insert, len_cons by done.
    destruct acc; unfold counted; simpl; f_equal;
      first [by apply fetch_add_then; lia | by f_equal; lia].
Qed.

Lemma live_lookup st id : live st id = true ↔ ∃ i, st !! id = Some i ∧ closed i = false.
Proof using Type.
  unfold live. destruct (st !! id) as [i|]; [|naive_solver].
  destruct (closed i) eqn:Hc; simpl; naive_solver.
Qed.

Lemma elem_of_live st id ids :
  id ∈ List.filter (live st) ids ↔ id ∈ ids ∧ ∃ i, st !! id = Some i ∧ closed i = false.
Proof using Type.
  rewrite <- live_lookup, !list_elem_of_In, List.filter_In. done.
Qed.

Lemma Forall_live (P : nat → Prop) st ids : Forall P ids → Forall P (List.filter (live st) ids).
Proof using Type.
  rewrite !Forall_forall. intros Hall id Hid. apply Hall. by apply elem_of_live in Hid as [? _].
Qed.

Lemma NoDup_live st ids : NoDup ids → NoDup (List.filter (live st) ids).
Proof using Type. rewrite !NoDup_ListNoDup. apply List.NoDup_filter. Qed.
End broadcast.
