(* ===== verification/Mock.v ===== *)
(** * Mock: the in-process participant (src/mock/mod.rs)

    The broker's routing table, its publishers and subscribers and the
    participant around them, as state passing over an explicit store: an
    [Arc<SubInner>] is the index of its queue in [store], so the queue the
    broker pushes into and the one a handle closes are one cell. *)

From S2P Require Import Prelude Types Observability Counters SubQueue Broadcast.

Record TopicState : Type := mkTopicState {
  subscribers : list nat;
  cache : list Sample;
  ts_history_depth : Z;
  metrics : TopicCounters }.

Definition TopicState_new (history_depth : Z) : TopicState :=
  mkTopicState [] [] history_depth TopicCounters_default.

Definition push_to_cache (self : TopicState) (sample : Sample) : TopicState :=
  if 0 <? ts_history_depth self then
    let c := if ts_history_depth self <=? len (cache self) then tl (cache self)
             else cache self in
    mkTopicState (subscribers self) (c ++ [sample]) (ts_history_depth self) (metrics self)
  else self.

Record Broker (N : Type) : Type := mkBroker {
  topics : gmap str TopicState;
  store : list (SubInner N) }.
Arguments mkBroker {N}.
Arguments topics {N}.
Arguments store {N}.

Record MockPublisher : Type := mkMockPublisher {
  mp_topic : str;
  mp_qos : QoS;
  mp_writer_guid : GuidBytes;
  mp_seq : Z;
  mp_closed : bool }.

Record MockSubscriber : Type := mkMockSubscriber {
  ms_inner : nat;
  ms_deadline_task : option Z }.

(** A [MockParticipant] with the handles it gave out. *)
Record MockParticipant (N : Type) : Type := mkMockParticipant {
  domain : Domain;
  broker : Broker N;
  p_closed : bool;
  guid_prefix : vec byte 12;
  pub_counter : Z;
  written_payloads : list (str * list byte);
  publishers : list MockPublisher;
  subscriptions : list MockSubscriber }.
Arguments mkMockParticipant {N}.
Arguments domain {N}.
Arguments broker {N}.
Arguments p_closed {N}.
Arguments guid_prefix {N}.
Arguments pub_counter {N}.
Arguments written_payloads {N}.
Arguments publishers {N}.
Arguments subscriptions {N}.

(** The calls on a participant and on its handles ([k] is the handle). *)
Inductive Call : Type :=
| NewPublisher (t : str) (qos : QoS)
| NewSubscriber (t : str) (qos : QoS) (opts : SubscriberOptions)
| Write (k : nat) (now : Z) (payload : list byte)
| WriteCtx (k : nat) (ctx : Context_) (now : Z) (payload : list byte)
| PublisherClose (k : nat)
| Unsubscribe (k : nat)
| SubscriberClose (k : nat)
| TryRecv (k : nat)
| ResetLog
| ParticipantClose.

Section mock.
Context {N : Type} `{!Notify N} `{!BuildProfile}.
Notation broker_t := (Broker N).
Notation inner := (SubInner N).
Notation participant := (MockParticipant N).
Implicit Types b : broker_t.
Implicit Types w : participant.

(** ** Broker *)

Definition Broker_new : broker_t := mkBroker ∅ [].

(** [topics.entry(topic).or_insert_with(..)] *)
Definition topic_entry b (t : str) (qos : QoS) : TopicState :=
  match topics b !! t with
  | Some st => st
  | None => TopicState_new (Z.max (history_depth qos) 1)
  end.

Definition publish (t : str) (sample : Sample) (qos : QoS) b : broker_t :=
  let state := topic_entry b t qos in
  let payload_len := len (s_payload sample) in
  let m := count_write (metrics state) payload_len in
  let state := if decide (durability qos = TransientLocal) then push_to_cache state sample
               else state in
  let subs := List.filter (live (store b)) (subscribers state) in
  let '(st, m) := deliver_loop payload_len sample subs (store b) m in
  mkBroker (<[t := mkTopicState subs (cache state) (ts_history_depth state) m]> (topics b)) st.

Definition topic_metrics b : list Observability.TopicMetrics :=
  (λ x, TopicCounters_snapshot (metrics x.2) x.1) <$>
    List.filter (λ x, 0 <? writes (metrics x.2)) (map_to_list (topics b)).

Definition subscribe (t : str) (qos : QoS) (opts : SubscriberOptions) b : nat * broker_t :=
  let depth := chan_depth opts 64 in
  let i := SubInner_new depth (back_pressure opts) in
  let state := topic_entry b t qos in
  let i := if decide (durability qos = TransientLocal) then (push_all i (cache state)).2 else i in
  let id := length (store b) in
  (id, mkBroker (<[t := mkTopicState (subscribers state ++ [id]) (cache state)
                         (ts_history_depth state) (metrics state)]> (topics b))
         (store b ++ [i])).

(** ** Publishers *)

(** The body of [write] up to the call of [publish]. *)
Definition MockPublisher_prepare (p : MockPublisher) (now : Z) (payload : list byte)
    : eres Sample * MockPublisher :=
  if mp_closed p then (Err Closed, p)
  else if (0 <? max_sample_size (mp_qos p)) && (max_sample_size (mp_qos p) <? len payload) then
    (Err PayloadTooLarge, p)
  else
    (seq ← uadd 64 (mp_seq p) 1;
     Ok (mkSample (mp_topic p) payload now seq (mp_writer_guid p)),
     mkMockPublisher (mp_topic p) (mp_qos p) (mp_writer_guid p) (fetch_add (mp_seq p) 1)
       (mp_closed p)).

Definition MockPublisher_write (p : MockPublisher) (now : Z) (payload : list byte) b
    : eres unit * MockPublisher * broker_t :=
  match MockPublisher_prepare p now payload with
  | (Ok sample, p) => (Ok tt, p, publish (mp_topic p) sample (mp_qos p) b)
  | (Err e, p) => (Err e, p, b)
  | (Panic, p) => (Panic, p, b)
  end.

Definition MockPublisher_close (p : MockPublisher) : MockPublisher :=
  mkMockPublisher (mp_topic p) (mp_qos p) (mp_writer_guid p) (mp_seq p) true.

(** ** The participant *)

Definition MockParticipant_new (d : Domain) : eres participant :=
  _ ← validate_domain d;
  Ok (mkMockParticipant d Broker_new false
        (vinsert 0 (byte.of_Z (as_u 8 (domain_id d))) (vreplicate 12 x00)) 0 [] [] []).

Definition make_guid w (id : Z) : GuidBytes :=
  vec_fill 16 (vec_to_list (guid_prefix w) ++ to_be 4 (as_u 32 id)).

Definition set_broker b w : participant :=
  mkMockParticipant (domain w) b (p_closed w) (guid_prefix w) (pub_counter w)
    (written_payloads w) (publishers w) (subscriptions w).
Definition set_store (st : list inner) w : participant :=
  set_broker (mkBroker (topics (broker w)) st) w.
Definition set_publishers (ps : list MockPublisher) w : participant :=
  mkMockParticipant (domain w) (broker w) (p_closed w) (guid_prefix w) (pub_counter w)
    (written_payloads w) ps (subscriptions w).
Definition set_log (l : list (str * list byte)) w : participant :=
  mkMockParticipant (domain w) (broker w) (p_closed w) (guid_prefix w) (pub_counter w) l
    (publishers w) (subscriptions w).

Definition new_publisher (t : str) (qos : QoS) w : eres nat * participant :=
  if p_closed w then (Err Closed, w)
  else match t with
       | [] => (Err TopicEmpty, w)
       | _ =>
           let id := pub_counter w in
           (Ok (length (publishers w)),
            mkMockParticipant (domain w) (broker w) (p_closed w) (guid_prefix w)
              (fetch_add (pub_counter w) 1) (written_payloads w)
              (publishers w ++ [mkMockPublisher t qos (make_guid w id) 0 false])
              (subscriptions w))
       end.

Definition new_subscriber (t : str) (qos : QoS) (opts : SubscriberOptions) w
    : eres nat * participant :=
  if p_closed w then (Err Closed, w)
  else match t with
       | [] => (Err TopicEmpty, w)
       | _ =>
           let '(id, b) := subscribe t qos opts (broker w) in
           let deadline_task :=
             match deadline_missed opts with
             | Some _ => spawn_deadline_watcher (deadline_ns qos)
             | None => None
             end in
           (Ok (length (subscriptions w)),
            mkMockParticipant (domain w) b (p_closed w) (guid_prefix w) (pub_counter w)
              (written_payloads w) (publishers w)
              (subscriptions w ++ [mkMockSubscriber id deadline_task]))
       end.

(** [RecordingPublisher::write]: the log is appended before the inner
    publisher decides. *)
Definition RecordingPublisher_write (k : nat) (now : Z) (payload : list byte) w
    : eres unit * participant :=
  match publishers w !! k with
  | None => (Ok tt, w)
  | Some p =>
      let w := set_log (written_payloads w ++ [(mp_topic p, payload)]) w in
      let '(r, p, b) := MockPublisher_write p now payload (broker w) in
      (r, set_broker b (set_publishers (<[k := p]> (publishers w)) w))
  end.

Definition RecordingPublisher_write_ctx (k : nat) (ctx : Context_) (now : Z)
    (payload : list byte) w : eres unit * participant :=
  if Context_done now ctx then (Err Timeout, w) else RecordingPublisher_write k now payload w.

Definition RecordingPublisher_close (k : nat) w : participant :=
  set_publishers (alter MockPublisher_close k (publishers w)) w.

Definition MockSubscriber_unsubscribe (k : nat) w : participant :=
  match subscriptions w !! k with
  | None => w
  | Some s => set_store (alter unsubscribe (ms_inner s) (store (broker w))) w
  end.

(** [inner] and [broker_inner] are the same queue. *)
Definition MockSubscriber_close (k : nat) w : participant :=
  match subscriptions w !! k with
  | None => w
  | Some s =>
      let w := set_store (alter close (ms_inner s) (alter close (ms_inner s) (store (broker w)))) w in
      mkMockParticipant (domain w) (broker w) (p_closed w) (guid_prefix w) (pub_counter w)
        (written_payloads w) (publishers w)
        (<[k := mkMockSubscriber (ms_inner s) None]> (subscriptions w))
  end.

Definition receiver_try_recv (k : nat) w : option Sample * participant :=
  match subscriptions w !! k with
  | None => (None, w)
  | Some s =>
      match store (broker w) !! ms_inner s with
      | None => (None, w)
      | Some i => let '(o, i) := try_recv i in
                  (o, set_store (<[ms_inner s := i]> (store (broker w))) w)
      end
  end.

Definition all_subscribers b : list nat :=
  x ← map_to_list (topics b); subscribers x.2.

Definition MockParticipant_close w : participant :=
  if p_closed w then w
  else
    let st := foldl (λ st id, alter close id st) (store (broker w)) (all_subscribers (broker w)) in
    mkMockParticipant (domain w) (mkBroker (topics (broker w)) st) true (guid_prefix w)
      (pub_counter w) (written_payloads w) (publishers w) (subscriptions w).

Definition MockParticipant_health w : Observability.Health :=
  if p_closed w then Observability.Health_down CLOSED_DETAILS else Observability.Health_ok.

(** The outcome of a call: the sample of a [try_recv], nothing otherwise. *)
Definition exec (c : Call) w : eres (option Sample) * participant :=
  let unit_result (x : eres unit * participant) := ((λ _, None) <$> x.1, x.2) in
  let handle (x : eres nat * participant) := ((λ _, None) <$> x.1, x.2) in
  match c with
  | NewPublisher t qos => handle (new_publisher t qos w)
  | NewSubscriber t qos opts => handle (new_subscriber t qos opts w)
  | Write k now payload => unit_result (RecordingPublisher_write k now payload w)
  | WriteCtx k ctx now payload => unit_result (RecordingPublisher_write_ctx k ctx now payload w)
  | PublisherClose k => (Ok None, RecordingPublisher_close k w)
  | Unsubscribe k => (Ok None, MockSubscriber_unsubscribe k w)
  | SubscriberClose k => (Ok None, MockSubscriber_close k w)
  | TryRecv k => let '(o, w) := receiver_try_recv k w in (Ok o, w)
  | ResetLog => (Ok None, set_log [] w)
  | ParticipantClose => (Ok None, MockParticipant_close w)
  end.

(** The calls one after the other; a panic of one leaves the others running. *)
Definition exec_all (cs : list Call) w : participant := foldl (λ w c, (exec c w).2) w cs.

(** ** Invariant *)

Record topic_wf (n : nat) (s : TopicState) : Prop := {
  tw_fresh : Forall (λ id, id < n)%nat (subscribers s);
  tw_nodup : NoDup (subscribers s);
  tw_depth : 1 <= ts_history_depth s;
  tw_cache : len (cache s) <= ts_history_depth s;
  tw_counters : counters_wf (metrics s) }.

(** Every queue that is still open is on the list of exactly one topic. *)
Record broker_wf b : Prop := {
  bw_topic t s : topics b !! t = Some s → topic_wf (length (store b)) s;
  bw_disjoint t t' s s' id : topics b !! t = Some s → topics b !! t' = Some s' →
    id ∈ subscribers s → id ∈ subscribers s' → t = t';
  bw_open id i : store b !! id = Some i → closed i = false →
    ∃ t s, topics b !! t = Some s ∧ id ∈ subscribers s }.

(** ** Delivery *)

Lemma topic_entry_wf b t qos : broker_wf b → topic_wf (length (store b)) (topic_entry b t qos).
Proof using Type.
  intros Hb. unfold topic_entry. destruct (topics b !! t) as [s|] eqn:Hs; [by eapply bw_topic|].
  split; simpl; [constructor|constructor|lia|rewrite len_nil; lia|apply counters_wf_default].
Qed.

(** The topic after [publish]. *)
Definition published b t (sample : Sample) qos : TopicState :=
  let state := topic_entry b t qos in
  let n := len (s_payload sample) in
  let subs := List.filter (live (store b)) (subscribers state) in
  let a := accepted sample (store b) subs in
  let c := if decide (durability qos = TransientLocal) then push_to_cache state sample else state in
  mkTopicState subs (cache c) (ts_history_depth c)
    (counted (count_write (metrics state) n) n a (len subs - a)).

Lemma push_to_cache_frame s x : subscribers (push_to_cache s x) = subscribers s ∧
  ts_history_depth (push_to_cache s x) = ts_history_depth s ∧
  metrics (push_to_cache s x) = metrics s.
Proof using Type. unfold push_to_cache. by destruct (_ <? _). Qed.

Lemma publish_spec b t x qos : broker_wf b →
  let b' := publish t x qos b in
  topics b' = <[t := published b t x qos]> (topics b) ∧
  length (store b') = length (store b) ∧
  (∀ id, store b' !! id = if decide (id ∈ subscribers (topic_entry b t qos))
                          then (λ i, (push i x).2) <$> store b !! id else store b !! id).
Proof using Type.
  intros Hb. pose proof (topic_entry_wf b t qos Hb) as [Hf Hn Hd Hc Hm]. unfold publish.
  destruct (push_to_cache_frame (topic_entry b t qos) x) as (Hsubs & _ & _).
  replace (subscribers (if decide (durability qos = TransientLocal)
            then push_to_cache (topic_entry b t qos) x else topic_entry b t qos))
    with (subscribers (topic_entry b t qos)) by by case_decide.
  set (subs := List.filter _ _).
  pose proof (deliver_loop_spec (len (s_payload x)) x subs (store b)
    (count_write (metrics (topic_entry b t qos)) (len (s_payload x)))) as Hl.
  destruct (deliver_loop _ _ _ _ _) as [st m].
  destruct Hl as (Hlen & Hlk & Hm'); [by apply NoDup_live|by apply Forall_live|
    by apply counters_wf_write|]. simpl in Hlen, Hlk, Hm'. subst m. simpl.
  split_and!; [done|done|]. intros id. rewrite Hlk.
  destruct (decide (id ∈ subscribers (topic_entry b t qos))) as [Hin|Hin].
  - destruct (decide (id ∈ subs)) as [|Hs]; [done|].
    destruct (store b !! id) as [i|] eqn:Hi; [|done]. simpl. rewrite push_closed; [done|].
    intros [_ Hcl]. apply Hs, elem_of_live. eauto.
  - rewrite decide_False; [done|]. by intros [? _]%elem_of_live.
Qed.

Lemma push_to_cache_keep s x xs : 1 <= ts_history_depth s →
  cache s = keep DropOldest (ts_history_depth s) xs →
  cache (push_to_cache s x) = keep DropOldest (ts_history_depth s) (xs ++ [x]).
Proof using Type.
  intros Hd Hc. rewrite keep_snoc, <- Hc by done. unfold push_to_cache.
  by rewrite (proj2 (Z.ltb_lt _ _)) by lia.
Qed.

Lemma push_to_cache_bound s x : len (cache s) <= ts_history_depth s →
  len (cache (push_to_cache s x)) <= ts_history_depth s.
Proof using Type.
  intros Hc. unfold push_to_cache. destruct (Z.ltb_spec 0 (ts_history_depth s)); [|done].
  simpl. destruct (Z.leb_spec (ts_history_depth s) (len (cache s))); [|len_tac].
  destruct (cache s); simpl; len_tac.
Qed.

Lemma published_wf b t x qos : broker_wf b → topic_wf (length (store b)) (published b t x qos).
Proof using Type.
  intros Hb. pose proof (topic_entry_wf b t qos Hb) as [Hf Hn Hd Hc Hm].
  destruct (push_to_cache_frame (topic_entry b t qos) x) as (_ & Hdep & _).
  split; simpl.
  - by apply Forall_live.
  - by apply NoDup_live.
  - case_decide; [by rewrite Hdep|done].
  - case_decide; [rewrite Hdep; by apply push_to_cache_bound|done].
  - by apply counters_wf_counted, counters_wf_write.
Qed.

Lemma topic_entry_lookup b t qos id : id ∈ subscribers (topic_entry b t qos) →
  ∃ s, topics b !! t = Some s ∧ topic_entry b t qos = s.
Proof using Type.
  unfold topic_entry. destruct (topics b !! t) as [s|]; [eauto|]. by intros ?%elem_of_nil.
Qed.

Lemma push_open_iff (i : inner) x : closed (push i x).2 = closed i ∧
  unsubscribed (push i x).2 = unsubscribed i.
Proof using Type.
  destruct (push i x) as [? i'] eqn:Hp. simpl. by destruct (push_frame _ _ _ _ Hp) as (_ & _ & -> & ->).
Qed.

Lemma publish_wf b t x qos : broker_wf b → broker_wf (publish t x qos b).
Proof using Type.
  intros Hb. destruct (publish_spec b t x qos Hb) as (Ht & Hl & Hst).
  assert (∀ id, id ∈ subscribers (published b t x qos) → ∃ s, topics b !! t = Some s ∧
            id ∈ subscribers s) as Hpub.
  { intros id [Hid _]%elem_of_live. destruct (topic_entry_lookup _ _ _ _ Hid) as (s & ? & Hs).
    rewrite Hs in Hid. eauto. }
  split.
  - intros t' s Hs. rewrite Hl. rewrite Ht in Hs. apply lookup_insert_Some in Hs as [[<- <-]|[_ Hs]].
    + by apply published_wf.
    + by eapply bw_topic.
  - intros t1 t2 s1 s2 id H1 H2 Hi1 Hi2. rewrite Ht in H1, H2.
    apply lookup_insert_Some in H1 as [[<- <-]|[_ H1]], H2 as [[<- <-]|[_ H2]]; [done|..|];
      repeat match goal with
             | H : _ ∈ subscribers (published _ _ _ _) |- _ => apply Hpub in H as (? & ? & H)
             end; by eapply (bw_disjoint b).
  - intros id i Hi Ho. rewrite Hst in Hi. rewrite Ht.
    assert (∃ i0, store b !! id = Some i0 ∧ closed i0 = false) as (i0 & Hi0 & Ho0).
    { case_decide; [|by eauto]. apply fmap_Some in Hi as (i0 & Hi0 & ->).
      exists i0. by rewrite <- Ho, (proj1 (push_open_iff _ _)). }
    destruct (bw_open b Hb id i0 Hi0 Ho0) as (t' & s & Hs & Hid).
    destruct (decide (t' = t)) as [->|Hne].
    + exists t, (published b t x qos). rewrite lookup_insert_eq. split; [done|]. simpl.
      apply elem_of_live. unfold topic_entry. rewrite Hs. eauto.
    + exists t', s. by rewrite lookup_insert_ne by done.
Qed.

Lemma topic_wf_mono n m s : (n <= m)%nat → topic_wf n s → topic_wf m s.
Proof using Type.
  intros Hle [Hf ????]. split; try done. eapply Forall_impl; [exact Hf|]. simpl. intros. lia.
Qed.

Lemma subscribe_wf b t qos opts : broker_wf b → broker_wf (subscribe t qos opts b).2.
Proof using Type.
  intros Hb. pose proof (topic_entry_wf b t qos Hb) as [Hf Hn Hd Hc Hm].
  assert (∀ id, id ∈ subscribers (topic_entry b t qos) → (id < length (store b))%nat) as Hlt.
  { intros id Hid. rewrite Forall_forall in Hf. auto. }
  unfold subscribe. simpl. set (new := if decide _ then _ else _). split; simpl.
  - intros t' s. rewrite length_app. intros [[<- <-]|[_ Hs]]%lookup_insert_Some.
    + split; simpl; try done.
      * apply Forall_app. split; [eapply Forall_impl; [exact Hf|]; simpl; intros; lia|].
        repeat constructor. simpl. lia.
      * apply NoDup_app. split_and!; [done| |apply NoDup_singleton].
        intros id Hid ->%list_elem_of_singleton. apply Hlt in Hid. lia.
    + eapply topic_wf_mono; [|by eapply bw_topic]. lia.
  - assert (∀ t' s id, topics b !! t' = Some s → id ∈ subscribers s →
            id ∈ subscribers (topic_entry b t qos) ++ [length (store b)] → t = t') as Hnew.
    { intros t' s id Hs Hid [Hid'| ->%list_elem_of_singleton]%elem_of_app.
      - destruct (topic_entry_lookup _ _ _ _ Hid') as (s' & Hs' & He). rewrite He in Hid'.
        by eapply (bw_disjoint b).
      - destruct (bw_topic b Hb _ _ Hs) as [Hfs]. rewrite Forall_forall in Hfs.
        apply Hfs in Hid. lia. }
    intros t1 t2 s1 s2 id [[<- <-]|[Hn1 H1]]%lookup_insert_Some [[<- <-]|[Hn2 H2]]%lookup_insert_Some
      Hi1 Hi2; [done| | |by eapply (bw_disjoint b)]; [by eapply Hnew|symmetry; by eapply Hnew].
  - intros id i Hi Ho. apply lookup_app_Some in Hi as [Hi|[Hge Hi]].
    + destruct (bw_open b Hb id i Hi Ho) as (t' & s & Hs & Hid).
      destruct (decide (t' = t)) as [->|Hne].
      * eexists t, _. rewrite lookup_insert_eq. split; [done|]. simpl.
        unfold topic_entry. rewrite Hs. set_solver.
      * exists t', s. by rewrite lookup_insert_ne by done.
    + apply list_lookup_singleton_Some in Hi as [Hz _].
      eexists t, _. rewrite lookup_insert_eq. split; [done|]. simpl.
      apply elem_of_app. right. apply list_elem_of_singleton. lia.
Qed.

(** Changing queues in place, without opening one, keeps the table well formed. *)
Lemma store_change_wf b st : broker_wf b → length st = length (store b) →
  (∀ id i, st !! id = Some i → closed i = false →
     ∃ i0, store b !! id = Some i0 ∧ closed i0 = false) →
  broker_wf (mkBroker (topics b) st).
Proof using Type.
  intros [H1 H2 H3] Hl Hst. split; simpl; [by rewrite Hl|done|].
  intros id i Hi Ho. destruct (Hst id i Hi Ho) as (i0 & ? & ?). eauto.
Qed.

Lemma alter_close_lookup (f : inner → inner) (st : list inner) (id j : nat) i :
  (∀ i, closed (f i) = true) → alter f id st !! j = Some i → closed i = false →
  st !! j = Some i.
Proof using Type.
  intros Hf Hi Ho. destruct (decide (j = id)) as [->|Hne].
  - rewrite list_lookup_alter_eq in Hi. apply fmap_Some in Hi as (i0 & _ & ->).
    by rewrite Hf in Ho.
  - by rewrite list_lookup_alter_ne in Hi.
Qed.

Lemma alter_close_wf (f : inner → inner) b id : (∀ i, closed (f i) = true) → broker_wf b →
  broker_wf (mkBroker (topics b) (alter f id (store b))).
Proof using Type.
  intros Hf Hb. apply store_change_wf; [done|apply length_alter|].
  intros j i Hi Ho. exists i. split; [|done]. by eapply alter_close_lookup.
Qed.

(** What the closing loop of [close] does to one queue. *)
Lemma close_all_lookup (ids : list nat) (st : list inner) (j : nat) :
  ∃ n, foldl (λ st id, alter close id st) st ids !! j = Nat.iter n close <$> st !! j ∧
       (n = O ↔ j ∉ ids).
Proof using Type.
  revert st. induction ids as [|id ids IH]; intros st; simpl.
  { exists O. split; [by destruct (st !! j)|]. split; [intros _; apply not_elem_of_nil|done]. }
  destruct (IH (alter close id st)) as (n & Hn & Hj). rewrite Hn.
  destruct (decide (j = id)) as [->|Hne].
  - exists (S n). rewrite list_lookup_alter_eq. split.
    + destruct (st !! id); simpl; [|done]. by rewrite <- Nat.iter_swap.
    + split; [done|]. intros Hnot. exfalso. apply Hnot. by left.
  - exists n. rewrite list_lookup_alter_ne by done. split; [done|].
    rewrite Hj, not_elem_of_cons. naive_solver.
Qed.

Lemma close_all_length (ids : list nat) (st : list inner) :
  length (foldl (λ st id, alter close id st) st ids) = length st.
Proof using Type.
  revert st. induction ids as [|id ids IH]; intros st; simpl; [done|].
  by rewrite IH, length_alter.
Qed.

Lemma iter_close_frame n (i : inner) :
  queue (Nat.iter n close i) = queue i ∧ closed (Nat.iter n close i) = (match n with O => closed i | _ => true end).
Proof using Type. induction n as [|n [IH1 IH2]]; simpl; by rewrite ?IH1. Qed.

Lemma close_wf w : broker_wf (broker w) → broker_wf (broker (MockParticipant_close w)).
Proof using Type.
  intros Hb. unfold MockParticipant_close. destruct (p_closed w); [done|]. simpl.
  apply store_change_wf; [done|apply close_all_length|]. intros id i Hi Ho.
  destruct (close_all_lookup (all_subscribers (broker w)) (store (broker w)) id) as (n & Hn & _).
  rewrite Hn in Hi. apply fmap_Some in Hi as (i0 & Hi0 & ->). exists i0. split; [done|].
  destruct n; [done|]. by rewrite (proj2 (iter_close_frame _ _)) in Ho.
Qed.

Lemma write_wf k now payload w : broker_wf (broker w) →
  broker_wf (broker (RecordingPublisher_write k now payload w).2).
Proof using Type.
  intros Hb. unfold RecordingPublisher_write, MockPublisher_write.
  destruct (publishers w !! k) as [p|]; [|done].
  destruct (MockPublisher_prepare p now payload) as [[s|e|] p']; simpl; try done.
  by apply publish_wf.
Qed.

Lemma exec_wf c w : broker_wf (broker w) → broker_wf (broker (exec c w).2).
Proof using Type.
  intros Hb. destruct c; simpl.
  - unfold new_publisher. destruct (p_closed w); [done|]. by destruct t.
  - unfold new_subscriber. destruct (p_closed w); [done|]. destruct t as [|b0 t]; [done|].
    by apply (subscribe_wf (broker w) (b0 :: t) qos opts).
  - by apply write_wf.
  - unfold RecordingPublisher_write_ctx. destruct (Context_done _ _); [done|]. by apply write_wf.
  - done.
  - unfold MockSubscriber_unsubscribe. destruct (subscriptions w !! k) as [s|]; [|done].
    by apply alter_close_wf.
  - unfold MockSubscriber_close. destruct (subscriptions w !! k) as [s|]; [|done].
    apply (alter_close_wf close (mkBroker _ _)); [done|]. by apply alter_close_wf.
  - unfold receiver_try_recv. destruct (subscriptions w !! k) as [s|]; [|done].
    destruct (store (broker w) !! ms_inner s) as [i|] eqn:Hi; [|done].
    unfold try_recv, pop. destruct (queue i) as [|x q]; simpl;
      (apply store_change_wf; [done|apply length_insert|]);
      intros id j Hj Ho; apply list_lookup_insert_Some in Hj as [(<- & <- & _)|(_ & Hj)]; eauto.
  - done.
  - by apply close_wf.
Qed.

Lemma exec_all_wf cs w : broker_wf (broker w) → broker_wf (broker (exec_all cs w)).
Proof using Type.
  revert w. induction cs as [|c cs IH]; intros w Hb; [done|]. simpl. by apply IH, exec_wf.
Qed.

Lemma broker_new_wf : broker_wf Broker_new.
Proof using Type. split; by intros; simplify_map_eq. Qed.

(** Accepting depends only on the queues that are open. *)
Lemma accepted_live s st ids : accepted s st (List.filter (live st) ids) = accepted s st ids.
Proof using Type.
  unfold accepted. f_equal. induction ids as [|id ids IH]; [done|]. simpl.
  destruct (live st id) eqn:Hl; simpl; rewrite IH; [done|].
  assert (accepts s st id = false) as ->; [|done].
  unfold accepts, live in *. destruct (st !! id) as [i|]; [|done].
  rewrite push_closed; [done|]. intros [_ Hc]. by rewrite Hc in Hl.
Qed.

(** One publication, for a participant reached by any calls: the very
    sample is pushed into each queue of its topic and no other queue
    changes; no other topic changes; the counters grow by one write, one
    delivery per queue that took the sample and one drop per open queue
    that did not, with the payload bytes of each; and every queue that is
    still open is registered with exactly one topic. *)
Theorem publish_delivers d w0 cs t x qos : MockParticipant_new d = Ok w0 →
  let b := broker (exec_all cs w0) in
  let b' := publish t x qos b in
  let old := topic_entry b t qos in
  let new := topic_entry b' t qos in
  let n := len (s_payload x) in
  let a := accepted x (store b) (subscribers old) in
  let open := len (List.filter (live (store b)) (subscribers old)) in
  broker_wf b ∧ broker_wf b' ∧
  (∀ id, store b' !! id = if decide (id ∈ subscribers old)
                          then (λ i, (push i x).2) <$> store b !! id else store b !! id) ∧
  (∀ t', t' ≠ t → topics b' !! t' = topics b !! t') ∧
  subscribers new = List.filter (live (store b)) (subscribers old) ∧
  writes (metrics new) = as_u 64 (writes (metrics old) + 1) ∧
  bytes_written (metrics new) = as_u 64 (bytes_written (metrics old) + n) ∧
  delivers (metrics new) = as_u 64 (delivers (metrics old) + a) ∧
  bytes_delivered (metrics new) = as_u 64 (bytes_delivered (metrics old) + n * a) ∧
  drops (metrics new) = as_u 64 (drops (metrics old) + (open - a)).
Proof using Type.
  intros Hnew b b' old new n a open.
  assert (broker_wf b) as Hb.
  { apply exec_all_wf. unfold MockParticipant_new in Hnew.
    destruct (validate_domain d); [|done..]. injection Hnew as <-. apply broker_new_wf. }
  destruct (publish_spec b t x qos Hb) as (Ht & Hl & Hst). fold b' in Ht, Hl, Hst.
  assert (new = published b t x qos) as ->.
  { unfold new, topic_entry. by rewrite Ht, lookup_insert_eq. }
  split_and!; try done.
  - by apply publish_wf.
  - intros t' Hne. by rewrite Ht, lookup_insert_ne.
  - simpl. by rewrite accepted_live.
  - simpl. by rewrite accepted_live.
  - simpl. by rewrite accepted_live.
Qed.

(** *** What a subscriber receives *)

(** The sample a call publishes, with its topic. *)
Definition sample_of (c : Call) w : list (str * Sample) :=
  let of_publisher k now payload :=
    match publishers w !! k with
    | Some p => match (MockPublisher_prepare p now payload).1 with
                | Ok s => [(mp_topic p, s)]
                | _ => []
                end
    | None => []
    end in
  match c with
  | Write k now payload => of_publisher k now payload
  | WriteCtx k ctx now payload =>
      if Context_done now ctx then [] else of_publisher k now payload
  | _ => []
  end.

Fixpoint trace (cs : list Call) w : list (str * Sample) :=
  match cs with
  | [] => []
  | c :: cs => sample_of c w ++ trace cs (exec c w).2
  end.

Definition on_topic (t : str) (l : list (str * Sample)) : list Sample :=
  (λ x, x.2) <$> List.filter (λ x, bool_decide (x.1 = t)) l.

(** The calls that end, drain or close the queue [id]. *)
Definition leaves_alone (id : nat) (c : Call) w : Prop :=
  match c with
  | Unsubscribe k | SubscriberClose k | TryRecv k =>
      ∀ s, subscriptions w !! k = Some s → ms_inner s ≠ id
  | ParticipantClose => p_closed w = true
  | _ => True
  end.

Fixpoint all_leave_alone (id : nat) (cs : list Call) w : Prop :=
  match cs with
  | [] => True
  | c :: cs => leaves_alone id c w ∧ all_leave_alone id cs (exec c w).2
  end.

Record fed (t : str) (id : nat) (pol : BackPressurePolicy) (cap : Z) (ss : list Sample)
    w : Prop := {
  fed_queue : ∃ i, store (broker w) !! id = Some i ∧ is_open i ∧ policy i = pol ∧
                capacity i = cap ∧ queue i = keep pol cap ss;
  fed_topic : ∃ s, topics (broker w) !! t = Some s ∧ id ∈ subscribers s }.

Lemma fed_frame t id pol cap ss w w' :
  store (broker w') !! id = store (broker w) !! id →
  (∀ s, topics (broker w) !! t = Some s → id ∈ subscribers s →
     ∃ s', topics (broker w') !! t = Some s' ∧ id ∈ subscribers s') →
  fed t id pol cap ss w → fed t id pol cap ss w'.
Proof using Type.
  intros Hst Htop [Hq (s & Hs & Hid)]. split; [by rewrite Hst|eauto].
Qed.

Lemma fed_publish t id pol cap ss w w' t' x qos : broker_wf (broker w) → 1 <= cap →
  broker w' = publish t' x qos (broker w) →
  fed t id pol cap ss w → fed t id pol cap (ss ++ on_topic t [(t', x)]) w'.
Proof using Type.
  intros Hb Hcap Hw' [(i & Hi & Ho & Hp & Hc & Hq) (s & Hs & Hid)].
  destruct (publish_spec _ t' x qos Hb) as (Ht & Hl & Hst). rewrite <- Hw' in Ht, Hst.
  destruct (decide (t' = t)) as [->|Hne].
  - assert (topic_entry (broker w) t qos = s) as He by (unfold topic_entry; by rewrite Hs).
    assert (on_topic t [(t, x)] = [x]) as ->.
    { unfold on_topic. simpl. by rewrite bool_decide_eq_true_2. }
    split.
    + exists (push i x).2. rewrite Hst, He, decide_True, Hi by done. split; [done|].
      subst pol cap. destruct (push_keeps i x ss) as (? & ? & ? & ?); done.
    + exists (published (broker w) t x qos). rewrite Ht, lookup_insert_eq. split; [done|].
      apply elem_of_live. rewrite He. destruct Ho. eauto.
  - assert (on_topic t [(t', x)] = []) as ->.
    { unfold on_topic. simpl. by rewrite bool_decide_eq_false_2. }
    rewrite app_nil_r. split.
    + exists i. rewrite Hst, decide_False; [done|]. intros Hin.
      destruct (topic_entry_lookup _ _ _ _ Hin) as (s' & Hs' & He). rewrite He in Hin.
      apply Hne. by eapply (bw_disjoint _ Hb).
    + exists s. by rewrite Ht, lookup_insert_ne.
Qed.

Lemma fed_write t id pol cap ss w k now payload : broker_wf (broker w) → 1 <= cap →
  fed t id pol cap ss w →
  fed t id pol cap (ss ++ on_topic t (sample_of (Write k now payload) w))
    (RecordingPublisher_write k now payload w).2.
Proof using Type.
  intros Hb Hcap Hf. unfold RecordingPublisher_write, MockPublisher_write. simpl.
  destruct (publishers w !! k) as [p|]; [|by rewrite app_nil_r].
  assert (mp_topic (MockPublisher_prepare p now payload).2 = mp_topic p ∧
          mp_qos (MockPublisher_prepare p now payload).2 = mp_qos p) as [Htp Hqp].
  { unfold MockPublisher_prepare. by repeat case_match. }
  destruct (MockPublisher_prepare p now payload) as [[x|e|] p']; simpl in *; rewrite ?app_nil_r.
  - rewrite Htp. by eapply fed_publish.
  - by eapply fed_frame; [..|exact Hf]; eauto.
  - by eapply fed_frame; [..|exact Hf]; eauto.
Qed.

Lemma fed_exec t id pol cap ss w c : broker_wf (broker w) → 1 <= cap → leaves_alone id c w →
  fed t id pol cap ss w → fed t id pol cap (ss ++ on_topic t (sample_of c w)) (exec c w).2.
Proof using Type.
  intros Hb Hcap Hla Hf. destruct c as [t' qos|t' qos opts|k now p|k ctx now p|k|k|k|k| |];
    try (by apply fed_write); simpl; rewrite ?app_nil_r; try done.
  - unfold new_publisher. destruct (p_closed w); [done|]. destruct t'; [done|].
    by eapply fed_frame; [..|exact Hf]; eauto.
  - unfold new_subscriber. destruct (p_closed w); [done|]. destruct t' as [|b0 t']; [done|].
    destruct Hf as [(i & Hi & Hq) (s & Hs & Hid)]. split; simpl.
    + exists i. split; [|done]. by rewrite lookup_app_l by by eapply lookup_lt_Some.
    + destruct (decide (t = b0 :: t')) as [->|Hne].
      * eexists. rewrite lookup_insert_eq. split; [done|]. simpl. unfold topic_entry.
        rewrite Hs. set_solver.
      * exists s. by rewrite lookup_insert_ne by done.
  - unfold RecordingPublisher_write_ctx. destruct (Context_done now ctx); simpl.
    { by rewrite app_nil_r. } by apply fed_write.
  - by eapply fed_frame; [..|exact Hf]; eauto.
  - unfold MockSubscriber_unsubscribe. simpl in Hla.
    destruct (subscriptions w !! k) as [s|]; [|done]. specialize (Hla s eq_refl).
    eapply fed_frame; [..|exact Hf]; simpl; [|by eauto]. by rewrite list_lookup_alter_ne.
  - unfold MockSubscriber_close. simpl in Hla.
    destruct (subscriptions w !! k) as [s|]; [|done]. specialize (Hla s eq_refl).
    eapply fed_frame; [..|exact Hf]; simpl; [|by eauto]. by rewrite !list_lookup_alter_ne.
  - unfold receiver_try_recv. simpl in Hla.
    destruct (subscriptions w !! k) as [s|]; [|done]. specialize (Hla s eq_refl).
    destruct (store (broker w) !! ms_inner s) as [i|]; [|done].
    destruct (try_recv i) as [o i'].
    eapply fed_frame; [..|exact Hf]; simpl; [|by eauto]. by rewrite list_lookup_insert_ne.
  - by eapply fed_frame; [..|exact Hf]; eauto.
  - unfold MockParticipant_close. simpl in Hla. by rewrite Hla.
Qed.

Lemma fed_exec_all t id pol cap cs ss w : broker_wf (broker w) → 1 <= cap →
  all_leave_alone id cs w → fed t id pol cap ss w →
  fed t id pol cap (ss ++ on_topic t (trace cs w)) (exec_all cs w).
Proof using Type.
  revert ss w. induction cs as [|c cs IH]; intros ss w Hb Hcap Hla Hf.
  { by rewrite app_nil_r. }
  destruct Hla as [Hc Hcs]. simpl.
  replace (ss ++ on_topic t (sample_of c w ++ trace cs (exec c w).2))
    with ((ss ++ on_topic t (sample_of c w)) ++ on_topic t (trace cs (exec c w).2)).
  - apply IH; [by apply exec_wf|done|done|by apply fed_exec].
  - unfold on_topic. by rewrite List.filter_app, fmap_app, <- app_assoc.
Qed.

Lemma new_subscriber_fed t qos opts w k w' : new_subscriber t qos opts w = (Ok k, w') →
  let cached := match durability qos with
                | TransientLocal => cache (topic_entry (broker w) t qos)
                | Volatile => []
                end in
  broker_wf (broker w) → 1 <= chan_depth opts 64 →
  k = length (subscriptions w) ∧
  ∃ s, subscriptions w' !! k = Some s ∧
    fed t (ms_inner s) (back_pressure opts) (chan_depth opts 64) cached w'.
Proof using Type.
  intros Hn cached Hb Hd. unfold new_subscriber in Hn. destruct (p_closed w); [done|].
  destruct t as [|b0 t]; [done|]. injection Hn as <- <-. simpl.
  split; [done|]. eexists. rewrite lookup_app_r, Nat.sub_diag by lia. split; [done|]. simpl.
  set (opn := SubInner_new _ _).
  assert (∀ l (i : inner), is_open i → 1 <= capacity i →
            is_open (push_all i l).2 ∧ policy (push_all i l).2 = policy i ∧
            capacity (push_all i l).2 = capacity i) as Hframe.
  { clear. induction l as [|x l IH]; intros i Ho Hc; simpl; [done|].
    destruct (push i x) as [bb i'] eqn:Hp. destruct (push_frame _ _ _ _ Hp) as (Hc' & Hp' & Hcl & Hu).
    destruct (IH i') as (Ho' & Hp'' & Hc''); [|lia|].
    { destruct Ho. split; congruence. }
    destruct (push_all i' l) as [bs i'']. simpl in *. split_and!; [done|congruence..]. }
  split; simpl.
  - eexists. rewrite lookup_app_r, Nat.sub_diag by lia. split; [done|].
    unfold cached. destruct (durability qos); simpl.
    + split_and!; try done. unfold keep. destruct (back_pressure opts); by rewrite ?take_nil, ?drop_nil.
    + destruct (Hframe (cache (topic_entry (broker w) (b0 :: t) qos)) opn) as (Ho & Hp & Hc);
        [done|done|]. split_and!; [done|done|done|].
      rewrite (push_all_keeps _ opn []); [done|done|done|].
      simpl. unfold keep. destruct (back_pressure opts); by rewrite ?take_nil, ?drop_nil.
  - eexists. rewrite lookup_insert_eq. split; [done|]. simpl. set_solver.
Qed.

(** C1. End to end: whatever calls are made on a participant, a subscriber
    created on a topic, of channel depth [d] and not itself closed,
    unsubscribed or drained since, holds the samples published on exactly
    that topic since it was created, byte for byte and in publication order
    (preceded by the topic's cache for a transient-local one): the first
    [d] of them under [DropNewest] and [Block], the last [d] under
    [DropOldest]. *)
Theorem subscriber_gets_its_topic dom w0 before t qos opts k w cs :
  MockParticipant_new dom = Ok w0 →
  new_subscriber t qos opts (exec_all before w0) = (Ok k, w) →
  (∀ s, subscriptions w !! k = Some s → all_leave_alone (ms_inner s) cs w) →
  let cached := match durability qos with
                | TransientLocal => cache (topic_entry (broker (exec_all before w0)) t qos)
                | Volatile => []
                end in
  ∃ s i, subscriptions w !! k = Some s ∧ store (broker (exec_all cs w)) !! ms_inner s = Some i ∧
    is_open i ∧
    queue i = keep (back_pressure opts) (chan_depth opts 64) (cached ++ on_topic t (trace cs w)).
Proof using Type.
  intros Hw0 Hn Hla cached.
  assert (broker_wf (broker (exec_all before w0))) as Hb.
  { apply exec_all_wf. unfold MockParticipant_new in Hw0.
    destruct (validate_domain dom); [|done..]. injection Hw0 as <-. apply broker_new_wf. }
  assert (1 <= chan_depth opts 64) as Hd.
  { unfold chan_depth. destruct (Z.ltb_spec 0 (channel_depth opts)); lia. }
  assert (broker_wf (broker w)) as Hb'.
  { replace w with (exec (NewSubscriber t qos opts) (exec_all before w0)).2; [by apply exec_wf|].
    simpl. by rewrite Hn. }
  destruct (new_subscriber_fed _ _ _ _ _ _ Hn Hb Hd) as (-> & s & Hs & Hfed).
  specialize (Hla s Hs).
  destruct (fed_exec_all _ _ _ _ _ _ _ Hb' Hd Hla Hfed) as [(i & Hi & Ho & _ & _ & Hq) _].
  exists s, i. done.
Qed.

(** *** The transient-local cache *)

Fixpoint publish_all (t : str) (qos : QoS) (xs : list Sample) b : broker_t :=
  match xs with
  | [] => b
  | x :: xs => publish_all t qos xs (publish t x qos b)
  end.

Lemma publish_all_cache t qos xs b xs0 s : broker_wf b → durability qos = TransientLocal →
  topics b !! t = Some s → cache s = keep DropOldest (ts_history_depth s) xs0 →
  ∃ s', topics (publish_all t qos xs b) !! t = Some s' ∧
    ts_history_depth s' = ts_history_depth s ∧
    cache s' = keep DropOldest (ts_history_depth s) (xs0 ++ xs).
Proof using Type.
  intros Hb Hd. revert b xs0 s Hb. induction xs as [|x xs IH]; intros b xs0 s Hb Hs Hc.
  { rewrite app_nil_r. eauto. }
  simpl. destruct (publish_spec b t x qos Hb) as (Ht & _ & _).
  assert (topic_entry b t qos = s) as He by (unfold topic_entry; by rewrite Hs).
  destruct (push_to_cache_frame s x) as (_ & Hdep & _).
  destruct (IH (publish t x qos b) (xs0 ++ [x]) (published b t x qos)) as (s' & Hs' & Hd' & Hc').
  - by apply publish_wf.
  - by rewrite Ht, lookup_insert_eq.
  - unfold published. rewrite He, decide_True by done. simpl. rewrite Hdep.
    apply push_to_cache_keep; [|done]. by eapply tw_depth, bw_topic.
  - exists s'. unfold published in Hd', Hc'. rewrite He, decide_True in Hd', Hc' by done.
    simpl in Hd', Hc'. rewrite Hdep in Hd', Hc'. by rewrite <- app_assoc in Hc'.
Qed.

(** Late joiners: after a topic's first publications were transient-local,
    a transient-local subscriber starts with the last [history_depth] of
    them (at least one), whichever publisher wrote them, under its own
    back-pressure policy; a volatile one starts empty. *)
Theorem late_joiner_cache b t qos x xs qos' opts : broker_wf b → topics b !! t = None →
  durability qos = TransientLocal → 1 <= chan_depth opts 64 →
  let '(id, b') := subscribe t qos' opts (publish_all t qos (x :: xs) b) in
  queue <$> store b' !! id = Some
    match durability qos' with
    | TransientLocal => keep (back_pressure opts) (chan_depth opts 64)
                          (keep DropOldest (Z.max (history_depth qos) 1) (x :: xs))
    | Volatile => []
    end.
Proof using Type.
  intros Hb Hn Hd Hcap.
  assert (topic_entry b t qos = TopicState_new (Z.max (history_depth qos) 1)) as He
    by (unfold topic_entry; by rewrite Hn).
  destruct (publish_spec b t x qos Hb) as (Ht & _ & _).
  destruct (publish_all_cache t qos xs (publish t x qos b) [x] (published b t x qos))
    as (s' & Hs' & _ & Hc').
  { by apply publish_wf. } { done. } { by rewrite Ht, lookup_insert_eq. }
  { unfold published. rewrite He, decide_True by done. simpl.
    destruct (push_to_cache_frame (TopicState_new (Z.max (history_depth qos) 1)) x) as (_ & -> & _).
    apply (push_to_cache_keep _ x []); [simpl; lia|]. unfold keep. by rewrite drop_nil. }
  unfold published in Hc'. rewrite He, decide_True in Hc' by done. simpl in Hc'.
  destruct (push_to_cache_frame (TopicState_new (Z.max (history_depth qos) 1)) x) as (_ & Hdep & _).
  rewrite Hdep in Hc'. simpl ts_history_depth in Hc'. simpl app in Hc'.
  unfold subscribe. simpl publish_all. unfold topic_entry. rewrite Hs'. simpl.
  rewrite lookup_app_r, Nat.sub_diag by lia. simpl. f_equal.
  destruct (durability qos'); simpl; [done|]. rewrite <- Hc'.
  rewrite (push_all_keeps _ _ []); simpl; try done.
  unfold keep. destruct (back_pressure opts); by rewrite ?take_nil, ?drop_nil.
Qed.

(** *** Publishers *)

(** The samples a publisher makes of a list of payloads. *)
Fixpoint prepare_all (p : MockPublisher) (ps : list (Z * list byte)) : list Sample :=
  match ps with
  | [] => []
  | (now, payload) :: ps =>
      match MockPublisher_prepare p now payload with
      | (Ok s, p) => s :: prepare_all p ps
      | (_, p) => prepare_all p ps
      end
  end.

Definition oversized (p : MockPublisher) (payload : list byte) : Prop :=
  0 < max_sample_size (mp_qos p) < len payload.

#[global] Instance oversized_dec p payload : Decision (oversized p payload).
Proof using Type. unfold oversized. apply _. Defined.

Lemma prepare_eq p now payload : 0 <= mp_seq p → mp_seq p + 1 < 2 ^ 64 →
  MockPublisher_prepare p now payload =
    if mp_closed p then (Err Closed, p)
    else if decide (oversized p payload) then (Err PayloadTooLarge, p)
    else (Ok (mkSample (mp_topic p) payload now (mp_seq p + 1) (mp_writer_guid p)),
          mkMockPublisher (mp_topic p) (mp_qos p) (mp_writer_guid p) (mp_seq p + 1) (mp_closed p)).
Proof using Type.
  intros H0 Hs. unfold MockPublisher_prepare, oversized. destruct (mp_closed p); [done|].
  rewrite uadd_ok, bind_ok by done. unfold fetch_add. rewrite as_u_small by lia.
  destruct (Z.ltb_spec 0 (max_sample_size (mp_qos p))),
    (Z.ltb_spec (max_sample_size (mp_qos p)) (len payload)); simpl; case_decide; (done || lia).
Qed.

Lemma prepare_all_open p ps : mp_closed p = false → 0 <= mp_seq p → mp_seq p + len ps < 2 ^ 64 →
  let ok := List.filter (λ x, bool_decide (¬ oversized p x.2)) ps in
  sequence_number <$> prepare_all p ps = seqZ (mp_seq p + 1) (len ok) ∧
  s_payload <$> prepare_all p ps = snd <$> ok ∧
  Forall (λ s, topic s = mp_topic p ∧ writer_guid s = mp_writer_guid p) (prepare_all p ps).
Proof using Type.
  revert p. induction ps as [|[now payload] ps IH]; intros p Hc H0 Hs; simpl.
  { split_and!; [by rewrite len_nil|done|constructor]. }
  rewrite len_cons in Hs. pose proof (len_nonneg ps). rewrite prepare_eq, Hc by lia.
  destruct (decide (oversized p payload)) as [Ho|Ho].
  - rewrite bool_decide_eq_false_2 by tauto. apply IH; (done || lia).
  - rewrite bool_decide_eq_true_2 by done.
    destruct (IH (mkMockPublisher (mp_topic p) (mp_qos p) (mp_writer_guid p) (mp_seq p + 1)
      false)) as (Hseq & Hpay & Hall); [done|simpl; lia..|].
    simpl in Hall. cbv beta iota. split_and!; rewrite ?fmap_cons.
    + rewrite len_cons, (seqZ_cons (mp_seq p + 1)) by len_tac. f_equal.
      etransitivity; [exact Hseq|]. rewrite Z.add_1_l, Z.pred_succ, <- Z.add_1_r. done.
    + f_equal. exact Hpay.
    + by constructor.
Qed.

Lemma make_guid_inj w i j : is_u32 i → is_u32 j → make_guid w i = make_guid w j → i = j.
Proof using Type.
  intros Hi Hj He. apply (f_equal vec_to_list) in He. unfold make_guid in He.
  rewrite !list_vec_fill in He.
  2, 3: rewrite length_app, length_vec_to_list; unfold to_be;
        by rewrite length_reverse, length_le_split.
  apply app_inv_head in He. apply (f_equal from_be) in He.
  rewrite !from_be_to_be in He. unfold as_u, is_u32 in *.
  rewrite !Z.mod_mod, !Z.mod_small in He by lia. done.
Qed.

(** A publisher: the first [n] accepted writes carry the sequence numbers 1
    to [n] and the writer's topic, GUID and exact payloads; a payload is
    refused exactly when a positive [max_sample_size] is exceeded, and
    refused writes consume no number; a closed publisher refuses every
    write; publishers of one participant created fewer than [2 ^ 32]
    creations apart have distinct writer GUIDs; the log records every
    attempt, the refused ones included. *)
Theorem mock_publisher_writes :
  (∀ p ps, mp_closed p = false → mp_seq p = 0 → len ps < 2 ^ 64 →
     let ok := List.filter (λ x, bool_decide (¬ oversized p x.2)) ps in
     sequence_number <$> prepare_all p ps = seqZ 1 (len ok) ∧
     s_payload <$> prepare_all p ps = snd <$> ok ∧
     Forall (λ s, topic s = mp_topic p ∧ writer_guid s = mp_writer_guid p) (prepare_all p ps)) ∧
  (∀ p now payload b, mp_closed p = true →
     MockPublisher_write p now payload b = (Err Closed, p, b)) ∧
  (∀ p now payload b, mp_closed p = false → oversized p payload →
     MockPublisher_write p now payload b = (Err PayloadTooLarge, p, b)) ∧
  (∀ w i j, is_u32 i → is_u32 j → make_guid w i = make_guid w j → i = j) ∧
  (∀ w k p now payload, publishers w !! k = Some p →
     written_payloads (RecordingPublisher_write k now payload w).2
     = written_payloads w ++ [(mp_topic p, payload)]).
Proof using Type.
  split_and!.
  - intros p ps Hc H0 Hl. pose proof (prepare_all_open p ps) as Hp. rewrite H0 in Hp.
    apply Hp; (done || lia).
  - intros p now payload b Hc. unfold MockPublisher_write, MockPublisher_prepare. by rewrite Hc.
  - intros p now payload b Hc [H0 Hl]. unfold MockPublisher_write, MockPublisher_prepare.
    by rewrite Hc, !(proj2 (Z.ltb_lt _ _)) by lia.
  - apply make_guid_inj.
  - intros w k p now payload Hk. unfold RecordingPublisher_write. rewrite Hk.
    simpl. by destruct (MockPublisher_write p now payload (broker w)) as [[r p'] b'].
Qed.

(** *** Closing the participant *)

Lemma elem_of_all_subscribers b id :
  id ∈ all_subscribers b ↔ ∃ t s, topics b !! t = Some s ∧ id ∈ subscribers s.
Proof using Type.
  unfold all_subscribers. rewrite list_elem_of_bind. split.
  - intros ([t s] & Hid & Hts%elem_of_map_to_list). eauto.
  - intros (t & s & Hts & Hid). exists (t, s). by rewrite elem_of_map_to_list.
Qed.

Lemma close_closes w : broker_wf (broker w) → p_closed w = false →
  ∀ id i, store (broker w) !! id = Some i →
  ∃ i', store (broker (MockParticipant_close w)) !! id = Some i' ∧
        closed i' = true ∧ queue i' = queue i.
Proof using Type.
  intros Hb Hp id i Hi. unfold MockParticipant_close. rewrite Hp. simpl.
  destruct (close_all_lookup (all_subscribers (broker w)) (store (broker w)) id) as (n & -> & Hn).
  rewrite Hi. simpl. eexists. split; [done|]. destruct (iter_close_frame n i) as [-> ->].
  split; [|done]. destruct n; [|done]. destruct (closed i) eqn:Hc; [done|].
  exfalso. apply (proj1 Hn eq_refl), elem_of_all_subscribers. by eapply bw_open.
Qed.

Lemma publish_all_closed b t x qos : broker_wf b →
  (∀ id i, store b !! id = Some i → closed i = true) → store (publish t x qos b) = store b.
Proof using Type.
  intros Hb Hc. destruct (publish_spec b t x qos Hb) as (_ & _ & Hst). apply list_eq. intros id.
  rewrite Hst. case_decide; [|done]. destruct (store b !! id) as [i|] eqn:Hi; [|done].
  simpl. rewrite push_closed; [done|]. intros [_ Ho]. apply Hc in Hi. congruence.
Qed.

(** Closing a participant reached by any calls: every queue is closed with
    its content kept for draining, a second close changes nothing, no
    publisher or subscriber can be created afterwards, and health is down.
    A write on a publisher that was not closed itself still answers [Ok]:
    it is counted and logged, and no queue receives it. *)
Theorem participant_close dom w0 cs w : MockParticipant_new dom = Ok w0 →
  w = exec_all cs w0 → p_closed w = false →
  let w' := MockParticipant_close w in
  (∀ id i, store (broker w) !! id = Some i →
     ∃ i', store (broker w') !! id = Some i' ∧ closed i' = true ∧ queue i' = queue i) ∧
  MockParticipant_close w' = w' ∧
  (∀ t qos, new_publisher t qos w' = (Err Closed, w')) ∧
  (∀ t qos opts, new_subscriber t qos opts w' = (Err Closed, w')) ∧
  Observability.status (MockParticipant_health w') = Observability.Down ∧
  (∀ k p now payload, publishers w' !! k = Some p → mp_closed p = false →
     ¬ oversized p payload → 0 <= mp_seq p → mp_seq p + 1 < 2 ^ 64 →
     let '(r, w'') := RecordingPublisher_write k now payload w' in
     r = Ok tt ∧ store (broker w'') = store (broker w') ∧
     written_payloads w'' = written_payloads w' ++ [(mp_topic p, payload)]).
Proof using Type.
  intros Hw0 Hw Hp w'.
  assert (broker_wf (broker w)) as Hb.
  { subst w. apply exec_all_wf. unfold MockParticipant_new in Hw0.
    destruct (validate_domain dom); [|done..]. injection Hw0 as <-. apply broker_new_wf. }
  assert (p_closed w' = true) as Hp'.
  { unfold w', MockParticipant_close. by rewrite Hp. }
  split_and!.
  - by apply close_closes.
  - unfold MockParticipant_close. by rewrite Hp'.
  - intros t qos. unfold new_publisher. by rewrite Hp'.
  - intros t qos opts. unfold new_subscriber. by rewrite Hp'.
  - unfold MockParticipant_health. by rewrite Hp'.
  - intros k p now payload Hk Hc Ho H0 Hs.
    unfold RecordingPublisher_write, MockPublisher_write. rewrite Hk, prepare_eq, Hc by done.
    rewrite decide_False by done. simpl. split_and!; try done.
    apply publish_all_closed; [by apply close_wf|].
    intros id i Hi. destruct (store (broker w) !! id) as [i0|] eqn:Hi0.
    + destruct (close_closes w Hb Hp id i0 Hi0) as (i' & Hi' & Hcl & _).
      unfold w' in Hi. congruence.
    + exfalso. apply lookup_ge_None in Hi0. apply lookup_lt_Some in Hi.
      unfold w', MockParticipant_close in Hi. rewrite Hp in Hi. simpl in Hi.
      rewrite close_all_length in Hi. lia.
Qed.
End mock.

(** ** Concrete instances *)

Definition demo_participant : MockParticipant (bool * option bool) :=
  mkMockParticipant (mkDomain 7) Broker_new false
    (vinsert 0 x07 (vreplicate 12 x00)) 0 [] [] [].

Definition demo_topic : str := bytes_of_ascii "a/b".
Definition demo_qos : QoS := RELIABLE_QOS.
Definition demo_opts : SubscriberOptions := mkSubscriberOptions 2 DropOldest None None.
Definition demo_calls : list Call :=
  [NewPublisher demo_topic demo_qos; NewSubscriber demo_topic demo_qos demo_opts;
   NewPublisher [x63] demo_qos].

#[local] Instance demo_profile : BuildProfile := true.

Lemma publish_delivers_witness :
  let b := broker (exec_all demo_calls demo_participant) in
  let b' := publish demo_topic (demo_sample 1) demo_qos b in
  queue <$> store b' !! 0%nat = Some [demo_sample 1] ∧
  delivers (metrics (topic_entry b' demo_topic demo_qos)) = 1.
Proof.
  destruct (publish_delivers (mkDomain 7) demo_participant demo_calls demo_topic (demo_sample 1)
    demo_qos eq_refl) as (_ & _ & Hst & _ & _ & _ & _ & Hd & _).
  split.
  - rewrite Hst. vm_compute. reflexivity.
  - rewrite Hd. vm_compute. reflexivity.
Defined.

Lemma subscriber_gets_its_topic_witness :
  let w := (new_subscriber demo_topic demo_qos demo_opts
              (exec_all [NewPublisher demo_topic demo_qos] demo_participant)).2 in
  let cs := [Write 0 1 [x01]; Write 0 2 [x02]; NewPublisher [x63] demo_qos; Write 1 3 [xff];
             Write 0 4 [x03]] in
  ∃ s i, subscriptions w !! 0%nat = Some s ∧
    store (broker (exec_all cs w)) !! ms_inner s = Some i ∧ is_open i ∧
    queue i = keep DropOldest 2 (on_topic demo_topic (trace cs w)) ∧
    s_payload <$> queue i = [[x02]; [x03]].
Proof.
  intros w cs.
  destruct (subscriber_gets_its_topic (mkDomain 7) demo_participant
    [NewPublisher demo_topic demo_qos] demo_topic demo_qos demo_opts 0 w cs eq_refl)
    as (s & i & H1 & H2 & H3 & H4).
  - vm_compute. reflexivity.
  - intros s _. repeat split; exact I.
  - exists s, i. split; [exact H1|]. split; [exact H2|]. split; [exact H3|]. split; [exact H4|].
    rewrite H4. vm_compute. reflexivity.
Defined.

Lemma late_joiner_cache_witness :
  let qos := mkQoS Reliable TransientLocal 2 0 0 0 0 0 0 in
  let '(id, b') := subscribe demo_topic demo_qos demo_opts
    (publish_all demo_topic qos [demo_sample 1; demo_sample 2; demo_sample 3]
       (Broker_new (N:=bool * option bool))) in
  queue <$> store b' !! id = Some [demo_sample 2; demo_sample 3].
Proof.
  apply (late_joiner_cache (N:=bool * option bool) Broker_new demo_topic
    (mkQoS Reliable TransientLocal 2 0 0 0 0 0 0) (demo_sample 1) [demo_sample 2; demo_sample 3]
    demo_qos demo_opts).
  - apply broker_new_wf.
  - reflexivity.
  - reflexivity.
  - vm_compute. congruence.
Defined.

(** A write after the participant's close. *)
Lemma participant_close_witness :
  let w := exec_all demo_calls demo_participant in
  let '(r, w') := RecordingPublisher_write 0 5 [x01] (MockParticipant_close w) in
  r = Ok tt ∧ store (broker w') = store (broker (MockParticipant_close w)).
Proof.
  intros w.
  destruct (participant_close (mkDomain 7) demo_participant demo_calls w eq_refl eq_refl
    ltac:(vm_compute; reflexivity)) as (_ & _ & _ & _ & _ & H).
  specialize (H 0%nat (mkMockPublisher demo_topic demo_qos (make_guid demo_participant 0) 0 false) 5 [x01]).
  specialize (H ltac:(vm_compute; reflexivity) eq_refl).
  specialize (H ltac:(vm_compute; intros []; congruence)).
  specialize (H ltac:(vm_compute; congruence) ltac:(vm_compute; reflexivity)).
  destruct (RecordingPublisher_write 0 5 [x01] (MockParticipant_close w)) as [r w'].
  destruct H as (Hr & Hs & _). split; [exact Hr|exact Hs].
Defined.
