(* ===== verification/Security.v ===== *)
(** * Security: payload plugins, discovery authentication and replay guard
    (src/security/plugin.rs, hmac.rs, aes_gcm.rs, discovery.rs, replay.rs)

    The [SecurityPlugin] trait is a class with its contract in a second class
    that every plugin discharges.  HMAC-SHA-256, AES-256-GCM and the operating
    system's random source are parameters; the only facts used of them are
    that authenticated decryption undoes encryption, the fixed sizes of tags
    and nonces, and that a tag is verified by recomputing it. *)

From S2P Require Import Prelude Types.

(** ** The plugin interface *)

Inductive SecurityError : Type :=
| PayloadTooShort
| VerificationFailed
| SecurityOther (msg : str).

Notation sres := (res SecurityError).

(** [seal] receives what the random source answers: twelve bytes, or an error
    with its text. *)
Class SecurityPlugin (P : Type) : Type := {
  seal : P → vec byte 12 + str → list byte → sres (list byte);
  open : P → list byte → sres (list byte) }.

(** The contract of the trait: [open] undoes [seal], and neither panics on
    any input. *)
Class SecurityPluginLaws (P : Type) `{SecurityPlugin P} : Prop := {
  open_seal p e m c : seal p e m = Ok c → open p c = Ok m;
  seal_no_panic p e m : no_panic (seal p e m);
  open_no_panic p c : no_panic (open p c) }.

(** ** [NullPlugin] *)

Inductive NullPlugin : Type := Null.

#[global] Instance NullPlugin_plugin : SecurityPlugin NullPlugin := {
  seal _ _ plaintext := Ok plaintext;
  open _ ciphertext := Ok ciphertext }.

#[global] Instance NullPlugin_laws : SecurityPluginLaws NullPlugin.
Proof. split; simpl; congruence || done. Qed.

(** ** [HmacPlugin] *)

Definition HMAC_TAG_LEN : Z := 32.

Section hmac.
(** [Hmac::<Sha256>]: [mac_new] is [new_from_slice], a keyed state or an
    error with its text, [mac_tag] the tag of what was fed to [update]. *)
Context {K : Type} (mac_new : list byte → K + str) (mac_tag : K → list byte → vec byte 32).

(** [verify_slice] *)
Definition mac_verify (k : K) (msg tag : list byte) : bool :=
  bool_decide (tag = vec_to_list (mac_tag k msg)).

Record HmacPlugin : Type := mkHmacPlugin { hmac_key : list byte }.

Definition keyed_mac (self : HmacPlugin) : sres K :=
  match mac_new (hmac_key self) with
  | inl k => Ok k
  | inr e => Err (SecurityOther (bytes_of_ascii "HMAC key error: " ++ e))
  end.

Definition HmacPlugin_seal (self : HmacPlugin) (plaintext : list byte) : sres (list byte) :=
  mac ← keyed_mac self;
  Ok (plaintext ++ vec_to_list (mac_tag mac plaintext)).

Definition HmacPlugin_open (self : HmacPlugin) (ciphertext : list byte) : sres (list byte) :=
  if len ciphertext <? HMAC_TAG_LEN then Err PayloadTooShort
  else
    plaintext ← slice ciphertext 0 (len ciphertext - HMAC_TAG_LEN);
    tag ← slice_from ciphertext (len ciphertext - HMAC_TAG_LEN);
    mac ← keyed_mac self;
    if mac_verify mac plaintext tag then Ok plaintext else Err VerificationFailed.

Lemma HmacPlugin_open_app self m t : len t = 32 →
  HmacPlugin_open self (m ++ t) =
    mac ← keyed_mac self; if mac_verify mac m t then Ok m else Err VerificationFailed.
Proof using Type.
  intros Ht. unfold HmacPlugin_open, HMAC_TAG_LEN. rewrite len_app, Ht. len_atoms.
  ltb_false lia. rewrite slice_ok, slice_from_ok by len_tac. rewrite !bind_ok.
  rewrite sub_app_here by lia. rewrite drop_app_len by lia. done.
Qed.

(** What [open] accepts: the messages followed by their tag, and nothing else. *)
Lemma HmacPlugin_open_spec self k c m : mac_new (hmac_key self) = inl k →
  HmacPlugin_open self c = Ok m ↔ c = m ++ vec_to_list (mac_tag k m).
Proof using Type.
  intros Hk. destruct (Z.ltb_spec (len c) 32) as [Hlt|Hge].
  - unfold HmacPlugin_open, HMAC_TAG_LEN. rewrite (proj2 (Z.ltb_lt _ _)) by done.
    split; [done|]. intros ->. rewrite len_app, len_vec in Hlt. len_tac.
  - rewrite <- (sub_0_app_drop c (len c - 32)) by lia.
    set (pre := sub c 0 _). set (tag := drop _ c).
    assert (len tag = 32) as Ht by (unfold tag; len_tac).
    assert (length tag = length (vec_to_list (mac_tag k m))) as Hlen
      by (rewrite length_vec_to_list; unfold len in Ht; lia).
    rewrite HmacPlugin_open_app by done. unfold keyed_mac. rewrite Hk, bind_ok.
    unfold mac_verify. case_bool_decide as Hv.
    + split; [intros [= <-]; by rewrite Hv|]. by intros [-> _]%app_inj_2.
    + split; [done|]. intros Hc. exfalso. apply Hv. by apply app_inj_2 in Hc as [-> ->].
Qed.

#[local] Instance HmacPlugin_plugin : SecurityPlugin HmacPlugin := {
  seal p _ plaintext := HmacPlugin_seal p plaintext;
  open := HmacPlugin_open }.

#[local] Instance HmacPlugin_laws : SecurityPluginLaws HmacPlugin.
Proof using Type.
  split; simpl.
  - intros p e m c. unfold HmacPlugin_seal, keyed_mac.
    destruct (mac_new (hmac_key p)) as [k|e'] eqn:Hk; [|done]. rewrite bind_ok. intros [= <-].
    by apply HmacPlugin_open_spec with k.
  - intros p e m. unfold HmacPlugin_seal, keyed_mac. by destruct (mac_new _).
  - intros p c. unfold HmacPlugin_open, HMAC_TAG_LEN, keyed_mac.
    destruct (Z.ltb_spec (len c) 32); [done|].
    rewrite slice_ok, slice_from_ok by lia. rewrite !bind_ok.
    destruct (mac_new _); [|done]. rewrite bind_ok. by destruct (mac_verify _ _ _).
Qed.

(** ** [HmacDiscoveryPlugin] *)

Definition DISCOVERY_CONTEXT : list byte := bytes_of_ascii "go-dds-discovery-v1".

Record HmacDiscoveryPlugin : Type := mkHmacDiscoveryPlugin { discovery_key : list byte }.

Definition rekey (self : HmacDiscoveryPlugin) (new_key : list byte) : HmacDiscoveryPlugin :=
  mkHmacDiscoveryPlugin new_key.

Definition sign_discovery (self : HmacDiscoveryPlugin) (guid_prefix : list byte) : list byte :=
  match mac_new (discovery_key self) with
  | inr _ => []
  | inl mac => vec_to_list (mac_tag mac (DISCOVERY_CONTEXT ++ guid_prefix))
  end.

Definition verify_discovery (self : HmacDiscoveryPlugin) (guid_prefix tag : list byte) : bool :=
  match tag with
  | [] => false
  | _ =>
      match mac_new (discovery_key self) with
      | inr _ => false
      | inl mac => mac_verify mac (DISCOVERY_CONTEXT ++ guid_prefix) tag
      end
  end.

(** Discovery authentication: a tag is accepted exactly when it is the one
    the same key signs for this prefix and is not empty; in particular a
    missing tag is always refused, a signed announcement is accepted
    whenever the key is usable, and after [rekey] both sides use the new key
    only. *)
Theorem discovery_authentication p g tag :
  (verify_discovery p g tag = true ↔ tag = sign_discovery p g ∧ tag ≠ []) ∧
  verify_discovery p g [] = false ∧
  (∀ k, mac_new (discovery_key p) = inl k → verify_discovery p g (sign_discovery p g) = true) ∧
  (∀ e, mac_new (discovery_key p) = inr e → verify_discovery p g tag = false) ∧
  (∀ key p', rekey p key = rekey p' key ∧
     verify_discovery (rekey p key) g tag = verify_discovery (mkHmacDiscoveryPlugin key) g tag).
Proof using Type.
  assert (verify_discovery p g tag = true ↔ tag = sign_discovery p g ∧ tag ≠ []) as Hv.
  { unfold verify_discovery, sign_discovery. destruct tag as [|x tag]; [naive_solver|].
    destruct (mac_new _) as [k|e]; [|naive_solver]. unfold mac_verify.
    rewrite bool_decide_eq_true. naive_solver. }
  split_and!; try done.
  - intros k Hk. unfold verify_discovery, sign_discovery. rewrite Hk.
    destruct (vec_to_list (mac_tag k (DISCOVERY_CONTEXT ++ g))) as [|x l] eqn:He.
    { apply (f_equal length) in He. by rewrite length_vec_to_list in He. }
    unfold mac_verify. by rewrite bool_decide_eq_true_2.
  - intros e Hk. unfold verify_discovery. rewrite Hk. by destruct tag.
Qed.
End hmac.

(** ** [AesGcmPlugin] *)

Definition NONCE_LEN : Z := 12.
Definition TAG_LEN : Z := 16.

Section aes_gcm.
Context {C : Type} (cipher_new : list byte → option C)
  (encrypt : C → vec byte 12 → list byte → option (list byte))
  (decrypt : C → vec byte 12 → list byte → option (list byte)).

Record AesGcmPlugin : Type := mkAesGcmPlugin { cipher : C }.

Definition AesGcmPlugin_new (key : list byte) : sres AesGcmPlugin :=
  match cipher_new key with
  | Some c => Ok (mkAesGcmPlugin c)
  | None => Err (SecurityOther (bytes_of_ascii "AES-GCM key must be 32 bytes (AES-256)"))
  end.

Definition AesGcmPlugin_seal (self : AesGcmPlugin) (rng : vec byte 12 + str)
    (plaintext : list byte) : sres (list byte) :=
  nonce ← match rng with
          | inl n => Ok n
          | inr e => Err (SecurityOther (bytes_of_ascii "AES-GCM nonce generation failed: " ++ e))
          end;
  ciphertext ← match encrypt (cipher self) nonce plaintext with
               | Some c => Ok c
               | None => Err (SecurityOther (bytes_of_ascii "AES-GCM encryption failed"))
               end;
  Ok (vec_to_list nonce ++ ciphertext).

Definition AesGcmPlugin_open (self : AesGcmPlugin) (ciphertext : list byte) : sres (list byte) :=
  if len ciphertext <? NONCE_LEN + TAG_LEN then Err PayloadTooShort
  else
    nonce_bytes ← slice ciphertext 0 NONCE_LEN;
    ct ← slice_from ciphertext NONCE_LEN;
    nonce ← arr_of 12 nonce_bytes;
    match decrypt (cipher self) nonce ct with
    | Some m => Ok m
    | None => Err VerificationFailed
    end.

#[local] Instance AesGcmPlugin_plugin : SecurityPlugin AesGcmPlugin := {
  seal := AesGcmPlugin_seal;
  open := AesGcmPlugin_open }.

Lemma AesGcmPlugin_laws :
  (∀ k n m c, encrypt k n m = Some c → decrypt k n c = Some m) →
  (∀ k n m c, encrypt k n m = Some c → len c = len m + 16) →
  SecurityPluginLaws AesGcmPlugin.
Proof using Type.
  intros Hdec Hlen. split; simpl.
  - intros p e m c. unfold AesGcmPlugin_seal. destruct e as [n|]; [|done]. rewrite bind_ok.
    destruct (encrypt (cipher p) n m) as [ct|] eqn:He; [|done]. rewrite bind_ok. intros [= <-].
    pose proof (Hlen _ _ _ _ He). unfold AesGcmPlugin_open, NONCE_LEN, TAG_LEN.
    ltb_false len_tac. rewrite slice_ok, slice_from_ok by len_tac. rewrite !bind_ok.
    rewrite sub_app_here by len_tac. rewrite drop_app_len by len_tac.
    rewrite arr_of_vec, bind_ok. by rewrite (Hdec _ _ _ _ He).
  - intros p e m. unfold AesGcmPlugin_seal. destruct e; [|done]. rewrite bind_ok.
    by destruct (encrypt _ _ _).
  - intros p c. unfold AesGcmPlugin_open, NONCE_LEN, TAG_LEN.
    destruct (Z.ltb_spec (len c) (12 + 16)); [done|].
    rewrite slice_ok, slice_from_ok by lia. rewrite !bind_ok.
    rewrite arr_of_ok by (rewrite len_sub; lia). rewrite bind_ok.
    by destruct (decrypt _ _ _).
Qed.
End aes_gcm.

(** The three payload plugins keep the trait's contract: [open] returns what
    was sealed and neither operation panics, whatever the bytes; [HmacPlugin]
    opens exactly the messages followed by their 32-byte tag, with the too
    short and the badly tagged input told apart. *)
Theorem security_plugins_contract {K C : Type} (mac_new : list byte → K + str)
    (mac_tag : K → list byte → vec byte 32)
    (encrypt decrypt : C → vec byte 12 → list byte → option (list byte)) :
  (∀ k n m c, encrypt k n m = Some c → decrypt k n c = Some m) →
  (∀ k n m c, encrypt k n m = Some c → len c = len m + 16) →
  SecurityPluginLaws NullPlugin ∧
  @SecurityPluginLaws HmacPlugin (HmacPlugin_plugin mac_new mac_tag) ∧
  @SecurityPluginLaws AesGcmPlugin (AesGcmPlugin_plugin encrypt decrypt) ∧
  (∀ self k c, mac_new (hmac_key self) = inl k →
     (∀ m, HmacPlugin_open mac_new mac_tag self c = Ok m ↔ c = m ++ vec_to_list (mac_tag k m)) ∧
     (HmacPlugin_open mac_new mac_tag self c = Err PayloadTooShort ↔ len c < 32)).
Proof.
  intros Hdec Hlen. split_and!.
  - apply _.
  - apply HmacPlugin_laws.
  - by apply AesGcmPlugin_laws.
  - intros self k c Hk. split; [intros m; by apply HmacPlugin_open_spec|].
    unfold HmacPlugin_open, HMAC_TAG_LEN, keyed_mac. destruct (Z.ltb_spec (len c) 32); [done|].
    rewrite slice_ok, slice_from_ok by lia. rewrite !bind_ok, Hk, bind_ok.
    split; [|lia]. by destruct (mac_verify _ _ _ _).
Qed.

(** ** [ReplayGuard] *)

(** An [Instant] is a number of nanoseconds since the clock's origin, which no
    instant precedes. *)
Definition checked_sub (now window : Z) : option Z :=
  if window <=? now then Some (now - window) else None.

Definition DEFAULT_REPLAY_WINDOW : Z := 30 * 1000000000.

Record ReplayGuard : Type := mkReplayGuard { window : Z; seen : gmap Z Z }.

Inductive ReplayError : Type := Replayed.

Definition ReplayGuard_new (window : Z) : ReplayGuard :=
  mkReplayGuard (if window =? 0 then DEFAULT_REPLAY_WINDOW else window) ∅.

Definition fresh_enough (cutoff : option Z) (t : Z) : Prop :=
  match cutoff with Some cutoff => cutoff <= t | None => True end.

#[global] Instance fresh_enough_dec cutoff t : Decision (fresh_enough cutoff t).
Proof. destruct cutoff; simpl; apply _. Defined.

Definition purge_locked (seen : gmap Z Z) (window now : Z) : gmap Z Z :=
  let cutoff := checked_sub now window in
  filter (λ x, fresh_enough cutoff x.2) seen.

Definition ReplayGuard_check (self : ReplayGuard) (seq ts : Z) : res ReplayError unit * ReplayGuard :=
  let seen := purge_locked (seen self) (window self) ts in
  if decide (is_Some (seen !! seq)) then (Err Replayed, mkReplayGuard (window self) seen)
  else (Ok tt, mkReplayGuard (window self) (<[seq := ts]> seen)).

Definition ReplayGuard_purge (self : ReplayGuard) (now : Z) : ReplayGuard :=
  mkReplayGuard (window self) (purge_locked (seen self) (window self) now).

Definition ReplayGuard_len (self : ReplayGuard) : Z := Z.of_nat (size (seen self)).
Definition ReplayGuard_is_empty (self : ReplayGuard) : bool := ReplayGuard_len self =? 0.

(** The checks of a list of messages, with those that were accepted. *)
Fixpoint check_all (g : ReplayGuard) (msgs : list (Z * Z)) : list (Z * Z) * ReplayGuard :=
  match msgs with
  | [] => ([], g)
  | (s, ts) :: msgs =>
      let '(r, g) := ReplayGuard_check g s ts in
      let '(acc, g) := check_all g msgs in
      ((match r with Ok _ => [(s, ts)] | _ => [] end) ++ acc, g)
  end.

(** The guard remembers exactly the accepted messages of the last window. *)
Record replay_inv (g : ReplayGuard) (now : Z) (acc : list (Z * Z)) : Prop := {
  ri_now : 0 <= now;
  ri_past s t : (s, t) ∈ acc → 0 <= t <= now;
  ri_seen s t : seen g !! s = Some t ↔ (s, t) ∈ acc ∧ now - window g <= t }.

Lemma purge_lookup seen w now s t : 0 <= t →
  purge_locked seen w now !! s = Some t ↔ seen !! s = Some t ∧ now - w <= t.
Proof.
  intros Ht. unfold purge_locked. rewrite map_lookup_filter_Some. simpl.
  unfold checked_sub. destruct (Z.leb_spec w now); simpl; [done|]. split; [|tauto].
  intros [? _]. split; [done|lia].
Qed.

Lemma purge_inv g now acc ts : replay_inv g now acc → now <= ts →
  replay_inv (mkReplayGuard (window g) (purge_locked (seen g) (window g) ts)) ts acc.
Proof.
  intros [Hn Hp Hs] Hle. split; simpl; [lia| |].
  - intros s t Hin. specialize (Hp s t Hin). lia.
  - intros s t. destruct (decide (0 <= t)) as [H0|H0].
    + rewrite purge_lookup, Hs by done. split; [tauto|]. intros [Hin Hge].
      split; [|done]. split; [done|lia].
    + split.
      * unfold purge_locked. rewrite map_lookup_filter_Some, Hs. intros [[Hin _] _].
        apply Hp in Hin. lia.
      * intros [Hin _]. apply Hp in Hin. lia.
Qed.

Lemma check_inv g now acc s ts : replay_inv g now acc → now <= ts → 0 <= window g →
  (fst (ReplayGuard_check g s ts) = Err Replayed ↔ ∃ t, (s, t) ∈ acc ∧ ts - window g <= t) ∧
  replay_inv (ReplayGuard_check g s ts).2 ts
    (acc ++ match (ReplayGuard_check g s ts).1 with Ok _ => [(s, ts)] | _ => [] end).
Proof.
  intros Hi Hle Hw. pose proof (purge_inv _ _ _ _ Hi Hle) as [Hn Hp Hs]. simpl in Hs.
  unfold ReplayGuard_check. case_decide as Hd; simpl.
  - split; [|by rewrite app_nil_r]. destruct Hd as [t Ht]. split; [|done].
    intros _. exists t. by apply Hs.
  - assert (¬ ∃ t, (s, t) ∈ acc ∧ ts - window g <= t) as Hnone.
    { intros (t & Ht). apply Hs in Ht. apply Hd. eauto. }
    split; [done|]. split; simpl; [done| |].
    + intros s' t [Hin|Hin]%elem_of_app; [by eapply Hp|].
      apply list_elem_of_singleton in Hin. simplify_eq. lia.
    + intros s' t. rewrite elem_of_app, list_elem_of_singleton. destruct (decide (s' = s)) as [->|Hne].
      * rewrite lookup_insert_eq. split.
        -- intros [= <-]. split; [by right|lia].
        -- intros [[Hin|Heq] Hge]; [exfalso; eauto|]. congruence.
      * rewrite lookup_insert_ne, Hs by done. split; [tauto|].
        intros [[Hin|[= ? ?]] Hge]; [tauto|congruence].
Qed.

(** Timestamps that never go back. *)
Fixpoint nondecreasing (now : Z) (msgs : list (Z * Z)) : Prop :=
  match msgs with
  | [] => True
  | (_, ts) :: msgs => now <= ts ∧ nondecreasing ts msgs
  end.

Lemma check_all_inv msgs g now acc : replay_inv g now acc → nondecreasing now msgs → 0 <= window g →
  let r := check_all g msgs in
  window r.2 = window g ∧ ∃ now', replay_inv r.2 now' (acc ++ r.1) ∧
    ∀ rest, nondecreasing now (msgs ++ rest) → nondecreasing now' rest.
Proof.
  revert g now acc. induction msgs as [|[s ts] msgs IH]; intros g now acc Hi Hm Hw; simpl.
  { split; [done|]. exists now. by rewrite app_nil_r. }
  destruct Hm as [Hle Hm]. destruct (check_inv g now acc s ts Hi Hle Hw) as [_ Hi'].
  destruct (ReplayGuard_check g s ts) as [r g'] eqn:Hc. simpl in Hi'.
  assert (window g' = window g) as Hwg.
  { unfold ReplayGuard_check in Hc. case_decide; by simplify_eq. }
  destruct (IH g' ts _ Hi' Hm) as (Hwr & now' & Hinv & Hrest); [lia|].
  destruct (check_all g' msgs) as [acc' g'']. simpl in *. split; [congruence|].
  exists now'. split; [by rewrite app_assoc|]. intros rest [_ Hr]. auto.
Qed.

Lemma nondecreasing_app_l now l k : nondecreasing now (l ++ k) → nondecreasing now l.
Proof.
  revert now. induction l as [|[s t] l IH]; intros now; simpl; [done|]. intros [? ?]. auto.
Qed.

Lemma check_unseen g s ts : purge_locked (seen g) (window g) ts !! s = None →
  ReplayGuard_check g s ts =
    (Ok tt, mkReplayGuard (window g) (<[s := ts]> (purge_locked (seen g) (window g) ts))).
Proof. intros Hn. unfold ReplayGuard_check. rewrite decide_False; [done|]. rewrite Hn. by intros []. Qed.

Lemma future_evicts W : 0 < W →
  (check_all (mkReplayGuard W ∅) [(1, 0); (2, W + 1); (1, 0)]).1 = [(1, 0); (2, W + 1); (1, 0)].
Proof.
  intros HW. cbn [check_all].
  rewrite check_unseen by (simpl; unfold purge_locked; by rewrite map_filter_empty). simpl.
  unfold purge_locked at 1. rewrite map_filter_empty.
  assert (purge_locked (<[1 := 0]> ∅) W (W + 1) = ∅) as Hp.
  { apply map_empty. intros s. destruct (purge_locked _ _ _ !! s) as [t|] eqn:Ht; [|done].
    assert (t = 0) as ->.
    { unfold purge_locked in Ht. apply map_lookup_filter_Some in Ht as [Ht _].
      by apply lookup_insert_Some in Ht as [[_ <-]|[_ Ht]]. }
    apply purge_lookup in Ht as [_ Ht]; lia. }
  rewrite check_unseen by (simpl; by rewrite Hp). simpl. rewrite Hp.
  rewrite check_unseen; [done|]. simpl. unfold purge_locked.
  rewrite map_lookup_filter_None. left. by rewrite lookup_insert_ne, lookup_empty.
Qed.

(** C39. Replay protection: when timestamps never go back, a message is refused
    exactly when one with its sequence number was accepted within the window
    before it, and the guard holds nothing older than the window.  A
    timestamp in the future breaks this: it evicts the record, and the very
    same (sequence number, timestamp) pair is accepted a second time. *)
Theorem replay_guard w msgs s ts : 0 <= w → nondecreasing 0 (msgs ++ [(s, ts)]) →
  let g0 := ReplayGuard_new w in
  let acc := (check_all g0 msgs).1 in
  let g := (check_all g0 msgs).2 in
  ((ReplayGuard_check g s ts).1 = Err Replayed ↔ ∃ t, (s, t) ∈ acc ∧ ts - window g0 <= t) ∧
  (∀ s' t', seen (ReplayGuard_check g s ts).2 !! s' = Some t' → ts - window g0 <= t' <= ts) ∧
  (check_all g0 [(1, 0); (2, window g0 + 1); (1, 0)]).1 = [(1, 0); (2, window g0 + 1); (1, 0)].
Proof.
  intros Hw Hm g0 acc g.
  assert (0 < window g0) as Hw0.
  { unfold g0, ReplayGuard_new. simpl. destruct (Z.eqb_spec w 0); [done|lia]. }
  assert (replay_inv g0 0 []) as Hi0.
  { split; [done|by intros ?? ?%elem_of_nil|]. intros s' t'. simpl. rewrite lookup_empty.
    split; [done|]. by intros [?%elem_of_nil _]. }
  destruct (check_all_inv msgs g0 0 [] Hi0) as (Hwg & now' & Hi & Hrest);
    [by eapply nondecreasing_app_l|lia|].
  apply Hrest in Hm as [Hle _]. fold g acc in Hi, Hwg. simpl in Hi.
  destruct (check_inv g now' acc s ts Hi Hle) as [Hr Hi']; [lia|]. rewrite Hwg in Hr.
  split_and!; [done| |].
  - intros s' t' Hs. apply (ri_seen _ _ _ Hi') in Hs as [Hin Hge].
    apply (ri_past _ _ _ Hi') in Hin.
    replace (window (ReplayGuard_check g s ts).2) with (window g0) in Hge; [lia|].
    unfold ReplayGuard_check. by case_decide.
  - by apply future_evicts.
Qed.

(** ** Concrete instances *)

(** A length-keyed stand-in for the authenticated cipher: the message followed
    by sixteen bytes of nonce and key length. *)
Definition demo_tag (k : Z) (n : vec byte 12) : list byte := vec_to_list n ++ to_le 4 k.

Definition demo_encrypt (k : Z) (n : vec byte 12) (m : list byte) : option (list byte) :=
  Some (m ++ demo_tag k n).

Definition demo_decrypt (k : Z) (n : vec byte 12) (c : list byte) : option (list byte) :=
  let m := take (length c - 16) c in
  if decide (c = m ++ demo_tag k n) then Some m else None.

Definition demo_mac_new (key : list byte) : Z + str := inl (len key).
Definition demo_mac_tag (k : Z) (msg : list byte) : vec byte 32 :=
  vec_fill 32 (to_le 16 k ++ to_le 16 (len msg)).

Lemma length_demo_tag k n : length (demo_tag k n) = 16%nat.
Proof. unfold demo_tag, to_le. by rewrite length_app, length_vec_to_list, length_le_split. Qed.

Lemma demo_decrypt_encrypt k n m c : demo_encrypt k n m = Some c → demo_decrypt k n c = Some m.
Proof.
  intros [= <-]. unfold demo_decrypt. rewrite length_app, length_demo_tag.
  replace (length m + 16 - 16)%nat with (length m) by lia. rewrite take_app_length.
  by rewrite decide_True.
Qed.

Lemma demo_encrypt_len k n m c : demo_encrypt k n m = Some c → len c = len m + 16.
Proof. intros [= <-]. unfold len. rewrite length_app, length_demo_tag. lia. Qed.

Lemma security_plugins_contract_witness :
  HmacPlugin_open demo_mac_new demo_mac_tag (mkHmacPlugin [x01])
    ([x09; x08] ++ vec_to_list (demo_mac_tag 1 [x09; x08])) = Ok [x09; x08] ∧
  HmacPlugin_open demo_mac_new demo_mac_tag (mkHmacPlugin [x01]) [x09; x08] = Err PayloadTooShort.
Proof.
  destruct (security_plugins_contract demo_mac_new demo_mac_tag demo_encrypt demo_decrypt
    demo_decrypt_encrypt demo_encrypt_len) as (_ & _ & _ & H).
  split.
  - apply (H (mkHmacPlugin [x01]) 1 _ eq_refl). reflexivity.
  - apply (H (mkHmacPlugin [x01]) 1 _ eq_refl). vm_compute. reflexivity.
Defined.

Lemma replay_guard_witness :
  (ReplayGuard_check (check_all (ReplayGuard_new 10) [(1, 0); (2, 5)]).2 1 9).1 = Err Replayed.
Proof.
  apply (replay_guard 10 [(1, 0); (2, 5)] 1 9).
  - lia.
  - repeat split; lia.
  - exists 0. split; [vm_compute; apply list_elem_of_here|vm_compute; congruence].
Defined.
