(* ===== verification/Spdp.v ===== *)
(** * Spdp: participant discovery (src/rtps/spdp.rs)

    The announcement of a participant, its parser, and the service with its
    table of known peers.  Durations and instants are nanoseconds; the clock,
    the random source and the socket are arguments.  A handler is one step of
    the service: the locks it takes are held for single map operations. *)

From S2P Require Import Prelude Codec Guid Locator Message Cdr Transport Socket Security.

Definition NANOS : Z := 1000000000.
Definition DEFAULT_LEASE_DURATION : Z := 10 * NANOS.
Definition SPDP_ANNOUNCE_PERIOD : Z := 2 * NANOS.
Definition EVICT_PERIOD : Z := NANOS.
Definition ADVERTISED_LEASE_SECS : Z := 10.

Definition ALL_BUILTIN_ENDPOINTS : Z :=
  Z.lor (Z.lor (Z.lor (Z.lor (Z.lor ENDPOINT_SPDP_ANNOUNCER ENDPOINT_SPDP_DETECTOR)
    ENDPOINT_SEDP_PUB_ANNOUNCER) ENDPOINT_SEDP_PUB_DETECTOR) ENDPOINT_SEDP_SUB_ANNOUNCER)
    ENDPOINT_SEDP_SUB_DETECTOR.

(** ** Configuration *)

(** [Arc<dyn DiscoveryPlugin>]: the two methods of the trait. *)
Record DiscoveryPlugin : Type := mkDiscoveryPlugin {
  dp_sign : list byte → list byte;
  dp_verify : list byte → list byte → bool }.

(** [HmacDiscoveryPlugin] behind the trait. *)
Definition hmac_plugin {K} (mac_new : list byte → K + list byte)
    (mac_tag : K → list byte → vec byte 32) (p : HmacDiscoveryPlugin) : DiscoveryPlugin :=
  mkDiscoveryPlugin (sign_discovery mac_new mac_tag p) (verify_discovery mac_new mac_tag p).

Record SpdpConfig : Type := mkSpdpConfig {
  sc_domain : Z;
  sc_guid_prefix : GuidPrefix;
  sc_vendor_id : VendorId;
  sc_meta_unicast_port : Z;
  sc_data_unicast_port : Z;
  sc_announce_period : Z;
  sc_jitter : Z;
  sc_peer_locators : list SocketAddr;
  sc_no_multicast : bool;
  sc_ipv6 : bool;
  sc_discovery_plugin : option DiscoveryPlugin }.

Module SpdpConfig.
Definition new (domain : Z) (guid_prefix : GuidPrefix) (meta_unicast_port data_unicast_port : Z)
    : SpdpConfig :=
  mkSpdpConfig domain guid_prefix VENDOR_ID_RUST_DDS meta_unicast_port data_unicast_port
    SPDP_ANNOUNCE_PERIOD 0 [] false false None.

Definition with_announce_period (period : Z) (c : SpdpConfig) : SpdpConfig :=
  mkSpdpConfig (sc_domain c) (sc_guid_prefix c) (sc_vendor_id c) (sc_meta_unicast_port c)
    (sc_data_unicast_port c) period (sc_jitter c) (sc_peer_locators c) (sc_no_multicast c)
    (sc_ipv6 c) (sc_discovery_plugin c).
Definition with_jitter (jitter : Z) (c : SpdpConfig) : SpdpConfig :=
  mkSpdpConfig (sc_domain c) (sc_guid_prefix c) (sc_vendor_id c) (sc_meta_unicast_port c)
    (sc_data_unicast_port c) (sc_announce_period c) jitter (sc_peer_locators c) (sc_no_multicast c)
    (sc_ipv6 c) (sc_discovery_plugin c).
Definition with_peer_locators (addrs : list SocketAddr) (c : SpdpConfig) : SpdpConfig :=
  mkSpdpConfig (sc_domain c) (sc_guid_prefix c) (sc_vendor_id c) (sc_meta_unicast_port c)
    (sc_data_unicast_port c) (sc_announce_period c) (sc_jitter c) (sc_peer_locators c ++ addrs)
    (sc_no_multicast c) (sc_ipv6 c) (sc_discovery_plugin c).
Definition with_no_multicast (c : SpdpConfig) : SpdpConfig :=
  mkSpdpConfig (sc_domain c) (sc_guid_prefix c) (sc_vendor_id c) (sc_meta_unicast_port c)
    (sc_data_unicast_port c) (sc_announce_period c) (sc_jitter c) (sc_peer_locators c) true
    (sc_ipv6 c) (sc_discovery_plugin c).
Definition with_ipv6 (c : SpdpConfig) : SpdpConfig :=
  mkSpdpConfig (sc_domain c) (sc_guid_prefix c) (sc_vendor_id c) (sc_meta_unicast_port c)
    (sc_data_unicast_port c) (sc_announce_period c) (sc_jitter c) (sc_peer_locators c)
    (sc_no_multicast c) true (sc_discovery_plugin c).
Definition with_discovery_plugin (plugin : DiscoveryPlugin) (c : SpdpConfig) : SpdpConfig :=
  mkSpdpConfig (sc_domain c) (sc_guid_prefix c) (sc_vendor_id c) (sc_meta_unicast_port c)
    (sc_data_unicast_port c) (sc_announce_period c) (sc_jitter c) (sc_peer_locators c)
    (sc_no_multicast c) (sc_ipv6 c) (Some plugin).
End SpdpConfig.

(** ** Announcements *)

Record ParticipantProxy : Type := mkParticipantProxy {
  pp_guid : Guid;
  metatraffic_unicast : Locator;
  default_unicast : Locator;
  builtin_endpoints : Z;
  lease_duration : Z;
  last_seen : option Z }.

#[global] Instance ParticipantProxy_eq_dec : EqDecision ParticipantProxy.
Proof. solve_decision. Defined.

Definition zero_locator (ipv6 : bool) (port : Z) : Locator :=
  if ipv6 then Locator.udp_v6 (vreplicate 16 x00) port
  else Locator.udp_v4 (vreplicate 4 x00) port.

Definition spdp_multicast_dst (ipv6 : bool) (port : Z) : SocketAddr :=
  if ipv6 then SocketAddrV6 SPDP_MULTICAST_ADDR_V6 port else SocketAddrV4 SPDP_MULTICAST_ADDR port.

Definition build_participant_data (cfg : SpdpConfig) : list byte :=
  let enc := PlCdrEncoder.new in
  let enc := PlCdrEncoder.add_bytes PID_PROTOCOL_VERSION
               [major PROTOCOL_VERSION_2_3; minor PROTOCOL_VERSION_2_3; x00; x00] enc in
  let enc := PlCdrEncoder.add_bytes PID_VENDOR_ID
               (vec_to_list (vendor_bytes (sc_vendor_id cfg)) ++ [x00; x00]) enc in
  let guid := mkGuid (sc_guid_prefix cfg) ENTITYID_PARTICIPANT in
  let enc := PlCdrEncoder.add_guid PID_PARTICIPANT_GUID guid enc in
  let enc := PlCdrEncoder.add_u32 PID_BUILTIN_ENDPOINT_SET ALL_BUILTIN_ENDPOINTS enc in
  let enc := PlCdrEncoder.add_locator PID_METATRAFFIC_UNICAST_LOCATOR
               (zero_locator (sc_ipv6 cfg) (sc_meta_unicast_port cfg)) enc in
  let enc := PlCdrEncoder.add_locator PID_DEFAULT_UNICAST_LOCATOR
               (zero_locator (sc_ipv6 cfg) (sc_data_unicast_port cfg)) enc in
  let lease := to_le 4 ADVERTISED_LEASE_SECS ++ to_le 4 0 in
  let enc := PlCdrEncoder.add_bytes PID_PARTICIPANT_LEASE_DURATION lease enc in
  let enc := match sc_discovery_plugin cfg with
             | Some plugin =>
                 let tag := dp_sign plugin (vec_to_list (prefix_bytes (sc_guid_prefix cfg))) in
                 PlCdrEncoder.add_bytes PID_DISCOVERY_TOKEN tag enc
             | None => enc
             end in
  PlCdrEncoder.finish enc.

(** [PlCdrDecoder::new(payload).ok()?] and the parameters of the loop. *)
Definition payload_params (payload : list byte) : panics (option (list Param)) :=
  decoder ← ok (PlCdrDecoder.new payload);
  match decoder with
  | None => Ok None
  | Some decoder => ps ← PlCdrDecoder.params decoder; Ok (Some ps)
  end.

Definition extract_discovery_token (payload : list byte) : panics (option (list byte)) :=
  ps ← payload_params payload;
  Ok (ps ← ps; value <$> head (List.filter (λ p, pid p =? PID_DISCOVERY_TOKEN) ps)).

Definition fill_in_zero_address (loc : Locator) (from : SocketAddr) : Locator :=
  if bool_decide (address loc ≠ vreplicate 16 x00) then loc
  else match from with
       | SocketAddrV4 ip _ =>
           if kind loc =? LOCATOR_KIND_UDPV4 then
             mkLocator (kind loc) (port loc)
               (vec_fill 16 (take 12 (vec_to_list (address loc)) ++ vec_to_list ip))
           else loc
       | SocketAddrV6 ip _ =>
           if kind loc =? LOCATOR_KIND_UDPV6 then mkLocator (kind loc) (port loc) ip else loc
       end.

Definition set_metatraffic l (p : ParticipantProxy) : ParticipantProxy :=
  mkParticipantProxy (pp_guid p) l (default_unicast p) (builtin_endpoints p) (lease_duration p)
    (last_seen p).
Definition set_default l (p : ParticipantProxy) : ParticipantProxy :=
  mkParticipantProxy (pp_guid p) (metatraffic_unicast p) l (builtin_endpoints p)
    (lease_duration p) (last_seen p).
Definition set_builtin e (p : ParticipantProxy) : ParticipantProxy :=
  mkParticipantProxy (pp_guid p) (metatraffic_unicast p) (default_unicast p) e (lease_duration p)
    (last_seen p).
Definition set_lease d (p : ParticipantProxy) : ParticipantProxy :=
  mkParticipantProxy (pp_guid p) (metatraffic_unicast p) (default_unicast p)
    (builtin_endpoints p) d (last_seen p).
Definition set_last_seen t (p : ParticipantProxy) : ParticipantProxy :=
  mkParticipantProxy (pp_guid p) (metatraffic_unicast p) (default_unicast p)
    (builtin_endpoints p) (lease_duration p) t.
Definition set_guid g (p : ParticipantProxy) : ParticipantProxy :=
  mkParticipantProxy g (metatraffic_unicast p) (default_unicast p) (builtin_endpoints p)
    (lease_duration p) (last_seen p).

(** One round of the [for param in decoder] loop. *)
Definition parse_param (from : SocketAddr) (param : Param) (proxy : ParticipantProxy)
    : panics ParticipantProxy :=
  if pid param =? PID_METATRAFFIC_UNICAST_LOCATOR then
    loc ← ok (decode Locator (value param));
    Ok (match loc with
        | Some loc => set_metatraffic (fill_in_zero_address loc from) proxy | None => proxy end)
  else if pid param =? PID_DEFAULT_UNICAST_LOCATOR then
    loc ← ok (decode Locator (value param));
    Ok (match loc with
        | Some loc => set_default (fill_in_zero_address loc from) proxy | None => proxy end)
  else if pid param =? PID_BUILTIN_ENDPOINT_SET then
    if 4 <=? len (value param) then
      v ← read_le 4 (value param) 0; Ok (set_builtin v proxy)
    else Ok proxy
  else if pid param =? PID_PARTICIPANT_LEASE_DURATION then
    if 4 <=? len (value param) then
      secs ← read_le 4 (value param) 0;
      Ok (if 0 <? secs then set_lease (secs * NANOS) proxy else proxy)
    else Ok proxy
  else if pid param =? PID_PARTICIPANT_GUID then
    g ← ok (decode Guid (value param));
    Ok (match g with Some g => set_guid g proxy | None => proxy end)
  else Ok proxy.

Definition parse_participant_data (prefix : GuidPrefix) (payload : list byte) (from : SocketAddr)
    : panics (option ParticipantProxy) :=
  ps ← payload_params payload;
  match ps with
  | None => Ok None
  | Some ps =>
      let proxy := mkParticipantProxy (mkGuid prefix ENTITYID_PARTICIPANT) Locator_default
                     Locator_default 0 0 None in
      proxy ← for_each (parse_param from) ps proxy;
      Ok (Some proxy)
  end.

(** ** The service *)

Record SpdpService : Type := mkSpdpService {
  config : SpdpConfig;
  sp_seq_counter : Z;
  peers : gmap GuidPrefix ParticipantProxy;
  peer_listener : option (Chan ParticipantProxy);
  sp_announces_sent : Z;
  sp_announces_received : Z;
  peer_evictions : Z }.

Definition wrapping_add (w a b : Z) : Z := as_u w (a + b).

Section service.
Context `{BuildProfile}.
Implicit Types self : SpdpService.

Definition SpdpService_new (cfg : SpdpConfig) : SpdpService := mkSpdpService cfg 0 ∅ None 0 0 0.

Definition set_peer_listener (tx : Chan ParticipantProxy) self : SpdpService :=
  mkSpdpService (config self) (sp_seq_counter self) (peers self) (Some tx)
    (sp_announces_sent self) (sp_announces_received self) (peer_evictions self).

Definition next_seq_num self : panics (Z * SpdpService) :=
  let old := sp_seq_counter self in
  n ← uadd 32 old 1;
  Ok (n, mkSpdpService (config self) (wrapping_add 32 old 1) (peers self) (peer_listener self)
           (sp_announces_sent self) (sp_announces_received self) (peer_evictions self)).

Definition count_announce_sent self : SpdpService :=
  mkSpdpService (config self) (sp_seq_counter self) (peers self) (peer_listener self)
    (wrapping_add 64 (sp_announces_sent self) 1) (sp_announces_received self) (peer_evictions self).

(** The message of one announcement. *)
Definition announcement (cfg : SpdpConfig) (seq : Z) : list byte :=
  let payload := build_participant_data cfg in
  let submsg := encode_data_submessage ENTITYID_SPDP_WRITER ENTITYID_SPDP_READER
                  (mkSequenceNumber 0 seq) payload in
  wrap_in_rtps_message (mkHeader PROTOCOL_VERSION_2_3 (sc_vendor_id cfg) (sc_guid_prefix cfg))
    submsg.

(** The [for &peer in &self.config.peer_locators] loop: every destination is
    tried, the last error is kept. *)
Fixpoint send_each (msg : list byte) (dsts : list SocketAddr) (last_err : option NetError)
    (sock : RtpsSocket) : option NetError * RtpsSocket :=
  match dsts with
  | [] => (last_err, sock)
  | dst :: dsts =>
      let '(e, sock) := RtpsSocket.send_to msg dst sock in
      send_each msg dsts (match e with Some e => Some e | None => last_err end) sock
  end.

Definition send_announcement self (sock : RtpsSocket)
    : panics (option NetError * SpdpService * RtpsSocket) :=
  let self := count_announce_sent self in
  r ← next_seq_num self;
  let '(seq, self) := r in
  let cfg := config self in
  let msg := announcement cfg seq in
  r ← (if negb (sc_no_multicast cfg) then
         port ← meta_multicast_port (sc_domain cfg);
         match port with
         | Some port => Ok (RtpsSocket.send_to msg (spdp_multicast_dst (sc_ipv6 cfg) port) sock)
         | None => Ok (Some (OutOfRange (sc_domain cfg)), sock)
         end
       else Ok (None, sock));
  let '(last_err, sock) := r in
  let '(last_err, sock) := send_each msg (sc_peer_locators cfg) last_err sock in
  Ok (last_err, self, sock).

(** [rand::thread_rng().gen_range(0..n)] is the argument [draw]. *)
Definition random_duration_below (draw : Z → Z) (max : Z) : Z :=
  if max =? 0 then 0
  else
    let max_nanos := if max <? 2 ^ 64 then max else 2 ^ 64 - 1 in
    draw (Z.max max_nanos 1).

(** The announce loop after [n] ticks of its interval: one immediate send,
    then one per tick, whose result is ignored; the delays before the
    sends are the second component. *)
Fixpoint announce_ticks (draw : Z → Z) (n : nat) self (sock : RtpsSocket)
    : panics (list Z * SpdpService * RtpsSocket) :=
  match n with
  | O => Ok ([], self, sock)
  | S n =>
      let delay := if 0 <? sc_jitter (config self)
                   then random_duration_below draw (sc_jitter (config self)) else 0 in
      r ← send_announcement self sock;
      let '(_, self, sock) := r in
      r ← announce_ticks draw n self sock;
      let '(ds, self, sock) := r in
      Ok (delay :: ds, self, sock)
  end.

Definition announce_loop (draw : Z → Z) (n : nat) self (sock : RtpsSocket)
    : panics (list Z * SpdpService * RtpsSocket) :=
  r ← send_announcement self sock;
  let '(_, self, sock) := r in
  announce_ticks draw n self sock.

(** *** Receiving *)

Definition store_peer (now : Z) (proxy : ParticipantProxy) self : bool * SpdpService :=
  let received := wrapping_add 64 (sp_announces_received self) 1 in
  let proxy := set_last_seen (Some now) proxy in
  let proxy := if lease_duration proxy =? 0 then set_lease DEFAULT_LEASE_DURATION proxy else proxy in
  let is_new := bool_decide (peers self !! prefix (pp_guid proxy) = None) in
  let listener := match peer_listener self with
                  | Some tx => Some (send_event proxy tx) | None => None end in
  (is_new, mkSpdpService (config self) (sp_seq_counter self)
             (<[prefix (pp_guid proxy) := proxy]> (peers self)) listener (sp_announces_sent self)
             received (peer_evictions self)).

(** The token check of [handle_packet]. *)
Definition token_accepted (plugin : option DiscoveryPlugin) (prefix : GuidPrefix)
    (payload : list byte) : panics bool :=
  match plugin with
  | None => Ok true
  | Some plugin =>
      token ← extract_discovery_token payload;
      Ok (dp_verify plugin (vec_to_list (prefix_bytes prefix)) (default [] token))
  end.

(** The body of the loop of [handle_packet]. *)
Definition handle_submessage (now : Z) (from : SocketAddr) (header : Header) (raw : RawSubmessage)
    self : panics SpdpService :=
  if negb (bool_decide (raw_id raw = SUBMSG_DATA)) then Ok self
  else
    ds ← ok (decode_data_submessage (raw_flags raw) (raw_body raw));
    match ds with
    | None => Ok self
    | Some ds =>
        if negb (bool_decide (data_writer_entity_id ds = ENTITYID_SPDP_WRITER)) then Ok self
        else
          match payload ds with
          | None => Ok self
          | Some payload =>
              verified ← token_accepted (sc_discovery_plugin (config self)) (guid_prefix header)
                           payload;
              if negb verified then Ok self
              else
                proxy ← parse_participant_data (guid_prefix header) payload from;
                match proxy with
                | Some proxy => Ok (store_peer now proxy self).2
                | None => Ok self
                end
          end
    end.

Definition handle_packet (now : Z) (data : list byte) (from : SocketAddr) self
    : panics SpdpService :=
  receive_message (sc_guid_prefix (config self)) (handle_submessage now from) data self.

(** *** Leases *)

Definition peer_lease (peer : ParticipantProxy) : Z :=
  if lease_duration peer =? 0 then DEFAULT_LEASE_DURATION else lease_duration peer.

(** [now.duration_since(last_seen) > lease]; the difference saturates at 0. *)
Definition expired (now : Z) (peer : ParticipantProxy) : bool :=
  peer_lease peer <? Z.max 0 (now - default now (last_seen peer)).

Definition evict_expired (now : Z) self : SpdpService :=
  let kept := filter (λ kp, expired now kp.2 = false) (peers self) in
  let evicted := Z.of_nat (size (filter (λ kp, expired now kp.2 = true) (peers self))) in
  mkSpdpService (config self) (sp_seq_counter self) kept (peer_listener self)
    (sp_announces_sent self) (sp_announces_received self)
    (if 0 <? evicted then wrapping_add 64 (peer_evictions self) evicted else peer_evictions self).

Definition known_peers self : list ParticipantProxy := (map_to_list (peers self)).*2.
End service.

(** ** Parsing *)

Lemma payload_params_total payload : ∃ o, payload_params payload = Ok o.
Proof.
  unfold payload_params, PlCdrDecoder.new. destruct (Z.ltb_spec (len payload) 4); [by eexists|].
  rewrite read_le_ok, bind_ok by lia. destruct (negb _); [by eexists|]. cbn [ok]. rewrite bind_ok.
  destruct (collect_params_total (S (length payload)) payload 4 ltac:(lia) ltac:(unfold len; lia)) as (ps & Hps & _).
  unfold PlCdrDecoder.params. cbn [dec_buf]. rewrite Hps. by eexists.
Qed.

Lemma payload_params_finish ps : Forall param_wf ps →
  payload_params (PlCdrEncoder.finish (add_params ps PlCdrEncoder.new))
  = Ok (Some ((λ p, mkParam (pid p) (padded (value p))) <$> ps)).
Proof.
  intros Hps. destruct (decode_add_params ps [] Hps) as (dec & Hd & Hp).
  rewrite app_nil_r in Hd. unfold payload_params. rewrite Hd. cbn [ok]. by rewrite bind_ok, Hp.
Qed.

Lemma extract_token_total payload : ∃ o, extract_discovery_token payload = Ok o.
Proof.
  unfold extract_discovery_token. destruct (payload_params_total payload) as [o ->]. by eexists.
Qed.

Lemma token_accepted_total plugin g payload : ∃ b, token_accepted plugin g payload = Ok b.
Proof.
  destruct plugin as [plugin|]; [|by eexists]. unfold token_accepted.
  destruct (extract_token_total payload) as [o ->]. by eexists.
Qed.

Lemma parse_param_total from p proxy : ∃ proxy', parse_param from p proxy = Ok proxy'.
Proof.
  unfold parse_param.
  destruct (ok_total (F:=Empty_set) _ (decode_no_panic (A:=Locator) (value p))) as (ol & -> & _).
  destruct (ok_total (F:=Empty_set) _ (decode_no_panic (A:=Guid) (value p))) as (og & -> & _).
  repeat case_match; rewrite ?bind_ok; try by eexists.
  - rewrite read_le_ok by lia. by eexists.
  - rewrite read_le_ok by lia. by eexists.
Qed.

Lemma parse_total g payload from : ∃ o, parse_participant_data g payload from = Ok o.
Proof.
  unfold parse_participant_data. destruct (payload_params_total payload) as [[ps|] ->];
    rewrite bind_ok; [|by eexists].
  destruct (for_each_total (λ _, True) (parse_param from) ps
    (mkParticipantProxy (mkGuid g ENTITYID_PARTICIPANT) Locator_default Locator_default 0 0 None))
    as (s' & -> & _); [|done|by eexists].
  intros p s _. destruct (parse_param_total from p s) as [s' ?]. by exists s'.
Qed.

(** ** The announcement of a configuration *)

(** The ports are [u16] and the tag of the plugin fits in a message. *)
Definition announceable (cfg : SpdpConfig) : Prop :=
  is_u16 (sc_meta_unicast_port cfg) ∧ is_u16 (sc_data_unicast_port cfg) ∧
  match sc_discovery_plugin cfg with
  | Some pl => len (dp_sign pl (vec_to_list (prefix_bytes (sc_guid_prefix cfg)))) <= 65000
  | None => True
  end.

Definition token_params (cfg : SpdpConfig) : list Param :=
  match sc_discovery_plugin cfg with
  | Some pl => [mkParam PID_DISCOVERY_TOKEN
                  (dp_sign pl (vec_to_list (prefix_bytes (sc_guid_prefix cfg))))]
  | None => []
  end.

Definition announced_params (cfg : SpdpConfig) : list Param :=
  [mkParam PID_PROTOCOL_VERSION [major PROTOCOL_VERSION_2_3; minor PROTOCOL_VERSION_2_3; x00; x00];
   mkParam PID_VENDOR_ID (vec_to_list (vendor_bytes (sc_vendor_id cfg)) ++ [x00; x00]);
   mkParam PID_PARTICIPANT_GUID (bytes_of (mkGuid (sc_guid_prefix cfg) ENTITYID_PARTICIPANT));
   mkParam PID_BUILTIN_ENDPOINT_SET (to_le 4 ALL_BUILTIN_ENDPOINTS);
   mkParam PID_METATRAFFIC_UNICAST_LOCATOR
     (bytes_of (zero_locator (sc_ipv6 cfg) (sc_meta_unicast_port cfg)));
   mkParam PID_DEFAULT_UNICAST_LOCATOR
     (bytes_of (zero_locator (sc_ipv6 cfg) (sc_data_unicast_port cfg)));
   mkParam PID_PARTICIPANT_LEASE_DURATION (to_le 4 ADVERTISED_LEASE_SECS ++ to_le 4 0)]
  ++ token_params cfg.

Lemma build_participant_data_eq cfg :
  build_participant_data cfg = PlCdrEncoder.finish (add_params (announced_params cfg) PlCdrEncoder.new).
Proof.
  unfold build_participant_data, announced_params, token_params.
  by destruct (sc_discovery_plugin cfg).
Qed.

Lemma announced_params_wf cfg : announceable cfg → Forall param_wf (announced_params cfg).
Proof.
  intros (_ & _ & Ht). unfold announced_params, token_params. apply Forall_app. split.
  - repeat apply Forall_cons_2; try apply Forall_nil_2;
      (split_and!; cbn [pid value]; [by unfold is_u16|done|done|len_tac]).
  - destruct (sc_discovery_plugin cfg); [|done].
    apply Forall_singleton. split_and!; cbn [pid value]; [by unfold is_u16|done|done|lia].
Qed.

Lemma len_announcement cfg : announceable cfg → len (build_participant_data cfg) <= 65515.
Proof.
  intros Ha. rewrite build_participant_data_eq. unfold PlCdrEncoder.finish.
  rewrite add_params_eq by by apply announced_params_wf.
  destruct Ha as (_ & _ & Ht). unfold announced_params, token_params.
  rewrite fmap_app, concat_app. cbn [fmap list_fmap concat].
  autorewrite with len. rewrite !len_param_bytes. cbn [value]. rewrite !len_padded.
  destruct (sc_discovery_plugin cfg) as [pl|]; cbn [fmap list_fmap concat];
    autorewrite with len; rewrite ?len_param_bytes; cbn [value]; rewrite ?len_padded;
    autorewrite with len; change (len (enc_buf PlCdrEncoder.new)) with 4; Z.to_euclidean_division_equations; lia.
Qed.

(** The proxy a receiver of the announcement at [from] makes of it. *)
Definition proxy_of (cfg : SpdpConfig) (from : SocketAddr) : ParticipantProxy :=
  mkParticipantProxy (mkGuid (sc_guid_prefix cfg) ENTITYID_PARTICIPANT)
    (fill_in_zero_address (zero_locator (sc_ipv6 cfg) (sc_meta_unicast_port cfg)) from)
    (fill_in_zero_address (zero_locator (sc_ipv6 cfg) (sc_data_unicast_port cfg)) from)
    ALL_BUILTIN_ENDPOINTS (ADVERTISED_LEASE_SECS * NANOS) None.

Lemma zero_locator_wf ipv6 port : is_u16 port → Locator.wf (zero_locator ipv6 port).
Proof. unfold is_u16. destruct ipv6; split; simpl; unfold is_i32, is_u32, LOCATOR_KIND_UDPV4, LOCATOR_KIND_UDPV6; lia. Qed.

Lemma padded_bytes_of {A} `{WireCodecLaws A} (x : A) : SIZE A mod 4 = 0 → padded (bytes_of x) = bytes_of x.
Proof. intros Hs. apply padded_id. by rewrite len_bytes_of. Qed.

(** Decide the [match] on a known parameter id. *)
Ltac eval_pid :=
  unfold parse_param; cbn [pid value];
  repeat match goal with
  | |- context [?a =? ?b] =>
      let r := eval vm_compute in (a =? b) in change (a =? b) with r; cbv iota
  end.

Section parse_param.
Context (from : SocketAddr) (proxy : ParticipantProxy).

Lemma parse_locators loc : Locator.wf loc →
  parse_param from (mkParam PID_METATRAFFIC_UNICAST_LOCATOR (bytes_of loc)) proxy
  = Ok (set_metatraffic (fill_in_zero_address loc from) proxy) ∧
  parse_param from (mkParam PID_DEFAULT_UNICAST_LOCATOR (bytes_of loc)) proxy
  = Ok (set_default (fill_in_zero_address loc from) proxy).
Proof. intros Hl. split; eval_pid; by rewrite decode_exact. Qed.

Lemma parse_guid g :
  parse_param from (mkParam PID_PARTICIPANT_GUID (bytes_of g)) proxy = Ok (set_guid g proxy).
Proof. eval_pid. by rewrite decode_exact. Qed.

Lemma parse_builtin v : is_u32 v →
  parse_param from (mkParam PID_BUILTIN_ENDPOINT_SET (to_le 4 v)) proxy = Ok (set_builtin v proxy).
Proof.
  intros Hv. eval_pid. rewrite (proj2 (Z.leb_le _ _)) by len_tac.
  rewrite read_le_ok, bind_ok by len_tac. sub_norm. by rewrite from_le_u32.
Qed.

Lemma parse_lease secs rest : is_u32 secs → 0 < secs →
  parse_param from (mkParam PID_PARTICIPANT_LEASE_DURATION (to_le 4 secs ++ rest)) proxy
  = Ok (set_lease (secs * NANOS) proxy).
Proof.
  intros Hv Hs. eval_pid. rewrite (proj2 (Z.leb_le _ _)) by len_tac.
  rewrite read_le_ok, bind_ok by len_tac. sub_norm. rewrite from_le_u32 by done.
  by ltb_true lia.
Qed.

Lemma parse_ignored p v : p ∉ [PID_METATRAFFIC_UNICAST_LOCATOR; PID_DEFAULT_UNICAST_LOCATOR;
    PID_BUILTIN_ENDPOINT_SET; PID_PARTICIPANT_LEASE_DURATION; PID_PARTICIPANT_GUID] →
  parse_param from (mkParam p v) proxy = Ok proxy.
Proof.
  rewrite !not_elem_of_cons. intros (?&?&?&?&?&_). unfold parse_param. cbn [pid].
  by rewrite !(proj2 (Z.eqb_neq _ _)).
Qed.
End parse_param.

Lemma parse_build g cfg from : announceable cfg →
  parse_participant_data g (build_participant_data cfg) from = Ok (Some (proxy_of cfg from)).
Proof.
  intros Ha. unfold parse_participant_data.
  rewrite build_participant_data_eq, payload_params_finish, bind_ok by by apply announced_params_wf.
  destruct Ha as (Hm & Hd & _). unfold announced_params. rewrite fmap_app, for_each_app.
  cbn [fmap list_fmap pid value].
  rewrite !padded_bytes_of by done. rewrite !padded_id by (autorewrite with len; done).
  cbn [for_each].
  rewrite !(parse_ignored _ _ PID_PROTOCOL_VERSION), bind_ok by (by apply (bool_decide_unpack _)).
  rewrite !(parse_ignored _ _ PID_VENDOR_ID), bind_ok by (by apply (bool_decide_unpack _)).
  rewrite parse_guid, bind_ok, parse_builtin, bind_ok by done.
  rewrite (proj1 (parse_locators _ _ _ (zero_locator_wf _ _ Hm))), bind_ok.
  rewrite (proj2 (parse_locators _ _ _ (zero_locator_wf _ _ Hd))), bind_ok.
  rewrite parse_lease, !bind_ok by done.
  unfold token_params. destruct (sc_discovery_plugin cfg); [|done]. cbn [fmap list_fmap for_each].
  rewrite parse_ignored by (by apply (bool_decide_unpack _)). done.
Qed.

(** The token a receiver finds in the announcement. *)
Definition wire_token (cfg : SpdpConfig) : list byte :=
  match sc_discovery_plugin cfg with
  | Some pl => padded (dp_sign pl (vec_to_list (prefix_bytes (sc_guid_prefix cfg))))
  | None => []
  end.

Lemma extract_build cfg : announceable cfg →
  ∃ o, extract_discovery_token (build_participant_data cfg) = Ok o ∧ default [] o = wire_token cfg.
Proof.
  intros Ha. unfold extract_discovery_token.
  rewrite build_participant_data_eq, payload_params_finish, bind_ok by by apply announced_params_wf.
  unfold announced_params, token_params, wire_token.
  destruct (sc_discovery_plugin cfg); (eexists; split; [done|done]).
Qed.

(** ** What a datagram announces

    The reference semantics of [handle_packet]: the proxies the submessages
    of a datagram announce, in order. *)
Definition announced (cfg : SpdpConfig) (from : SocketAddr) (h : Header) (raw : RawSubmessage)
    : option ParticipantProxy :=
  match decode_data_submessage (raw_flags raw) (raw_body raw) with
  | Ok (mkDataSubmessage _ w _ (Some data)) =>
      if bool_decide (raw_id raw = SUBMSG_DATA ∧ w = ENTITYID_SPDP_WRITER) then
        match token_accepted (sc_discovery_plugin cfg) (guid_prefix h) data,
              parse_participant_data (guid_prefix h) data from with
        | Ok true, Ok o => o
        | _, _ => None
        end
      else None
  | _ => None
  end.

Definition raws (its : list Item) : list RawSubmessage :=
  omap (λ it, match it with inl r => Some r | inr _ => None end) its.

Definition accepted_proxies (cfg : SpdpConfig) (data : list byte) (from : SocketAddr)
    : list ParticipantProxy :=
  match Header.decode data, SubmessageIter.items (drop 20 data) with
  | Ok h, Ok its =>
      if bool_decide (guid_prefix h = sc_guid_prefix cfg) then []
      else omap (announced cfg from h) (raws its)
  | _, _ => []
  end.

(** What the table holds for a proxy stored at [now]. *)
Definition stamped (now : Z) (p : ParticipantProxy) : ParticipantProxy :=
  let p := set_last_seen (Some now) p in
  if lease_duration p =? 0 then set_lease DEFAULT_LEASE_DURATION p else p.

Section theorems.
Context `{BuildProfile}.

Lemma raws_item_list rs e : raws (item_list rs e) = rs.
Proof.
  unfold raws, item_list. induction rs as [|r rs IH]; [by destruct e|].
  cbn. f_equal. apply IH.
Qed.

Lemma spdp_submessage_eq now from h raw s :
  handle_submessage now from h raw s
  = Ok match announced (config s) from h raw with
       | Some p => (store_peer now p s).2 | None => s end.
Proof.
  unfold handle_submessage, announced.
  destruct (ok_total (F:=Empty_set) _ (decode_data_no_panic (raw_flags raw) (raw_body raw))) as (o & Ho & Hd).
  destruct (bool_decide_reflect (raw_id raw = SUBMSG_DATA)) as [Hid|Hid]; cbn [negb].
  2: { repeat case_match; try done. rewrite bool_decide_false in * by tauto. done. }
  rewrite Ho, bind_ok. destruct o as [[r w sn pl]|].
  2: { unfold ok in Ho. by destruct (decode_data_submessage _ _). }
  rewrite (Hd _ eq_refl). cbn [data_writer_entity_id payload].
  destruct (bool_decide_reflect (w = ENTITYID_SPDP_WRITER)) as [Hw|Hw]; cbn [negb].
  2: { repeat case_match; try done. rewrite bool_decide_false in * by tauto. done. }
  destruct pl as [data|]; [|done]. rewrite bool_decide_true by done.
  destruct (token_accepted_total (sc_discovery_plugin (config s)) (guid_prefix h) data) as [b ->].
  destruct (parse_total (guid_prefix h) data from) as [p ->].
  rewrite !bind_ok. by destruct b, p.
Qed.

Lemma store_peer_config now p s : config (store_peer now p s).2 = config s.
Proof. done. Qed.

Definition store_all (now : Z) (ps : list ParticipantProxy) (s : SpdpService) : SpdpService :=
  foldl (λ s p, (store_peer now p s).2) s ps.

Lemma store_all_config now ps s : config (store_all now ps s) = config s.
Proof.
  unfold store_all. revert s. induction ps as [|p ps IH]; intros s; [done|]. simpl. by rewrite IH.
Qed.

Lemma spdp_packet_eq now data from s :
  handle_packet now data from s = Ok (store_all now (accepted_proxies (config s) data from) s).
Proof.
  unfold handle_packet, accepted_proxies.
  destruct (receive_message_cases (sc_guid_prefix (config s)) (handle_submessage now from) data s)
    as [[Hr Ho]|(h & rs & e & Hh & Hp & Hi & Hr)].
  - rewrite Hr. destruct (Header.decode data) as [h| |] eqn:Hd; try done.
    destruct (SubmessageIter.items (drop 20 data)); try done. by rewrite bool_decide_true by eauto.
  - rewrite Hr, Hh, Hi, bool_decide_false, raws_item_list by done. clear Hr Hi.
    revert s Hp. induction rs as [|r rs IH]; intros s Hp; [done|]. cbn [for_each omap list_omap].
    rewrite spdp_submessage_eq, bind_ok.
    destruct (announced (config s) from h r) as [p|]; [|by apply IH]. by rewrite IH.
Qed.

(** ** The table of peers *)

Lemma peers_store now p s :
  peers (store_peer now p s).2 = <[prefix (pp_guid p) := stamped now p]> (peers s).
Proof. unfold store_peer, stamped. simpl. by case_match. Qed.

(** The last of the proxies of participant [g]. *)
Definition latest (g : GuidPrefix) (ps : list ParticipantProxy) : option ParticipantProxy :=
  last (filter (λ p, prefix (pp_guid p) = g) ps).

Lemma peers_store_all now ps s g :
  peers (store_all now ps s) !! g =
  match latest g ps with Some p => Some (stamped now p) | None => peers s !! g end.
Proof.
  unfold store_all, latest. induction ps as [|p ps IH] using rev_ind; [done|].
  rewrite foldl_snoc, filter_app, peers_store. destruct (decide (prefix (pp_guid p) = g)) as [<-|Hg].
  - rewrite filter_cons_True by done. rewrite filter_nil, last_snoc. apply lookup_insert_eq.
  - rewrite filter_cons_False by done. rewrite filter_nil, app_nil_r, lookup_insert_ne by done.
    apply IH.
Qed.

(** Leases are not negative. *)
Lemma parse_lease_nonneg g data from p :
  parse_participant_data g data from = Ok (Some p) → 0 <= lease_duration p.
Proof.
  unfold parse_participant_data. intros ([ps|] & _ & Hp)%bind_ok_inv; [|done].
  apply bind_ok_inv in Hp as (p' & Hp & [= <-]). revert Hp.
  apply (for_each_inv (λ p, 0 <= lease_duration p)); [|simpl; lia].
  clear. intros param p p' Hp. unfold parse_param.
  repeat case_match; rewrite ?bind_ok; intros Hq;
    try (apply bind_ok_inv in Hq as (x & Hx & [= <-])); simplify_eq; try done.
  all: repeat case_match; simpl; try done.
  unfold NANOS. lia.
Qed.

Lemma accepted_lease cfg data from p : p ∈ accepted_proxies cfg data from → 0 <= lease_duration p.
Proof.
  unfold accepted_proxies. repeat case_match; try (by intros ?%elem_of_nil).
  rewrite list_elem_of_omap. intros (r & _ & Ha). revert Ha. unfold announced.
  repeat case_match; try done. intros ->. eauto using parse_lease_nonneg.
Qed.

Lemma expired_stamped now t q : 0 <= lease_duration q →
  expired now (stamped t q) = false ↔ now - t <= lease_duration (stamped t q).
Proof.
  intros Hq. unfold expired, peer_lease, stamped, DEFAULT_LEASE_DURATION, NANOS. simpl.
  destruct (Z.eqb_spec (lease_duration q) 0) as [Hz|Hz]; simpl.
  - rewrite Z.ltb_ge. lia.
  - rewrite (proj2 (Z.eqb_neq _ _)), Z.ltb_ge by done. lia.
Qed.

(** The datagrams the service receives and the sweeps of its eviction loop. *)
Inductive SpdpEvent : Type :=
| Datagram (now : Z) (data : list byte) (from : SocketAddr)
| Sweep (now : Z).

Definition spdp_step (e : SpdpEvent) (s : SpdpService) : panics SpdpService :=
  match e with
  | Datagram now data from => handle_packet now data from s
  | Sweep now => Ok (evict_expired now s)
  end.

(** [e] neither replaces nor evicts the entry of [g] stored at [t]. *)
Definition undisturbed (cfg : SpdpConfig) (g : GuidPrefix) (t lease : Z) (e : SpdpEvent) : Prop :=
  match e with
  | Datagram _ data from => latest g (accepted_proxies cfg data from) = None
  | Sweep now => now - t <= lease
  end.

Definition tabled (cfg : SpdpConfig) (evs : list SpdpEvent) (g : GuidPrefix) (p : ParticipantProxy)
    : Prop :=
  ∃ evs1 t data from evs2 q, evs = evs1 ++ Datagram t data from :: evs2 ∧
    latest g (accepted_proxies cfg data from) = Some q ∧ p = stamped t q ∧
    Forall (undisturbed cfg g t (lease_duration p)) evs2.

Lemma tabled_snoc cfg evs e g p : tabled cfg (evs ++ [e]) g p ↔
  (∃ t data from q, e = Datagram t data from ∧ latest g (accepted_proxies cfg data from) = Some q ∧
     p = stamped t q) ∨
  (tabled cfg evs g p ∧ ∀ t, last_seen p = Some t → undisturbed cfg g t (lease_duration p) e).
Proof.
  assert (∀ t q, last_seen (stamped t q) = Some t) as Hseen.
  { intros t q. unfold stamped. by case_match. }
  split.
  - intros (evs1 & t & data & from & evs2 & q & He & Hq & -> & Hu).
    destruct evs2 as [|e' evs2 _] using rev_ind.
    + apply app_inj_tail in He as [-> ->]. left. eauto 10.
    + rewrite app_comm_cons, app_assoc in He. apply app_inj_tail in He as [-> ->].
      apply Forall_app in Hu as [Hu He']. right. split.
      * exists evs1, t, data, from, evs2, q. done.
      * intros t'. rewrite Hseen. intros [= <-]. by inversion He'.
  - intros [(t & data & from & q & -> & Hq & ->)|[(evs1 & t & data & from & evs2 & q & -> & Hq & -> & Hu) Ht]].
    + exists evs, t, data, from, [], q. done.
    + exists evs1, t, data, from, (evs2 ++ [e]), q. rewrite <- app_assoc. split_and!; [done..|].
      apply Forall_app. split; [done|]. apply Forall_singleton. apply Ht, Hseen.
Qed.

Lemma latest_elem g ps q : latest g ps = Some q → q ∈ ps.
Proof. unfold latest. intros Hl%last_Some_elem_of. by apply list_elem_of_filter in Hl as [_ ?]. Qed.

(** C11. The table of known peers after any datagrams and sweeps: participant [g]
    is in it exactly when some datagram announced it (and its token was
    accepted), no later one announced it again, and no sweep since then came
    more than its lease later; the entry is what that datagram announced,
    stamped with its time of arrival, with ten seconds for a missing lease.
    No datagram, however malformed, makes the service panic. *)
Theorem peer_table_spec cfg evs :
  ∃ s, for_each spdp_step evs (SpdpService_new cfg) = Ok s ∧
    ∀ g p, peers s !! g = Some p ↔ tabled cfg evs g p.
Proof.
  enough (∃ s, for_each spdp_step evs (SpdpService_new cfg) = Ok s ∧ config s = cfg ∧
    ∀ g p, peers s !! g = Some p ↔ tabled cfg evs g p) as (s & ? & _ & ?) by eauto.
  induction evs as [|e evs IH] using rev_ind.
  { exists (SpdpService_new cfg). split_and!; [done..|]. intros g p. cbn. rewrite lookup_empty.
    split; [done|]. by intros ([|] & ? & ? & ? & ? & ? & ? & _). }
  destruct IH as (s & Hs & Hc & Hp). rewrite for_each_app, Hs, bind_ok. cbn [for_each].
  destruct e as [t data from|now]; cbn [spdp_step].
  - rewrite spdp_packet_eq, bind_ok, Hc. eexists. split_and!; [done|by rewrite store_all_config|].
    intros g p. rewrite peers_store_all, tabled_snoc.
    destruct (latest g (accepted_proxies cfg data from)) as [q|] eqn:Hq.
    + split; [intros [= <-]; left; by eauto 10|].
      intros [(? & ? & ? & ? & [= <- <- <-] & Hq' & ->)|[Ht Hu]]; [congruence|].
      destruct Ht as (? & t' & ? & ? & ? & q' & ? & ? & -> & ?).
      specialize (Hu t'). unfold stamped in Hu at 1. simpl in Hu. rewrite Hq in Hu.
      exfalso. case_match; naive_solver.
    + rewrite Hp. split; [intros Ht; right; split; [done|by intros]|].
      by intros [(? & ? & ? & ? & [= <- <- <-] & ? & _)|[? _]]; [congruence|].
  - rewrite bind_ok. eexists. split_and!; [done|done|]. intros g p. cbn.
    rewrite map_lookup_filter_Some, Hp, tabled_snoc. cbn [snd]. split.
    + intros [Ht He]. right. split; [done|]. intros t Hl. revert He.
      destruct Ht as (? & t' & ? & ? & ? & q' & ? & Hq & -> & ?). intros He.
      apply expired_stamped in He; [|eauto using accepted_lease, latest_elem].
      unfold stamped in Hl. case_match; simpl in Hl; by simplify_eq.
    + intros [(? & ? & ? & ? & ? & _)|[Ht Hu]]; [done|]. split; [done|]. revert Hu.
      destruct Ht as (? & t' & ? & ? & ? & q' & ? & Hq & -> & ?). intros Hu.
      apply expired_stamped; [eauto using accepted_lease, latest_elem|]. apply Hu.
      unfold stamped. by case_match.
Qed.

(** ** Announcing *)

(** Where an announcement goes when the domain has a multicast port. *)
Definition destinations (cfg : SpdpConfig) : list SocketAddr :=
  (if sc_no_multicast cfg then []
   else [spdp_multicast_dst (sc_ipv6 cfg) (PORT_BASE + DOMAIN_GAIN * sc_domain cfg)])
  ++ sc_peer_locators cfg.

(** The last error of [n] sends that start with the [k]-th. *)
Definition last_error (sock : RtpsSocket) (n : nat) : option NetError :=
  last (omap (verdict sock) (seq (length (sent sock)) n)).

Lemma send_each_spec msg dsts e sock :
  send_each msg dsts e sock =
  (match last_error sock (length dsts) with Some e => Some e | None => e end,
   mkRtpsSocket (sock_port sock) (sent sock ++ ((λ dst, (dst, msg)) <$> dsts)) (verdict sock)).
Proof.
  revert e sock. induction dsts as [|d dsts IH]; intros e sock; simpl.
  { rewrite app_nil_r. by destruct sock. }
  rewrite IH. simpl. rewrite <- app_assoc. f_equal.
  unfold last_error. simpl. rewrite length_app. simpl. rewrite Nat.add_comm. simpl.
  destruct (verdict sock (length (sent sock))) as [e0|]; simpl; [|done].
  rewrite last_cons. by destruct (last _).
Qed.

Lemma meta_multicast_port_ok d : domain_ok d →
  meta_multicast_port d = Ok (Some (PORT_BASE + DOMAIN_GAIN * d)).
Proof.
  intros Hd. unfold meta_multicast_port, domain_ok, PORT_BASE, DOMAIN_GAIN, to_u16 in *.
  rewrite umul_ok, bind_ok, uadd_ok, bind_ok by lia. by ltb_true lia.
Qed.

(** The service after one more announcement. *)
Definition after_announcement (s : SpdpService) : SpdpService :=
  mkSpdpService (config s) (sp_seq_counter s + 1) (peers s) (peer_listener s)
    (wrapping_add 64 (sp_announces_sent s) 1) (sp_announces_received s) (peer_evictions s).

Lemma send_announcement_ok s sock : domain_ok (sc_domain (config s)) →
  0 <= sp_seq_counter s < 2 ^ 32 - 1 →
  let dsts := destinations (config s) in
  let msg := announcement (config s) (sp_seq_counter s + 1) in
  send_announcement s sock =
  Ok (last_error sock (length dsts), after_announcement s,
      mkRtpsSocket (sock_port sock) (sent sock ++ ((λ dst, (dst, msg)) <$> dsts)) (verdict sock)).
Proof.
  intros Hd Hc dsts msg. unfold send_announcement, next_seq_num. cbn [config count_announce_sent sp_seq_counter].
  rewrite uadd_ok, !bind_ok by lia. cbn [config].
  assert (wrapping_add 32 (sp_seq_counter s) 1 = sp_seq_counter s + 1) as ->
    by (apply as_u_small; lia).
  rewrite meta_multicast_port_ok by done. fold msg. unfold dsts, destinations.
  destruct (sc_no_multicast (config s)); cbn [negb app].
  - rewrite bind_ok, send_each_spec. by destruct (last_error _ _).
  - rewrite !bind_ok. set (d := spdp_multicast_dst _ _).
    change (RtpsSocket.send_to msg d sock) with
      (verdict sock (length (sent sock)),
       mkRtpsSocket (sock_port sock) (sent sock ++ [(d, msg)]) (verdict sock)).
    pose proof (send_each_spec msg (d :: sc_peer_locators (config s)) None sock) as He.
    cbn [send_each] in He. change (RtpsSocket.send_to msg d sock) with
      (verdict sock (length (sent sock)),
       mkRtpsSocket (sock_port sock) (sent sock ++ [(d, msg)]) (verdict sock)) in He.
    destruct (verdict sock (length (sent sock))); rewrite He; by destruct (last_error _ _).
Qed.

(** What the announce loop sends: announcement [first], [first + 1], ... to
    every destination. *)
Definition announcements (cfg : SpdpConfig) (first : Z) (n : nat) : list (SocketAddr * list byte) :=
  concat ((λ k, (λ dst, (dst, announcement cfg (first + Z.of_nat k))) <$> destinations cfg) <$> seq 0 n).

Lemma announcements_S cfg first n :
  announcements cfg first (S n) =
  ((λ dst, (dst, announcement cfg first)) <$> destinations cfg) ++ announcements cfg (first + 1) n.
Proof.
  unfold announcements. rewrite <- cons_seq, fmap_cons. cbn [concat]. rewrite Z.add_0_r. f_equal.
  f_equal. rewrite <- fmap_S_seq, <- list_fmap_compose. apply list_fmap_ext. intros i k _. simpl.
  apply list_fmap_ext. intros j d _. do 2 f_equal. lia.
Qed.

Lemma random_duration_below_lt draw max : (∀ n, 0 < n → 0 <= draw n < n) → 0 < max →
  0 <= random_duration_below draw max < max.
Proof.
  intros Hd Hm. unfold random_duration_below. rewrite (proj2 (Z.eqb_neq _ _)) by lia.
  destruct (Z.ltb_spec max (2 ^ 64)) as [Hl|Hl];
    [pose proof (Hd (Z.max max 1))|pose proof (Hd (Z.max (2 ^ 64 - 1) 1))]; lia.
Qed.

Definition jitter_ok (cfg : SpdpConfig) (d : Z) : Prop :=
  if 0 <? sc_jitter cfg then 0 <= d < sc_jitter cfg else d = 0.

Lemma announce_ticks_spec draw n s sock : (∀ k, 0 < k → 0 <= draw k < k) →
  domain_ok (sc_domain (config s)) → 0 <= sp_seq_counter s → sp_seq_counter s + Z.of_nat n < 2 ^ 32 →
  ∃ ds s' sock', announce_ticks draw n s sock = Ok (ds, s', sock') ∧
    length ds = n ∧ Forall (jitter_ok (config s)) ds ∧ config s' = config s ∧ peers s' = peers s ∧
    sp_seq_counter s' = sp_seq_counter s + Z.of_nat n ∧
    sent sock' = sent sock ++ announcements (config s) (sp_seq_counter s + 1) n.
Proof.
  intros Hdraw. revert s sock. induction n as [|n IH]; intros s sock Hd Hc Hn.
  { exists [], s, sock. rewrite Z.add_0_r, app_nil_r. done. }
  cbn [announce_ticks]. rewrite send_announcement_ok, bind_ok by (done || lia).
  destruct (IH (after_announcement s) (mkRtpsSocket (sock_port sock)
    (sent sock ++ ((λ dst, (dst, announcement (config s) (sp_seq_counter s + 1))) <$>
                     destinations (config s))) (verdict sock)))
    as (ds & s' & sock' & -> & Hl & Hf & Hcf & Hp & Hs & Ht); [done|simpl; lia|simpl; lia|].
  rewrite bind_ok. eexists _, s', sock'. split_and!; [done|by simpl; rewrite Hl| |done|done| |].
  - apply Forall_cons. split; [|done]. unfold jitter_ok.
    destruct (Z.ltb_spec 0 (sc_jitter (config s))); [|done]. by apply random_duration_below_lt.
  - rewrite Hs. simpl. lia.
  - rewrite Ht, announcements_S. simpl. by rewrite <- app_assoc.
Qed.

(** The announce loop: one announcement at once and one per tick, each sent
    to the multicast group (unless disabled) and to every configured peer,
    whatever the outcome of earlier sends, with consecutive sequence numbers;
    every delay is below the jitter bound and the table of peers is not
    touched.  One announcement reports its last failed send.  The sequence
    number has 32 bits: the announcement after number 4294967295 panics in a
    checked build and is sent with number 0 in a release build. *)
Theorem announce_loop_spec draw n s sock : (∀ k, 0 < k → 0 <= draw k < k) →
  domain_ok (sc_domain (config s)) → 0 <= sp_seq_counter s < 2 ^ 32 →
  (sp_seq_counter s + Z.of_nat n + 1 < 2 ^ 32 →
   ∃ ds s' sock', announce_loop draw n s sock = Ok (ds, s', sock') ∧
     length ds = n ∧ Forall (jitter_ok (config s)) ds ∧ peers s' = peers s ∧
     sp_seq_counter s' = sp_seq_counter s + Z.of_nat n + 1 ∧
     sent sock' = sent sock ++ announcements (config s) (sp_seq_counter s + 1) (S n)) ∧
  (sp_seq_counter s + 1 < 2 ^ 32 → ∃ s' sock', send_announcement s sock =
     Ok (last_error sock (length (destinations (config s))), s', sock')) ∧
  (sp_seq_counter s = 2 ^ 32 - 1 →
   if overflow_checks then send_announcement s sock = Panic
   else ∃ e s' sock', send_announcement s sock = Ok (e, s', sock') ∧
     sent sock' = sent sock ++ announcements (config s) 0 1).
Proof.
  intros Hdraw Hd Hc. split_and!.
  - intros Hn. unfold announce_loop. rewrite send_announcement_ok, bind_ok by (done || lia).
    edestruct (announce_ticks_spec draw n (after_announcement s))
      as (ds & s' & sock' & -> & Hl & Hf & _ & Hp & Hs & Ht); [done|done|simpl; lia|simpl; lia|].
    exists ds, s', sock'. split_and!; [done..| |].
    + rewrite Hs. simpl. lia.
    + rewrite Ht, announcements_S. simpl. by rewrite <- app_assoc.
  - intros Hn. rewrite send_announcement_ok by (done || lia). by do 2 eexists.
  - intros Hn. unfold send_announcement, next_seq_num. cbn [sp_seq_counter count_announce_sent config].
    rewrite Hn. unfold uadd. change (2 ^ 32 - 1 + 1 <? 2 ^ 32) with false. cbv iota.
    destruct overflow_checks; [done|]. rewrite !bind_ok. cbn [config].
    change (as_u 32 (2 ^ 32 - 1 + 1)) with 0. rewrite meta_multicast_port_ok by done.
    unfold announcements, destinations. cbn [seq fmap list_fmap concat]. rewrite app_nil_r, Z.add_0_r.
    destruct (sc_no_multicast (config s)); cbn [negb app].
    + rewrite bind_ok, send_each_spec. by do 3 eexists.
    + rewrite !bind_ok. unfold RtpsSocket.send_to. rewrite send_each_spec. do 3 eexists.
      split; [done|]. cbn [sent fmap list_fmap]. by rewrite <- app_assoc.
Qed.

(** ** Discovery end to end *)

(** A DATA submessage of the SPDP writer with payload [data]. *)
Definition spdp_message (g : GuidPrefix) (v : VendorId) (seq : Z) (data : list byte) : list byte :=
  wrap_in_rtps_message (mkHeader PROTOCOL_VERSION_2_3 v g)
    (encode_data_submessage ENTITYID_SPDP_WRITER ENTITYID_SPDP_READER (mkSequenceNumber 0 seq) data).

Lemma accepted_message cfg g v seq data from : is_u32 seq → data ≠ [] → len data <= 65515 →
  g ≠ sc_guid_prefix cfg →
  accepted_proxies cfg (spdp_message g v seq data) from =
  match token_accepted (sc_discovery_plugin cfg) g data, parse_participant_data g data from with
  | Ok true, Ok (Some p) => [p]
  | _, _ => []
  end.
Proof.
  intros Hs Hne Hl Hg. unfold accepted_proxies, spdp_message, wrap_in_rtps_message.
  rewrite Header_decode_encode. change 20%nat with (Z.to_nat 20).
  rewrite drop_app_len by (rewrite Header_bytes; len_tac).
  rewrite encode_data_eq, <- (app_nil_r (raw_bytes _)).
  rewrite items_cons by by apply data_raw_wf. rewrite (items_short []), bind_ok by done.
  rewrite bool_decide_false by done. cbn [raws omap list_omap].
  unfold announced. cbn [raw_flags raw_body raw_id guid_prefix].
  rewrite decode_data_body by (split; simpl; [unfold is_i32; lia|done]).
  unfold data_payload. rewrite bool_decide_false by done. rewrite bool_decide_true by done.
  destruct (token_accepted _ _ _) as [[]|?|]; try done.
  by destruct (parse_participant_data g data from) as [[p|]| |].
Qed.

Definition accepts_token (receiver sender : SpdpConfig) : bool :=
  match sc_discovery_plugin receiver with
  | Some pl => dp_verify pl (vec_to_list (prefix_bytes (sc_guid_prefix sender))) (wire_token sender)
  | None => true
  end.

Lemma build_nonempty cfg : build_participant_data cfg ≠ [].
Proof.
  unfold build_participant_data, PlCdrEncoder.finish. intros Hb%(f_equal len).
  rewrite !len_app in Hb. len_tac.
Qed.

Lemma accepted_announcement cfg seq from receiver : announceable cfg → is_u32 seq →
  sc_guid_prefix cfg ≠ sc_guid_prefix receiver →
  accepted_proxies receiver (announcement cfg seq) from =
  if accepts_token receiver cfg then [proxy_of cfg from] else [].
Proof.
  intros Ha Hs Hg.
  change (announcement cfg seq)
    with (spdp_message (sc_guid_prefix cfg) (sc_vendor_id cfg) seq (build_participant_data cfg)).
  rewrite accepted_message by eauto using build_nonempty, len_announcement.
  rewrite parse_build by done. unfold token_accepted, accepts_token.
  destruct (sc_discovery_plugin receiver) as [pl|]; [|done].
  destruct (extract_build cfg Ha) as (o & -> & Ho). rewrite bind_ok, Ho. by destruct (dp_verify _ _ _).
Qed.

Definition with_port (from : SocketAddr) (p : Z) : SocketAddr :=
  match from with SocketAddrV4 ip _ => SocketAddrV4 ip p | SocketAddrV6 ip _ => SocketAddrV6 ip p end.

Definition same_family (ipv6 : bool) (from : SocketAddr) : bool :=
  match from with SocketAddrV4 _ _ => negb ipv6 | SocketAddrV6 _ _ => ipv6 end.

Lemma filled_addr ipv6 from p : same_family ipv6 from = true → is_u16 p →
  Locator.udp_addr (fill_in_zero_address (zero_locator ipv6 p) from) = Some (with_port from p).
Proof.
  intros Hf Hp. destruct from as [ip q|ip q], ipv6; try done.
  - change (fill_in_zero_address _ _) with (Locator.udp_v4 ip p). by apply udp_addr_udp_v4.
  - change (fill_in_zero_address _ _) with (Locator.udp_v6 ip p). by apply udp_addr_udp_v6.
Qed.

(** C33. Discovery works end to end: the announcement of one participant, received
    from address [from] by another whose token check accepts it, adds exactly
    one entry to the table of the receiver, under the identity of the
    sender, with a lease of ten seconds from now and the sender's two ports at
    the address the datagram came from; the peer listener is told.  An
    announcement whose token is not accepted (or, with a plugin, is missing)
    leaves the service as it was. *)
Theorem discovery_roundtrip now cfg seq from s : announceable cfg → is_u32 seq →
  same_family (sc_ipv6 cfg) from = true → sc_guid_prefix cfg ≠ sc_guid_prefix (config s) →
  if accepts_token (config s) cfg then
    ∃ s' p, handle_packet now (announcement cfg seq) from s = Ok s' ∧
      peers s' = <[sc_guid_prefix cfg := p]> (peers s) ∧
      pp_guid p = mkGuid (sc_guid_prefix cfg) ENTITYID_PARTICIPANT ∧
      Locator.udp_addr (metatraffic_unicast p) = Some (with_port from (sc_meta_unicast_port cfg)) ∧
      Locator.udp_addr (default_unicast p) = Some (with_port from (sc_data_unicast_port cfg)) ∧
      builtin_endpoints p = 63 ∧ lease_duration p = 10 * NANOS ∧ last_seen p = Some now ∧
      peer_listener s' = send_event p <$> peer_listener s ∧
      sp_announces_received s' = wrapping_add 64 (sp_announces_received s) 1
  else handle_packet now (announcement cfg seq) from s = Ok s.
Proof.
  intros Ha Hs Hf Hg. rewrite spdp_packet_eq, accepted_announcement by done.
  destruct (accepts_token (config s) cfg); [|done]. destruct Ha as (Hm & Hd & _).
  eexists _, (stamped now (proxy_of cfg from)). unfold store_all. cbn [foldl].
  split_and!; [done|apply peers_store|done| | |done|done|done| |done].
  - by apply filled_addr.
  - by apply filled_addr.
  - unfold store_peer. simpl. by destruct (peer_listener s).
Qed.

(** ** Authentication *)

(** Submessage [raw] of a datagram with header [h] announces [p] under
    configuration [cfg]: a DATA of the SPDP writer whose payload says so and
    holds the token that the plugin, if there is one, verifies for the prefix
    in the header (the empty tag if the payload holds none). *)
Definition vouched (cfg : SpdpConfig) (from : SocketAddr) (h : Header) (raw : RawSubmessage)
    (p : ParticipantProxy) : Prop :=
  ∃ d payload token, raw_id raw = SUBMSG_DATA ∧
    decode_data_submessage (raw_flags raw) (raw_body raw) = Ok d ∧
    data_writer_entity_id d = ENTITYID_SPDP_WRITER ∧ Message.payload d = Some payload ∧
    parse_participant_data (guid_prefix h) payload from = Ok (Some p) ∧
    extract_discovery_token payload = Ok token ∧
    ∀ pl, sc_discovery_plugin cfg = Some pl →
      dp_verify pl (vec_to_list (prefix_bytes (guid_prefix h))) (default [] token) = true.

Lemma announced_vouched cfg from h raw p : announced cfg from h raw = Some p → vouched cfg from h raw p.
Proof.
  unfold announced, token_accepted.
  destruct (decode_data_submessage _ _) as [[r w sn [data|]]| |] eqn:Hd; try done.
  case_bool_decide as Hid; [|done]. destruct Hid as [Hid Hw].
  destruct (extract_token_total data) as [token Ht]. rewrite Ht.
  destruct (parse_participant_data _ _ _) as [o|[]|] eqn:Hp; [|by repeat case_match..].
  intros Ho. exists (mkDataSubmessage r w sn (Some data)), data, token.
  destruct (sc_discovery_plugin cfg) as [pl|].
  - rewrite bind_ok in Ho. destruct (dp_verify _ _ _) eqn:Hv; [|done]. split_and!; try done; [congruence|].
    by intros pl' [= <-].
  - split_and!; try done. congruence.
Qed.

(** C34. Whatever arrives, the service goes on, and an entry of the table
    changes only if the datagram, not the participant's own, contains a DATA
    submessage of the SPDP writer that announces what the entry then holds
    and, with a plugin configured, whose own payload holds a token that the
    plugin verifies for the prefix in the datagram's header. *)
Theorem discovery_requires_token now data from s :
  ∃ s', handle_packet now data from s = Ok s' ∧ config s' = config s ∧
    ∀ k, peers s' !! k ≠ peers s !! k →
      ∃ h its raw p, Header.decode data = Ok h ∧ guid_prefix h ≠ sc_guid_prefix (config s) ∧
        SubmessageIter.items (drop 20 data) = Ok its ∧ inl raw ∈ its ∧
        vouched (config s) from h raw p ∧ prefix (pp_guid p) = k ∧ peers s' !! k = Some (stamped now p).
Proof.
  rewrite spdp_packet_eq. eexists. split_and!; [done|apply store_all_config|]. intros k.
  rewrite peers_store_all. destruct (latest k _) as [p|] eqn:Hl; [intros _|done].
  apply last_Some_elem_of, list_elem_of_filter in Hl as [Hk Hp]. revert Hp. unfold accepted_proxies.
  destruct (Header.decode data) as [h| |]; [|by intros ?%elem_of_nil..].
  destruct (SubmessageIter.items (drop 20 data)) as [its| |]; [|by intros ?%elem_of_nil..].
  case_bool_decide as Hg; [by intros ?%elem_of_nil|].
  intros (raw & Hraw & Hr%announced_vouched)%list_elem_of_omap.
  apply list_elem_of_omap in Hraw as ([raw'|] & Hin & [= ->]). by exists h, its, raw, p.
Qed.

(** The token authenticates the prefix of the header, but the entry is filed
    under the GUID of the payload: any participant [a] whose own token is
    accepted can announce any other GUID [g], even the receiver's own, and
    replace its entry by one that has no usable address. *)
Theorem token_does_not_bind_the_guid now a v seq g tag from s pl :
  sc_discovery_plugin (config s) = Some pl → is_u32 seq → a ≠ sc_guid_prefix (config s) →
  len tag mod 4 = 0 → len tag <= 65000 →
  dp_verify pl (vec_to_list (prefix_bytes a)) tag = true →
  let data := PlCdrEncoder.finish (PlCdrEncoder.add_bytes PID_DISCOVERY_TOKEN tag
                (PlCdrEncoder.add_guid PID_PARTICIPANT_GUID g PlCdrEncoder.new)) in
  ∃ s' p, handle_packet now (spdp_message a v seq data) from s = Ok s' ∧
    peers s' = <[prefix g := p]> (peers s) ∧ pp_guid p = g ∧
    Locator.udp_addr (metatraffic_unicast p) = None.
Proof.
  intros Hpl Hs Ha Htag Hl Hv data.
  set (ps := [mkParam PID_PARTICIPANT_GUID (bytes_of g); mkParam PID_DISCOVERY_TOKEN tag]).
  assert (data = PlCdrEncoder.finish (add_params ps PlCdrEncoder.new)) as Hd by done.
  assert (Forall param_wf ps) as Hps.
  { repeat apply Forall_cons_2; try apply Forall_nil_2;
      (split_and!; cbn [pid value]; [by unfold is_u16|done|done|len_tac]). }
  assert (len data <= 65515 ∧ data ≠ []) as [Hlen Hne].
  { rewrite Hd. unfold PlCdrEncoder.finish. rewrite add_params_eq by done.
    split; [|intros Hb%(f_equal len); rewrite !len_app in Hb; len_tac].
    unfold ps. cbn [fmap list_fmap concat]. autorewrite with len. rewrite !len_param_bytes.
    cbn [value]. rewrite padded_bytes_of, (padded_id tag) by done.
    change (len (enc_buf PlCdrEncoder.new)) with 4. len_tac. }
  rewrite spdp_packet_eq, accepted_message by done.
  unfold token_accepted, extract_discovery_token, parse_participant_data.
  rewrite Hpl, Hd, payload_params_finish, !bind_ok by done.
  unfold ps. cbn [fmap list_fmap pid value]. rewrite padded_bytes_of, (padded_id tag) by done.
  change (default [] _) with tag. rewrite Hv. cbn [for_each].
  rewrite parse_guid, bind_ok, parse_ignored, !bind_ok by by apply (bool_decide_unpack _).
  eexists _, _. split_and!; [done|apply peers_store|done|done].
Qed.
End theorems.

(** ** Witnesses *)

#[local] Instance demo_profile : BuildProfile := true.

Definition demo_prefix (b : byte) : GuidPrefix := mkGuidPrefix (vreplicate 12 b).
Definition demo_addr : SocketAddr := SocketAddrV4 (vreplicate 4 x0a) 7400.

(** A participant with one configured peer, and one that checks tokens. *)
Definition demo_spdp : SpdpConfig :=
  SpdpConfig.with_peer_locators [demo_addr] (SpdpConfig.new 0 (demo_prefix x01) 7410 7411).
Definition demo_plugin : DiscoveryPlugin := mkDiscoveryPlugin (λ m, m) (λ m t, bool_decide (m = t)).
Definition demo_guarded : SpdpConfig :=
  SpdpConfig.with_discovery_plugin demo_plugin (SpdpConfig.new 0 (demo_prefix x02) 7412 7413).

Definition demo_socket : RtpsSocket := mkRtpsSocket 7410 [] (λ _, None).

Lemma announce_loop_spec_witness :
  ∃ ds s' sock', announce_loop (λ _, 0) 3 (SpdpService_new demo_spdp) demo_socket = Ok (ds, s', sock') ∧
    length ds = 3%nat ∧ length (sent sock') = 8%nat ∧ sp_seq_counter s' = 4.
Proof.
  destruct (announce_loop_spec (λ _, 0) 3 (SpdpService_new demo_spdp) demo_socket) as [H _];
    [intros; lia|split; vm_compute; congruence|split; vm_compute; congruence|].
  destruct H as (ds & s' & sock' & H1 & H2 & _ & _ & H3 & H4); [vm_compute; reflexivity|].
  exists ds, s', sock'. split; [exact H1|]. split; [exact H2|]. split; [|exact H3].
  rewrite H4. vm_compute. reflexivity.
Defined.

Lemma discovery_roundtrip_witness :
  (∃ s' p, handle_packet 5 (announcement demo_spdp 1) demo_addr (SpdpService_new (SpdpConfig.new 0 (demo_prefix x02) 7412 7413)) = Ok s' ∧
     peers s' = {[demo_prefix x01 := p]} ∧
     Locator.udp_addr (default_unicast p) = Some (SocketAddrV4 (vreplicate 4 x0a) 7411)) ∧
  handle_packet 5 (announcement demo_spdp 1) demo_addr (SpdpService_new demo_guarded)
    = Ok (SpdpService_new demo_guarded).
Proof.
  assert (announceable demo_spdp) as Ha by (repeat split; vm_compute; congruence).
  assert (is_u32 1) as H1 by (split; vm_compute; congruence).
  split.
  - pose proof (discovery_roundtrip 5 demo_spdp 1 demo_addr
      (SpdpService_new (SpdpConfig.new 0 (demo_prefix x02) 7412 7413)) Ha H1 eq_refl
      ltac:(vm_compute; congruence)) as (s' & p & E1 & E2 & _ & _ & E3 & _).
    exists s', p. split; [exact E1|]. split; [exact E2|exact E3].
  - exact (discovery_roundtrip 5 demo_spdp 1 demo_addr (SpdpService_new demo_guarded) Ha H1 eq_refl
      ltac:(vm_compute; congruence)).
Defined.

(** The participant with prefix [1] announces the receiver's own GUID. *)
Lemma token_does_not_bind_the_guid_witness :
  let g := mkGuid (demo_prefix x02) ENTITYID_PARTICIPANT in
  let tag := vec_to_list (prefix_bytes (demo_prefix x01)) in
  let data := PlCdrEncoder.finish (PlCdrEncoder.add_bytes PID_DISCOVERY_TOKEN tag
                (PlCdrEncoder.add_guid PID_PARTICIPANT_GUID g PlCdrEncoder.new)) in
  ∃ s' p, handle_packet 5 (spdp_message (demo_prefix x01) VENDOR_ID_RUST_DDS 1 data) demo_addr
            (SpdpService_new demo_guarded) = Ok s' ∧
    peers s' = {[demo_prefix x02 := p]} ∧ Locator.udp_addr (metatraffic_unicast p) = None.
Proof.
  destruct (token_does_not_bind_the_guid 5 (demo_prefix x01) VENDOR_ID_RUST_DDS 1
    (mkGuid (demo_prefix x02) ENTITYID_PARTICIPANT) (vec_to_list (prefix_bytes (demo_prefix x01)))
    demo_addr (SpdpService_new demo_guarded) demo_plugin) as (s' & p & E1 & E2 & _ & E3);
    [reflexivity|split; vm_compute; congruence|vm_compute; congruence|reflexivity|vm_compute; congruence
    |vm_compute; reflexivity|].
  exists s', p. split; [exact E1|]. split; [exact E2|exact E3].
Defined.
