(* ===== verification/Sedp.v ===== *)
(** * Sedp: endpoint discovery (src/rtps/sedp.rs)

    Announcements of local writers and readers, their parser, and the tables
    of remote endpoints with the matching by topic.  The values of a
    [HashMap] come in the order of [map_to_list]; the theorems do not depend
    on it.  The last part takes [register_reader] and [on_remote_writer] apart
    into their locked sections and interleaves them. *)

From S2P Require Import Prelude Utf8 Codec Guid Locator Message Cdr Socket Spdp.

Definition ENDPOINT_TYPE_NAME : list byte := bytes_of_ascii "CDR_BLOB".

Record EndpointInfo : Type := mkEndpointInfo {
  ei_guid : Guid;
  topic_name : list byte;
  is_writer : bool }.

#[global] Instance EndpointInfo_eq_dec : EqDecision EndpointInfo.
Proof. solve_decision. Defined.

Record WriterMatch : Type := mkWriterMatch {
  reader_eid : EntityId;
  writer_guid : Guid }.

#[global] Instance WriterMatch_eq_dec : EqDecision WriterMatch.
Proof. solve_decision. Defined.

Record SedpConfig : Type := mkSedpConfig {
  ec_guid_prefix : GuidPrefix;
  ec_vendor_id : VendorId;
  ec_data_unicast_port : Z;
  ec_ipv6 : bool }.

Module SedpConfig.
Definition new (guid_prefix : GuidPrefix) (data_unicast_port : Z) : SedpConfig :=
  mkSedpConfig guid_prefix VENDOR_ID_RUST_DDS data_unicast_port false.

Definition with_ipv6 (c : SedpConfig) : SedpConfig :=
  mkSedpConfig (ec_guid_prefix c) (ec_vendor_id c) (ec_data_unicast_port c) true.
End SedpConfig.

Definition build_endpoint_data (cfg : SedpConfig) (info : EndpointInfo) : list byte :=
  let enc := PlCdrEncoder.new in
  let enc := PlCdrEncoder.add_guid PID_ENDPOINT_GUID (ei_guid info) enc in
  let enc := PlCdrEncoder.add_string PID_TOPIC_NAME (topic_name info) enc in
  let enc := PlCdrEncoder.add_string PID_TYPE_NAME ENDPOINT_TYPE_NAME enc in
  let locator := if ec_ipv6 cfg then Locator.udp_v6 (vreplicate 16 x00) (ec_data_unicast_port cfg)
                 else Locator.udp_v4 (vreplicate 4 x00) (ec_data_unicast_port cfg) in
  let enc := PlCdrEncoder.add_locator PID_DEFAULT_UNICAST_LOCATOR locator enc in
  PlCdrEncoder.finish enc.

Record SedpService : Type := mkSedpService {
  e_config : SedpConfig;
  e_seq_counter : Z;
  local_writers : gmap EntityId EndpointInfo;
  local_readers : gmap EntityId EndpointInfo;
  remote_writers : gmap Guid EndpointInfo;
  remote_readers : gmap Guid EndpointInfo;
  remote_reader_locators : gmap Guid Locator;
  writer_locators : gmap Guid Locator;
  match_listener : option (Chan WriterMatch);
  endpoint_matches : Z;
  e_announces_sent : Z;
  e_announces_received : Z }.

(** *** Field updates *)

Definition set_seq n (s : SedpService) : SedpService :=
  mkSedpService (e_config s) n (local_writers s) (local_readers s) (remote_writers s)
    (remote_readers s) (remote_reader_locators s) (writer_locators s) (match_listener s)
    (endpoint_matches s) (e_announces_sent s) (e_announces_received s).
Definition set_local_writers m (s : SedpService) : SedpService :=
  mkSedpService (e_config s) (e_seq_counter s) m (local_readers s) (remote_writers s)
    (remote_readers s) (remote_reader_locators s) (writer_locators s) (match_listener s)
    (endpoint_matches s) (e_announces_sent s) (e_announces_received s).
Definition set_local_readers m (s : SedpService) : SedpService :=
  mkSedpService (e_config s) (e_seq_counter s) (local_writers s) m (remote_writers s)
    (remote_readers s) (remote_reader_locators s) (writer_locators s) (match_listener s)
    (endpoint_matches s) (e_announces_sent s) (e_announces_received s).
Definition set_remote_writers m (s : SedpService) : SedpService :=
  mkSedpService (e_config s) (e_seq_counter s) (local_writers s) (local_readers s) m
    (remote_readers s) (remote_reader_locators s) (writer_locators s) (match_listener s)
    (endpoint_matches s) (e_announces_sent s) (e_announces_received s).
Definition set_remote_readers m l (s : SedpService) : SedpService :=
  mkSedpService (e_config s) (e_seq_counter s) (local_writers s) (local_readers s)
    (remote_writers s) m l (writer_locators s) (match_listener s)
    (endpoint_matches s) (e_announces_sent s) (e_announces_received s).
Definition set_writer_locators m (s : SedpService) : SedpService :=
  mkSedpService (e_config s) (e_seq_counter s) (local_writers s) (local_readers s)
    (remote_writers s) (remote_readers s) (remote_reader_locators s) m (match_listener s)
    (endpoint_matches s) (e_announces_sent s) (e_announces_received s).
Definition set_match_listener tx (s : SedpService) : SedpService :=
  mkSedpService (e_config s) (e_seq_counter s) (local_writers s) (local_readers s)
    (remote_writers s) (remote_readers s) (remote_reader_locators s) (writer_locators s) (Some tx)
    (endpoint_matches s) (e_announces_sent s) (e_announces_received s).
Definition set_matches n (s : SedpService) : SedpService :=
  mkSedpService (e_config s) (e_seq_counter s) (local_writers s) (local_readers s)
    (remote_writers s) (remote_readers s) (remote_reader_locators s) (writer_locators s)
    (match_listener s) n (e_announces_sent s) (e_announces_received s).
Definition set_announces_sent n (s : SedpService) : SedpService :=
  mkSedpService (e_config s) (e_seq_counter s) (local_writers s) (local_readers s)
    (remote_writers s) (remote_readers s) (remote_reader_locators s) (writer_locators s)
    (match_listener s) (endpoint_matches s) n (e_announces_received s).
Definition set_announces_received n (s : SedpService) : SedpService :=
  mkSedpService (e_config s) (e_seq_counter s) (local_writers s) (local_readers s)
    (remote_writers s) (remote_readers s) (remote_reader_locators s) (writer_locators s)
    (match_listener s) (endpoint_matches s) (e_announces_sent s) n.

Section service.
Context `{BuildProfile}.
Implicit Types self : SedpService.

Definition SedpService_new (cfg : SedpConfig) : SedpService :=
  mkSedpService cfg 0 ∅ ∅ ∅ ∅ ∅ ∅ None 0 0 0.

Definition next_seq_num self : panics (Z * SedpService) :=
  let old := e_seq_counter self in
  n ← uadd 32 old 1;
  Ok (n, set_seq (wrapping_add 32 old 1) self).

(** ** Sending *)

Definition send_to (msg : list byte) (peer : ParticipantProxy) (st : SedpService * RtpsSocket)
    : SedpService * RtpsSocket :=
  let '(self, sock) := st in
  match Locator.udp_addr (metatraffic_unicast peer) with
  | None => (self, sock)
  | Some dst =>
      match RtpsSocket.send_to msg dst sock with
      | (None, sock) => (set_announces_sent (wrapping_add 64 (e_announces_sent self) 1) self, sock)
      | (Some _, sock) => (self, sock)
      end
  end.

(** [peers] is [self.spdp.known_peers()]. *)
Definition broadcast (submsg : list byte) (only_to : option ParticipantProxy)
    (peers : list ParticipantProxy) (st : SedpService * RtpsSocket) : SedpService * RtpsSocket :=
  let header := mkHeader PROTOCOL_VERSION_2_3 (ec_vendor_id (e_config st.1))
                  (ec_guid_prefix (e_config st.1)) in
  let msg := wrap_in_rtps_message header submsg in
  match only_to with
  | Some peer => send_to msg peer st
  | None => foldl (λ st peer, send_to msg peer st) st peers
  end.

Definition endpoint_submessage (writer reader : EntityId) (seq : Z) (payload : list byte)
    : list byte :=
  encode_data_submessage writer reader (mkSequenceNumber 0 seq) payload.

Definition announce_writer (info : EndpointInfo) (only_to : option ParticipantProxy)
    (peers : list ParticipantProxy) (st : SedpService * RtpsSocket)
    : panics (SedpService * RtpsSocket) :=
  let payload := build_endpoint_data (e_config st.1) info in
  r ← next_seq_num st.1;
  let submsg := endpoint_submessage ENTITYID_SEDP_PUB_WRITER ENTITYID_SEDP_PUB_READER r.1 payload in
  Ok (broadcast submsg only_to peers (r.2, st.2)).

Definition announce_reader (info : EndpointInfo) (only_to : option ParticipantProxy)
    (peers : list ParticipantProxy) (st : SedpService * RtpsSocket)
    : panics (SedpService * RtpsSocket) :=
  let payload := build_endpoint_data (e_config st.1) info in
  r ← next_seq_num st.1;
  let submsg := endpoint_submessage ENTITYID_SEDP_SUB_WRITER ENTITYID_SEDP_SUB_READER r.1 payload in
  Ok (broadcast submsg only_to peers (r.2, st.2)).

(** ** Local endpoints *)

Definition register_writer (eid : EntityId) (topic : list byte) (peers : list ParticipantProxy)
    self (sock : RtpsSocket) : panics (SedpService * RtpsSocket) :=
  let info := mkEndpointInfo (mkGuid (ec_guid_prefix (e_config self)) eid) topic true in
  let self := set_local_writers (<[eid := info]> (local_writers self)) self in
  announce_writer info None peers (self, sock).

(** The writers of a topic among the known ones. *)
Definition writers_of_topic (topic : list byte) (m : gmap Guid EndpointInfo) : list Guid :=
  ei_guid <$> filter (λ rw, topic_name rw = topic) (map_to_list m).*2.

Definition register_reader (eid : EntityId) (topic : list byte) (peers : list ParticipantProxy)
    self (sock : RtpsSocket) : panics (list Guid * SedpService * RtpsSocket) :=
  let info := mkEndpointInfo (mkGuid (ec_guid_prefix (e_config self)) eid) topic false in
  let self := set_local_readers (<[eid := info]> (local_readers self)) self in
  let matched := writers_of_topic topic (remote_writers self) in
  st ← announce_reader info None peers (self, sock);
  Ok (matched, st.1, st.2).

Definition on_new_peer (proxy : ParticipantProxy) self (sock : RtpsSocket)
    : panics (SedpService * RtpsSocket) :=
  let writers := (map_to_list (local_writers self)).*2 in
  let readers := (map_to_list (local_readers self)).*2 in
  st ← for_each (λ w, announce_writer w (Some proxy) []) writers (self, sock);
  for_each (λ r, announce_reader r (Some proxy) []) readers st.

(** ** Remote endpoints *)

(** The local readers on a topic. *)
Definition readers_on_topic (topic : list byte) (m : gmap EntityId EndpointInfo) : list EntityId :=
  (λ lr, entity (ei_guid lr)) <$> filter (λ lr, topic_name lr = topic) (map_to_list m).*2.

Definition notify_matches (guid : Guid) (matched : list EntityId) (l : option (Chan WriterMatch))
    : option (Chan WriterMatch) :=
  match l with
  | Some tx => Some (foldl (λ tx e, send_event (mkWriterMatch e guid) tx) tx matched)
  | None => None
  end.

Definition on_remote_writer (info : EndpointInfo) (data_locator : Locator) self
    : list EntityId * SedpService :=
  let guid := ei_guid info in
  let self := set_remote_writers (<[guid := info]> (remote_writers self)) self in
  let matched := readers_on_topic (topic_name info) (local_readers self) in
  let self := set_matches (as_u 64 (endpoint_matches self + len matched)) self in
  match matched with
  | [] => (matched, self)
  | _ =>
      let self := set_writer_locators (<[guid := data_locator]> (writer_locators self)) self in
      let listener := notify_matches guid matched (match_listener self) in
      (matched, match listener with Some tx => set_match_listener tx self | None => self end)
  end.

Definition on_remote_reader (info : EndpointInfo) (data_locator : Locator) self : SedpService :=
  let guid := ei_guid info in
  set_remote_readers (<[guid := info]> (remote_readers self))
    (<[guid := data_locator]> (remote_reader_locators self)) self.

(** One round of the parameter loop of [handle_endpoint_announce]. *)
Definition parse_endpoint_param (from : SocketAddr) (param : Param) (st : EndpointInfo * Locator)
    : panics (EndpointInfo * Locator) :=
  let '(info, loc) := st in
  if pid param =? PID_ENDPOINT_GUID then
    g ← ok (decode Guid (value param));
    Ok (match g with
        | Some g => (mkEndpointInfo g (topic_name info) (is_writer info), loc)
        | None => st end)
  else if pid param =? PID_TOPIC_NAME then
    t ← ok (decode_string (value param));
    Ok (match t with
        | Some t => (mkEndpointInfo (ei_guid info) t (is_writer info), loc)
        | None => st end)
  else if pid param =? PID_DEFAULT_UNICAST_LOCATOR then
    l ← ok (decode Locator (value param));
    Ok (match l with Some l => (info, fill_in_zero_address l from) | None => st end)
  else Ok st.

Definition handle_endpoint_announce (remote_prefix : GuidPrefix) (payload : list byte)
    (is_writer : bool) (from : SocketAddr) self : panics SedpService :=
  ps ← payload_params payload;
  match ps with
  | None => Ok self
  | Some ps =>
      let info := mkEndpointInfo (mkGuid remote_prefix ENTITYID_UNKNOWN) [] is_writer in
      st ← for_each (parse_endpoint_param from) ps (info, Locator_default);
      let '(info, data_locator) := st in
      match topic_name info with
      | [] => Ok self
      | _ =>
          let self := set_announces_received (wrapping_add 64 (e_announces_received self) 1) self in
          if is_writer then Ok (on_remote_writer info data_locator self).2
          else Ok (on_remote_reader info data_locator self)
      end
  end.

(** The body of the loop of [handle_packet]. *)
Definition handle_submessage (from : SocketAddr) (header : Header) (raw : RawSubmessage) self
    : panics SedpService :=
  if negb (bool_decide (raw_id raw = SUBMSG_DATA)) then Ok self
  else
    ds ← ok (decode_data_submessage (raw_flags raw) (raw_body raw));
    match ds with
    | None => Ok self
    | Some ds =>
        match payload ds with
        | None => Ok self
        | Some payload =>
            if bool_decide (data_writer_entity_id ds = ENTITYID_SEDP_PUB_WRITER) then
              handle_endpoint_announce (guid_prefix header) payload true from self
            else if bool_decide (data_writer_entity_id ds = ENTITYID_SEDP_SUB_WRITER) then
              handle_endpoint_announce (guid_prefix header) payload false from self
            else Ok self
        end
    end.

Definition handle_packet (data : list byte) (from : SocketAddr) self : panics SedpService :=
  receive_message (ec_guid_prefix (e_config self)) (handle_submessage from) data self.

Definition on_peer_evicted (p : GuidPrefix) self : SedpService :=
  let other {A} (m : gmap Guid A) := filter (λ gx, prefix gx.1 ≠ p) m in
  let self := set_remote_writers (other (remote_writers self)) self in
  let self := set_remote_readers (other (remote_readers self)) (other (remote_reader_locators self))
                self in
  set_writer_locators (other (writer_locators self)) self.

(** ** Queries *)

Definition known_remote_writers self : list EndpointInfo := (map_to_list (remote_writers self)).*2.
Definition known_remote_readers self : list EndpointInfo := (map_to_list (remote_readers self)).*2.

Definition matched_writer_locator (g : Guid) self : option Locator := writer_locators self !! g.

Definition matched_reader_locators (topic : list byte) self : list Locator :=
  omap (λ r, remote_reader_locators self !! ei_guid r)
    (filter (λ r, topic_name r = topic) (map_to_list (remote_readers self)).*2).
End service.

(** ** Parsing *)

Lemma parse_endpoint_param_total from p st : ∃ st', parse_endpoint_param from p st = Ok st'.
Proof.
  destruct st as [info loc]. unfold parse_endpoint_param.
  destruct (ok_total (F:=Empty_set) _ (decode_no_panic (A:=Locator) (value p))) as (ol & -> & _).
  destruct (ok_total (F:=Empty_set) _ (decode_no_panic (A:=Guid) (value p))) as (og & -> & _).
  destruct (ok_total (F:=Empty_set) _ (decode_string_no_panic (value p))) as (os & -> & _).
  rewrite !bind_ok. repeat case_match; by eexists.
Qed.

(** The endpoint and locator an announcement carries, [None] when it is
    dropped. *)
Definition parsed_endpoint (g : GuidPrefix) (data : list byte) (w : bool) (from : SocketAddr)
    : option (EndpointInfo * Locator) :=
  match payload_params data with
  | Ok (Some ps) =>
      match for_each (parse_endpoint_param from) ps
              (mkEndpointInfo (mkGuid g ENTITYID_UNKNOWN) [] w, Locator_default) with
      | Ok (info, loc) => if bool_decide (topic_name info = []) then None else Some (info, loc)
      | _ => None
      end
  | _ => None
  end.

Lemma parsed_endpoint_inv g data w from info loc :
  parsed_endpoint g data w from = Some (info, loc) → topic_name info ≠ [] ∧ is_writer info = w.
Proof.
  unfold parsed_endpoint. destruct (payload_params data) as [[ps|]| |]; try done.
  destruct (for_each _ _ _) as [[info' loc']| |] eqn:Hf; try done.
  case_bool_decide; [done|]. intros [= <- <-]. split; [done|].
  change (is_writer (info', loc').1 = w). revert Hf.
  apply (for_each_inv (λ st, is_writer st.1 = w)); [|done]. clear.
  intros p [info loc] st' Hi. unfold parse_endpoint_param.
  repeat case_match; intros Hq; try (apply bind_ok_inv in Hq as (x & Hx & [= <-]));
    simplify_eq; repeat case_match; by simplify_eq/=.
Qed.

Section sedp.
Context `{BuildProfile}.
Implicit Types s : SedpService.

Lemma handle_endpoint_announce_eq g data w from s :
  handle_endpoint_announce g data w from s =
  Ok match parsed_endpoint g data w from with
     | Some (info, loc) =>
         let s := set_announces_received (wrapping_add 64 (e_announces_received s) 1) s in
         if w then (on_remote_writer info loc s).2 else on_remote_reader info loc s
     | None => s
     end.
Proof.
  unfold handle_endpoint_announce, parsed_endpoint.
  destruct (payload_params_total data) as [[ps|] ->]; [|done]. rewrite bind_ok.
  destruct (for_each_total (λ _, True) (parse_endpoint_param from) ps
    (mkEndpointInfo (mkGuid g ENTITYID_UNKNOWN) [] w, Locator_default)) as ([info loc] & -> & _);
    [|done|].
  { intros p st _. destruct (parse_endpoint_param_total from p st) as [st' ?]. by exists st'. }
  rewrite bind_ok. destruct (topic_name info) eqn:Ht; [by rewrite bool_decide_true|].
  rewrite bool_decide_false by done. by destruct w.
Qed.

(** The endpoint a submessage announces. *)
Definition announced_endpoint (from : SocketAddr) (h : Header) (raw : RawSubmessage)
    : option (EndpointInfo * Locator) :=
  match decode_data_submessage (raw_flags raw) (raw_body raw) with
  | Ok (mkDataSubmessage _ w _ (Some data)) =>
      if bool_decide (raw_id raw = SUBMSG_DATA) then
        if bool_decide (w = ENTITYID_SEDP_PUB_WRITER) then
          parsed_endpoint (guid_prefix h) data true from
        else if bool_decide (w = ENTITYID_SEDP_SUB_WRITER) then
          parsed_endpoint (guid_prefix h) data false from
        else None
      else None
  | _ => None
  end.

(** Record a remote endpoint. *)
Definition on_endpoint (info : EndpointInfo) (loc : Locator) s : SedpService :=
  let s := set_announces_received (wrapping_add 64 (e_announces_received s) 1) s in
  if is_writer info then (on_remote_writer info loc s).2 else on_remote_reader info loc s.

Lemma sedp_submessage_eq from h raw s :
  handle_submessage from h raw s =
  Ok match announced_endpoint from h raw with
     | Some (info, loc) => on_endpoint info loc s | None => s end.
Proof.
  unfold handle_submessage, announced_endpoint.
  destruct (ok_total (F:=Empty_set) _ (decode_data_no_panic (raw_flags raw) (raw_body raw))) as (o & Ho & Hd).
  destruct (bool_decide_reflect (raw_id raw = SUBMSG_DATA)) as [Hid|Hid]; cbn [negb];
    [|by repeat case_match].
  rewrite Ho, bind_ok. destruct o as [[r w sn pl]|].
  2: { unfold ok in Ho. by destruct (decode_data_submessage _ _). }
  rewrite (Hd _ eq_refl). cbn [data_writer_entity_id payload].
  destruct pl as [data|]; [|done].
  repeat (case_bool_decide; [rewrite handle_endpoint_announce_eq|]); try done; f_equal.
  all: destruct (parsed_endpoint _ data _ from) as [[info loc]|] eqn:Hp; [|done].
  all: unfold on_endpoint; by rewrite (proj2 (parsed_endpoint_inv _ _ _ _ _ _ Hp)).
Qed.

(** ** The invariant of the tables *)

Record sedp_wf s : Prop := {
  sw_local_writer e i : local_writers s !! e = Some i →
    ei_guid i = mkGuid (ec_guid_prefix (e_config s)) e ∧ is_writer i = true;
  sw_local_reader e i : local_readers s !! e = Some i →
    ei_guid i = mkGuid (ec_guid_prefix (e_config s)) e ∧ is_writer i = false;
  sw_remote_writer g i : remote_writers s !! g = Some i →
    ei_guid i = g ∧ is_writer i = true ∧ topic_name i ≠ [];
  sw_remote_reader g i : remote_readers s !! g = Some i →
    ei_guid i = g ∧ is_writer i = false ∧ topic_name i ≠ [];
  sw_reader_locators : dom (remote_reader_locators s) = dom (remote_readers s);
  sw_writer_locators : dom (writer_locators s) ⊆ dom (remote_writers s) }.

(** Two services whose tables agree. *)
Definition same_tables s s' : Prop :=
  e_config s' = e_config s ∧ local_writers s' = local_writers s ∧
  local_readers s' = local_readers s ∧ remote_writers s' = remote_writers s ∧
  remote_readers s' = remote_readers s ∧
  remote_reader_locators s' = remote_reader_locators s ∧ writer_locators s' = writer_locators s ∧
  match_listener s' = match_listener s.

#[global] Instance same_tables_equiv : PreOrder same_tables.
Proof.
  split; [by intros s|]. intros s1 s2 s3 (?&?&?&?&?&?&?&?) (?&?&?&?&?&?&?&?).
  split_and!; congruence.
Qed.

Lemma sedp_wf_same s s' : same_tables s s' → sedp_wf s → sedp_wf s'.
Proof.
  intros (Hc&H1&H2&H3&H4&H5&H6&_) [Ha Hb Hd He Hf Hg].
  split; rewrite ?Hc, ?H1, ?H2, ?H3, ?H4, ?H5, ?H6; done.
Qed.

Lemma send_to_same msg peer st : same_tables st.1 (send_to msg peer st).1.
Proof. destruct st as [s sock]. unfold send_to. repeat case_match; simplify_eq; by split_and!. Qed.

Lemma broadcast_same submsg o ps st : same_tables st.1 (broadcast submsg o ps st).1.
Proof.
  unfold broadcast. destruct o; [apply send_to_same|].
  set (msg := wrap_in_rtps_message _ _). clearbody msg. revert st.
  induction ps as [|p ps IH]; intros st; [by split_and!|]. simpl.
  etrans; [apply (send_to_same msg p)|apply IH].
Qed.

Lemma broadcast_seq submsg o ps st :
  e_seq_counter (broadcast submsg o ps st).1 = e_seq_counter st.1.
Proof.
  assert (∀ msg peer st, e_seq_counter (send_to msg peer st).1 = e_seq_counter st.1) as Hs.
  { intros msg peer [s sock]. unfold send_to. repeat case_match; by simplify_eq/=. }
  unfold broadcast. destruct o; [apply Hs|]. set (msg := wrap_in_rtps_message _ _). clearbody msg.
  revert st. induction ps as [|p ps IH]; intros st; [done|]. simpl. by rewrite IH, Hs.
Qed.

(** The build has sequence numbers left for [n] more announcements. *)
Definition numbers_left s (n : Z) : Prop :=
  0 <= e_seq_counter s ∧ (overflow_checks = false ∨ e_seq_counter s + n < 2 ^ 32).

(** Announcing leaves the tables alone. *)
Lemma announce_ok w r payload o ps st n : numbers_left st.1 (1 + n) → 0 <= n →
  ∃ k s', next_seq_num st.1 = Ok (k, s') ∧
    let st' := broadcast (endpoint_submessage w r k payload) o ps (s', st.2) in
    same_tables st.1 st'.1 ∧ numbers_left st'.1 n.
Proof.
  intros [Hc Hn] Hn0. unfold next_seq_num, uadd.
  assert (0 <= wrapping_add 32 (e_seq_counter st.1) 1 <= e_seq_counter st.1 + 1) as Hf.
  { unfold wrapping_add, as_u. pose proof (Z.mod_le (e_seq_counter st.1 + 1) (2 ^ 32)).
    pose proof (Z.mod_pos_bound (e_seq_counter st.1 + 1) (2 ^ 32)). lia. }
  destruct (Z.ltb_spec (e_seq_counter st.1 + 1) (2 ^ 32)) as [Hl|Hl].
  2: destruct Hn as [Hn|Hn]; [rewrite Hn|lia].
  all: rewrite bind_ok; do 2 eexists; (split; [done|]); cbv zeta; split.
  1,3: (etrans; [|apply broadcast_same]; by split_and!).
  all: unfold numbers_left; rewrite broadcast_seq; cbn [fst e_seq_counter set_seq];
    (split; [lia|]); first [by left | destruct Hn; [by left|right; lia]].
Qed.

Lemma announce_each w r o ps l n st : numbers_left st.1 (len l + n) → 0 <= n →
  ∃ st', for_each (λ info st, k ← next_seq_num st.1;
           Ok (broadcast (endpoint_submessage w r k.1 (build_endpoint_data (e_config st.1) info)) o ps
                 (k.2, st.2))) l st = Ok st' ∧
    same_tables st.1 st'.1 ∧ numbers_left st'.1 n.
Proof.
  revert st. induction l as [|i l IH]; intros st Hn Hn0; cbn [for_each].
  { exists st. rewrite len_nil in Hn. by split_and!. }
  destruct (announce_ok w r (build_endpoint_data (e_config st.1) i) o ps st (len l + n))
    as (k & s' & -> & Hs & Hl); [|len_tac|].
  { by replace (1 + (len l + n)) with (len (i :: l) + n) by len_tac. }
  rewrite !bind_ok. cbn [fst snd]. destruct (IH _ Hl Hn0) as (st' & -> & Hs' & Hl').
  exists st'. split_and!; [done|by etrans|apply Hl'..].
Qed.

(** ** Runs of the service *)

Inductive SedpEvent : Type :=
| RegisterWriter (eid : EntityId) (topic : list byte) (peers : list ParticipantProxy)
| RegisterReader (eid : EntityId) (topic : list byte) (peers : list ParticipantProxy)
| NewPeer (proxy : ParticipantProxy)
| Packet (data : list byte) (from : SocketAddr)
| PeerEvicted (p : GuidPrefix)
| Listen (tx : Chan WriterMatch).

Definition sedp_step (e : SedpEvent) (st : SedpService * RtpsSocket)
    : panics (SedpService * RtpsSocket) :=
  match e with
  | RegisterWriter eid topic peers => register_writer eid topic peers st.1 st.2
  | RegisterReader eid topic peers =>
      r ← register_reader eid topic peers st.1 st.2; Ok (r.1.2, r.2)
  | NewPeer proxy => on_new_peer proxy st.1 st.2
  | Packet data from => s ← handle_packet data from st.1; Ok (s, st.2)
  | PeerEvicted p => Ok (on_peer_evicted p st.1, st.2)
  | Listen tx => Ok (set_match_listener tx st.1, st.2)
  end.

(** How many announcements the events make, [r] endpoints being registered. *)
Fixpoint announcement_count (r : Z) (evs : list SedpEvent) : Z :=
  match evs with
  | [] => 0
  | RegisterWriter _ _ _ :: evs | RegisterReader _ _ _ :: evs => 1 + announcement_count (r + 1) evs
  | NewPeer _ :: evs => r + announcement_count r evs
  | _ :: evs => announcement_count r evs
  end.

Definition endpoints s : Z :=
  Z.of_nat (size (local_writers s)) + Z.of_nat (size (local_readers s)).

(** *** Every operation keeps the invariant *)

Lemma wf_local_writers eid topic s : sedp_wf s →
  sedp_wf (set_local_writers (<[eid := mkEndpointInfo (mkGuid (ec_guid_prefix (e_config s)) eid)
                                         topic true]> (local_writers s)) s).
Proof.
  intros [? ? ? ? ? ?]. split; simpl; try done.
  intros e i. rewrite lookup_insert_Some. naive_solver.
Qed.

Lemma wf_local_readers eid topic s : sedp_wf s →
  sedp_wf (set_local_readers (<[eid := mkEndpointInfo (mkGuid (ec_guid_prefix (e_config s)) eid)
                                         topic false]> (local_readers s)) s).
Proof.
  intros [? ? ? ? ? ?]. split; simpl; try done.
  intros e i. rewrite lookup_insert_Some. naive_solver.
Qed.

Lemma wf_on_endpoint info loc s : topic_name info ≠ [] → sedp_wf s → sedp_wf (on_endpoint info loc s).
Proof.
  intros Ht [? ? ? ? Hd Hw]. unfold on_endpoint, on_remote_writer, on_remote_reader.
  destruct (is_writer info) eqn:Hi; [|split; simpl; try done].
  - repeat case_match; (split; simpl; try done);
      try (intros g i; rewrite lookup_insert_Some; naive_solver);
      rewrite ?dom_insert; set_solver.
  - intros g i. rewrite lookup_insert_Some. naive_solver.
  - by rewrite !dom_insert_L, Hd.
Qed.

Lemma announced_endpoint_topic from h raw info loc :
  announced_endpoint from h raw = Some (info, loc) → topic_name info ≠ [].
Proof.
  unfold announced_endpoint. repeat case_match; try done; intros Hp;
    by apply parsed_endpoint_inv in Hp as [? _].
Qed.

Lemma dom_filter_prefix {A} (m : gmap Guid A) p g :
  g ∈ dom (filter (λ gx : Guid * A, prefix gx.1 ≠ p) m) ↔ g ∈ dom m ∧ prefix g ≠ p.
Proof.
  rewrite !elem_of_dom. unfold is_Some. setoid_rewrite map_lookup_filter_Some. naive_solver.
Qed.

Lemma wf_evicted p s : sedp_wf s → sedp_wf (on_peer_evicted p s).
Proof.
  intros [? ? Hrw Hrr Hd Hw]. split; simpl; try done.
  - intros g i [? _]%map_lookup_filter_Some. eauto.
  - intros g i [? _]%map_lookup_filter_Some. eauto.
  - apply set_eq. intros g. by rewrite !dom_filter_prefix, Hd.
  - intros g. rewrite !dom_filter_prefix. set_solver.
Qed.

(** What a datagram does to the service is recording endpoints. *)
Lemma sedp_packet_eq data from s : ∃ es,
  handle_packet data from s = Ok (foldl (λ s il, on_endpoint il.1 il.2 s) s es) ∧
  Forall (λ il, topic_name il.1 ≠ []) es.
Proof.
  unfold handle_packet.
  destruct (receive_message_cases (ec_guid_prefix (e_config s)) (handle_submessage from) data s)
    as [[-> _]|(h & rs & e & _ & _ & _ & ->)]; [by exists []|].
  exists (omap (announced_endpoint from h) rs). split.
  - clear e. revert s. induction rs as [|r rs IH]; intros s; [done|]. cbn [for_each omap list_omap].
    rewrite sedp_submessage_eq, bind_ok.
    destruct (announced_endpoint from h r) as [[info loc]|]; apply IH.
  - apply Forall_forall. intros [info loc] (r & _ & Hr)%list_elem_of_omap.
    eauto using announced_endpoint_topic.
Qed.

Lemma on_endpoint_local info loc s :
  e_config (on_endpoint info loc s) = e_config s ∧
  e_seq_counter (on_endpoint info loc s) = e_seq_counter s ∧
  local_writers (on_endpoint info loc s) = local_writers s ∧
  local_readers (on_endpoint info loc s) = local_readers s.
Proof. unfold on_endpoint, on_remote_writer, on_remote_reader. repeat case_match; done. Qed.

Lemma on_endpoints_ok es s : Forall (λ il, topic_name il.1 ≠ []) es → sedp_wf s →
  let s' := foldl (λ s il, on_endpoint il.1 il.2 s) s es in
  sedp_wf s' ∧ endpoints s' = endpoints s ∧ e_seq_counter s' = e_seq_counter s.
Proof.
  intros Hes. revert s. induction Hes as [|[info loc] es Ht _ IH]; intros s Hw; [done|]. simpl.
  destruct (on_endpoint_local info loc s) as (_ & Hs & Hl1 & Hl2).
  destruct (IH (on_endpoint info loc s)) as (? & He & Hc); [by apply wf_on_endpoint|].
  split_and!; [done|rewrite He; unfold endpoints; by rewrite Hl1, Hl2|congruence].
Qed.

Lemma size_insert_le {A} (m : gmap EntityId A) k x :
  Z.of_nat (size (<[k := x]> m)) <= Z.of_nat (size m) + 1.
Proof. rewrite map_size_insert. case_match; simpl; lia. Qed.

Definition event_cost (r : Z) (e : SedpEvent) : Z :=
  match e with RegisterWriter _ _ _ | RegisterReader _ _ _ => 1 | NewPeer _ => r | _ => 0 end.
Definition event_endpoints (r : Z) (e : SedpEvent) : Z :=
  match e with RegisterWriter _ _ _ | RegisterReader _ _ _ => r + 1 | _ => r end.

Lemma announcement_count_cons r e evs :
  announcement_count r (e :: evs) = event_cost r e + announcement_count (event_endpoints r e) evs.
Proof. destruct e; simpl; lia. Qed.

Lemma announcement_count_nonneg r evs : 0 <= r → 0 <= announcement_count r evs.
Proof.
  revert r. induction evs as [|e evs IH]; intros r Hr; [done|]. rewrite announcement_count_cons.
  pose proof (IH (event_endpoints r e) ltac:(destruct e; simpl; lia)). destruct e; simpl in *; lia.
Qed.

Lemma endpoints_same s s' : same_tables s s' → endpoints s' = endpoints s.
Proof. intros (_ & H1 & H2 & _). unfold endpoints. by rewrite H1, H2. Qed.

Lemma numbers_left_le s n m : numbers_left s n → m <= n → numbers_left s m.
Proof. intros [? [?|?]] ?; (split; [done|]); [by left|right; lia]. Qed.

Lemma len_values {K A} `{Countable K} (m : gmap K A) : len (map_to_list m).*2 = Z.of_nat (size m).
Proof. unfold len. by rewrite length_fmap, length_map_to_list. Qed.

(** Announcing a change of the local tables. *)
Lemma register_ok w r info ps s sock b n : sedp_wf s → endpoints s <= b → 0 <= n →
  numbers_left s (1 + n) →
  ∃ st', (k ← next_seq_num s; Ok (broadcast (endpoint_submessage w r k.1
            (build_endpoint_data (e_config s) info)) None ps (k.2, sock))) = Ok st' ∧
    sedp_wf st'.1 ∧ endpoints st'.1 <= b ∧ numbers_left st'.1 n.
Proof.
  intros Hw He Hn Hl.
  destruct (announce_ok w r (build_endpoint_data (e_config s) info) None ps (s, sock) n)
    as (k & s' & Hk & Hs & Hl'); [done|done|]. cbn [fst snd] in Hk, Hs.
  rewrite Hk, bind_ok. eexists. split_and!; [done| | |apply Hl'..].
  - by eapply sedp_wf_same.
  - cbn [fst snd]. by rewrite (endpoints_same _ _ Hs).
Qed.

Lemma sedp_step_ok e st r n : sedp_wf st.1 → endpoints st.1 <= r → 0 <= n →
  numbers_left st.1 (event_cost r e + n) →
  ∃ st', sedp_step e st = Ok st' ∧ sedp_wf st'.1 ∧ endpoints st'.1 <= event_endpoints r e ∧
    numbers_left st'.1 n.
Proof.
  intros Hw He Hn Hl. destruct e as [eid topic ps|eid topic ps|proxy|data from|p|tx]; simpl in *.
  - apply register_ok; [by apply wf_local_writers| |done|done].
    unfold endpoints in *. simpl. etrans; [apply Z.add_le_mono_r, size_insert_le|lia].
  - edestruct (register_ok ENTITYID_SEDP_SUB_WRITER ENTITYID_SEDP_SUB_READER
      (mkEndpointInfo (mkGuid (ec_guid_prefix (e_config st.1)) eid) topic false) ps _ st.2 (r + 1) n
      (wf_local_readers eid topic st.1 Hw)) as (st' & Hst & ?); [|done|done|].
    { unfold endpoints in *. simpl. etrans; [apply Z.add_le_mono_l, size_insert_le|lia]. }
    exists st'. split; [|done]. unfold register_reader, announce_reader. cbn [fst snd]. rewrite Hst.
    by destruct st'.
  - unfold on_new_peer, announce_writer, announce_reader. cbv zeta. destruct st as [s sock].
    unfold endpoints in He. cbn [fst snd] in *.
    edestruct (announce_each ENTITYID_SEDP_PUB_WRITER ENTITYID_SEDP_PUB_READER (Some proxy) []
      (map_to_list (local_writers s)).*2 (len (map_to_list (local_readers s)).*2 + n) (s, sock))
      as (st1 & -> & Hs1 & Hl1); [|len_tac|].
    { eapply numbers_left_le; [done|]. rewrite !len_values. simpl. lia. }
    rewrite bind_ok.
    edestruct (announce_each ENTITYID_SEDP_SUB_WRITER ENTITYID_SEDP_SUB_READER (Some proxy) []
      (map_to_list (local_readers s)).*2 n st1) as (st2 & -> & Hs2 & Hl2); [done|done|].
    assert (same_tables s st2.1) as Hs by (by etrans).
    eexists. split_and!; [done|by eapply sedp_wf_same| |apply Hl2..].
    rewrite (endpoints_same _ _ Hs). unfold endpoints. lia.
  - destruct (sedp_packet_eq data from st.1) as (es & -> & Hes). rewrite bind_ok.
    destruct (on_endpoints_ok es st.1 Hes Hw) as (? & ? & Hc). eexists. split_and!; [done|done|simpl; lia|..];
      unfold numbers_left in *; simpl; rewrite Hc; tauto.
  - eexists. split_and!; [done|by apply wf_evicted|done|apply Hl..].
  - eexists. split_and!; [done| |done|apply Hl..]. destruct Hw. by split.
Qed.

(** No known reader is left without a locator. *)
Lemma reader_locators_total topic s : sedp_wf s →
  (∀ l, l ∈ matched_reader_locators topic s ↔
     ∃ g i, remote_readers s !! g = Some i ∧ topic_name i = topic ∧
       remote_reader_locators s !! g = Some l) ∧
  length (matched_reader_locators topic s) =
  length (filter (λ r, topic_name r = topic) (known_remote_readers s)).
Proof.
  intros Hw. unfold matched_reader_locators, known_remote_readers. split.
  - intros l. rewrite list_elem_of_omap. split.
    + intros (i & Hi & Hl). apply list_elem_of_filter in Hi as [Ht Hi].
      apply list_elem_of_fmap in Hi as ([g i'] & -> & Hi). apply elem_of_map_to_list in Hi.
      destruct (sw_remote_reader s Hw g i' Hi) as (Hg & _). exists g, i'. simpl in *.
      by rewrite <- Hg at 2.
    + intros (g & i & Hi & Ht & Hl). destruct (sw_remote_reader s Hw g i Hi) as (Hg & _).
      exists i. rewrite Hg. split; [|done]. apply list_elem_of_filter. split; [done|].
      apply list_elem_of_fmap. exists (g, i). split; [done|]. by apply elem_of_map_to_list.
  - set (rs := filter _ _).
    assert (Forall (λ r, is_Some (remote_reader_locators s !! ei_guid r)) rs) as Hs.
    { apply Forall_forall. intros i [_ Hi]%list_elem_of_filter.
      apply list_elem_of_fmap in Hi as ([g i'] & -> & Hi). apply elem_of_map_to_list in Hi.
      destruct (sw_remote_reader s Hw g i' Hi) as (Hg & _). simpl. rewrite Hg.
      apply elem_of_dom. rewrite (sw_reader_locators s Hw). by eapply elem_of_dom_2. }
    clearbody rs. induction Hs as [|r rs [l Hl] _ IH]; [done|]. simpl. rewrite Hl. simpl. f_equal. exact IH.
Qed.

(** C32. The endpoint tables in every run of the service: local endpoints are
    filed under their own id with the participant's prefix, remote ones under
    the GUID they announce and never without a topic, every remote reader
    has a locator and every stored writer locator belongs to a known writer;
    the locators a writer sends to are exactly those of the remote readers of
    its topic, one per reader.  The run only fails in a checked build that
    has used up its 32-bit sequence numbers. *)
Theorem endpoint_tables cfg sock evs :
  overflow_checks = false ∨ announcement_count 0 evs < 2 ^ 32 →
  ∃ st, for_each sedp_step evs (SedpService_new cfg, sock) = Ok st ∧ sedp_wf st.1 ∧
    ∀ topic,
      (∀ l, l ∈ matched_reader_locators topic st.1 ↔
         ∃ g i, remote_readers st.1 !! g = Some i ∧ topic_name i = topic ∧
           remote_reader_locators st.1 !! g = Some l) ∧
      length (matched_reader_locators topic st.1) =
      length (filter (λ r, topic_name r = topic) (known_remote_readers st.1)).
Proof.
  intros Hn. enough (∃ st, for_each sedp_step evs (SedpService_new cfg, sock) = Ok st ∧ sedp_wf st.1)
    as (st & ? & Hw) by (exists st; eauto using reader_locators_total).
  assert (∀ r st, 0 <= r → sedp_wf st.1 → endpoints st.1 <= r →
    numbers_left st.1 (announcement_count r evs) →
    ∃ st', for_each sedp_step evs st = Ok st' ∧ sedp_wf st'.1) as Hrun.
  { clear. induction evs as [|e evs IH]; intros r st Hr Hw He Hl; cbn [for_each]; [by exists st|].
    rewrite announcement_count_cons in Hl.
    assert (0 <= event_endpoints r e) by (destruct e; simpl; lia).
    destruct (sedp_step_ok e st r _ Hw He (announcement_count_nonneg _ evs ltac:(eassumption)) Hl)
      as (st1 & -> & Hw1 & He1 & Hl1). rewrite bind_ok. by eapply IH. }
  apply (Hrun 0); [done| |done|]; [|by split].
  split; simpl; try done; by intros ?? ?%lookup_empty_Some.
Qed.

(** ** Announcements between two services *)

Definition endpoint_ok (cfg : SedpConfig) (info : EndpointInfo) : Prop :=
  is_u16 (ec_data_unicast_port cfg) ∧ is_str (topic_name info) ∧ topic_name info ≠ [] ∧
  len (topic_name info) <= 65000.

Definition endpoint_params (cfg : SedpConfig) (info : EndpointInfo) : list Param :=
  [mkParam PID_ENDPOINT_GUID (bytes_of (ei_guid info));
   mkParam PID_TOPIC_NAME (cdr_string (topic_name info));
   mkParam PID_TYPE_NAME (cdr_string ENDPOINT_TYPE_NAME);
   mkParam PID_DEFAULT_UNICAST_LOCATOR
     (bytes_of (zero_locator (ec_ipv6 cfg) (ec_data_unicast_port cfg)))].

Lemma build_endpoint_data_eq cfg info :
  build_endpoint_data cfg info =
  PlCdrEncoder.finish (add_params (endpoint_params cfg info) PlCdrEncoder.new).
Proof. unfold build_endpoint_data. rewrite !add_string_eq. done. Qed.

Lemma len_cdr_string t : len (cdr_string t) = len t + 5.
Proof. unfold cdr_string. len_tac. Qed.

Lemma endpoint_params_wf cfg info : endpoint_ok cfg info → Forall param_wf (endpoint_params cfg info).
Proof.
  intros (_ & _ & _ & Hl).
  repeat apply Forall_cons_2; try apply Forall_nil_2;
    (split_and!; cbn [pid value]; [by unfold is_u16|done|done|]); rewrite ?len_cdr_string; try len_tac.
  done.
Qed.

Lemma len_endpoint_data cfg info : endpoint_ok cfg info →
  len (build_endpoint_data cfg info) <= 65515 ∧ build_endpoint_data cfg info ≠ [].
Proof.
  intros Ho. rewrite build_endpoint_data_eq. unfold PlCdrEncoder.finish.
  rewrite add_params_eq by by apply endpoint_params_wf.
  split; [|intros Hb%(f_equal len); rewrite !len_app in Hb; len_tac].
  unfold endpoint_params. cbn [fmap list_fmap concat]. autorewrite with len. rewrite !len_param_bytes.
  cbn [value]. rewrite !padded_bytes_of, !len_padded, !len_cdr_string by done.
  change (len (enc_buf PlCdrEncoder.new)) with 4. change (len ENDPOINT_TYPE_NAME) with 8.
  destruct Ho as (_ & _ & _ & Hl). autorewrite with len. Z.to_euclidean_division_equations. lia.
Qed.

Lemma parse_endpoint g cfg info from : endpoint_ok cfg info →
  parsed_endpoint g (build_endpoint_data cfg info) (is_writer info) from =
  Some (info, fill_in_zero_address (zero_locator (ec_ipv6 cfg) (ec_data_unicast_port cfg)) from).
Proof.
  intros Ho. unfold parsed_endpoint.
  rewrite build_endpoint_data_eq, payload_params_finish by by apply endpoint_params_wf.
  destruct Ho as (Hp & Hs & Hne & Hl). unfold endpoint_params. cbn [fmap list_fmap pid value for_each].
  rewrite !padded_bytes_of by done.
  assert (decode_string (padded (cdr_string (topic_name info))) = Ok (topic_name info)) as Hd
    by (apply decode_cdr_string; [done|lia]).
  unfold parse_endpoint_param. cbn [pid value].
  repeat match goal with
  | |- context [?a =? ?b] =>
      let r := eval vm_compute in (a =? b) in change (a =? b) with r; cbv iota
  end.
  rewrite (decode_exact (A:=Guid)), Hd by done. cbn [ok]. rewrite !bind_ok. cbv iota beta.
  rewrite decode_exact by by apply zero_locator_wf. cbn [ok]. rewrite !bind_ok. cbn [topic_name].
  rewrite bool_decide_false by done. by destruct info.
Qed.

(** The message that announces [info]. *)
Definition endpoint_message (cfg : SedpConfig) (info : EndpointInfo) (seq : Z) : list byte :=
  let ids := if is_writer info then (ENTITYID_SEDP_PUB_WRITER, ENTITYID_SEDP_PUB_READER)
             else (ENTITYID_SEDP_SUB_WRITER, ENTITYID_SEDP_SUB_READER) in
  wrap_in_rtps_message (mkHeader PROTOCOL_VERSION_2_3 (ec_vendor_id cfg) (ec_guid_prefix cfg))
    (endpoint_submessage ids.1 ids.2 seq (build_endpoint_data cfg info)).

Lemma handle_endpoint_message cfg info seq from s : endpoint_ok cfg info → is_u32 seq →
  ec_guid_prefix cfg ≠ ec_guid_prefix (e_config s) →
  handle_packet (endpoint_message cfg info seq) from s =
  Ok (on_endpoint info
        (fill_in_zero_address (zero_locator (ec_ipv6 cfg) (ec_data_unicast_port cfg)) from) s).
Proof.
  intros Ho Hs Hg. destruct (len_endpoint_data cfg info Ho) as [Hl Hne].
  unfold handle_packet, endpoint_message, endpoint_submessage. rewrite encode_data_eq.
  rewrite receive_message_single by (done || by apply data_raw_wf).
  rewrite sedp_submessage_eq. unfold announced_endpoint. cbn [raw_flags raw_body raw_id guid_prefix].
  rewrite decode_data_body by (split; simpl; [unfold is_i32; lia|done]).
  unfold data_payload. rewrite bool_decide_false, bool_decide_true by done.
  pose proof (parse_endpoint (ec_guid_prefix cfg) cfg info from Ho) as Hp.
  destruct (is_writer info); cbn [fst snd].
  - rewrite bool_decide_true by done. by rewrite Hp.
  - rewrite bool_decide_false by done. rewrite bool_decide_true by done. by rewrite Hp.
Qed.

Lemma readers_on_topic_spec s topic e : sedp_wf s →
  e ∈ readers_on_topic topic (local_readers s) ↔
  ∃ i, local_readers s !! e = Some i ∧ topic_name i = topic.
Proof.
  intros Hw. unfold readers_on_topic. rewrite list_elem_of_fmap. split.
  - intros (i & -> & [Ht Hi]%list_elem_of_filter).
    apply list_elem_of_fmap in Hi as ([e' i'] & -> & Hi). apply elem_of_map_to_list in Hi.
    destruct (sw_local_reader s Hw e' i' Hi) as [Hg _]. exists i'. simpl in *. by rewrite Hg.
  - intros (i & Hi & Ht). exists i. destruct (sw_local_reader s Hw e i Hi) as [Hg _]. rewrite Hg.
    split; [done|]. apply list_elem_of_filter. split; [done|]. apply list_elem_of_fmap.
    exists (e, i). split; [done|]. by apply elem_of_map_to_list.
Qed.

Lemma writers_of_topic_spec s topic g : sedp_wf s →
  g ∈ writers_of_topic topic (remote_writers s) ↔
  ∃ i, remote_writers s !! g = Some i ∧ topic_name i = topic.
Proof.
  intros Hw. unfold writers_of_topic. rewrite list_elem_of_fmap. split.
  - intros (i & -> & [Ht Hi]%list_elem_of_filter).
    apply list_elem_of_fmap in Hi as ([g' i'] & -> & Hi). apply elem_of_map_to_list in Hi.
    destruct (sw_remote_writer s Hw g' i' Hi) as [Hg _]. exists i'. simpl in *. by rewrite Hg.
  - intros (i & Hi & Ht). exists i. destruct (sw_remote_writer s Hw g i Hi) as [Hg _].
    split; [done|]. apply list_elem_of_filter. split; [done|]. apply list_elem_of_fmap.
    exists (g, i). split; [done|]. by apply elem_of_map_to_list.
Qed.

(** The addresses of the peers that have one. *)
Definition meta_addrs (ps : list ParticipantProxy) : list SocketAddr :=
  omap (λ p, Locator.udp_addr (metatraffic_unicast p)) ps.

Lemma broadcast_sent submsg ps st :
  let msg := wrap_in_rtps_message (mkHeader PROTOCOL_VERSION_2_3 (ec_vendor_id (e_config st.1))
               (ec_guid_prefix (e_config st.1))) submsg in
  sent (broadcast submsg None ps st).2 = sent st.2 ++ ((λ dst, (dst, msg)) <$> meta_addrs ps).
Proof.
  unfold broadcast. set (msg := wrap_in_rtps_message _ _). clearbody msg. cbv zeta. revert st.
  induction ps as [|p ps IH]; intros [s sock]; simpl; [by rewrite app_nil_r|].
  destruct (Locator.udp_addr (metatraffic_unicast p)) as [dst|]; [|apply IH].
  unfold RtpsSocket.send_to. simpl. destruct (verdict sock _); rewrite IH; simpl; by rewrite <- app_assoc.
Qed.

Lemma register_sent w r info ps s sock : 0 <= e_seq_counter s < 2 ^ 32 - 1 →
  ∃ st', (k ← next_seq_num s; Ok (broadcast (endpoint_submessage w r k.1
            (build_endpoint_data (e_config s) info)) None ps (k.2, sock))) = Ok st' ∧
    same_tables s st'.1 ∧
    sent st'.2 = sent sock ++ ((λ dst, (dst, wrap_in_rtps_message
      (mkHeader PROTOCOL_VERSION_2_3 (ec_vendor_id (e_config s)) (ec_guid_prefix (e_config s)))
      (endpoint_submessage w r (e_seq_counter s + 1) (build_endpoint_data (e_config s) info))))
      <$> meta_addrs ps).
Proof.
  intros Hc. unfold next_seq_num. rewrite uadd_ok, !bind_ok by lia. eexists. split_and!; [done| |].
  - etrans; [|apply broadcast_same]. by split_and!.
  - by rewrite broadcast_sent.
Qed.

Lemma notify_queue g matched tx : chan_open tx = true → chan_cap tx = None →
  notify_matches g matched (Some tx) =
  Some (mkChan None true (chan_queue tx ++ ((λ e, mkWriterMatch e g) <$> matched))).
Proof.
  intros Ho Hc. destruct tx as [cap op q]. simpl in *. subst. f_equal.
  revert q. induction matched as [|e matched IH]; intros q; simpl; [by rewrite app_nil_r|].
  unfold send_event, try_send. simpl. rewrite IH. by rewrite <- app_assoc.
Qed.

(** Endpoint discovery end to end, for a writer: registering it sends one
    announcement to every known peer with an address; a service that receives
    it from [from] records the writer under its GUID and topic, and when it
    has readers of this topic it tells the listener about each of them,
    exactly once, and remembers the writer's address. *)
Theorem writer_discovery eid topic ps s sock : 0 <= e_seq_counter s < 2 ^ 32 - 1 →
  let cfg := e_config s in
  let info := mkEndpointInfo (mkGuid (ec_guid_prefix cfg) eid) topic true in
  endpoint_ok cfg info →
  let msg := endpoint_message cfg info (e_seq_counter s + 1) in
  (∃ s' sock', register_writer eid topic ps s sock = Ok (s', sock') ∧
     local_writers s' = <[eid := info]> (local_writers s) ∧
     sent sock' = sent sock ++ ((λ dst, (dst, msg)) <$> meta_addrs ps)) ∧
  ∀ r from tx, sedp_wf r → ec_guid_prefix cfg ≠ ec_guid_prefix (e_config r) →
    same_family (ec_ipv6 cfg) from = true → match_listener r = Some tx →
    chan_open tx = true → chan_cap tx = None →
    ∃ r' evs, handle_packet msg from r = Ok r' ∧
      remote_writers r' = <[ei_guid info := info]> (remote_writers r) ∧
      match_listener r' = Some (mkChan None true (chan_queue tx ++ evs)) ∧
      (∀ e, mkWriterMatch e (ei_guid info) ∈ evs ↔
         ∃ i, local_readers r !! e = Some i ∧ topic_name i = topic) ∧
      Forall (λ m, writer_guid m = ei_guid info) evs ∧
      (evs ≠ [] → ∃ l, matched_writer_locator (ei_guid info) r' = Some l ∧
         Locator.udp_addr l = Some (with_port from (ec_data_unicast_port cfg))).
Proof.
  intros Hc cfg info Ho msg. split.
  { destruct (register_sent ENTITYID_SEDP_PUB_WRITER ENTITYID_SEDP_PUB_READER info ps
      (set_local_writers (<[eid := info]> (local_writers s)) s) sock) as (st & Hst & Ht & Hs); [done|].
    exists st.1, st.2. destruct st as [s' sock']. split_and!; [exact Hst|apply Ht|exact Hs]. }
  intros r from tx Hw Hg Hf Htx Hop Hcap. unfold msg.
  rewrite handle_endpoint_message by (done || unfold is_u32; lia).
  unfold on_endpoint, on_remote_writer. cbn [is_writer info ei_guid topic_name].
  cbn [local_readers set_announces_received set_remote_writers].
  pose proof (λ e, readers_on_topic_spec r topic e Hw) as Hrt.
  destruct (readers_on_topic topic (local_readers r)) as [|e0 es] eqn:Hm.
  - eexists _, []. split_and!; try done.
    + cbn [match_listener set_matches set_remote_writers set_announces_received snd].
      rewrite Htx, app_nil_r. destruct tx. simpl in *. by subst.
    + intros e. rewrite <- Hrt. set_solver.
  - cbn [match_listener set_matches set_remote_writers set_announces_received set_writer_locators].
    rewrite Htx, notify_queue by done. eexists _, _. split_and!; [done|done|done| | |].
    + intros e. rewrite <- Hrt, list_elem_of_fmap. naive_solver.
    + by apply Forall_fmap, Forall_true.
    + intros _. eexists. split; [apply lookup_insert_eq|]. apply filled_addr; [done|apply Ho].
Qed.

(** The same for a reader: after its announcement has arrived, the receiver
    sends the samples of this topic to its address too. *)
Theorem reader_discovery eid topic ps s sock : 0 <= e_seq_counter s < 2 ^ 32 - 1 →
  let cfg := e_config s in
  let info := mkEndpointInfo (mkGuid (ec_guid_prefix cfg) eid) topic false in
  endpoint_ok cfg info → sedp_wf s →
  let msg := endpoint_message cfg info (e_seq_counter s + 1) in
  (∃ matched s' sock', register_reader eid topic ps s sock = Ok (matched, s', sock') ∧
     local_readers s' = <[eid := info]> (local_readers s) ∧
     (∀ g, g ∈ matched ↔ ∃ i, remote_writers s !! g = Some i ∧ topic_name i = topic) ∧
     sent sock' = sent sock ++ ((λ dst, (dst, msg)) <$> meta_addrs ps)) ∧
  ∀ r from, sedp_wf r → ec_guid_prefix cfg ≠ ec_guid_prefix (e_config r) →
    same_family (ec_ipv6 cfg) from = true →
    ∃ r' l, handle_packet msg from r = Ok r' ∧
      remote_readers r' = <[ei_guid info := info]> (remote_readers r) ∧
      l ∈ matched_reader_locators topic r' ∧
      Locator.udp_addr l = Some (with_port from (ec_data_unicast_port cfg)).
Proof.
  intros Hc cfg info Ho Hs msg. split.
  { destruct (register_sent ENTITYID_SEDP_SUB_WRITER ENTITYID_SEDP_SUB_READER info ps
      (set_local_readers (<[eid := info]> (local_readers s)) s) sock) as (st & Hst & Ht & Hsn); [done|].
    eexists _, st.1, st.2. split_and!; [|apply Ht| |exact Hsn].
    - unfold register_reader, announce_reader. cbn [fst snd]. fold cfg info. rewrite Hst. done.
    - intros g. exact (writers_of_topic_spec s topic g Hs). }
  intros r from Hw Hg Hf. unfold msg.
  rewrite handle_endpoint_message by (done || unfold is_u32; lia).
  set (l := fill_in_zero_address _ _). eexists _, l. split_and!; [done|done| |].
  - apply reader_locators_total; [apply wf_on_endpoint; [apply Ho|done]|].
    exists (ei_guid info), info. split_and!; [apply lookup_insert_eq|done|apply lookup_insert_eq].
  - apply filled_addr; [done|apply Ho].
Qed.
End sedp.

(** ** Eviction and late readers *)

Section eviction.
Context `{BuildProfile}.

(** Evicting a participant forgets its endpoints and only these. *)
Theorem eviction_forgets_peer p s g :
  let s' := on_peer_evicted p s in
  let gone := bool_decide (prefix g = p) in
  remote_writers s' !! g = (if gone then None else remote_writers s !! g) ∧
  remote_readers s' !! g = (if gone then None else remote_readers s !! g) ∧
  remote_reader_locators s' !! g = (if gone then None else remote_reader_locators s !! g) ∧
  writer_locators s' !! g = (if gone then None else writer_locators s !! g) ∧
  local_writers s' = local_writers s ∧ local_readers s' = local_readers s.
Proof.
  assert (∀ A (m : gmap Guid A), filter (λ gx, prefix gx.1 ≠ p) m !! g =
    if bool_decide (prefix g = p) then None else m !! g) as Hf.
  { intros A m. case_bool_decide as Hp.
    - apply map_lookup_filter_None. right. intros x _ Hx. by apply Hx.
    - destruct (m !! g) as [x|] eqn:Hm; [by apply map_lookup_filter_Some|].
      apply map_lookup_filter_None. by left. }
  cbn. rewrite !Hf. done.
Qed.

(** A reader registered after a writer of its topic was discovered is matched
    with it, but the writer's address is not remembered then:
    [matched_writer_locator] stays empty for a writer that is matched. *)
Theorem late_reader_has_no_writer_locator eid topic ps s sock g i :
  0 <= e_seq_counter s < 2 ^ 32 - 1 → sedp_wf s →
  remote_writers s !! g = Some i → topic_name i = topic → matched_writer_locator g s = None →
  ∃ matched s' sock', register_reader eid topic ps s sock = Ok (matched, s', sock') ∧
    g ∈ matched ∧ matched_writer_locator g s' = None.
Proof.
  intros Hc Hw Hg Ht Hn. set (info := mkEndpointInfo (mkGuid (ec_guid_prefix (e_config s)) eid) topic false).
  destruct (register_sent ENTITYID_SEDP_SUB_WRITER ENTITYID_SEDP_SUB_READER info ps
    (set_local_readers (<[eid := info]> (local_readers s)) s) sock) as (st & Hst & Hs & _); [done|].
  eexists _, st.1, st.2. split_and!.
  - unfold register_reader, announce_reader. cbn [fst snd]. fold info. by rewrite Hst.
  - apply (writers_of_topic_spec s topic g Hw). by exists i.
  - destruct Hs as (_&_&_&_&_&_&Hl&_). unfold matched_writer_locator. by rewrite Hl.
Qed.
End eviction.

(** ** Registration and discovery at the same time

    [register_reader] and [on_remote_writer] run in different tasks and hold
    one lock at a time: the former inserts into [local_readers], scans
    [remote_writers], and returns what it found once the reader is announced;
    the latter inserts into [remote_writers], scans [local_readers], records
    the locator, and sends its events if a listener is installed.  Each of
    these sections is one step on the service, and between two steps of a
    task any other task may run. *)

Inductive Task : Type :=
| RegInsert (eid : EntityId) (topic : list byte) (ps : list ParticipantProxy)
| RegScan (eid : EntityId) (info : EndpointInfo) (ps : list ParticipantProxy)
| RegAnnounce (eid : EntityId) (info : EndpointInfo) (ps : list ParticipantProxy) (matched : list Guid)
| DiscInsert (info : EndpointInfo) (loc : Locator)
| DiscScan (info : EndpointInfo) (loc : Locator)
| DiscLocate (guid : Guid) (loc : Locator) (matched : list EntityId)
| DiscNotify (guid : Guid) (matched : list EntityId)
| Idle.

#[global] Instance Task_eq_dec : EqDecision Task.
Proof. solve_decision. Defined.

(** The service and its socket, the pairs returned by registrations, and the
    events the listener has taken from its channel. *)
Record MatchRun : Type := mkMatchRun {
  mr_sedp : SedpService;
  mr_sock : RtpsSocket;
  ret_pairs : list (EntityId * Guid);
  taken_events : list WriterMatch }.

Definition with_sedp s (w : MatchRun) : MatchRun := mkMatchRun s (mr_sock w) (ret_pairs w) (taken_events w).

Section tasks.
Context `{BuildProfile}.

Definition task_step (t : Task) (w : MatchRun) : panics (Task * MatchRun) :=
  let self := mr_sedp w in
  match t with
  | RegInsert eid topic ps =>
      let info := mkEndpointInfo (mkGuid (ec_guid_prefix (e_config self)) eid) topic false in
      Ok (RegScan eid info ps, with_sedp (set_local_readers (<[eid := info]> (local_readers self)) self) w)
  | RegScan eid info ps =>
      Ok (RegAnnounce eid info ps (writers_of_topic (topic_name info) (remote_writers self)), w)
  | RegAnnounce eid info ps matched =>
      st ← announce_reader info None ps (self, mr_sock w);
      Ok (Idle, mkMatchRun st.1 st.2 (ret_pairs w ++ (pair eid <$> matched)) (taken_events w))
  | DiscInsert info loc =>
      Ok (DiscScan info loc, with_sedp (set_remote_writers (<[ei_guid info := info]> (remote_writers self)) self) w)
  | DiscScan info loc =>
      let matched := readers_on_topic (topic_name info) (local_readers self) in
      let self := set_matches (as_u 64 (endpoint_matches self + len matched)) self in
      Ok (match matched with [] => Idle | _ => DiscLocate (ei_guid info) loc matched end, with_sedp self w)
  | DiscLocate guid loc matched =>
      Ok (DiscNotify guid matched,
          with_sedp (set_writer_locators (<[guid := loc]> (writer_locators self)) self) w)
  | DiscNotify guid matched =>
      Ok (Idle, match notify_matches guid matched (match_listener self) with
                | Some tx => with_sedp (set_match_listener tx self) w
                | None => w
                end)
  | Idle => Ok (Idle, w)
  end.

(** A task with nothing else going on: at most [fuel] steps, until it is done. *)
Fixpoint alone (fuel : nat) (t : Task) (w : MatchRun) : panics MatchRun :=
  match t, fuel with
  | Idle, _ => Ok w
  | _, O => Panic
  | _, S fuel => tw ← task_step t w; alone fuel tw.1 tw.2
  end.

Definition starting (t : Task) : Prop :=
  match t with RegInsert _ _ _ | DiscInsert _ _ => True | _ => False end.

(** What the rest of the program does meanwhile to the service: anything that
    adds no entry to the two tables, changes no entry and leaves the listener
    alone, as the eviction of a participant and all other operations do. *)
Definition meanwhile s s' : Prop :=
  e_config s' = e_config s ∧ local_readers s' ⊆ local_readers s ∧ remote_writers s' ⊆ remote_writers s ∧
  match_listener s' = match_listener s.

Inductive match_step : list Task * MatchRun → list Task * MatchRun → Prop :=
| step_task ts k t w t' w' : ts !! k = Some t → t ≠ Idle → task_step t w = Ok (t', w') →
    match_step (ts, w) (<[k := t']> ts, w')
| step_spawn ts t w : starting t → match_step (ts, w) (ts ++ [t], w)
| step_take ts w tx ev q : match_listener (mr_sedp w) = Some tx → chan_queue tx = ev :: q →
    match_step (ts, w) (ts, mkMatchRun (set_match_listener (mkChan (chan_cap tx) (chan_open tx) q) (mr_sedp w))
                              (mr_sock w) (ret_pairs w) (taken_events w ++ [ev]))
| step_other ts w s' sock : meanwhile (mr_sedp w) s' →
    match_step (ts, w) (ts, mkMatchRun s' sock (ret_pairs w) (taken_events w)).

(** The run of given tasks under a schedule: which of them takes each step. *)
Fixpoint schedule (ks : list nat) (ts : list Task) (w : MatchRun) : option (list Task * MatchRun) :=
  match ks with
  | [] => Some (ts, w)
  | k :: ks =>
      t ← ts !! k;
      if bool_decide (t = Idle) then None
      else match task_step t w with Ok (t', w') => schedule ks (<[k := t']> ts) w' | _ => None end
  end.

Lemma schedule_steps ks ts w st : schedule ks ts w = Some st → rtc match_step (ts, w) st.
Proof using Type.
  revert ts w. induction ks as [|k ks IH]; intros ts w; cbn [schedule]; [intros [= <-]; apply rtc_refl|].
  destruct (ts !! k) as [t|] eqn:Hk; [|done]. cbn [mbind option_bind].
  case_bool_decide as Ht; [done|]. destruct (task_step t w) as [[t' w']| |] eqn:Hs; [|done..].
  intros Hr. eapply rtc_l; [by eapply step_task|]. by apply IH.
Qed.

(** The pairs reported so far: returned, taken by the listener, or waiting
    for it. *)
Definition waiting s : list WriterMatch :=
  match match_listener s with Some tx => chan_queue tx | None => [] end.

Definition reported (w : MatchRun) (e : EntityId) (g : Guid) : Prop :=
  (e, g) ∈ ret_pairs w ∨ mkWriterMatch e g ∈ taken_events w ++ waiting (mr_sedp w).

Lemma evicted_meanwhile p s : meanwhile s (on_peer_evicted p s).
Proof using Type. split_and!; [done|done|apply map_filter_subseteq|done]. Qed.

(** *** Run alone, the tasks are the two operations *)

Lemma register_alone eid topic ps s sock r d :
  alone 3 (RegInsert eid topic ps) (mkMatchRun s sock r d)
  = x ← register_reader eid topic ps s sock;
    Ok (mkMatchRun x.1.2 x.2 (r ++ (pair eid <$> x.1.1)) d).
Proof using Type.
  unfold register_reader. cbn. set (st := announce_reader _ _ _ _). by destruct st as [[] |[]|].
Qed.

Lemma discovery_alone info loc s sock r d :
  alone 4 (DiscInsert info loc) (mkMatchRun s sock r d) = Ok (mkMatchRun (on_remote_writer info loc s).2 sock r d).
Proof using Type.
  unfold on_remote_writer. cbn. destruct (readers_on_topic _ _) as [|e es]; [done|]. cbn.
  by destruct (match_listener s).
Qed.

(** *** The invariant *)

(** A task that will report the pair. *)
Definition wants (t : Task) s (e : EntityId) (g : Guid) : Prop :=
  match t with
  | RegScan eid i _ => eid = e ∧ local_readers s !! e = Some i
  | RegAnnounce eid _ _ m => eid = e ∧ g ∈ m
  | DiscScan i _ => ei_guid i = g ∧ remote_writers s !! g = Some i
  | DiscLocate g' _ m | DiscNotify g' m => g' = g ∧ e ∈ m
  | _ => False
  end.

(** A matching pair is reported or some task is about to. *)
Record match_inv (ts : list Task) (w : MatchRun) : Prop := {
  mi_listener : ∃ q, match_listener (mr_sedp w) = Some (mkChan None true q);
  mi_reader e i : local_readers (mr_sedp w) !! e = Some i → entity (ei_guid i) = e;
  mi_writer g i : remote_writers (mr_sedp w) !! g = Some i → ei_guid i = g;
  mi_match e i g j : local_readers (mr_sedp w) !! e = Some i → remote_writers (mr_sedp w) !! g = Some j →
    topic_name i = topic_name j →
    reported w e g ∨ ∃ t, t ∈ ts ∧ wants t (mr_sedp w) e g }.

Definition pair_in s e g (i j : EndpointInfo) : Prop :=
  local_readers s !! e = Some i ∧ remote_writers s !! g = Some j ∧ topic_name i = topic_name j.

Lemma values_elem {K A} `{Countable K} (m : gmap K A) x : x ∈ (map_to_list m).*2 ↔ ∃ k, m !! k = Some x.
Proof.
  rewrite list_elem_of_fmap. split.
  - intros ([k y] & -> & Hk). apply elem_of_map_to_list in Hk. by exists k.
  - intros [k Hk]. exists (k, x). split; [done|]. by apply elem_of_map_to_list.
Qed.

Lemma elem_of_insert_task (ts : list Task) k (t t' x : Task) : ts !! k = Some t →
  x ∈ ts → x = t ∨ x ∈ <[k := t']> ts.
Proof.
  intros Hk [j Hj]%list_elem_of_lookup. destruct (decide (j = k)) as [->|Hne]; [left; congruence|].
  right. apply list_elem_of_lookup. exists j. by rewrite list_lookup_insert_ne.
Qed.

Lemma new_task (ts : list Task) k (t t' : Task) : ts !! k = Some t → t' ∈ <[k := t']> ts.
Proof.
  intros Hk. apply list_elem_of_lookup. exists k. apply list_lookup_insert_eq.
  by eapply lookup_lt_Some.
Qed.

Lemma elem_of_inserted (ts : list Task) k (t' x : Task) : x ∈ <[k := t']> ts → x = t' ∨ x ∈ ts.
Proof.
  intros [j Hj]%list_elem_of_lookup. apply list_lookup_insert_Some in Hj as [(_ & <- & _)|[_ Hj]];
    [by left|right]. by eapply list_elem_of_lookup_2.
Qed.

Lemma announce_reader_same i o ps st st' : announce_reader i o ps st = Ok st' → same_tables st.1 st'.1.
Proof using Type.
  unfold announce_reader, next_seq_num. intros (k & (n & _ & [= <-])%bind_ok_inv & [= <-])%bind_ok_inv.
  etrans; [|apply broadcast_same]. by split_and!.
Qed.

(** The lookups of a step of a task. *)
Lemma step_tables t w t' w' : task_step t w = Ok (t', w') →
  (local_readers (mr_sedp w') = local_readers (mr_sedp w) ∨
   ∃ eid topic ps, t = RegInsert eid topic ps ∧ ∃ info, entity (ei_guid info) = eid ∧
     t' = RegScan eid info ps ∧ local_readers (mr_sedp w') = <[eid := info]> (local_readers (mr_sedp w))) ∧
  (remote_writers (mr_sedp w') = remote_writers (mr_sedp w) ∨
   ∃ info loc, t = DiscInsert info loc ∧ t' = DiscScan info loc ∧
     remote_writers (mr_sedp w') = <[ei_guid info := info]> (remote_writers (mr_sedp w))).
Proof using Type.
  destruct t as [eid topic ps|eid i ps|eid i ps m|i loc|i loc|g loc m|g m|]; cbn [task_step].
  - intros [= <- <-]. split; [right|by left]. exists eid, topic, ps. split; [done|].
    by exists (mkEndpointInfo (mkGuid (ec_guid_prefix (e_config (mr_sedp w))) eid) topic false).
  - intros [= <- <-]. split; by left.
  - intros (st & (_&_&H1&H2&_)%announce_reader_same & [= <- <-])%bind_ok_inv.
    cbn [fst mr_sedp] in *. rewrite H1, H2. split; by left.
  - intros [= <- <-]. split; [by left|right]. by exists i, loc.
  - intros [= <- <-]. split; by left.
  - intros [= <- <-]. split; by left.
  - intros [= <- <-]. split; left; by destruct (notify_matches _ _ _).
  - intros [= <- <-]. split; by left.
Qed.

Lemma step_listener t w t' w' q : task_step t w = Ok (t', w') →
  match_listener (mr_sedp w) = Some (mkChan None true q) →
  taken_events w' = taken_events w ∧ (∀ x, x ∈ ret_pairs w → x ∈ ret_pairs w') ∧
  ∃ q', match_listener (mr_sedp w') = Some (mkChan None true q') ∧ ∀ x, x ∈ q → x ∈ q'.
Proof using Type.
  intros Hs Hq. destruct t as [eid topic ps|eid i ps|eid i ps m|i loc|i loc|g loc m|g m|]; cbn [task_step] in Hs.
  3: { apply bind_ok_inv in Hs as (st & (_&_&_&_&_&_&_&H1)%announce_reader_same & [= <- <-]).
    cbn [fst mr_sedp taken_events ret_pairs] in *. rewrite H1. split_and!; [done| |by exists q].
    intros x Hx. apply elem_of_app. by left. }
  6: { rewrite Hq, notify_queue in Hs by done. injection Hs as <- <-. split_and!; [done|done|].
    eexists. split; [done|]. intros x Hx. cbn [chan_queue]. apply elem_of_app. by left. }
  all: injection Hs as <- <-; split_and!; [done|done|by exists q].
Qed.

Lemma step_reported t w t' w' e g : task_step t w = Ok (t', w') →
  (∃ q, match_listener (mr_sedp w) = Some (mkChan None true q)) → reported w e g → reported w' e g.
Proof using Type.
  intros Hs [q Hq] Hr. destruct (step_listener _ _ _ _ _ Hs Hq) as (Ht & Hret & q' & Hq' & Hin).
  unfold reported, waiting in *. rewrite Ht, Hq'. rewrite Hq in Hr. rewrite !elem_of_app in *.
  cbn [chan_queue] in *. destruct Hr as [Hr|[Hr|Hr]]; auto.
Qed.

(** A task that wants the pair and takes a step reports it or still wants it. *)
Lemma wants_step ts w t t' w' e g i j : match_inv ts w → pair_in (mr_sedp w) e g i j →
  task_step t w = Ok (t', w') → wants t (mr_sedp w) e g → reported w' e g ∨ wants t' (mr_sedp w') e g.
Proof using Type.
  intros Hinv (Hi & Hj & Hij) Hs Hw.
  destruct t as [eid topic ps|eid i' ps|eid i' ps m|i' loc|i' loc|g' loc m|g' m|]; cbn [task_step] in Hs; simpl in Hw; try done.
  - injection Hs as <- <-. right. destruct Hw as [-> Hi']. split; [done|]. apply list_elem_of_fmap.
    exists j. split; [symmetry; by eapply mi_writer|].
    apply list_elem_of_filter. split; [congruence|]. apply values_elem. by exists g.
  - destruct Hw as [-> Hg]. apply bind_ok_inv in Hs as (st & _ & [= <- <-]). left. left. simpl.
    apply elem_of_app. right. by apply list_elem_of_fmap_2.
  - injection Hs as <- <-. right. destruct Hw as [<- Hj']. 
    assert (e ∈ readers_on_topic (topic_name i') (local_readers (mr_sedp w))) as He.
    { apply list_elem_of_fmap. exists i. split; [symmetry; by eapply mi_reader|].
      apply list_elem_of_filter. split; [congruence|]. apply values_elem. by exists e. }
    destruct (readers_on_topic _ _) as [|e0 es]; [by apply not_elem_of_nil in He|]. done.
  - injection Hs as <- <-. by right.
  - destruct (mi_listener _ _ Hinv) as [q Hq]. rewrite Hq, notify_queue in Hs by done. injection Hs as <- <-.
    destruct Hw as [-> He]. left. right. unfold waiting. simpl. rewrite !elem_of_app. right. right.
    apply list_elem_of_fmap. by exists e.
Qed.

(** What another task wants it still wants, unless the step replaced the
    entry it is about, which it then wants itself. *)
Lemma wants_frame t t0 w t' w' e g i j : pair_in (mr_sedp w') e g i j →
  task_step t w = Ok (t', w') → wants t0 (mr_sedp w) e g →
  wants t0 (mr_sedp w') e g ∨ wants t' (mr_sedp w') e g.
Proof using Type.
  intros (Hi & Hj & _) Hs Hw. destruct (step_tables _ _ _ _ Hs) as [Hrd Hwr].
  destruct t0 as [eid topic ps|eid i' ps|eid i' ps m|i' loc|i' loc|g' loc m|g' m|]; simpl in *; try by (left; simpl).
  - destruct Hrd as [->|(eid' & topic & ps' & -> & info & He & -> & Hrd)]; [by left|].
    destruct (decide (eid' = e)) as [->|Hne]; [right|left].
    + split; [done|]. rewrite Hrd. apply lookup_insert_eq.
    + rewrite Hrd, lookup_insert_ne by done. done.
  - destruct Hwr as [->|(info & loc' & -> & -> & Hwr)]; [by left|].
    destruct (decide (ei_guid info = g)) as [<-|Hne]; [right|left].
    + split; [done|]. rewrite Hwr. apply lookup_insert_eq.
    + rewrite Hwr, lookup_insert_ne by done. done.
Qed.

(** A step either found the pair in the tables or inserted one half of it and
    will scan for the other. *)
Lemma step_entries t w t' w' e g i j : task_step t w = Ok (t', w') → pair_in (mr_sedp w') e g i j →
  pair_in (mr_sedp w) e g i j ∨ wants t' (mr_sedp w') e g.
Proof using Type.
  intros Hs (Hi & Hj & Hij). destruct (step_tables _ _ _ _ Hs) as [Hrd Hwr]. unfold pair_in.
  destruct Hrd as [Hrd|(eid' & topic & ps' & -> & info & He & -> & Hrd)].
  2: { destruct (decide (eid' = e)) as [->|Hne]; [right; simpl; by rewrite Hrd, lookup_insert_eq|].
       destruct Hwr as [Hwr|(? & ? & [=] & _)]. rewrite Hrd, lookup_insert_ne in Hi by done. left.
       by rewrite <- Hwr. }
  destruct Hwr as [Hwr|(info & loc' & -> & -> & Hwr)]; [left; by rewrite <- Hrd, <- Hwr|].
  destruct (decide (ei_guid info = g)) as [<-|Hne]; [right; simpl; by rewrite Hwr, lookup_insert_eq|].
  rewrite Hwr, lookup_insert_ne in Hj by done. left. by rewrite <- Hrd.
Qed.

Lemma match_inv_task ts k t w t' w' : ts !! k = Some t → task_step t w = Ok (t', w') →
  match_inv ts w → match_inv (<[k := t']> ts) w'.
Proof using Type.
  intros Hk Hs Hinv. pose proof (step_tables _ _ _ _ Hs) as [Hrd Hwr].
  destruct (mi_listener _ _ Hinv) as [q Hq]. split.
  - destruct (step_listener _ _ _ _ _ Hs Hq) as (_ & _ & q' & Hq' & _). by exists q'.
  - intros e i Hi. destruct Hrd as [Hrd|(eid & topic & ps & _ & info & He & _ & Hrd)]; rewrite Hrd in Hi;
      [by apply (mi_reader _ _ Hinv)|].
    apply lookup_insert_Some in Hi as [[<- <-]|[_ Hi]]; [done|by apply (mi_reader _ _ Hinv)].
  - intros g j Hj. destruct Hwr as [Hwr|(info & loc & _ & _ & Hwr)]; rewrite Hwr in Hj;
      [by apply (mi_writer _ _ Hinv)|].
    apply lookup_insert_Some in Hj as [[<- <-]|[_ Hj]]; [done|by apply (mi_writer _ _ Hinv)].
  - intros e i g j Hi Hj Hij.
    destruct (step_entries t w t' w' e g i j Hs (conj Hi (conj Hj Hij))) as [Hp|Hw].
    2: { right. eexists. split; [by eapply new_task|done]. }
    pose proof Hp as (Hi0 & Hj0 & _).
    destruct (mi_match _ _ Hinv e i g j Hi0 Hj0 Hij) as [Hr|(t0 & Ht0 & Hw0)];
      [left; eapply step_reported; eauto|].
    destruct (elem_of_insert_task ts k t t' t0 Hk Ht0) as [->|Ht0'].
    + destruct (wants_step ts w t t' w' e g i j Hinv Hp Hs Hw0) as [?|?]; [by left|right].
      eexists. split; [by eapply new_task|done].
    + right. destruct (wants_frame t t0 w t' w' e g i j (conj Hi (conj Hj Hij)) Hs Hw0) as [?|?]; [by exists t0|].
      eexists. split; [by eapply new_task|done].
Qed.

(** Steps that add no entry keep what is wanted and what is reported. *)
Lemma match_inv_fewer ts w w' : match_inv ts w →
  (∃ q, match_listener (mr_sedp w') = Some (mkChan None true q)) →
  local_readers (mr_sedp w') ⊆ local_readers (mr_sedp w) →
  remote_writers (mr_sedp w') ⊆ remote_writers (mr_sedp w) →
  (∀ e g, reported w e g → reported w' e g) → match_inv ts w'.
Proof using Type.
  intros Hinv Hl Hrd Hwr Hrep. split.
  - exact Hl.
  - intros e i Hi. apply (mi_reader _ _ Hinv). by eapply lookup_weaken.
  - intros g j Hj. apply (mi_writer _ _ Hinv). by eapply lookup_weaken.
  - intros e i g j Hi Hj Hij. pose proof (lookup_weaken _ _ _ _ Hi Hrd) as Hi0.
    pose proof (lookup_weaken _ _ _ _ Hj Hwr) as Hj0.
    destruct (mi_match _ _ Hinv e i g j Hi0 Hj0 Hij) as [Hr|(t0 & Ht0 & Hw0)]; [left; by apply Hrep|].
    right. exists t0. split; [done|]. destruct t0; simpl in *; try done;
      destruct Hw0 as [-> Hw0]; (split; [done|congruence]).
Qed.

Lemma match_inv_step st st' : match_step st st' → match_inv st.1 st.2 → match_inv st'.1 st'.2.
Proof using Type.
  intros [ts k t w t' w' Hk _ Hs|ts t w _|ts w tx ev q Htx Hq|ts w s' sock (Hc & Hrd & Hwr & Hl)] Hinv; simpl in *.
  - by eapply match_inv_task.
  - destruct Hinv as [H1 H2 H3 H4]. split; [done..|].
    intros e i g j Hi Hj Hij. destruct (H4 e i g j Hi Hj Hij) as [?|(t0 & ? & ?)]; [by left|right].
    exists t0. split; [|done]. apply elem_of_app. by left.
  - destruct (mi_listener _ _ Hinv) as [q' Hq']. rewrite Htx in Hq'. injection Hq' as ->. simpl in Hq. subst q'.
    apply (match_inv_fewer _ w); [done|by exists q|done..|].
    intros e g. unfold reported, waiting. simpl. rewrite Htx. simpl.
    rewrite !elem_of_app, list_elem_of_singleton, elem_of_cons. tauto.
  - apply (match_inv_fewer _ w); [done|simpl; rewrite Hl; apply (mi_listener _ _ Hinv)|done..|].
    intros e g. unfold reported, waiting. simpl. by rewrite Hl.
Qed.

(** C10. No match is missed.  Each of the two operations is the run of its task
    alone.  And however the steps of such tasks - registrations of local
    readers and arrivals of remote writers - interleave with each other, with
    the listener that takes its events, and with anything else that adds no
    entry to the two tables, evictions included: once all of them have
    finished, every registered reader and every known writer that share a
    topic have been reported, by the return value of the registration or by
    an event, if a listener was installed from the start. *)
Theorem no_missed_match :
  (∀ eid topic ps s sock r d,
     alone 3 (RegInsert eid topic ps) (mkMatchRun s sock r d)
     = x ← register_reader eid topic ps s sock;
       Ok (mkMatchRun x.1.2 x.2 (r ++ (pair eid <$> x.1.1)) d)) ∧
  (∀ info loc s sock r d,
     alone 4 (DiscInsert info loc) (mkMatchRun s sock r d) = Ok (mkMatchRun (on_remote_writer info loc s).2 sock r d)) ∧
  ∀ cfg sock ts w,
    rtc match_step ([], mkMatchRun (set_match_listener unbounded_channel (SedpService_new cfg)) sock [] []) (ts, w) →
    Forall (λ t, t = Idle) ts →
    ∀ e i g j, local_readers (mr_sedp w) !! e = Some i → remote_writers (mr_sedp w) !! g = Some j →
      topic_name i = topic_name j → reported w e g.
Proof using Type.
  split; [apply register_alone|]. split; [apply discovery_alone|].
  intros cfg sock ts w Hr Hidle e i g j Hi Hj Hij.
  assert (match_inv ts w) as Hinv.
  { apply (rtc_invariant (λ st, match_inv st.1 st.2) _ _ _ match_inv_step Hr). split; simpl.
    - by exists [].
    - by intros ? ? ?%lookup_empty_Some.
    - by intros ? ? ?%lookup_empty_Some.
    - by intros ? ? ? ? ?%lookup_empty_Some. }
  destruct (mi_match _ _ Hinv e i g j Hi Hj Hij) as [?|(t & Ht & Hw)]; [done|].
  rewrite Forall_forall in Hidle. by rewrite (Hidle t Ht) in Hw.
Qed.
End tasks.

(** ** Witnesses *)

#[local] Instance demo_profile : BuildProfile := true.

Definition demo_sedp (b : byte) : SedpConfig := SedpConfig.new (mkGuidPrefix (vreplicate 12 b)) 7411.
Definition demo_entity (b : byte) : EntityId := mkEntityId (vreplicate 4 b).
Definition demo_topic : list byte := bytes_of_ascii "t".
Definition demo_from : SocketAddr := SocketAddrV4 (vreplicate 4 x0a) 7400.
Definition demo_peer : ParticipantProxy :=
  mkParticipantProxy (mkGuid (mkGuidPrefix (vreplicate 12 x02)) ENTITYID_PARTICIPANT)
    (Locator.udp_v4 (vreplicate 4 x0a) 7410) (Locator.udp_v4 (vreplicate 4 x0a) 7411) 63
    (10 * NANOS) (Some 0).
Definition demo_sedp_socket : RtpsSocket := mkRtpsSocket 7410 [] (λ _, None).

(** A receiver that has registered a reader and listens. *)
Definition demo_receiver : SedpService :=
  match register_reader (demo_entity x07) demo_topic [] (SedpService_new (demo_sedp x02)) demo_sedp_socket with
  | Ok (_, s, _) => set_match_listener unbounded_channel s
  | _ => SedpService_new (demo_sedp x02)
  end.

Lemma demo_receiver_wf : sedp_wf demo_receiver.
Proof.
  assert (demo_receiver = set_match_listener unbounded_channel (set_announces_sent 0 (set_seq 1
    (set_local_readers {[demo_entity x07 := mkEndpointInfo (mkGuid (mkGuidPrefix (vreplicate 12 x02))
      (demo_entity x07)) demo_topic false]} (SedpService_new (demo_sedp x02)))))) as ->
    by (vm_compute; reflexivity).
  split; try (by intros ? ? ?%lookup_empty_Some); try done.
  intros e i He. cbn in He. apply lookup_singleton_Some in He as [<- <-]. by split.
Qed.

Lemma endpoint_tables_witness :
  ∃ st, for_each sedp_step [RegisterWriter (demo_entity x07) demo_topic [demo_peer]; NewPeer demo_peer;
           Packet [x00] demo_from; PeerEvicted (mkGuidPrefix (vreplicate 12 x02))]
          (SedpService_new (demo_sedp x01), demo_sedp_socket) = Ok st ∧ sedp_wf st.1.
Proof.
  destruct (endpoint_tables (demo_sedp x01) demo_sedp_socket
    [RegisterWriter (demo_entity x07) demo_topic [demo_peer]; NewPeer demo_peer;
     Packet [x00] demo_from; PeerEvicted (mkGuidPrefix (vreplicate 12 x02))])
    as (st & E1 & E2 & _); [right; vm_compute; reflexivity|].
  exists st. split; [exact E1|exact E2].
Defined.

Lemma demo_endpoint_ok w : endpoint_ok (demo_sedp x01)
  (mkEndpointInfo (mkGuid (mkGuidPrefix (vreplicate 12 x01)) (demo_entity x09)) demo_topic w).
Proof. split_and!; try done; by apply (bool_decide_unpack _). Qed.

Lemma writer_discovery_witness :
  let msg := endpoint_message (demo_sedp x01)
    (mkEndpointInfo (mkGuid (mkGuidPrefix (vreplicate 12 x01)) (demo_entity x09)) demo_topic true) 1 in
  (∃ s' sock', register_writer (demo_entity x09) demo_topic [demo_peer]
                 (SedpService_new (demo_sedp x01)) demo_sedp_socket = Ok (s', sock') ∧
     sent sock' = [(SocketAddrV4 (vreplicate 4 x0a) 7410, msg)]) ∧
  ∃ r' evs, handle_packet msg demo_from demo_receiver = Ok r' ∧
    match_listener r' = Some (mkChan None true evs) ∧
    mkWriterMatch (demo_entity x07) (mkGuid (mkGuidPrefix (vreplicate 12 x01)) (demo_entity x09)) ∈ evs.
Proof.
  destruct (writer_discovery (demo_entity x09) demo_topic [demo_peer] (SedpService_new (demo_sedp x01))
    demo_sedp_socket) as [(s' & sock' & E1 & _ & E2) H];
    [split; vm_compute; congruence|apply demo_endpoint_ok|].
  split.
  - exists s', sock'. split; [exact E1|]. rewrite E2. reflexivity.
  - destruct (H demo_receiver demo_from unbounded_channel demo_receiver_wf)
      as (r' & evs & F1 & _ & F2 & F3 & _); [vm_compute; congruence|reflexivity..|].
    exists r', evs. split; [exact F1|]. split; [exact F2|]. apply F3.
    eexists. split; [vm_compute; reflexivity|reflexivity].
Defined.

Lemma reader_discovery_witness :
  let info := mkEndpointInfo (mkGuid (mkGuidPrefix (vreplicate 12 x01)) (demo_entity x09)) demo_topic false in
  ∃ r' l, handle_packet (endpoint_message (demo_sedp x01) info 1) demo_from demo_receiver = Ok r' ∧
    l ∈ matched_reader_locators demo_topic r' ∧
    Locator.udp_addr l = Some (SocketAddrV4 (vreplicate 4 x0a) 7411).
Proof.
  intros info.
  destruct (reader_discovery (demo_entity x09) demo_topic [demo_peer] (SedpService_new (demo_sedp x01))
    demo_sedp_socket) as [_ H]; [split; vm_compute; congruence|apply demo_endpoint_ok| |].
  { split; try done; intros ? ? ?%lookup_empty_Some; done. }
  destruct (H demo_receiver demo_from demo_receiver_wf) as (r' & l & E1 & _ & E2 & E3);
    [vm_compute; congruence|reflexivity|].
  exists r', l. split; [exact E1|]. split; [exact E2|exact E3].
Defined.

(** The writer is known before the reader is registered. *)
Lemma late_reader_has_no_writer_locator_witness :
  let info := mkEndpointInfo (mkGuid (mkGuidPrefix (vreplicate 12 x01)) (demo_entity x09)) demo_topic true in
  let s := on_endpoint info Locator_default (SedpService_new (demo_sedp x02)) in
  ∃ matched s' sock', register_reader (demo_entity x07) demo_topic [] s demo_sedp_socket
      = Ok (matched, s', sock') ∧
    ei_guid info ∈ matched ∧ matched_writer_locator (ei_guid info) s' = None.
Proof.
  intros info s.
  apply (late_reader_has_no_writer_locator (demo_entity x07) demo_topic [] s demo_sedp_socket
    (ei_guid info) info); [split; vm_compute; congruence| |vm_compute; reflexivity|reflexivity..].
  apply wf_on_endpoint; [vm_compute; congruence|]. split; try done; intros ? ? ?%lookup_empty_Some; done.
Defined.

(** A registration and a discovery, one step of each in turn. *)
Definition demo_remote_writer : Guid := mkGuid (mkGuidPrefix (vreplicate 12 x01)) (demo_entity x09).
Definition demo_tasks : list Task :=
  [RegInsert (demo_entity x07) demo_topic []; DiscInsert (mkEndpointInfo demo_remote_writer demo_topic true) Locator_default].
Definition demo_match_run : MatchRun :=
  mkMatchRun (set_match_listener unbounded_channel (SedpService_new (demo_sedp x02))) demo_sedp_socket [] [].

Lemma no_missed_match_witness :
  ∃ w, rtc match_step ([], demo_match_run) ([Idle; Idle], w) ∧
    topic_name <$> local_readers (mr_sedp w) !! demo_entity x07 = Some demo_topic ∧
    topic_name <$> remote_writers (mr_sedp w) !! demo_remote_writer = Some demo_topic ∧
    reported w (demo_entity x07) demo_remote_writer.
Proof.
  destruct (schedule [0; 1; 0; 1; 0; 1; 1]%nat demo_tasks demo_match_run) as [[ts w]|] eqn:Hrun.
  2: { assert (bool_decide (is_Some (schedule [0; 1; 0; 1; 0; 1; 1]%nat demo_tasks demo_match_run)) = true) as Hs
         by (vm_compute; reflexivity). rewrite Hrun in Hs. discriminate Hs. }
  assert (match schedule [0; 1; 0; 1; 0; 1; 1]%nat demo_tasks demo_match_run with
          | Some (ts, w) => bool_decide (ts = [Idle; Idle]
              ∧ topic_name <$> local_readers (mr_sedp w) !! demo_entity x07 = Some demo_topic
              ∧ topic_name <$> remote_writers (mr_sedp w) !! demo_remote_writer = Some demo_topic)
          | None => false end = true) as Hend by (vm_compute; reflexivity).
  rewrite Hrun in Hend. apply bool_decide_eq_true in Hend as (-> & Hi & Hj).
  assert (rtc match_step ([], demo_match_run) ([Idle; Idle], w)) as Hr.
  { eapply rtc_l; [apply (step_spawn [] (RegInsert (demo_entity x07) demo_topic [])); exact I|].
    eapply rtc_l; [apply (step_spawn _ (DiscInsert (mkEndpointInfo demo_remote_writer demo_topic true) Locator_default)); exact I|].
    exact (schedule_steps _ _ _ _ Hrun). }
  exists w. split; [exact Hr|]. split; [exact Hi|]. split; [exact Hj|].
  apply fmap_Some in Hi as (i & Hi & Ei). apply fmap_Some in Hj as (j & Hj & Ej).
  exact (proj2 (proj2 no_missed_match) (demo_sedp x02) demo_sedp_socket [Idle; Idle] w Hr ltac:(repeat constructor)
           _ _ _ _ Hi Hj (eq_trans (eq_sym Ei) Ej)).
Defined.
