(* ===== verification/Participant.v ===== *)
(** * Participant: the RTPS participant runtime (src/rtps/participant.rs)

    Readers, writers and the data path: sending through fragments and the
    reliable history, receiving DATA, DATA_FRAG, HEARTBEAT and ACKNACK
    submessages, and local delivery.  The participant holds the sedp service
    it calls, the sockets both send with, the files of its persistent history
    and the queues of its readers: an [Arc<SubInner>] is an index in [inners].

    A handler is one step of the state; the clocks it reads are arguments
    ([utc] for [Utc::now], [mono] for the reassembly deadline).  The entries
    of a [HashMap] come in the order of [map_to_list]. *)

From S2P Require Import Prelude Codec Guid Locator Wildcard Persist Types Observability SubQueue.
From S2P Require Import Counters Reliable Message Cdr Fragment Reassembly Socket Spdp Sedp.

Record ReaderState : Type := mkReaderState {
  r_topic : str;
  sources : gset Guid;
  r_inner : nat;
  r_reliable : bool;
  trackers : gmap Guid RecvTracker }.

Record WriterState : Type := mkWriterState {
  w_topic : str;
  w_seq : Z;
  w_reliable : bool;
  w_history : option SendHistory;
  w_acked : Z }.

Record RtpsWriter : Type := mkRtpsWriter { rw_eid : EntityId; rw_topic : str }.

(** The [SampleReceiver] and the [RtpsReader] of one reader. *)
Record RtpsReader : Type := mkRtpsReader { rr_inner : nat; rr_eid : EntityId }.

Record Clock : Type := mkClock { utc : Z; mono : Z }.

Record RtpsParticipant (N : Type) : Type := mkRtpsParticipant {
  rp_guid_prefix : GuidPrefix;
  rp_vendor_id : VendorId;
  data_socket : RtpsSocket;
  sedp : SedpService;
  meta_socket : RtpsSocket;
  entity_counter : Z;
  readers : gmap EntityId ReaderState;
  writers : gmap EntityId WriterState;
  frag_assembler : FragmentAssembler;
  rp_delivers : Z;
  rp_drops : Z;
  last_sample : gmap str Sample;
  persist_dir : option str;
  disk : FileSystem;
  user_data_multicast_addr : option SocketAddr;
  topic_counters : gmap str TopicCounters;
  inners : list (SubInner N) }.
Arguments mkRtpsParticipant {N}.
Arguments rp_guid_prefix {N}.
Arguments rp_vendor_id {N}.
Arguments data_socket {N}.
Arguments sedp {N}.
Arguments meta_socket {N}.
Arguments entity_counter {N}.
Arguments readers {N}.
Arguments writers {N}.
Arguments frag_assembler {N}.
Arguments rp_delivers {N}.
Arguments rp_drops {N}.
Arguments last_sample {N}.
Arguments persist_dir {N}.
Arguments disk {N}.
Arguments user_data_multicast_addr {N}.
Arguments topic_counters {N}.
Arguments inners {N}.

(** *** Field updates *)
Definition set_data_socket {N} x0 (self : RtpsParticipant N) : RtpsParticipant N :=
  mkRtpsParticipant (rp_guid_prefix self) (rp_vendor_id self) x0 (sedp self) (meta_socket
    self) (entity_counter self) (readers self) (writers self) (frag_assembler self)
    (rp_delivers self) (rp_drops self) (last_sample self) (persist_dir self) (disk self)
    (user_data_multicast_addr self) (topic_counters self) (inners self).
Definition set_sedp {N} x0 x1 (self : RtpsParticipant N) : RtpsParticipant N :=
  mkRtpsParticipant (rp_guid_prefix self) (rp_vendor_id self) (data_socket self) x0 x1
    (entity_counter self) (readers self) (writers self) (frag_assembler self) (rp_delivers
    self) (rp_drops self) (last_sample self) (persist_dir self) (disk self)
    (user_data_multicast_addr self) (topic_counters self) (inners self).
Definition set_entity_counter {N} x0 (self : RtpsParticipant N) : RtpsParticipant N :=
  mkRtpsParticipant (rp_guid_prefix self) (rp_vendor_id self) (data_socket self) (sedp self)
    (meta_socket self) x0 (readers self) (writers self) (frag_assembler self) (rp_delivers
    self) (rp_drops self) (last_sample self) (persist_dir self) (disk self)
    (user_data_multicast_addr self) (topic_counters self) (inners self).
Definition set_readers {N} x0 (self : RtpsParticipant N) : RtpsParticipant N :=
  mkRtpsParticipant (rp_guid_prefix self) (rp_vendor_id self) (data_socket self) (sedp self)
    (meta_socket self) (entity_counter self) x0 (writers self) (frag_assembler self)
    (rp_delivers self) (rp_drops self) (last_sample self) (persist_dir self) (disk self)
    (user_data_multicast_addr self) (topic_counters self) (inners self).
Definition set_writers {N} x0 (self : RtpsParticipant N) : RtpsParticipant N :=
  mkRtpsParticipant (rp_guid_prefix self) (rp_vendor_id self) (data_socket self) (sedp self)
    (meta_socket self) (entity_counter self) (readers self) x0 (frag_assembler self)
    (rp_delivers self) (rp_drops self) (last_sample self) (persist_dir self) (disk self)
    (user_data_multicast_addr self) (topic_counters self) (inners self).
Definition set_assembler {N} x0 (self : RtpsParticipant N) : RtpsParticipant N :=
  mkRtpsParticipant (rp_guid_prefix self) (rp_vendor_id self) (data_socket self) (sedp self)
    (meta_socket self) (entity_counter self) (readers self) (writers self) x0 (rp_delivers
    self) (rp_drops self) (last_sample self) (persist_dir self) (disk self)
    (user_data_multicast_addr self) (topic_counters self) (inners self).
Definition set_totals {N} x0 x1 (self : RtpsParticipant N) : RtpsParticipant N :=
  mkRtpsParticipant (rp_guid_prefix self) (rp_vendor_id self) (data_socket self) (sedp self)
    (meta_socket self) (entity_counter self) (readers self) (writers self) (frag_assembler
    self) x0 x1 (last_sample self) (persist_dir self) (disk self) (user_data_multicast_addr
    self) (topic_counters self) (inners self).
Definition set_last_sample {N} x0 (self : RtpsParticipant N) : RtpsParticipant N :=
  mkRtpsParticipant (rp_guid_prefix self) (rp_vendor_id self) (data_socket self) (sedp self)
    (meta_socket self) (entity_counter self) (readers self) (writers self) (frag_assembler
    self) (rp_delivers self) (rp_drops self) x0 (persist_dir self) (disk self)
    (user_data_multicast_addr self) (topic_counters self) (inners self).
Definition set_disk {N} x0 (self : RtpsParticipant N) : RtpsParticipant N :=
  mkRtpsParticipant (rp_guid_prefix self) (rp_vendor_id self) (data_socket self) (sedp self)
    (meta_socket self) (entity_counter self) (readers self) (writers self) (frag_assembler
    self) (rp_delivers self) (rp_drops self) (last_sample self) (persist_dir self) x0
    (user_data_multicast_addr self) (topic_counters self) (inners self).
Definition set_user_data_multicast_addr {N} x0 (self : RtpsParticipant N) : RtpsParticipant N :=
  mkRtpsParticipant (rp_guid_prefix self) (rp_vendor_id self) (data_socket self) (sedp self)
    (meta_socket self) (entity_counter self) (readers self) (writers self) (frag_assembler
    self) (rp_delivers self) (rp_drops self) (last_sample self) (persist_dir self) (disk
    self) x0 (topic_counters self) (inners self).
Definition set_topic_counters {N} x0 (self : RtpsParticipant N) : RtpsParticipant N :=
  mkRtpsParticipant (rp_guid_prefix self) (rp_vendor_id self) (data_socket self) (sedp self)
    (meta_socket self) (entity_counter self) (readers self) (writers self) (frag_assembler
    self) (rp_delivers self) (rp_drops self) (last_sample self) (persist_dir self) (disk
    self) (user_data_multicast_addr self) x0 (inners self).
Definition set_inners {N} x0 (self : RtpsParticipant N) : RtpsParticipant N :=
  mkRtpsParticipant (rp_guid_prefix self) (rp_vendor_id self) (data_socket self) (sedp self)
    (meta_socket self) (entity_counter self) (readers self) (writers self) (frag_assembler
    self) (rp_delivers self) (rp_drops self) (last_sample self) (persist_dir self) (disk
    self) (user_data_multicast_addr self) (topic_counters self) x0.

Section participant.
Context {N : Type} `{!Notify N} `{BuildProfile}.
Notation participant := (RtpsParticipant N).
Implicit Types self : participant.

(** ** Construction *)

(** [new] and [new_with_persistent_history], over the files of the system. *)
Definition new_inner (guid_prefix : GuidPrefix) (vendor_id : VendorId) (data_socket : RtpsSocket)
    (sedp : SedpService) (meta_socket : RtpsSocket) (persist_dir : option str) (disk : FileSystem)
    : participant :=
  mkRtpsParticipant guid_prefix vendor_id data_socket sedp meta_socket 0 ∅ ∅
    FragmentAssembler.new 0 0 ∅ persist_dir disk None ∅ [].

Definition set_user_data_multicast (dst : SocketAddr) self : participant :=
  set_user_data_multicast_addr (Some dst) self.

Definition next_entity_num self : panics (Z * participant) :=
  let old := entity_counter self in
  n ← uadd 32 old 1;
  Ok (n, set_entity_counter (wrapping_add 32 old 1) self).

Definition header self : Header :=
  mkHeader PROTOCOL_VERSION_2_3 (rp_vendor_id self) (rp_guid_prefix self).

(** [let _ = self.data_socket.send_to(&msg, dst).await;] *)
Definition send (msg : list byte) (dst : SocketAddr) self : participant :=
  set_data_socket (RtpsSocket.send_to msg dst (data_socket self)).2 self.

Definition send_all (msg : list byte) (dsts : list SocketAddr) self : participant :=
  foldl (λ self dst, send msg dst self) self dsts.

(** [for locator in matched_reader_locators(topic) { if let Some(addr) = locator.udp_addr() .. }] *)
Definition reader_addrs (topic : str) self : list SocketAddr :=
  omap Locator.udp_addr (matched_reader_locators topic (sedp self)).

(** [inner.push(sample)] *)
Definition push_sample (id : nat) (sample : Sample) self : bool * participant :=
  match inners self !! id with
  | None => (false, self)
  | Some i => let '(b, i) := push i sample in (b, set_inners (<[id := i]> (inners self)) self)
  end.

(** ** Registration *)

Definition new_writer_impl (topic : str) (reliable : bool) (peers : list ParticipantProxy) self
    : panics (RtpsWriter * participant) :=
  r ← next_entity_num self;
  let '(n, self) := r in
  let eid := entity_id_for_writer n in
  let history := if reliable then Some SendHistory_new else None in
  let self := set_writers (<[eid := mkWriterState topic 0 reliable history 0]> (writers self)) self in
  st ← register_writer eid topic peers (sedp self) (meta_socket self);
  Ok (mkRtpsWriter eid topic, set_sedp st.1 st.2 self).

Definition deliver_transient_local (now : Z) (topic : str) (id : nat) self : panics participant :=
  match last_sample self !! topic with
  | Some sample => Ok (push_sample id sample self).2
  | None =>
      match persist_dir self with
      | None => Ok self
      | Some dir =>
          r ← ok (persist_load dir topic (disk self));
          match r with
          | Some (Some payload) =>
              let sample := mkSample topic payload now 0 (vreplicate 16 x00) in
              let self := set_last_sample (<[topic := sample]> (last_sample self)) self in
              Ok (push_sample id sample self).2
          | _ => Ok self
          end
      end
  end.

Definition new_reader_impl (now : Z) (topic : str) (opts : SubscriberOptions)
    (reliable transient_local : bool) (peers : list ParticipantProxy) self
    : panics (RtpsReader * participant) :=
  r ← next_entity_num self;
  let '(n, self) := r in
  let eid := entity_id_for_reader n in
  let depth := chan_depth opts 64 in
  let id := length (inners self) in
  let self := set_inners (inners self ++ [SubInner_new depth (back_pressure opts)]) self in
  let state := mkReaderState topic ∅ id reliable ∅ in
  let self := set_readers (<[eid := state]> (readers self)) self in
  m ← register_reader eid topic peers (sedp self) (meta_socket self);
  let '(matched, sv, sock) := m in
  let self := set_sedp sv sock self in
  let state := mkReaderState topic (list_to_set matched) id reliable ∅ in
  let self := set_readers (<[eid := state]> (readers self)) self in
  self ← (if transient_local then deliver_transient_local now topic id self else Ok self);
  Ok (mkRtpsReader id eid, self).

(** [new_writer], [new_reader] and their variants. *)
Definition new_writer topic peers self : panics (RtpsWriter * participant) :=
  new_writer_impl topic false peers self.
Definition new_reliable_writer topic peers self : panics (RtpsWriter * participant) :=
  new_writer_impl topic true peers self.
Definition new_reader now topic opts peers self : panics (RtpsReader * participant) :=
  new_reader_impl now topic opts false false peers self.
Definition new_reliable_reader now topic opts peers self : panics (RtpsReader * participant) :=
  new_reader_impl now topic opts true false peers self.
Definition new_transient_local_reader now topic opts peers self
    : panics (RtpsReader * participant) :=
  new_reader_impl now topic opts false true peers self.
Definition new_reliable_transient_local_reader now topic opts peers self
    : panics (RtpsReader * participant) :=
  new_reader_impl now topic opts true true peers self.

Definition remove_reader (eid : EntityId) self : participant :=
  set_readers (delete eid (readers self)) self.

Definition unsubscribe (r : RtpsReader) self : participant := remove_reader (rr_eid r) self.

(** The start of [spawn_sedp_match_listener], and one round of its loop. *)
Definition listen_for_matches self : participant :=
  set_sedp (set_match_listener unbounded_channel (sedp self)) (meta_socket self) self.

Definition add_source (g : Guid) (state : ReaderState) : ReaderState :=
  mkReaderState (r_topic state) ({[g]} ∪ sources state) (r_inner state) (r_reliable state)
    (trackers state).

Definition match_listener_step self : option participant :=
  tx ← match_listener (sedp self);
  r ← chan_recv tx;
  let '(event, tx) := r in
  let self := set_sedp (set_match_listener tx (sedp self)) (meta_socket self) self in
  Some (set_readers (alter (add_source (Sedp.writer_guid event)) (reader_eid event) (readers self))
          self).

(** The body of the loop of [spawn_spdp_peer_listener]. *)
Definition peer_listener_step (proxy : ParticipantProxy) self : panics participant :=
  st ← on_new_peer proxy (sedp self) (meta_socket self);
  Ok (set_sedp st.1 st.2 self).

(** ** Dispatch *)

Definition accepts_source (state : ReaderState) (own_prefix : GuidPrefix) (source : Guid) : bool :=
  if bool_decide (sources state = ∅) then bool_decide (prefix source = own_prefix)
  else if bool_decide (prefix source = own_prefix) then true
  else bool_decide (source ∈ sources state).

Definition topic_counter (topic : str) self : TopicCounters :=
  default TopicCounters_default (topic_counters self !! topic).

Definition set_topic_counter (topic : str) (c : TopicCounters) self : participant :=
  set_topic_counters (<[topic := c]> (topic_counters self)) self.

(** One round of the loop of [dispatch_to_readers]. *)
Definition dispatch_one (source : Guid) (topic_filter : option str) (payload : list byte)
    (timestamp seq_num : Z) (self : participant) (er : EntityId * ReaderState) : participant :=
  let state := er.2 in
  let off_topic :=
    match topic_filter with
    | Some tf => negb (bool_decide (r_topic state = tf)) && negb (topic_matches (r_topic state) tf)
    | None => false
    end in
  if off_topic then self
  else if negb (accepts_source state (rp_guid_prefix self) source) then self
  else
    let byte_len := len payload in
    let sample := mkSample (r_topic state) payload timestamp seq_num (Guid.to_bytes source) in
    let counters := topic_counter (r_topic state) self in
    let '(taken, self) := push_sample (r_inner state) sample self in
    if taken then
      set_topic_counter (r_topic state) (count_deliver counters byte_len)
        (set_totals (fetch_add (rp_delivers self) 1) (rp_drops self) self)
    else
      set_topic_counter (r_topic state) (count_drop counters)
        (set_totals (rp_delivers self) (fetch_add (rp_drops self) 1) self).

Definition dispatch_to_readers (source : Guid) (topic_filter : option str) (payload : list byte)
    (timestamp seq_num : Z) self : participant :=
  foldl (dispatch_one source topic_filter payload timestamp seq_num) self
    (map_to_list (readers self)).

Definition topic_metrics self : list Observability.TopicMetrics :=
  (λ tc, TopicCounters_snapshot tc.2 tc.1) <$> map_to_list (topic_counters self).

(** ** Reliable readers *)

Definition set_tracker (eid : EntityId) (g : Guid) (tracker : RecvTracker) self : participant :=
  set_readers (alter (λ state, mkReaderState (r_topic state) (sources state) (r_inner state)
      (r_reliable state) (<[g := tracker]> (trackers state))) eid (readers self)) self.

(** The tracker of a writer, made on first contact. *)
Definition tracker_for (state : ReaderState) (g : Guid) : RecvTracker :=
  default RecvTracker_new (trackers state !! g).

Definition send_acknack (reader_eid : EntityId) (writer : Guid) (base bitmap : Z)
    (tracker : RecvTracker) (to : SocketAddr) self : runs participant :=
  r ← lift (RecvTracker_next_ack_count tracker);
  let '(count, tracker) := r in
  let self := set_tracker reader_eid writer tracker self in
  let an := mkAckNack reader_eid (entity writer) (SequenceNumber.from_u64 base) bitmap count in
  let msg := wrap_in_rtps_message (header self) (encode_acknack_submessage an) in
  Ok (send msg to self).

(** The part of both loops below that follows the update of the tracker. *)
Definition nack_missing (reader_eid : EntityId) (writer : Guid) (last : Z) (tracker : RecvTracker)
    (from : SocketAddr) self : runs participant :=
  let self := set_tracker reader_eid writer tracker self in
  m ← RecvTracker_missing last tracker;
  let '(base, bitmap, need_ack) := (m : Z * Z * bool) in
  if negb need_ack then Ok self
  else send_acknack reader_eid writer base bitmap tracker from self.

Definition notify_reader (writer : Guid) (seq : Z) (from : SocketAddr) (er : EntityId * ReaderState)
    self : runs participant :=
  let '(eid, state) := er in
  if negb (r_reliable state) || negb (accepts_source state (rp_guid_prefix self) writer) then Ok self
  else
    r ← lift (RecvTracker_record seq (tracker_for state writer));
    nack_missing eid writer seq r.2 from self.

Definition notify_reliable_readers (writer : Guid) (seq : Z) (from : SocketAddr) self
    : runs participant :=
  for_each (notify_reader writer seq from) (map_to_list (readers self)) self.

Definition heartbeat_reader (writer : Guid) (hb : Heartbeat) (from : SocketAddr)
    (er : EntityId * ReaderState) self : runs participant :=
  let '(eid, state) := er in
  if negb (r_reliable state) || negb (accepts_source state (rp_guid_prefix self) writer) then Ok self
  else
    let tracker := RecvTracker_init_expected (SequenceNumber.to_u64 (first_sn hb))
                     (tracker_for state writer) in
    nack_missing eid writer (SequenceNumber.to_u64 (last_sn hb)) tracker from self.

Definition handle_heartbeat (writer : Guid) (hb : Heartbeat) (from : SocketAddr) self
    : runs participant :=
  for_each (heartbeat_reader writer hb from) (map_to_list (readers self)) self.

(** ** Reliable writers *)

(** The compare-exchange loop of [advance_acked] leaves the larger number. *)
Definition advance_acked (ack_base : Z) (state : WriterState) : WriterState :=
  if ack_base =? 0 then state
  else
    let confirmed := ack_base - 1 in
    if w_acked state <? confirmed then
      mkWriterState (w_topic state) (w_seq state) (w_reliable state) (w_history state) confirmed
    else state.

(** One bit of the bitmap of an ACKNACK. *)
Definition retransmit (bitmap ack_base : Z) (history : SendHistory) (topic : str) (bit : Z) self
    : runs participant :=
  if Z.land bitmap (Z.shiftl 1 bit) =? 0 then Ok self
  else
    seq ← uadd 64 ack_base bit;
    m ← lift (SendHistory_get seq history);
    match m with
    | None => Ok self
    | Some msg => Ok (send_all msg (reader_addrs topic self) self)
    end.

(** The GAP for the evicted head of the request. *)
Definition send_gap (an : AckNack) (ack_base hist_first : Z) (topic : str) (from : SocketAddr) self
    : runs participant :=
  gap_end ← usub 64 hist_first 1;
  limit ← uadd 64 ack_base 31;
  let gap_end := if limit <? gap_end then limit else gap_end in
  let g := mkGap (an_reader_entity_id an) (an_writer_entity_id an)
             (SequenceNumber.from_u64 ack_base) (SequenceNumber.from_u64 gap_end) in
  let gap_msg := wrap_in_rtps_message (header self) (encode_gap_submessage g) in
  let self := send gap_msg from self in
  Ok (send_all gap_msg (reader_addrs topic self) self).

Definition handle_acknack (an : AckNack) (from : SocketAddr) self : runs participant :=
  let eid := an_writer_entity_id an in
  match writers self !! eid with
  | None => Ok self
  | Some state =>
      if negb (w_reliable state) then Ok self
      else match w_history state with
           | None => Ok self
           | Some history =>
               let ack_base := SequenceNumber.to_u64 (base an) in
               let self := set_writers (<[eid := advance_acked ack_base state]> (writers self)) self in
               let hist_first_last := SendHistory_first_last history in
               self ← for_each (retransmit (bitmap an) ack_base history (w_topic state))
                        (seqZ 0 32) self;
               match hist_first_last with
               | Some (hist_first, _) =>
                   if ack_base <? hist_first
                   then send_gap an ack_base hist_first (w_topic state) from self
                   else Ok self
               | None => Ok self
               end
           end
  end.

Definition set_history (h : SendHistory) (state : WriterState) : WriterState :=
  mkWriterState (w_topic state) (w_seq state) (w_reliable state) (Some h) (w_acked state).

Definition send_heartbeat (writer_eid : EntityId) self : runs participant :=
  match writers self !! writer_eid with
  | None => Ok self
  | Some state =>
      match w_history state with
      | None => Ok self
      | Some history =>
          match SendHistory_first_last history with
          | None => Ok self
          | Some (first, last) =>
              r ← lift (SendHistory_next_hb_count history);
              let '(count, history) := r in
              let self := set_writers (<[writer_eid := set_history history state]> (writers self))
                            self in
              let hb := mkHeartbeat ENTITYID_UNKNOWN writer_eid (SequenceNumber.from_u64 first)
                          (SequenceNumber.from_u64 last) count in
              let msg := wrap_in_rtps_message (header self) (encode_heartbeat_submessage hb) in
              Ok (send_all msg (reader_addrs (w_topic state) self) self)
          end
      end
  end.

(** [n] ticks of the task of [new_reliable_writer]. *)
Fixpoint heartbeat_loop (n : nat) (eid : EntityId) self : runs participant :=
  match n with
  | O => Ok self
  | S n => self ← send_heartbeat eid self; heartbeat_loop n eid self
  end.

(** ** The receive path *)

(** A sample that arrived whole: tracked, acknowledged, delivered. *)
Definition deliver_remote (clock : Clock) (source : Guid) (seq : Z) (payload : list byte)
    (from : SocketAddr) self : runs participant :=
  self ← notify_reliable_readers source seq from self;
  Ok (dispatch_to_readers source None payload (utc clock) seq self).

(** The body of the loop of [handle_data_packet]. *)
Definition handle_submessage (clock : Clock) (from : SocketAddr) (header : Header)
    (raw : RawSubmessage) self : runs participant :=
  let id := raw_id raw in
  if bool_decide (id = SUBMSG_DATA) then
    ds ← ok (decode_data_submessage (raw_flags raw) (raw_body raw));
    match ds with
    | None => Ok self
    | Some ds =>
        match payload ds with
        | None => Ok self
        | Some payload =>
            raw_payload ← ok (unwrap_payload payload);
            match raw_payload with
            | None => Ok self
            | Some raw_payload =>
                let source := mkGuid (guid_prefix header) (data_writer_entity_id ds) in
                deliver_remote clock source (SequenceNumber.to_u64 (seq_num ds)) raw_payload from self
            end
        end
    end
  else if bool_decide (id = SUBMSG_DATA_FRAG) then
    f ← ok (decode_data_frag (raw_body raw));
    match f with
    | None => Ok self
    | Some frag =>
        r ← lift (FragmentAssembler.receive (mono clock) frag (frag_assembler self));
        let '(reassembled, asm) := r in
        let self := set_assembler asm self in
        match reassembled with
        | None => Ok self
        | Some reassembled =>
            raw_payload ← ok (unwrap_payload reassembled);
            match raw_payload with
            | None => Ok self
            | Some raw_payload =>
                let source := mkGuid (guid_prefix header) (df_writer_entity_id frag) in
                deliver_remote clock source (SequenceNumber.to_u64 (writer_seq_num frag)) raw_payload
                  from self
            end
        end
    end
  else if bool_decide (id = SUBMSG_HEARTBEAT) then
    hb ← ok (decode_heartbeat_submessage (raw_body raw));
    match hb with
    | None => Ok self
    | Some hb =>
        handle_heartbeat (mkGuid (guid_prefix header) (hb_writer_entity_id hb)) hb from self
    end
  else if bool_decide (id = SUBMSG_ACKNACK) then
    an ← ok (decode_acknack_submessage (raw_body raw));
    match an with
    | None => Ok self
    | Some an => handle_acknack an from self
    end
  else Ok self.

Definition handle_data_packet (clock : Clock) (data : list byte) (from : SocketAddr) self
    : runs participant :=
  receive_message (rp_guid_prefix self) (handle_submessage clock from) data self.

(** ** Writing *)

(** The wire messages of one sample. *)
Definition messages (eid : EntityId) (seq : Z) (wrapped : list byte) self : runs (list (list byte)) :=
  if MAX_FRAGMENT_PAYLOAD <? len wrapped then
    let wire frag := wrap_in_rtps_message (header self) (encode_data_frag frag) in
    frags ← split_into_fragments (S (length wrapped)) eid (SequenceNumber.from_u64 seq) wrapped;
    Ok (wire <$> (frags : list DataFrag))
  else
    let submsg := encode_data_submessage eid ENTITYID_UNKNOWN (SequenceNumber.from_u64 seq) wrapped in
    Ok [wrap_in_rtps_message (header self) submsg].

(** The remote half of [write]: one multicast send per message, or unicast
    to every matched reader. *)
Definition send_remote (topic : str) (msgs : list (list byte)) self : participant :=
  match matched_reader_locators topic (sedp self) with
  | [] => self
  | _ =>
      match user_data_multicast_addr self with
      | Some dst => foldl (λ self msg, send msg dst self) self msgs
      | None =>
          foldl (λ self addr, foldl (λ self msg, send msg addr self) self msgs) self
            (reader_addrs topic self)
      end
  end.

Definition set_seq (seq : Z) (state : WriterState) : WriterState :=
  mkWriterState (w_topic state) seq (w_reliable state) (w_history state) (w_acked state).

Definition write (now : Z) (w : RtpsWriter) (payload : list byte) self : runs participant :=
  match writers self !! rw_eid w with
  | None => Ok self
  | Some state =>
      seq ← uadd 64 (w_seq state) 1;
      let state := set_seq (fetch_add (w_seq state) 1) state in
      let self := set_writers (<[rw_eid w := state]> (writers self)) self in
      let self := set_topic_counter (rw_topic w)
                    (count_write (topic_counter (rw_topic w) self) (len payload)) self in
      let wrapped := wrap_payload payload in
      msgs ← messages (rw_eid w) seq wrapped self;
      state ← (match w_history state, msgs with
               | Some history, first :: _ =>
                   h ← lift (SendHistory_store seq first history); Ok (set_history h state)
               | _, _ => Ok state
               end);
      let self := set_writers (<[rw_eid w := state]> (writers self)) self in
      let source := mkGuid (rp_guid_prefix self) (rw_eid w) in
      let last := mkSample (rw_topic w) payload now seq (Guid.to_bytes source) in
      let self := set_last_sample (<[rw_topic w := last]> (last_sample self)) self in
      let self := match persist_dir self with
                  | Some dir => set_disk (persist_flush dir (rw_topic w) payload (disk self)) self
                  | None => self
                  end in
      let self := dispatch_to_readers source (Some (rw_topic w)) payload now seq self in
      let self := send_remote (rw_topic w) msgs self in
      if w_reliable state then send_heartbeat (rw_eid w) self else Ok self
  end.
End participant.

(** ** Dispatch: which queue gets what *)

Definition on_topic (topic_filter : option str) (state : ReaderState) : bool :=
  match topic_filter with
  | Some tf => bool_decide (r_topic state = tf) || topic_matches (r_topic state) tf
  | None => true
  end.

Definition takes (own : GuidPrefix) (source : Guid) (tf : option str) (state : ReaderState) : bool :=
  on_topic tf state && accepts_source state own source.

Section dispatch.
Context {N : Type} `{!Notify N}.
Notation participant := (RtpsParticipant N).
Implicit Types self : participant.
Context (source : Guid) (tf : option str) (p : list byte) (ts seq : Z).

Definition sample_for (state : ReaderState) : Sample :=
  mkSample (r_topic state) p ts seq (Guid.to_bytes source).

(** The samples that the queue [id] is offered. *)
Definition offered (own : GuidPrefix) (id : nat) (ers : list (EntityId * ReaderState))
    : list Sample :=
  (λ er, sample_for er.2) <$> filter (λ er, takes own source tf er.2 ∧ r_inner er.2 = id) ers.

(** Only queues and counters differ. *)
Definition only_delivered self self' : Prop :=
  self' = set_inners (inners self') (set_totals (rp_delivers self') (rp_drops self')
            (set_topic_counters (topic_counters self') self)).

Lemma only_delivered_refl self : only_delivered self self.
Proof using Type. by destruct self. Qed.

Lemma only_delivered_trans s1 s2 s3 :
  only_delivered s1 s2 → only_delivered s2 s3 → only_delivered s1 s3.
Proof using Type. unfold only_delivered. intros -> H. rewrite H. by destruct s1. Qed.

(** One offered sample: pushed and counted. *)
Definition offer (state : ReaderState) self : participant :=
  let counters := topic_counter (r_topic state) self in
  let '(taken, self) := push_sample (r_inner state) (sample_for state) self in
  if taken then
    set_topic_counter (r_topic state) (count_deliver counters (len p))
      (set_totals (fetch_add (rp_delivers self) 1) (rp_drops self) self)
  else
    set_topic_counter (r_topic state) (count_drop counters)
      (set_totals (rp_delivers self) (fetch_add (rp_drops self) 1) self).

Lemma dispatch_one_eq self er :
  dispatch_one source tf p ts seq self er
  = if takes (rp_guid_prefix self) source tf er.2 then offer er.2 self else self.
Proof using Type.
  unfold dispatch_one, takes, on_topic. destruct tf as [t|]; cbn [andb].
  - rewrite <- negb_orb. by destruct (_ || _), (accepts_source _ _ _).
  - by destruct (accepts_source _ _ _).
Qed.

Lemma offer_spec state self :
  let self' := offer state self in
  only_delivered self self' ∧
  length (inners self') = length (inners self) ∧
  (∀ id, inners self' !! id =
    (λ i, if decide (r_inner state = id) then (push i (sample_for state)).2 else i)
      <$> inners self !! id) ∧
  ∃ b : bool, rp_delivers self' = (if b then fetch_add (rp_delivers self) 1 else rp_delivers self) ∧
    rp_drops self' = (if b then rp_drops self else fetch_add (rp_drops self) 1).
Proof using Type.
  cbv zeta. unfold offer, push_sample. destruct (inners self !! r_inner state) as [i|] eqn:Hi.
  - destruct (push i _) as [b i'] eqn:Hp.
    assert (∀ id, <[r_inner state := i']> (inners self) !! id =
      (λ i, if decide (r_inner state = id) then (push i (sample_for state)).2 else i)
        <$> inners self !! id) as Hst.
    { intros id. destruct (decide (r_inner state = id)) as [<-|Hne].
      - rewrite list_lookup_insert_eq by by eapply lookup_lt_Some. rewrite Hi. simpl. by rewrite Hp.
      - rewrite list_lookup_insert_ne by done. by destruct (inners self !! id). }
    destruct b; (split_and!; [by destruct self| |exact Hst|]);
      try (simpl; by rewrite length_insert); [by exists true|by exists false].
  - split_and!; [by destruct self|done| |by exists false].
    intros id. simpl. destruct (decide (r_inner state = id)) as [<-|Hne]; [by rewrite Hi|].
    by destruct (inners self !! id).
Qed.

(** *** The whole loop *)

Definition takers (own : GuidPrefix) (ers : list (EntityId * ReaderState))
    : list (EntityId * ReaderState) :=
  filter (λ er, takes own source tf er.2 = true) ers.

Lemma dispatch_fold ers self : is_u64 (rp_delivers self) → is_u64 (rp_drops self) →
  let self' := foldl (dispatch_one source tf p ts seq) self ers in
  only_delivered self self' ∧
  length (inners self') = length (inners self) ∧
  (∀ id, inners self' !! id =
    (λ i, (push_all i (offered (rp_guid_prefix self) id ers)).2) <$> inners self !! id) ∧
  ∃ a, 0 <= a <= len (takers (rp_guid_prefix self) ers) ∧
    rp_delivers self' = as_u 64 (rp_delivers self + a) ∧
    rp_drops self' = as_u 64 (rp_drops self + (len (takers (rp_guid_prefix self) ers) - a)).
Proof using Type.
  revert self. induction ers as [|er ers IH]; intros self Hd Hr; cbv zeta.
  - split_and!; [apply only_delivered_refl|done| |].
    + intros id. simpl. by destruct (inners self !! id).
    + exists 0. unfold takers. cbn [foldl]. rewrite filter_nil.
      replace (len _) with 0 by done. split_and!; [lia|lia|by rewrite as_u64_0..].
  - cbn [foldl]. rewrite dispatch_one_eq. unfold takers, offered. rewrite !filter_cons.
    destruct (takes (rp_guid_prefix self) source tf er.2) eqn:Htk.
    2:{ rewrite decide_False by done. destruct (IH self Hd Hr) as (H1 & H2 & H3 & H4).
        split_and!; [exact H1|exact H2| |exact H4]. intros id. rewrite filter_cons_False by (rewrite Htk; by intros [? _]).
        apply H3. }
    rewrite decide_True by done. destruct (offer_spec er.2 self) as (He & Hl & Hst & b & Hd1 & Hr1).
    set (self1 := offer er.2 self) in *. clearbody self1.
    assert (rp_guid_prefix self1 = rp_guid_prefix self) as Hg by by rewrite He.
    assert (is_u64 (rp_delivers self1)) by (rewrite Hd1; destruct b; [apply as_u64_range|done]).
    assert (is_u64 (rp_drops self1)) by (rewrite Hr1; destruct b; [done|apply as_u64_range]).
    destruct (IH self1) as (He2 & Hl2 & Hst2 & a & Ha & Hd2 & Hr2); [done..|].
    rewrite Hg in *. set (self2 := foldl _ self1 ers) in *. clearbody self2. split_and!.
    + by eapply only_delivered_trans.
    + congruence.
    + intros id. rewrite Hst2, Hst, <- option_fmap_compose. apply option_fmap_ext. intros i. simpl.
      rewrite filter_cons. destruct (decide (r_inner er.2 = id)) as [Heq|Hne].
      * rewrite decide_True by (by rewrite Htk). rewrite fmap_cons. cbn [push_all].
        destruct (push i (sample_for er.2)) as [b1 i1]. cbn [snd].
        by destruct (push_all i1 _).
      * by rewrite decide_False by (by intros [_ ?]).
    + rewrite len_cons. exists ((if b then 1 else 0) + a). unfold takers in Ha.
      rewrite Hd2, Hr2, Hd1, Hr1. destruct b; (split; [lia|]);
        rewrite ?(fetch_add_then _ 1 _ _ eq_refl); split; f_equal; unfold takers; lia.
Qed.

(** *** In a state where no two readers share a queue *)

Definition queues_apart self : Prop :=
  ∀ e1 e2 st1 st2, readers self !! e1 = Some st1 → readers self !! e2 = Some st2 →
    r_inner st1 = r_inner st2 → e1 = e2.

Lemma offered_other own id ers : (∀ er, er ∈ ers → r_inner er.2 ≠ id) → offered own id ers = [].
Proof using Type.
  intros Hne. unfold offered. induction ers as [|er ers IH]; [done|].
  rewrite filter_cons_False by (intros [_ ?]; by apply (Hne er); [left|]).
  apply IH. intros er' Her. apply Hne. by right.
Qed.

Lemma offered_own self e st : queues_apart self → readers self !! e = Some st →
  offered (rp_guid_prefix self) (r_inner st) (map_to_list (readers self))
  = if takes (rp_guid_prefix self) source tf st then [sample_for st] else [].
Proof using Type.
  intros Hq He. assert ((e, st) ∈ map_to_list (readers self)) as Hin by by apply elem_of_map_to_list.
  pose proof (NoDup_fst_map_to_list (readers self)) as Hnd.
  assert (∀ er, er ∈ map_to_list (readers self) → r_inner er.2 = r_inner st → er.1 = e) as Hap.
  { intros [e' st'] Hel%elem_of_map_to_list Heq. by eapply Hq. }
  clear Hq He. revert Hnd Hin Hap. generalize (map_to_list (readers self)) as ers.
  intros ers. induction ers as [|er ers IH]; intros Hnd Hin Hap; [by apply elem_of_nil in Hin|].
  apply NoDup_cons in Hnd as [Hni Hnd]. apply elem_of_cons in Hin as [<-|Hin].
  - unfold offered in *. assert ((λ er, sample_for er.2) <$> filter (λ er0 : EntityId * ReaderState,
        takes (rp_guid_prefix self) source tf er0.2 ∧ r_inner er0.2 = r_inner st) ers = []) as Hr.
    { apply offered_other. intros er Her Heq. apply Hni. simpl.
      rewrite <- (Hap er); [by apply list_elem_of_fmap_2|by right|done]. }
    rewrite filter_cons. simpl. destruct (takes _ _ _ _) eqn:Htk.
    + rewrite decide_True by done. by rewrite fmap_cons, Hr.
    + rewrite decide_False by (by intros [? _]). exact Hr.
  - unfold offered. rewrite filter_cons_False.
    + apply IH; [done|done|]. intros er' Her. apply Hap. by right.
    + intros [_ Heq]. apply Hni. rewrite (Hap er); [|by left|done].
      by apply (list_elem_of_fmap_2 fst) in Hin.
Qed.

Lemma dispatch_spec self : queues_apart self → is_u64 (rp_delivers self) → is_u64 (rp_drops self) →
  let self' := dispatch_to_readers source tf p ts seq self in
  only_delivered self self' ∧ length (inners self') = length (inners self) ∧
  is_u64 (rp_delivers self') ∧ is_u64 (rp_drops self') ∧
  (∀ e st, readers self !! e = Some st → inners self' !! r_inner st =
     (λ i, if takes (rp_guid_prefix self) source tf st then (push i (sample_for st)).2 else i)
       <$> inners self !! r_inner st) ∧
  (∀ id, (∀ e st, readers self !! e = Some st → r_inner st ≠ id) →
     inners self' !! id = inners self !! id).
Proof using Type.
  intros Hq Hd Hr. cbv zeta. unfold dispatch_to_readers.
  destruct (dispatch_fold (map_to_list (readers self)) self Hd Hr) as (H1 & H2 & H3 & a & _ & H4 & H5).
  split_and!; [done|done|rewrite H4; apply as_u64_range|rewrite H5; apply as_u64_range| |].
  - intros e st He. rewrite H3, (offered_own self e st Hq He).
    destruct (takes _ _ _ _); apply option_fmap_ext; intros i; simpl; [|done].
    by destruct (push i _).
  - intros id Hid. rewrite H3, offered_other; [by destruct (inners self !! id)|].
    intros [e st] Hel%elem_of_map_to_list. by apply (Hid e st).
Qed.
End dispatch.

(** ** What each operation leaves alone *)

Section frames.
Context `{BuildProfile}.
Implicit Types s : SedpService.

Lemma announce_writer_frame info o ps st st' :
  announce_writer info o ps st = Ok st' → same_tables st.1 st'.1.
Proof.
  unfold announce_writer, Sedp.next_seq_num. intros (r & (n & _ & [= <-])%bind_ok_inv & [= <-])%bind_ok_inv.
  etrans; [|apply broadcast_same]. by split_and!.
Qed.

Lemma announce_reader_frame info o ps st st' :
  announce_reader info o ps st = Ok st' → same_tables st.1 st'.1.
Proof.
  unfold announce_reader, Sedp.next_seq_num. intros (r & (n & _ & [= <-])%bind_ok_inv & [= <-])%bind_ok_inv.
  etrans; [|apply broadcast_same]. by split_and!.
Qed.

Lemma register_writer_frame eid t ps s sock st' : register_writer eid t ps s sock = Ok st' →
  same_tables (set_local_writers (<[eid := mkEndpointInfo (mkGuid (ec_guid_prefix (e_config s)) eid)
                                             t true]> (local_writers s)) s) st'.1.
Proof. apply announce_writer_frame. Qed.

Lemma register_reader_frame eid t ps s sock m s' sock' :
  register_reader eid t ps s sock = Ok (m, s', sock') →
  m = writers_of_topic t (remote_writers s) ∧
  same_tables (set_local_readers (<[eid := mkEndpointInfo (mkGuid (ec_guid_prefix (e_config s)) eid)
                                             t false]> (local_readers s)) s) s'.
Proof.
  unfold register_reader. intros (st & Ha%announce_reader_frame & [= <- <- <-])%bind_ok_inv. done.
Qed.

Lemma on_new_peer_frame proxy s sock st' : on_new_peer proxy s sock = Ok st' → same_tables s st'.1.
Proof.
  unfold on_new_peer. intros (st & H1 & H2)%bind_ok_inv.
  apply (for_each_inv (λ st', same_tables st.1 st'.1)) in H2; [|clear; intros x st1 st2 ? ?%announce_reader_frame; by etrans|done].
  apply (for_each_inv (λ st', same_tables s st'.1)) in H1; [|clear; intros x st1 st2 ? ?%announce_writer_frame; by etrans|done].
  by etrans.
Qed.
End frames.

Definition untracked (st : ReaderState) : str * gset Guid * nat * bool :=
  (r_topic st, sources st, r_inner st, r_reliable st).

Definition tracker_ok (tr : RecvTracker) : Prop := init_done tr = true ∧ is_u64 (expected tr).

Definition trackers_ok (st : ReaderState) : Prop :=
  (r_reliable st = false → trackers st = ∅) ∧ map_Forall (λ _ tr, tracker_ok tr) (trackers st).

Definition writer_core (ws : WriterState) : str * Z * bool * bool :=
  (w_topic ws, w_seq ws, w_reliable ws, bool_decide (is_Some (w_history ws))).

Lemma uadd_u64 `{BuildProfile} {E} a b (n : Z) : 0 <= a → 0 <= b → uadd (E:=E) 64 a b = Ok n → is_u64 n.
Proof.
  intros Ha Hb. unfold uadd. destruct (Z.ltb_spec (a + b) (2 ^ 64)); [intros [= <-]; unfold is_u64; lia|].
  destruct overflow_checks; [done|]. intros [= <-]. apply as_u64_range.
Qed.

Lemma advance_loop_u64 `{BuildProfile} fuel e a e' a' : is_u64 e →
  advance_loop fuel e a = Ok (e', a') → is_u64 e'.
Proof.
  revert e a. induction fuel as [|fuel IH]; intros e a He; cbn [advance_loop]; [by intros [= <- <-]|].
  case_bool_decide; [|by intros [= <- <-]]. intros (n & Hn & Hr)%bind_ok_inv.
  eapply IH; [|done]. revert Hn. apply uadd_u64; [apply He|done].
Qed.

Lemma record_tracker_ok `{BuildProfile} seq tr b tr' : is_u64 seq → is_u64 (expected tr) →
  RecvTracker_record seq tr = Ok (b, tr') → tracker_ok tr'.
Proof.
  intros Hs He. unfold RecvTracker_record.
  set (t := RecvTracker_init_expected seq tr).
  assert (tracker_ok t) as [Hi Ht].
  { unfold t, RecvTracker_init_expected. destruct (init_done tr) eqn:?; by split. }
  destruct (seq <? expected t); [by intros [= <- <-]|]. destruct (seq =? expected t).
  - intros (e & Hu & ([e' a'] & Hl & [= <- <-])%bind_ok_inv)%bind_ok_inv. split; [done|].
    simpl. eapply advance_loop_u64; [|exact Hl]. revert Hu. apply uadd_u64; [apply Ht|done].
  - case_bool_decide; intros [= <- <-]; by split.
Qed.

Section only.
Context {N : Type} `{!Notify N} `{BuildProfile}.
Notation participant := (RtpsParticipant N).
Implicit Types self : participant.

(** Only trackers and the sends of the data socket differ. *)
Definition only_tracked self self' : Prop :=
  self' = set_data_socket (data_socket self') (set_readers (readers self') self) ∧
  (∀ e, untracked <$> readers self' !! e = untracked <$> readers self !! e) ∧
  (map_Forall (λ _, trackers_ok) (readers self) → map_Forall (λ _, trackers_ok) (readers self')).

Lemma only_tracked_refl self : only_tracked self self.
Proof using Type. split_and!; [by destruct self|done|done]. Qed.

Lemma only_tracked_trans s1 s2 s3 : only_tracked s1 s2 → only_tracked s2 s3 → only_tracked s1 s3.
Proof using Type.
  intros (H1 & H2 & H3) (H4 & H5 & H6). split_and!; [|by intros e; rewrite H5|auto].
  rewrite H4. rewrite H1. by destruct s1.
Qed.

Lemma set_tracker_only eid g tr self : tracker_ok tr →
  (∀ st, readers self !! eid = Some st → r_reliable st = true) →
  only_tracked self (set_tracker eid g tr self).
Proof using Type.
  intros Htr Hrel. split_and!; [by destruct self| |].
  - intros e. simpl. destruct (decide (e = eid)) as [->|]; [|by rewrite lookup_alter_ne].
    rewrite lookup_alter_eq. by destruct (readers self !! eid).
  - intros Hok e st. simpl. intros Hl. apply lookup_alter_Some in Hl as [(<- & st0 & Hl & ->)|[_ Hl]]; [|by eapply Hok].
    destruct (Hok _ _ Hl) as [_ Hf]. split; simpl; [by rewrite (Hrel _ Hl)|].
    by apply map_Forall_insert_2.
Qed.

Lemma send_only msg dst self : only_tracked self (send msg dst self).
Proof using Type. split_and!; [by destruct self|done|done]. Qed.

Lemma nack_missing_only eid g last tr from self self' : tracker_ok tr →
  (∀ st, readers self !! eid = Some st → r_reliable st = true) →
  nack_missing eid g last tr from self = Ok self' → only_tracked self self'.
Proof using Type.
  intros Htr Hrel. unfold nack_missing. intros ([[b bm] need] & _ & Hs)%bind_ok_inv.
  destruct need; simpl in Hs; [|injection Hs as <-; by apply set_tracker_only].
  unfold send_acknack, RecvTracker_next_ack_count in Hs.
  apply bind_ok_inv in Hs as ([c tr'] & Hc & [= <-]).
  destruct (sadd (E:=Empty_set) 32 (ack_count tr) 1) as [n| |]; simpl in Hc; [|done..].
  injection Hc as <- <-.
  eapply only_tracked_trans; [by apply (set_tracker_only eid g tr)|].
  eapply only_tracked_trans; [|apply send_only]. apply set_tracker_only; [done|].
  intros st Hl. simpl in Hl. apply lookup_alter_Some in Hl as [(_ & st0 & Hl & ->)|[? _]]; [|done].
  simpl. by eapply Hrel.
Qed.

(** The readers of the snapshot are those of the state, up to trackers. *)
Definition snapshot self (ers : list (EntityId * ReaderState)) : Prop :=
  ∀ e st, (e, st) ∈ ers → untracked <$> readers self !! e = Some (untracked st) ∧ trackers_ok st.

Lemma snapshot_self self : map_Forall (λ _, trackers_ok) (readers self) →
  snapshot self (map_to_list (readers self)).
Proof using Type. intros Hok e st He%elem_of_map_to_list. rewrite He. split; [done|]. by eapply Hok. Qed.

Lemma tracker_for_u64 st g : trackers_ok st → is_u64 (expected (tracker_for st g)).
Proof using Type.
  intros [_ Hf]. unfold tracker_for. destruct (trackers st !! g) as [tr|] eqn:Ht; [|done].
  by destruct (Hf _ _ Ht).
Qed.

Lemma each_reader_only (f : EntityId * ReaderState → participant → runs participant) :
  (∀ e st self self', untracked <$> readers self !! e = Some (untracked st) → trackers_ok st →
     f (e, st) self = Ok self' → only_tracked self self') →
  ∀ self self', map_Forall (λ _, trackers_ok) (readers self) →
    for_each f (map_to_list (readers self)) self = Ok self' → only_tracked self self'.
Proof using Type.
  intros Hf self self' Hok. pose proof (snapshot_self self Hok) as Hsn. revert Hsn. clear Hok.
  generalize (map_to_list (readers self)) as ers.
  intros ers. revert self. induction ers as [|[e st] ers IH]; intros self Hsn; cbn [for_each];
    [intros [= <-]; apply only_tracked_refl|].
  intros (s1 & H1 & H2)%bind_ok_inv. destruct (Hsn e st ltac:(by left)) as [He Ht].
  pose proof (Hf _ _ _ _ He Ht H1) as Ho. eapply only_tracked_trans; [exact Ho|].
  apply IH; [|done]. intros e' st' Hin. destruct Ho as (_ & Hu & _). rewrite Hu. apply Hsn. by right.
Qed.

Lemma reader_reliable self e st st' : untracked <$> readers self !! e = Some (untracked st) →
  readers self !! e = Some st' → r_reliable st' = r_reliable st.
Proof using Type. intros Hu Hl. rewrite Hl in Hu. by injection Hu. Qed.

Lemma notify_only g seq from self self' : is_u64 seq → map_Forall (λ _, trackers_ok) (readers self) →
  notify_reliable_readers g seq from self = Ok self' → only_tracked self self'.
Proof using Type.
  intros Hs. apply each_reader_only. intros e st s s' Hu Hok. unfold notify_reader.
  destruct (r_reliable st) eqn:Hrel; cbn [negb orb]; [|intros [= <-]; apply only_tracked_refl].
  destruct (accepts_source _ _ _); cbn [negb]; [|intros [= <-]; apply only_tracked_refl].
  intros ([b tr] & Hr & Hn)%bind_ok_inv. simpl in Hn.
  destruct (RecvTracker_record seq (tracker_for st g)) as [[b' tr']| |] eqn:Hrec; simpl in Hr; [|done..].
  injection Hr as -> ->. eapply nack_missing_only; [|by intros ? ->%(reader_reliable s e st)|exact Hn].
  eapply record_tracker_ok; [done|by apply tracker_for_u64|exact Hrec].
Qed.

Lemma heartbeat_only g hb from self self' : is_u64 (SequenceNumber.to_u64 (first_sn hb)) →
  map_Forall (λ _, trackers_ok) (readers self) →
  handle_heartbeat g hb from self = Ok self' → only_tracked self self'.
Proof using Type.
  intros Hs. apply each_reader_only. intros e st s s' Hu Hok. unfold heartbeat_reader.
  destruct (r_reliable st) eqn:Hrel; cbn [negb orb]; [|intros [= <-]; apply only_tracked_refl].
  destruct (accepts_source _ _ _); cbn [negb]; [|intros [= <-]; apply only_tracked_refl].
  intros Hn. eapply nack_missing_only; [|by intros ? ->%(reader_reliable s e st)|exact Hn].
  pose proof (tracker_for_u64 st g Hok). unfold RecvTracker_init_expected.
  destruct (init_done (tracker_for st g)) eqn:?; by split.
Qed.
End only.

Section sends.
Context {N : Type} `{!Notify N} `{BuildProfile}.
Notation participant := (RtpsParticipant N).
Implicit Types self : participant.

(** Only sends of the data socket and the reliable state of writers differ. *)
Definition only_sent self self' : Prop :=
  self' = set_data_socket (data_socket self') (set_writers (writers self') self) ∧
  (∀ e, writer_core <$> writers self' !! e = writer_core <$> writers self !! e).

Lemma only_sent_refl self : only_sent self self.
Proof using Type. split; [by destruct self|done]. Qed.

Lemma only_sent_trans s1 s2 s3 : only_sent s1 s2 → only_sent s2 s3 → only_sent s1 s3.
Proof using Type.
  intros (H1 & H2) (H3 & H4). split; [|by intros e; rewrite H4].
  rewrite H3. rewrite H1. by destruct s1.
Qed.

Lemma send_sent msg dst self : only_sent self (send msg dst self).
Proof using Type. split; [by destruct self|done]. Qed.

Lemma send_all_eq msg dsts self :
  send_all msg dsts self =
  set_data_socket (mkRtpsSocket (sock_port (data_socket self))
    (sent (data_socket self) ++ ((λ dst, (dst, msg)) <$> dsts)) (verdict (data_socket self))) self.
Proof using Type.
  revert self. unfold send_all. induction dsts as [|d dsts IH]; intros self; simpl.
  - rewrite app_nil_r. destruct self as [??[???]]; done.
  - rewrite IH. simpl. rewrite <- app_assoc. by destruct self.
Qed.

Lemma send_all_sent msg dsts self : only_sent self (send_all msg dsts self).
Proof using Type. rewrite send_all_eq. split; [by destruct self|done]. Qed.

Lemma set_writer_sent e ws ws' self : writers self !! e = Some ws → writer_core ws' = writer_core ws →
  only_sent self (set_writers (<[e := ws']> (writers self)) self).
Proof using Type.
  intros He Hc. split; [by destruct self|]. intros e'. simpl.
  destruct (decide (e' = e)) as [->|]; [|by rewrite lookup_insert_ne].
  rewrite lookup_insert_eq, He. simpl. by rewrite Hc.
Qed.

Lemma advance_acked_core b ws : writer_core (advance_acked b ws) = writer_core ws.
Proof using Type. unfold advance_acked. by repeat case_match. Qed.

Lemma acknack_sent an from self self' : handle_acknack an from self = Ok self' → only_sent self self'.
Proof using Type.
  unfold handle_acknack. destruct (writers self !! _) as [ws|] eqn:He; [|intros [= <-]; apply only_sent_refl].
  destruct (w_reliable ws) eqn:Hr; cbn [negb]; [|intros [= <-]; apply only_sent_refl].
  destruct (w_history ws) as [h|]; [|intros [= <-]; apply only_sent_refl].
  set (self0 := set_writers _ self). intros (s1 & H1 & H2)%bind_ok_inv.
  assert (only_sent self self0) as H0 by (by eapply set_writer_sent, advance_acked_core).
  apply (for_each_inv (only_sent self)) in H1; [|clear H1|done].
  - eapply only_sent_trans; [exact H1|]. destruct (SendHistory_first_last h) as [[lo hi]|];
      [|injection H2 as <-; apply only_sent_refl].
    destruct (_ <? _); [|injection H2 as <-; apply only_sent_refl].
    unfold send_gap in H2. apply bind_ok_inv in H2 as (ge & _ & (lim & _ & [= <-])%bind_ok_inv).
    eapply only_sent_trans; [apply send_sent|apply send_all_sent].
  - intros bit s s' Hs. unfold retransmit. destruct (_ =? 0); [by intros [= <-]|].
    intros (q & _ & (m & _ & Hm)%bind_ok_inv)%bind_ok_inv.
    destruct m; injection Hm as <-; [|done]. eapply only_sent_trans; [exact Hs|apply send_all_sent].
Qed.

Lemma send_heartbeat_sent e self self' : send_heartbeat e self = Ok self' → only_sent self self'.
Proof using Type.
  unfold send_heartbeat. destruct (writers self !! e) as [ws|] eqn:He; [|intros [= <-]; apply only_sent_refl].
  destruct (w_history ws) as [h|] eqn:Hh; [|intros [= <-]; apply only_sent_refl].
  destruct (SendHistory_first_last h) as [[lo hi]|]; [|intros [= <-]; apply only_sent_refl].
  intros ([c h'] & _ & [= <-])%bind_ok_inv. eapply only_sent_trans; [|apply send_all_sent].
  eapply set_writer_sent; [done|]. unfold writer_core, set_history. simpl. by rewrite Hh.
Qed.

Lemma foldl_send_sent (f : participant → SocketAddr → participant) :
  (∀ s d, only_sent s (f s d)) → ∀ dsts self, only_sent self (foldl f self dsts).
Proof using Type.
  intros Hf dsts. induction dsts as [|d dsts IH]; intros self; [apply only_sent_refl|]. simpl.
  eapply only_sent_trans; [apply Hf|apply IH].
Qed.

(** *** The invariant *)

Record participant_wf self : Prop := {
  pw_apart : queues_apart self;
  pw_queue e st : readers self !! e = Some st → (r_inner st < length (inners self))%nat;
  pw_reader e st : readers self !! e = Some st →
    ∃ i, local_readers (sedp self) !! e = Some i ∧ topic_name i = r_topic st;
  pw_trackers : map_Forall (λ _, trackers_ok) (readers self);
  pw_writer e ws : writers self !! e = Some ws →
    (∃ i, local_writers (sedp self) !! e = Some i ∧ topic_name i = w_topic ws) ∧
    is_u64 (w_seq ws) ∧ (w_reliable ws = true ↔ is_Some (w_history ws));
  pw_sedp : sedp_wf (sedp self);
  pw_prefix : ec_guid_prefix (e_config (sedp self)) = rp_guid_prefix self;
  pw_totals : is_u64 (rp_delivers self) ∧ is_u64 (rp_drops self);
  pw_last t x : last_sample self !! t = Some x → topic x = t }.

Lemma wf_only_tracked self self' : only_tracked self self' → participant_wf self → participant_wf self'.
Proof using Type.
  intros (He & Hu & Hok) [Ha Hq Hr Ht Hw Hs Hp Htt Hl].
  assert (∀ e st', readers self' !! e = Some st' → ∃ st, readers self !! e = Some st ∧
    untracked st' = untracked st) as Hback.
  { intros e st' Hst. pose proof (Hu e) as Hue. rewrite Hst in Hue.
    destruct (readers self !! e) as [st|]; [|done]. injection Hue as ????. exists st.
    split; [done|]. unfold untracked. congruence. }
  split.
  - intros e1 e2 st1 st2 (st1' & Hl1 & Eq1)%Hback (st2' & Hl2 & Eq2)%Hback ?.
    injection Eq1 as _ _ Ei1 _. injection Eq2 as _ _ Ei2 _. apply (Ha e1 e2 st1' st2'); congruence.
  - intros e st (st' & Hl1 & Eq1)%Hback. injection Eq1 as _ _ Ei _. rewrite Ei, He. simpl. eauto.
  - intros e st (st' & Hl1 & Eq1)%Hback. injection Eq1 as Et _ _ _. rewrite Et, He. simpl. eauto.
  - auto.
  - rewrite He. exact Hw.
  - rewrite He. exact Hs.
  - rewrite He. exact Hp.
  - rewrite He. exact Htt.
  - rewrite He. exact Hl.
Qed.

Lemma wf_only_sent self self' : only_sent self self' → participant_wf self → participant_wf self'.
Proof using Type.
  intros (He & Hu) [Ha Hq Hr Ht Hw Hs Hp Htt Hl]. rewrite He. split; try done.
  simpl. intros e ws' Hws. pose proof (Hu e) as Hue. rewrite Hws in Hue.
  destruct (writers self !! e) as [ws|] eqn:Hew; [|done]. injection Hue as E1 E2 E3 E4.
  destruct (Hw e ws Hew) as ((i & ? & ?) & ? & ?). rewrite E1, E2, E3. split_and!; [eauto|done|].
  revert E4. repeat case_bool_decide; intros; (tauto || done).
Qed.

Lemma wf_dispatch g tf p ts seq self : participant_wf self →
  participant_wf (dispatch_to_readers g tf p ts seq self).
Proof using Type.
  intros Hwf. pose proof Hwf as [Ha Hq Hr Ht Hw Hs Hp [Hd1 Hd2] Hl].
  destruct (dispatch_spec g tf p ts seq self Ha Hd1 Hd2) as (He & Hlen & Hd & Hdr & _).
  unfold only_delivered in He. set (self' := dispatch_to_readers _ _ _ _ _ self) in *. clearbody self'.
  split; try (rewrite He; assumption); [|done].
  intros e st Hst. rewrite Hlen. rewrite He in Hst. by apply (Hq e).
Qed.

Lemma wf_delivered self self' : participant_wf self → only_delivered self self' →
  length (inners self') = length (inners self) →
  is_u64 (rp_delivers self') → is_u64 (rp_drops self') → participant_wf self'.
Proof using Type.
  intros [Ha Hq Hr Ht Hw Hs Hp Htt Hl] He Hlen Hd Hdr. unfold only_delivered in He.
  split; try (rewrite He; assumption); [|done].
  intros e st Hst. rewrite Hlen. rewrite He in Hst. by apply (Hq e).
Qed.

Lemma wf_sedp sv sock self : participant_wf self → same_tables (sedp self) sv →
  participant_wf (set_sedp sv sock self).
Proof using Type.
  intros [Ha Hq Hr Ht Hw Hs Hp Htt Hl] Hst. pose proof Hst as (Hc & Hlw & Hlr & _).
  split; simpl; rewrite ?Hlw, ?Hlr, ?Hc; try done. by eapply sedp_wf_same.
Qed.

Lemma push_sample_wf id x self : participant_wf self → participant_wf (push_sample id x self).2.
Proof using Type.
  intros Hwf. unfold push_sample. destruct (inners self !! id) as [i|]; [|done].
  destruct (push i x) as [b i']. cbn [snd]. destruct Hwf as [Ha Hq Hr Ht Hw Hs Hp Htt Hl].
  split; simpl; try done. intros e st Hst. rewrite length_insert. by apply (Hq e).
Qed.

Lemma transient_local_wf now t id self self' : participant_wf self →
  deliver_transient_local now t id self = Ok self' → participant_wf self'.
Proof using Type.
  intros Hwf. unfold deliver_transient_local. destruct (last_sample self !! t) as [x|] eqn:Hx.
  { intros [= <-]. by apply push_sample_wf. }
  destruct (persist_dir self) as [dir|]; [|by intros [= <-]].
  intros (r & _ & Hr)%bind_ok_inv. destruct r as [[pl|]|]; [|by injection Hr as <-..].
  injection Hr as <-. apply push_sample_wf. destruct Hwf as [Ha Hq Hrd Ht Hw Hs Hp Htt Hl].
  split; simpl; try done. intros t' x'. rewrite lookup_insert_Some. intros [[<- <-]|[_ ?]]; [done|auto].
Qed.

Lemma next_entity_num_eq self n self' : next_entity_num self = Ok (n, self') →
  self' = set_entity_counter (wrapping_add 32 (entity_counter self) 1) self.
Proof using Type. unfold next_entity_num. by intros (k & _ & [= <- <-])%bind_ok_inv. Qed.

Lemma new_writer_wf t rel ps self w self' : participant_wf self →
  new_writer_impl t rel ps self = Ok (w, self') → participant_wf self'.
Proof using Type.
  intros Hwf. unfold new_writer_impl. intros ([n self1] & Hn%next_entity_num_eq & Hr)%bind_ok_inv.
  cbv beta zeta iota in Hr. apply bind_ok_inv in Hr as ([sv sock] & Hreg%register_writer_frame & [= <- <-]).
  subst self1. simpl in Hreg. set (eid := entity_id_for_writer n) in *.
  pose proof (wf_local_writers eid t _ (pw_sedp _ Hwf)) as Hsw.
  destruct Hwf as [Ha Hq Hrd Ht Hw Hs Hp Htt Hl]. pose proof Hreg as (Hc & Hlw & Hlr & _).
  split; simpl in *; rewrite ?Hlr, ?Hc; try done; [|by eapply sedp_wf_same].
  intros e ws. rewrite Hlw, lookup_insert_Some. intros [[<- <-]|[Hne Hws]].
  - rewrite lookup_insert_eq. split_and!; [by eexists|done|simpl; by destruct rel; split; intros [??] || by eauto].
  - rewrite lookup_insert_ne by done. eauto.
Qed.

Lemma new_reader_wf now t opts rel tl ps self r self' : participant_wf self →
  new_reader_impl now t opts rel tl ps self = Ok (r, self') → participant_wf self'.
Proof using Type.
  intros Hwf. unfold new_reader_impl. intros ([n self1] & Hn%next_entity_num_eq & Hr)%bind_ok_inv.
  cbv beta zeta iota in Hr. apply bind_ok_inv in Hr as ([[m sv] sock] & Hreg%register_reader_frame & Hr).
  destruct Hreg as [_ Hreg]. subst self1. simpl in Hreg. set (eid := entity_id_for_reader n) in *.
  apply bind_ok_inv in Hr as (self2 & Htl & [= _ <-]).
  match type of Htl with (if tl then deliver_transient_local _ _ _ ?x else _) = _ => set (self3 := x) in * end.
  assert (participant_wf self3) as Hwf3.
  2:{ destruct tl; [by eapply transient_local_wf|]. by injection Htl as <-. }
  clear Htl. unfold self3. clear self3.
  pose proof (wf_local_readers eid t _ (pw_sedp _ Hwf)) as Hsr.
  destruct Hwf as [Ha Hq Hrd Ht Hw Hs Hp Htt Hl]. pose proof Hreg as (Hc & Hlw & Hlr & _).
  split; simpl in *; rewrite ?Hlw, ?Hc; try done; [| | | |by eapply sedp_wf_same].
  - intros e1 e2 st1 st2. simpl. rewrite !insert_insert_eq, !lookup_insert_Some.
    intros [[<- <-]|[? H1]] [[<- <-]|[? H2]]; simpl; [done| | |by eapply Ha].
    + intros Hi. pose proof (Hq _ _ H2). lia.
    + intros Hi. pose proof (Hq _ _ H1). lia.
  - intros e st. rewrite insert_insert_eq, lookup_insert_Some, length_app. simpl.
    intros [[<- <-]|[? Hst]]; simpl; [lia|]. pose proof (Hq _ _ Hst). lia.
  - intros e st. rewrite Hlr, insert_insert_eq, lookup_insert_Some.
    intros [[<- <-]|[? Hst]]; [rewrite lookup_insert_eq; by eexists|rewrite lookup_insert_ne by done; eauto].
  - rewrite insert_insert_eq. by apply map_Forall_insert_2.
Qed.

Lemma send_remote_sent t msgs self : only_sent self (send_remote t msgs self).
Proof using Type.
  assert (∀ dst msgs self, only_sent self (foldl (λ self msg, send msg dst self) self msgs)) as Hd.
  { clear. intros dst msgs. induction msgs as [|m msgs IH]; intros self; [apply only_sent_refl|]. simpl.
    eapply only_sent_trans; [apply send_sent|apply IH]. }
  unfold send_remote. destruct (matched_reader_locators t (sedp self)); [apply only_sent_refl|].
  destruct (user_data_multicast_addr self); [apply Hd|]. apply foldl_send_sent. intros s d. apply Hd.
Qed.

Lemma deliver_remote_wf clock g seq p from self self' : is_u64 seq → participant_wf self →
  deliver_remote clock g seq p from self = Ok self' → participant_wf self'.
Proof using Type.
  intros Hs Hwf. unfold deliver_remote. intros (s1 & Hn & [= <-])%bind_ok_inv.
  apply wf_dispatch. apply (notify_only _ _ _ _ _ Hs (pw_trackers _ Hwf)) in Hn.
  by eapply wf_only_tracked.
Qed.

Lemma decoded_u64 sn v : decode SequenceNumber v = Ok sn → is_u64 (SequenceNumber.to_u64 sn).
Proof using Type. intros Hd. apply to_u64_range. by apply decode_wf in Hd. Qed.

Lemma data_seq f b ds : decode_data_submessage f b = Ok ds → is_u64 (SequenceNumber.to_u64 (seq_num ds)).
Proof using Type.
  unfold decode_data_submessage. destruct (_ <? 20); [done|]. intros Hd. unbind Hd.
  injection Hd as <-. simpl. by eapply decoded_u64.
Qed.

Lemma frag_seq b f : decode_data_frag b = Ok f → is_u64 (SequenceNumber.to_u64 (writer_seq_num f)).
Proof using Type.
  unfold decode_data_frag. destruct (_ <? 32); [done|]. intros Hd. unbind Hd.
  injection Hd as <-. simpl. by eapply decoded_u64.
Qed.

Lemma heartbeat_seq b hb : decode_heartbeat_submessage b = Ok hb →
  is_u64 (SequenceNumber.to_u64 (first_sn hb)).
Proof using Type.
  unfold decode_heartbeat_submessage. destruct (_ <? 28); [done|]. intros Hd. unbind Hd.
  injection Hd as <-. simpl. by eapply decoded_u64.
Qed.

Lemma ok_some {E F A} (m : res E A) (a : A) : ok (F:=F) m = Ok (Some a) → m = Ok a.
Proof using Type. destruct m; simpl; by intros [=]; subst. Qed.

Lemma wf_assembler asm self : participant_wf self → participant_wf (set_assembler asm self).
Proof using Type. intros [Ha Hq Hr Ht Hw Hs Hp Htt Hl]. by split. Qed.

Lemma submessage_wf clock from h raw self self' : participant_wf self →
  handle_submessage clock from h raw self = Ok self' → participant_wf self'.
Proof using Type.
  intros Hwf. unfold handle_submessage. cbv zeta. repeat case_bool_decide.
  - intros (ods & Hds & Hr)%bind_ok_inv. destruct ods as [ds|]; [|by injection Hr as <-].
    apply ok_some, data_seq in Hds. destruct (payload ds) as [w|]; [|by injection Hr as <-].
    apply bind_ok_inv in Hr as (op & _ & Hr). destruct op as [p|]; [|by injection Hr as <-].
    by eapply deliver_remote_wf.
  - intros (ofr & Hf & Hr)%bind_ok_inv. destruct ofr as [f|]; [|by injection Hr as <-].
    apply ok_some, frag_seq in Hf. apply bind_ok_inv in Hr as ([out asm] & _ & Hr).
    pose proof (wf_assembler asm self Hwf) as Hwf'.
    destruct out as [w|]; [|by injection Hr as <-].
    apply bind_ok_inv in Hr as (op & _ & Hr). destruct op as [p|]; [|by injection Hr as <-].
    by eapply deliver_remote_wf.
  - intros (ohb & Hhb & Hr)%bind_ok_inv. destruct ohb as [hb|]; [|by injection Hr as <-].
    apply ok_some, heartbeat_seq in Hhb. eapply wf_only_tracked; [|exact Hwf].
    by eapply heartbeat_only; [|apply pw_trackers|].
  - intros (oan & _ & Hr)%bind_ok_inv. destruct oan as [an|]; [|by injection Hr as <-].
    eapply wf_only_sent; [|exact Hwf]. by eapply acknack_sent.
  - by intros [= <-].
Qed.

Lemma data_packet_wf clock data from self self' : participant_wf self →
  handle_data_packet clock data from self = Ok self' → participant_wf self'.
Proof using Type.
  intros Hwf. unfold handle_data_packet.
  destruct (receive_message_cases (rp_guid_prefix self) (handle_submessage clock from) data self)
    as [[-> _]|(h & rs & e & _ & _ & _ & ->)]; [by intros [= <-]|].
  apply for_each_inv; [|done]. intros x s s'. apply submessage_wf.
Qed.

Lemma wf_set_writer e ws ws' self : participant_wf self → writers self !! e = Some ws →
  w_topic ws' = w_topic ws → w_reliable ws' = w_reliable ws → is_u64 (w_seq ws') →
  (is_Some (w_history ws') ↔ is_Some (w_history ws)) →
  participant_wf (set_writers (<[e := ws']> (writers self)) self).
Proof using Type.
  intros [Ha Hq Hr Ht Hw Hs Hp Htt Hl] He E1 E2 E3 E4. split; simpl; try done.
  intros e' ws0. rewrite lookup_insert_Some. intros [[<- <-]|[_ ?]]; [|auto].
  rewrite E1, E2, E4. destruct (Hw _ _ He) as (? & ? & ?). done.
Qed.

Lemma wf_counter t c self : participant_wf self → participant_wf (set_topic_counter t c self).
Proof using Type. intros [Ha Hq Hr Ht Hw Hs Hp Htt Hl]. by split. Qed.

Lemma wf_disk d self : participant_wf self → participant_wf (set_disk d self).
Proof using Type. intros [Ha Hq Hr Ht Hw Hs Hp Htt Hl]. by split. Qed.

Lemma wf_last x self : participant_wf self →
  participant_wf (set_last_sample (<[topic x := x]> (last_sample self)) self).
Proof using Type.
  intros [Ha Hq Hr Ht Hw Hs Hp Htt Hl]. split; simpl; try done.
  intros t y. rewrite lookup_insert_Some. intros [[<- <-]|[_ ?]]; [done|auto].
Qed.

Lemma participant_write_wf now w p self self' : participant_wf self → write now w p self = Ok self' →
  participant_wf self'.
Proof using Type.
  intros Hwf. unfold write. destruct (writers self !! rw_eid w) as [ws|] eqn:Hws; [|by intros [= <-]].
  intros (seq & Hseq & Hr)%bind_ok_inv. cbv zeta in Hr. set (ws1 := set_seq _ ws) in Hr.
  assert (is_u64 (w_seq ws1)) as Hs1 by apply as_u64_range.
  pose proof (wf_set_writer _ _ ws1 self Hwf Hws eq_refl eq_refl Hs1 (iff_refl _)) as Hwf1.
  apply bind_ok_inv in Hr as (msgs & _ & Hr).
  set (c := count_write _ _) in Hr. apply (wf_counter (rw_topic w) c) in Hwf1.
  set (self1 := set_topic_counter _ _ _) in *.
  apply bind_ok_inv in Hr as (ws2 & Hws2 & Hr).
  assert (participant_wf (set_writers (<[rw_eid w := ws2]> (writers self1)) self1)) as Hwf2.
  { assert (writers self1 !! rw_eid w = Some ws1) as Hl by apply lookup_insert_eq.
    destruct (w_history ws) as [h|] eqn:Hh; simpl in Hws2; rewrite Hh in Hws2.
    2:{ injection Hws2 as <-. by eapply wf_set_writer. }
    destruct msgs as [|m msgs]; [injection Hws2 as <-; by eapply wf_set_writer|].
    apply bind_ok_inv in Hws2 as (h' & _ & [= <-]). eapply wf_set_writer; try done.
  }
  set (self2 := set_writers _ self1) in *.
  pose proof (wf_last (mkSample (rw_topic w) p now seq
    (Guid.to_bytes (mkGuid (rp_guid_prefix self2) (rw_eid w)))) self2 Hwf2) as Hwf3.
  set (self3 := set_last_sample _ self2) in *.
  assert (participant_wf (match persist_dir self3 with
      | Some dir => set_disk (persist_flush dir (rw_topic w) p (disk self3)) self3
      | None => self3 end)) as Hwf4 by (destruct (persist_dir self3); [by apply wf_disk|done]).
  apply (wf_dispatch (mkGuid (rp_guid_prefix self2) (rw_eid w)) (Some (rw_topic w)) p now seq) in Hwf4.
  apply (wf_only_sent _ _ (send_remote_sent (rw_topic w) msgs _)) in Hwf4.
  destruct (w_reliable ws2); [|by injection Hr as <-].
  apply send_heartbeat_sent in Hr. by eapply wf_only_sent.
Qed.

(** *** Runs *)

(** What can happen to a participant: the calls of the application, a
    datagram on the data or the metatraffic socket, a new peer reported by
    SPDP, a round of the match listener, a tick of a heartbeat task. *)
Inductive Event : Type :=
| NewWriter (topic : str) (reliable : bool) (peers : list ParticipantProxy)
| NewReader (now : Z) (topic : str) (opts : SubscriberOptions) (reliable transient_local : bool)
    (peers : list ParticipantProxy)
| Unsubscribe (r : RtpsReader)
| Write (now : Z) (w : RtpsWriter) (payload : list byte)
| Receive (id : nat)
| CloseQueue (id : nat)
| Listen
| Multicast (dst : SocketAddr)
| DataPacket (clock : Clock) (data : list byte) (from : SocketAddr)
| MetaPacket (data : list byte) (from : SocketAddr)
| Peer (proxy : ParticipantProxy)
| MatchRound
| HeartbeatTick (eid : EntityId).

Definition step (e : Event) self : runs participant :=
  match e with
  | NewWriter t rel ps => r ← lift (new_writer_impl t rel ps self); Ok r.2
  | NewReader now t opts rel tl ps => r ← lift (new_reader_impl now t opts rel tl ps self); Ok r.2
  | Unsubscribe r => Ok (unsubscribe r self)
  | Write now w p => write now w p self
  | Receive id => Ok (set_inners (alter (λ i, (try_recv i).2) id (inners self)) self)
  | CloseQueue id => Ok (set_inners (alter SubQueue.close id (inners self)) self)
  | Listen => Ok (listen_for_matches self)
  | Multicast dst => Ok (set_user_data_multicast dst self)
  | DataPacket clock data from => handle_data_packet clock data from self
  | MetaPacket data from =>
      sv ← lift (Sedp.handle_packet data from (sedp self));
      Ok (set_sedp sv (meta_socket self) self)
  | Peer proxy => lift (peer_listener_step proxy self)
  | MatchRound => Ok (default self (match_listener_step self))
  | HeartbeatTick eid => send_heartbeat eid self
  end.

Lemma lift_inv {E A} (m : panics A) (a : A) : lift (E:=E) m = Ok a → m = Ok a.
Proof using Type. destruct m as [|[]|]; simpl; congruence. Qed.

Lemma wf_inners l self : participant_wf self → length l = length (inners self) →
  participant_wf (set_inners l self).
Proof using Type.
  intros [Ha Hq Hr Ht Hw Hs Hp Htt Hl] Hlen. split; simpl; try done.
  intros e st Hst. rewrite Hlen. by apply (Hq e).
Qed.

Lemma wf_listener l sock self : participant_wf self →
  participant_wf (set_sedp (set_match_listener l (sedp self)) sock self).
Proof using Type.
  intros [Ha Hq Hr Ht Hw [? ? ? ? ? ?] Hp Htt Hl]. split; simpl; try done; by split.
Qed.

Lemma wf_readers rs self : participant_wf self →
  (∀ e st, rs !! e = Some st → ∃ st0, readers self !! e = Some st0 ∧ r_topic st = r_topic st0 ∧
     r_inner st = r_inner st0 ∧ r_reliable st = r_reliable st0 ∧ trackers st = trackers st0) →
  participant_wf (set_readers rs self).
Proof using Type.
  intros [Ha Hq Hr Ht Hw Hs Hp Htt Hl] Hrs. split; simpl; try done.
  - intros e1 e2 st1 st2 (s1 & H1 & _ & I1 & _)%Hrs (s2 & H2 & _ & I2 & _)%Hrs Hi.
    apply (Ha e1 e2 s1 s2); congruence.
  - intros e st (s1 & H1 & _ & -> & _)%Hrs. eauto.
  - intros e st (s1 & H1 & -> & _)%Hrs. eauto.
  - intros e st (s1 & H1 & _ & _ & Hrel & Htr)%Hrs. destruct (Ht _ _ H1).
    split; rewrite ?Hrel, Htr; auto.
Qed.

Lemma step_wf e self self' : participant_wf self → step e self = Ok self' → participant_wf self'.
Proof using Type.
  intros Hwf. destruct e as [t rel ps|now t opts rel tl ps|r|now w p|id|id| |dst|clock data from|data from|proxy| |eid]; simpl.
  - intros ([w s] & Hr%lift_inv & [= <-])%bind_ok_inv. by eapply new_writer_wf.
  - intros ([r s] & Hr%lift_inv & [= <-])%bind_ok_inv. by eapply new_reader_wf.
  - intros [= <-]. apply wf_readers; [done|]. intros e st [_ ?]%lookup_delete_Some. by exists st.
  - by apply participant_write_wf.
  - intros [= <-]. apply wf_inners; [done|apply length_alter].
  - intros [= <-]. apply wf_inners; [done|apply length_alter].
  - intros [= <-]. by apply wf_listener.
  - intros [= <-]. destruct Hwf as [Ha Hq Hr Ht Hw Hs Hp Htt Hl]. by split.
  - by apply data_packet_wf.
  - intros (sv & Hs%lift_inv & [= <-])%bind_ok_inv.
    destruct (sedp_packet_eq data from (sedp self)) as (es & Heq & Hes).
    rewrite Heq in Hs. injection Hs as <-.
    destruct (on_endpoints_ok es (sedp self) Hes (pw_sedp _ Hwf)) as (Hsw & _).
    assert (∀ s, let s' := foldl (λ s il, on_endpoint il.1 il.2 s) s es in
      e_config s' = e_config s ∧ local_writers s' = local_writers s ∧ local_readers s' = local_readers s) as Hloc.
    { clear. induction es as [|[i l] es IH]; intros s; simpl; [done|].
      destruct (on_endpoint_local i l s) as (H1 & _ & H3 & H4).
      destruct (IH (on_endpoint i l s)) as (-> & -> & ->). done. }
    destruct (Hloc (sedp self)) as (Hc & Hlw & Hlr).
    destruct Hwf as [Ha Hq Hr Ht Hw Hs Hp Htt Hl].
    split; simpl; rewrite ?Hc, ?Hlw, ?Hlr; done.
  - intros Hp%lift_inv. unfold peer_listener_step in Hp.
    apply bind_ok_inv in Hp as ([sv sock] & Hn%on_new_peer_frame & [= <-]). by apply wf_sedp.
  - intros [= <-]. unfold match_listener_step. destruct (match_listener (sedp self)) as [tx|]; [|done].
    simpl. destruct (chan_recv tx) as [[ev tx']|]; [|done]. simpl.
    pose proof (wf_listener tx' (meta_socket self) self Hwf) as Hwf'.
    set (self1 := set_sedp _ _ self) in *. apply (wf_readers _ self1 Hwf').
    intros e st [(_ & st0 & H0 & ->)|[_ H0]]%lookup_alter_Some; simpl in H0;
      [exists st0|exists st]; by split_and!.
  - intros Hs%send_heartbeat_sent. by eapply wf_only_sent.
Qed.

Lemma new_inner_wf g v ds sv ms dir d : sedp_wf sv → ec_guid_prefix (e_config sv) = g →
  participant_wf (new_inner g v ds sv ms dir d).
Proof using Type.
  intros. split; simpl; try done; try (by intros ???%lookup_empty_Some).
Qed.

Lemma reachable_wf cfg v ds ms dir d evs self :
  for_each step evs (new_inner (ec_guid_prefix cfg) v ds (SedpService_new cfg) ms dir d) = Ok self →
  participant_wf self.
Proof using Type.
  apply for_each_inv; [intros e s s'; apply step_wf|]. apply new_inner_wf; [|done].
  split; simpl; try done; by intros ?? ?%lookup_empty_Some.
Qed.

(** C18. The participant in every run that returns: no two readers share a
    queue and every reader's queue exists; every reader and every writer is
    announced by SEDP under its own entity id and topic; a best-effort reader
    tracks nothing and every tracker of a reliable one is initialised with a
    64-bit watermark; a writer keeps a history exactly when it is reliable;
    the cached last sample of a topic is one of that topic. *)
Theorem participant_invariant cfg v ds ms dir d evs self :
  for_each step evs (new_inner (ec_guid_prefix cfg) v ds (SedpService_new cfg) ms dir d) = Ok self →
  participant_wf self.
Proof using Type. apply reachable_wf. Qed.

(** Delivery of a sample, in any run: each reader whose topic matches
    and which accepts the source is offered it exactly once, under its own
    topic, with the source's GUID and number; every other queue, and all
    state but queues and counters, is left alone. *)
Theorem dispatch_exact cfg v ds ms dir d evs self g tf p ts seq :
  for_each step evs (new_inner (ec_guid_prefix cfg) v ds (SedpService_new cfg) ms dir d) = Ok self →
  let self' := dispatch_to_readers g tf p ts seq self in
  only_delivered self self' ∧
  (∀ e st, readers self !! e = Some st → ∃ i, inners self !! r_inner st = Some i ∧
     inners self' !! r_inner st =
       Some (if on_topic tf st && accepts_source st (rp_guid_prefix self) g
             then (push i (mkSample (r_topic st) p ts seq (Guid.to_bytes g))).2 else i)) ∧
  (∀ id, (∀ e st, readers self !! e = Some st → r_inner st ≠ id) →
     inners self' !! id = inners self !! id).
Proof using Type.
  intros Hwf%reachable_wf self'.
  destruct (dispatch_spec g tf p ts seq self (pw_apart _ Hwf) (proj1 (pw_totals _ Hwf))
              (proj2 (pw_totals _ Hwf))) as (H1 & _ & _ & _ & H2 & H3).
  split_and!; [done| |done]. intros e st Hst. pose proof (pw_queue _ Hwf _ _ Hst) as Hq.
  apply lookup_lt_is_Some_2 in Hq as [i Hi]. exists i. split; [done|].
  unfold self'. by rewrite (H2 _ _ Hst), Hi.
Qed.
End sends.

(** ** Witnesses *)

#[local] Instance demo_profile : BuildProfile := true.

Definition demo_config : SedpConfig := SedpConfig.new (mkGuidPrefix (vreplicate 12 x01)) 7411.
Definition demo_data_socket : RtpsSocket := mkRtpsSocket 7411 [] (λ _, None).
Definition demo_meta_socket : RtpsSocket := mkRtpsSocket 7410 [] (λ _, None).
Definition demo_disk : FileSystem := mkFileSystem ∅ (λ _, true) 100.
Definition demo_words : str := bytes_of_ascii "a/b".
Definition demo_reader_opts : SubscriberOptions := mkSubscriberOptions 2 DropOldest None None.
Definition demo_inner : RtpsParticipant (bool * option bool) :=
  new_inner (ec_guid_prefix demo_config) VENDOR_ID_RUST_DDS demo_data_socket
    (SedpService_new demo_config) demo_meta_socket None demo_disk.

(** A reliable reader and a best-effort one, a reliable writer, a write. *)
Definition demo_events : list Event :=
  [NewReader 1 demo_words demo_reader_opts true false []; NewWriter demo_words true [];
   NewReader 2 (bytes_of_ascii "c") demo_reader_opts false true [];
   Write 3 (mkRtpsWriter (entity_id_for_writer 2) demo_words) [x05]; HeartbeatTick (entity_id_for_writer 2)].
Definition demo_started : RtpsParticipant (bool * option bool) :=
  or_else demo_inner (for_each step demo_events demo_inner).

Lemma demo_started_ok : for_each step demo_events demo_inner = Ok demo_started.
Proof. apply returned_ok. vm_compute. reflexivity. Qed.

Lemma participant_invariant_witness :
  participant_wf demo_started ∧ size (readers demo_started) = 2%nat ∧ size (writers demo_started) = 1%nat.
Proof.
  split; [|split; vm_compute; reflexivity].
  exact (participant_invariant demo_config VENDOR_ID_RUST_DDS demo_data_socket demo_meta_socket None
    demo_disk demo_events demo_started demo_started_ok).
Defined.

(** A second sample for the reader of the writer's topic only. *)
Lemma dispatch_exact_witness :
  let g := mkGuid (ec_guid_prefix demo_config) (entity_id_for_writer 2) in
  let self' := dispatch_to_readers g (Some demo_words) [x06] 4 2 demo_started in
  only_delivered demo_started self' ∧
  (∀ e st, readers demo_started !! e = Some st → ∃ i, inners demo_started !! r_inner st = Some i ∧
     inners self' !! r_inner st =
       Some (if on_topic (Some demo_words) st && accepts_source st (rp_guid_prefix demo_started) g
             then (push i (mkSample (r_topic st) [x06] 4 2 (Guid.to_bytes g))).2 else i)) ∧
  (λ i, s_payload <$> queue i) <$> inners self' = [[[x05]; [x06]]; []].
Proof.
  intros g self'.
  destruct (dispatch_exact demo_config VENDOR_ID_RUST_DDS demo_data_socket demo_meta_socket None demo_disk
    demo_events demo_started g (Some demo_words) [x06] 4 2 demo_started_ok) as (H1 & H2 & _).
  split; [exact H1|]. split; [exact H2|]. vm_compute. reflexivity.
Defined.
