(* ===== verification/Delivery.v ===== *)
(** * Delivery: from one participant to another (src/rtps/participant.rs)

    What a write puts on the wire and what the receiver makes of it: DATA and
    DATA_FRAG messages, discovery followed by data, the reliable exchange,
    late joiners, and the datagrams that stop a receiver. *)

From S2P Require Import Prelude Codec Guid Locator Wildcard Persist Types SubQueue Counters.
From S2P Require Import Reliable Message Cdr Fragment Reassembly Socket Spdp Sedp Participant.

Section wire.
Context {N : Type} `{!Notify N} `{BuildProfile}.
Notation participant := (RtpsParticipant N).
Implicit Types self : participant.

(** ** Messages of this crate, received *)

Section received.
Context (h : Header) (self : participant) (Hown : guid_prefix h ≠ rp_guid_prefix self).
Context (clock : Clock) (from : SocketAddr).

Lemma receive_raw r : raw_wf r →
  handle_data_packet clock (wrap_in_rtps_message h (raw_bytes r)) from self
  = handle_submessage clock from h r self.
Proof using Hown. intros Hr. unfold handle_data_packet. by rewrite receive_message_single. Qed.

Lemma receive_data w r seq p : is_u64 seq → len p <= 65511 →
  handle_data_packet clock (wrap_in_rtps_message h (encode_data_submessage w r
    (SequenceNumber.from_u64 seq) (wrap_payload p))) from self
  = deliver_remote clock (mkGuid (guid_prefix h) w) seq p from self.
Proof using Hown.
  intros Hs Hp. rewrite encode_data_eq, receive_raw by (apply data_raw_wf; len_tac).
  unfold handle_submessage. cbn [raw_id raw_flags raw_body]. rewrite bool_decide_true by done.
  rewrite decode_data_body by by apply from_u64_wf. cbn [ok]. rewrite bind_ok. cbn [payload].
  unfold data_payload. rewrite bool_decide_false.
  2:{ intros He. apply (f_equal len) in He. pose proof (len_nonneg p). len_tac. }
  rewrite unwrap_wrap. cbn [ok]. rewrite bind_ok. cbn [seq_num data_writer_entity_id].
  by rewrite to_u64_from_u64.
Qed.

Lemma receive_frag f out asm : data_frag_wf f → len (df_payload f) <= 65000 →
  FragmentAssembler.receive (mono clock) f (frag_assembler self) = Ok (out, asm) →
  handle_data_packet clock (wrap_in_rtps_message h (encode_data_frag f)) from self
  = match out with
    | None => Ok (set_assembler asm self)
    | Some w => handle_submessage clock from h
        (mkRawSubmessage SUBMSG_DATA_FRAG FLAG_ENDIANNESS (data_frag_body f)) self
    end.
Proof using Hown.
  intros Hf Hp Hr. pose proof (len_data_frag_body f) as Hl.
  rewrite encode_data_frag_eq, receive_raw.
  2:{ split; cbn [raw_body raw_id]; [lia|]. intros Hb. rewrite Hb in Hl. pose proof (len_nonneg (df_payload f)).
      rewrite len_nil in Hl. lia. }
  destruct out as [w|]; [done|]. unfold handle_submessage. cbn [raw_id raw_flags raw_body].
  rewrite bool_decide_false, bool_decide_true by done. rewrite decode_data_frag_body by done.
  cbn [ok]. rewrite bind_ok, Hr. cbn [lift]. by rewrite bind_ok.
Qed.

Lemma receive_last_frag f p asm : data_frag_wf f → len (df_payload f) <= 65000 →
  FragmentAssembler.receive (mono clock) f (frag_assembler self) = Ok (Some (wrap_payload p), asm) →
  handle_data_packet clock (wrap_in_rtps_message h (encode_data_frag f)) from self
  = deliver_remote clock (mkGuid (guid_prefix h) (df_writer_entity_id f))
      (SequenceNumber.to_u64 (writer_seq_num f)) p from (set_assembler asm self).
Proof using Hown.
  intros Hf Hp Hr. erewrite receive_frag by done.
  unfold handle_submessage. cbn [raw_id raw_flags raw_body].
  rewrite bool_decide_false, bool_decide_true by done. rewrite decode_data_frag_body by done.
  cbn [ok]. rewrite bind_ok, Hr. cbn [lift]. rewrite bind_ok, unwrap_wrap. cbn [ok]. by rewrite bind_ok.
Qed.
End received.

(** ** Fragmented samples *)

(** The stream of a fragmented sample. *)
Definition sample_stream (eid : EntityId) (seq : Z) (p : list byte) : Stream :=
  mkStream eid (SequenceNumber.from_u64 seq) (wrap_payload p) MAX_FRAGMENT_PAYLOAD.

Lemma sample_stream_wf eid seq p : is_u64 seq → len p <= MAX_REASSEMBLY_BYTES - 4 →
  stream_wf (sample_stream eid seq p).
Proof using Type.
  intros Hs Hp. pose proof (len_nonneg p). unfold stream_wf, MAX_REASSEMBLY_BYTES, MAX_FRAGMENT_PAYLOAD in *.
  simpl. rewrite len_wrap_payload. split; [by apply from_u64_wf|]. split; [done|lia].
Qed.

Lemma messages_small eid seq p self : len p <= 1196 →
  messages eid seq (wrap_payload p) self =
  Ok [wrap_in_rtps_message (header self)
        (encode_data_submessage eid ENTITYID_UNKNOWN (SequenceNumber.from_u64 seq) (wrap_payload p))].
Proof using Type. intros Hp. unfold messages, MAX_FRAGMENT_PAYLOAD. by ltb_false len_tac. Qed.

(** The message of each fragment. *)
Definition frag_message (h : Header) (st : Stream) (i : Z) : list byte :=
  wrap_in_rtps_message h (encode_data_frag (frag_at st i)).

Lemma messages_large eid seq p self : is_u64 seq → 1196 < len p <= MAX_REASSEMBLY_BYTES - 4 →
  let st := sample_stream eid seq p in
  messages eid seq (wrap_payload p) self =
  Ok (frag_message (header self) st <$> seqZ 0 (nfrags st)).
Proof using Type.
  intros Hs [Hp1 Hp2] st. unfold messages. change MAX_FRAGMENT_PAYLOAD with 1200 at 1. ltb_true len_tac.
  assert (stream_wf st) as Hst by by apply sample_stream_wf.
  pose proof (split_loop_spec st Hst (S (length (wrap_payload p))) 0) as Hsp.
  pose proof (nfrags_bound st Hst) as Hb. pose proof (nfrags_pos st Hst).
  change (split_into_fragments ?f ?a ?b ?c) with (split_loop f a b c MAX_FRAGMENT_PAYLOAD 0 1).
  rewrite Z.mul_0_l, Z.min_l, Z.add_0_l, Z.sub_0_r in Hsp by (pose proof (len_nonneg (st_payload st)); lia).
  cbn [st st_writer st_sn st_payload st_size sample_stream] in Hsp.
  rewrite Hsp, bind_ok.
  - by rewrite <- list_fmap_compose.
  - split; [done|lia].
  - simpl in Hb. unfold len in Hb. lia.
Qed.

Lemma frag_at_wf st i : stream_wf st → 0 <= i < nfrags st →
  data_frag_wf (frag_at st i) ∧ (st_size st <= 65000 → len (df_payload (frag_at st i)) <= 65000).
Proof using Type.
  intros Hst Hi. pose proof (nfrags_bound st Hst). destruct (len_chunk st Hst i Hi) as [Hc _].
  destruct Hst as (Hsn & Hs & Hl). unfold MAX_REASSEMBLY_BYTES in *.
  split; [|simpl; lia]. unfold data_frag_wf, is_u32, is_u16. simpl. split_and!; (done || lia).
Qed.

(** Fragments that complete nothing only touch the assembler. *)
Lemma pending_frags h st from evs self asm outs : guid_prefix h ≠ rp_guid_prefix self →
  stream_wf st → st_size st <= 65000 → Forall (λ e : Clock * Z, 0 <= e.2 < nfrags st) evs →
  deliver ((λ e, mkArrival (mono e.1) st e.2) <$> evs) (frag_assembler self) = Ok (outs, asm) →
  Forall (eq None) outs →
  for_each (λ e, handle_data_packet e.1
    (wrap_in_rtps_message h (encode_data_frag (frag_at st e.2))) from) evs self
  = Ok (set_assembler asm self).
Proof using Type.
  intros Hown Hst Hsz Hevs. revert self outs Hown. induction Hevs as [|e evs He _ IH]; intros self outs Hown Hd Ho.
  { injection Hd as <- <-. simpl. f_equal. by destruct self. }
  rewrite fmap_cons in Hd. cbn [deliver] in Hd. cbn [at_time of_stream index] in Hd.
  apply bind_ok_inv in Hd as ([out asm1] & Hr & Hd). cbv iota beta in Hd.
  apply bind_ok_inv in Hd as ([outs1 asm2] & Hd & [= <- <-]).
  apply Forall_cons in Ho as [<- Ho]. cbn [for_each].
  destruct (frag_at_wf st e.2 Hst He) as [Hf Hl].
  rewrite (receive_frag h self Hown e.1 from _ None asm1) by (done || by apply Hl). rewrite bind_ok.
  by rewrite (IH (set_assembler asm1 self) outs1).
Qed.

Lemma seen_of_own st evs j :
  j ∈ seen_of (stream_key st) ((λ e : Clock * Z, mkArrival (mono e.1) st e.2) <$> evs) ↔ j ∈ evs.*2.
Proof using Type.
  unfold seen_of. rewrite elem_of_list_to_set.
  induction evs as [|e evs IH]; [done|]. rewrite !fmap_cons, filter_cons_True by done.
  rewrite fmap_cons, !elem_of_cons. simpl. by rewrite IH.
Qed.

(** The message of fragment [i], the only one of an unfragmented sample. *)
Definition datagram (msgs : list (list byte)) (i : Z) : list byte := default [] (msgs !! Z.to_nat i).

(** *** Delivery of one list of fragments after another *)

Lemma deliver_length evs asm outs asm' : deliver evs asm = Ok (outs, asm') → length outs = length evs.
Proof using Type.
  revert asm outs. induction evs as [|e evs IH]; intros asm outs; cbn [deliver]; [by intros [= <- _]|].
  intros ([o a] & _ & Hd)%bind_ok_inv. cbv iota beta in Hd.
  apply bind_ok_inv in Hd as ([os a'] & Hd & [= <- <-]). simpl. f_equal. by eapply IH.
Qed.

Lemma deliver_snoc evs e asm outs out asm' : deliver (evs ++ [e]) asm = Ok (outs ++ [out], asm') →
  ∃ asm1, deliver evs asm = Ok (outs, asm1) ∧
    FragmentAssembler.receive (at_time e) (frag_at (of_stream e) (index e)) asm1 = Ok (out, asm').
Proof using Type.
  revert asm outs. induction evs as [|e0 evs IH]; intros asm outs; cbn [app deliver];
    intros ([o a] & Hr & Hd)%bind_ok_inv; cbv iota beta in Hd.
  - rewrite bind_ok in Hd. injection Hd as Ho <-. destruct outs as [|? [|]]; [|done..].
    injection Ho as <-. by exists asm.
  - apply bind_ok_inv in Hd as ([os a'] & Hd & Heq). injection Heq as Ho <-.
    destruct outs as [|o1 outs]; [|injection Ho as -> ->].
    { injection Ho as -> ->. apply deliver_length in Hd. rewrite length_app in Hd. simpl in Hd. lia. }
    destruct (IH _ _ Hd) as (asm1 & Hd1 & Hr1). exists asm1. by rewrite Hr, bind_ok, Hd1, bind_ok.
Qed.

Lemma for_each_ext {E A S} (f g : A → S → res E S) l s : Forall (λ x, ∀ s, f x s = g x s) l →
  for_each f l s = for_each g l s.
Proof using Type.
  intros Hl. revert s. induction Hl as [|x l Hx _ IH]; intros s; [done|]. cbn [for_each].
  rewrite Hx. destruct (g x s); [apply IH|done|done].
Qed.

Lemma frag_datagram h st i : 0 <= i < nfrags st →
  datagram (frag_message h st <$> seqZ 0 (nfrags st)) i = frag_message h st i.
Proof using Type.
  intros Hi. unfold datagram. rewrite list_lookup_fmap, lookup_seqZ_lt by lia. simpl.
  by rewrite Z.add_0_l, Z2Nat.id by lia.
Qed.

(** All fragments of a sample, in any order and with any repetition, the last
    missing one at the end. *)
Lemma fragments_cross h eid seq p (rcv : participant) from clock i evs t0 :
  let st := sample_stream eid seq p in
  is_u64 seq → stream_wf st → guid_prefix h ≠ rp_guid_prefix rcv →
  buffers (frag_assembler rcv) !! stream_key st = None → t0 <= mono clock <= t0 + STALE_FRAG_AGE →
  Forall (λ e : Clock * Z, t0 <= mono e.1 <= t0 + STALE_FRAG_AGE) evs →
  (∀ j, j ∈ evs.*2 ↔ 0 <= j < nfrags st ∧ j ≠ i) → 0 <= i < nfrags st →
  ∃ asm, buffers asm !! stream_key st = None ∧ beside (stream_key st) (frag_assembler rcv) asm ∧
    for_each (λ e, handle_data_packet e.1 (frag_message h st e.2) from) (evs ++ [(clock, i)]) rcv
    = deliver_remote clock (mkGuid (guid_prefix h) eid) seq p from (set_assembler asm rcv).
Proof using Type.
  intros st Hs Hst Hpre Hbuf Hclk Hevs Hcov Hi.
  set (arr := (λ e : Clock * Z, mkArrival (mono e.1) st e.2) <$> evs).
  assert (Forall (λ e : Clock * Z, 0 <= e.2 < nfrags st) evs) as Hidx.
  { apply Forall_forall. intros e He. apply Hcov. by apply list_elem_of_fmap_2. }
  destruct (deliver_completes_alone arr (mono clock) i st (frag_assembler rcv) t0)
    as (outs & asm & Hd & Hb & Hbs & Ho); try done.
  - unfold arr. apply Forall_fmap, Forall_forall. intros e He. rewrite Forall_forall in Hidx, Hevs.
    split_and!; [done|by apply Hidx..|by apply Hevs|by apply Hevs].
  - intros j. unfold arr. by rewrite seen_of_own.
  - exists asm. split; [exact Hb|]. split; [exact Hbs|]. apply deliver_snoc in Hd as (asm1 & Hd & Hr).
    assert (Forall (eq None) outs) as Hnone.
    { apply Forall_forall. intros o [j Hj]%list_elem_of_lookup. pose proof (lookup_lt_Some _ _ _ Hj) as Hlt.
      rewrite (deliver_length _ _ _ _ Hd) in Hlt. apply lookup_lt_is_Some_2, Ho in Hlt. congruence. }
    rewrite for_each_app. unfold frag_message.
    rewrite (pending_frags h st from evs rcv asm1 outs Hpre Hst ltac:(done) Hidx Hd Hnone), bind_ok.
    cbn [for_each fst snd]. destruct (frag_at_wf st i Hst Hi) as [Hf Hl].
    rewrite (receive_last_frag h (set_assembler asm1 rcv) Hpre clock from _ p asm Hf (Hl ltac:(done)) Hr).
    simpl. rewrite to_u64_from_u64 by done.
    change (set_assembler asm (set_assembler asm1 rcv)) with (set_assembler asm rcv).
    by destruct (deliver_remote _ _ _ _ _ (set_assembler asm rcv)).
Qed.

(** The messages of a sample as they arrive: when, and which. *)
Definition transmit (msgs : list (list byte)) (from : SocketAddr) (evs : list (Clock * Z)) self
    : runs participant :=
  for_each (λ e, handle_data_packet e.1 (datagram msgs e.2) from) evs self.

(** Arrival [i] is the last missing one of [n] messages. *)
Definition completes (evs : list (Clock * Z)) (i n : Z) : Prop :=
  (∀ j, j ∈ evs.*2 ↔ 0 <= j < n ∧ j ≠ i) ∧ 0 <= i < n.

Definition in_time (t0 : Z) (evs : list (Clock * Z)) : Prop :=
  Forall (λ e : Clock * Z, t0 <= mono e.1 <= t0 + STALE_FRAG_AGE) evs.

(** The key a sample is reassembled under: the writer's entity id and the low
    half of the number, without the participant (fragment.rs). *)
Definition sample_key (eid : EntityId) (seq : Z) : FragKey := mkFragKey eid (low (SequenceNumber.from_u64 seq)).

Lemma sample_crosses eid seq p (sender rcv : participant) from clock i evs t0 :
  is_u64 seq → len p <= MAX_REASSEMBLY_BYTES - 4 → rp_guid_prefix sender ≠ rp_guid_prefix rcv →
  buffers (frag_assembler rcv) !! sample_key eid seq = None → in_time t0 (evs ++ [(clock, i)]) →
  ∃ msgs, messages eid seq (wrap_payload p) sender = Ok msgs ∧ msgs ≠ [] ∧
    (completes evs i (len msgs) →
     ∃ asm, buffers asm !! sample_key eid seq = None ∧
       beside (sample_key eid seq) (frag_assembler rcv) asm ∧
       transmit msgs from (evs ++ [(clock, i)]) rcv
       = deliver_remote clock (mkGuid (rp_guid_prefix sender) eid) seq p from (set_assembler asm rcv)).
Proof using Type.
  intros Hs Hp Hpre Hbuf [Hevs [Hclk _]%Forall_cons]%Forall_app.
  change (t0 <= mono clock <= t0 + STALE_FRAG_AGE) in Hclk. unfold completes, transmit. destruct (Z.le_gt_cases (len p) 1196) as [Hsm|Hbig]; eexists.
  - rewrite messages_small by done. split_and!; [done|done|]. change (len [_]) with 1. intros [Hcov Hi].
    assert (evs = []) as ->.
    { destruct evs as [|e evs]; [done|]. destruct (proj1 (Hcov e.2)); [by left|lia]. }
    assert (i = 0) as -> by lia. exists (frag_assembler rcv). split; [done|]. split; [apply beside_refl|].
    cbn [app for_each fst snd]. change (datagram [?m] 0) with m.
    rewrite receive_data by (done || lia).
    replace (set_assembler (frag_assembler rcv) rcv) with rcv by by destruct rcv.
    by destruct (deliver_remote _ _ _ _ _ rcv).
  - rewrite messages_large by done. set (st := sample_stream eid seq p).
    assert (stream_wf st) as Hst by by apply sample_stream_wf. pose proof (nfrags_pos st Hst) as Hn0.
    assert (len (frag_message (header sender) st <$> seqZ 0 (nfrags st)) = nfrags st) as Hlen
      by (rewrite len_fmap; unfold len; rewrite length_seqZ; lia).
    split_and!; [done| |].
    { intros Hn. fold st in Hn. rewrite Hn, len_nil in Hlen. lia. }
    fold st. rewrite Hlen. intros [Hcov Hi].
    destruct (fragments_cross (header sender) eid seq p rcv from clock i evs t0) as (asm & Hb & Hbs & Hr); try done.
    exists asm. split; [exact Hb|]. split; [exact Hbs|]. change (rp_guid_prefix sender) with (guid_prefix (header sender)). rewrite <- Hr. apply for_each_ext, Forall_forall.
    intros e He s. f_equal. apply frag_datagram.
    apply elem_of_app in He as [He|He%list_elem_of_singleton]; [|by subst e].
    apply Hcov. by apply list_elem_of_fmap_2.
Qed.

(** C4. A sample crosses the wire.  Let the sample have at most 16 MiB less the
    4 bytes of its encapsulation, and let the receiver hold no unfinished
    reassembly under the sample's key - the writer's entity id and the low
    half of the number, which do not name the participant, so that another
    participant's writer of that id may be in the way.  Then the messages the
    writer sends for it, once each has arrived - in any order, with any
    repetition, within five seconds and with no other datagram between - make
    the receiver do exactly what it does with the sample itself, under the
    writer's GUID and the sample's number.  Only the reassembly buffers may
    differ: the sample's own is gone, and any other is kept or was stale. *)
Theorem sample_crosses_wire eid seq p (sender rcv : participant) from clock i evs t0 :
  is_u64 seq → len p <= MAX_REASSEMBLY_BYTES - 4 → rp_guid_prefix sender ≠ rp_guid_prefix rcv →
  buffers (frag_assembler rcv) !! sample_key eid seq = None → in_time t0 (evs ++ [(clock, i)]) →
  ∃ msgs, messages eid seq (wrap_payload p) sender = Ok msgs ∧ msgs ≠ [] ∧
    (completes evs i (len msgs) →
     ∃ asm, buffers asm !! sample_key eid seq = None ∧
       beside (sample_key eid seq) (frag_assembler rcv) asm ∧
       transmit msgs from (evs ++ [(clock, i)]) rcv
       = deliver_remote clock (mkGuid (rp_guid_prefix sender) eid) seq p from (set_assembler asm rcv)).
Proof using Type. apply sample_crosses. Qed.
End wire.

(** ** Discovery, then data *)

Section discovery.
Context {N : Type} `{!Notify N} `{BuildProfile}.
Notation participant := (RtpsParticipant N).
Implicit Types self : participant.

Definition best_effort self : Prop :=
  ∀ e st, readers self !! e = Some st → r_reliable st = false.

Lemma notify_best_effort g seq from self : best_effort self →
  notify_reliable_readers g seq from self = Ok self.
Proof using Type.
  intros Hb. unfold notify_reliable_readers.
  assert (∀ er, er ∈ map_to_list (readers self) → r_reliable er.2 = false) as Hers.
  { intros [e st] He%elem_of_map_to_list. by eapply Hb. }
  revert Hers. generalize (map_to_list (readers self)). intros ers. induction ers as [|[e st] ers IH]; intros Hers; [done|].
  cbn [for_each]. pose proof (Hers (e, st) ltac:(by left)) as Hr. simpl in Hr.
  assert (notify_reader g seq from (e, st) self = Ok self) as -> by (unfold notify_reader; by rewrite Hr).
  rewrite bind_ok. apply IH. intros er Her. apply Hers. by right.
Qed.

(** The match events of a queue, applied to the readers. *)
Definition matched (q : list WriterMatch) (rs : gmap EntityId ReaderState) : gmap EntityId ReaderState :=
  foldl (λ rs ev, alter (add_source (Sedp.writer_guid ev)) (reader_eid ev) rs) rs q.

Lemma match_rounds self tx : match_listener (sedp self) = Some tx →
  for_each step (replicate (length (chan_queue tx)) MatchRound) self =
  Ok (set_sedp (set_match_listener (mkChan (chan_cap tx) (chan_open tx) []) (sedp self)) (meta_socket self)
        (set_readers (matched (chan_queue tx) (readers self)) self)).
Proof using Type.
  destruct tx as [cap op q]. cbn [chan_queue chan_cap chan_open]. revert self.
  induction q as [|ev q IH]; intros self Htx.
  - simpl. f_equal. destruct self as [???[]]. simpl in *. by subst.
  - cbn [length replicate for_each]. simpl step. unfold match_listener_step. rewrite Htx. simpl.
    by rewrite IH.
Qed.

Lemma matched_lookup q rs e : ∃ S : gset Guid,
  (∀ g, g ∈ S ↔ mkWriterMatch e g ∈ q) ∧
  matched q rs !! e = (λ st, mkReaderState (r_topic st) (S ∪ sources st) (r_inner st) (r_reliable st)
                               (trackers st)) <$> rs !! e.
Proof using Type.
  revert rs. induction q as [|[e' g'] q IH]; intros rs.
  - exists ∅. split; [set_solver|]. simpl. destruct (rs !! e) as [[]|]; simpl; [|done].
    by rewrite union_empty_l_L.
  - destruct (IH (alter (add_source g') e' rs)) as (S & HS & Hl).
    destruct (decide (e' = e)) as [->|Hne].
    + exists ({[g']} ∪ S). split; [set_solver|]. unfold matched in *. simpl. rewrite Hl, lookup_alter_eq.
      destruct (rs !! e) as [st|]; simpl; [|done]. do 2 f_equal. set_solver.
    + exists S. split; [|unfold matched in *; simpl; by rewrite Hl, lookup_alter_ne].
      intros g. rewrite HS, elem_of_cons. naive_solver.
Qed.

(** What the announcement of a writer puts in the listener's queue. *)
Lemma announced_matches info loc s tx : sedp_wf s → is_writer info = true →
  match_listener s = Some tx → chan_open tx = true → chan_cap tx = None → chan_queue tx = [] →
  ∃ q, match_listener (on_endpoint info loc s) = Some (mkChan None true q) ∧
    ∀ e g, mkWriterMatch e g ∈ q ↔
      g = ei_guid info ∧ ∃ i, local_readers s !! e = Some i ∧ topic_name i = topic_name info.
Proof using Type.
  intros Hw Hi Htx Ho Hc Hq. unfold on_endpoint, on_remote_writer. rewrite Hi.
  pose proof (λ e, readers_on_topic_spec s (topic_name info) e Hw) as Hrt.
  cbn [local_readers set_announces_received set_remote_writers].
  destruct (readers_on_topic (topic_name info) (local_readers s)) as [|e0 es].
  - exists []. split.
    + cbn [match_listener set_matches set_remote_writers set_announces_received snd].
      rewrite Htx. destruct tx. simpl in *. by subst.
    + intros e g. rewrite <- Hrt. split; [by intros ?%elem_of_nil|]. by intros [_ ?%elem_of_nil].
  - cbn [match_listener set_matches set_remote_writers set_announces_received set_writer_locators].
    rewrite Htx, notify_queue, Hq by done. eexists. split; [done|].
    intros e g. rewrite <- Hrt, app_nil_l, list_elem_of_fmap. naive_solver.
Qed.

(** Subscriptions after the announcement of writer [info] has been handled. *)
Lemma after_announcement cfg info aseq afrom (self : participant) tx :
  participant_wf self → endpoint_ok cfg info → is_u32 aseq → is_writer info = true →
  ec_guid_prefix cfg ≠ rp_guid_prefix self →
  match_listener (sedp self) = Some tx → chan_open tx = true → chan_cap tx = None → chan_queue tx = [] →
  ∃ n self1, for_each step (MetaPacket (endpoint_message cfg info aseq) afrom :: replicate n MatchRound) self
      = Ok self1 ∧ participant_wf self1 ∧
    inners self1 = inners self ∧ frag_assembler self1 = frag_assembler self ∧
    rp_guid_prefix self1 = rp_guid_prefix self ∧
    ∀ e, ∃ S : gset Guid, readers self1 !! e
      = (λ st, mkReaderState (r_topic st) (S ∪ sources st) (r_inner st) (r_reliable st) (trackers st))
          <$> readers self !! e ∧
      ∀ st, readers self !! e = Some st → S = if decide (r_topic st = topic_name info) then {[ei_guid info]} else ∅.
Proof using Type.
  intros Hwf Ho Hs Hi Hpre Htx Hop Hcap Hq.
  destruct (announced_matches info (fill_in_zero_address (zero_locator (ec_ipv6 cfg)
    (ec_data_unicast_port cfg)) afrom) (sedp self) tx (pw_sedp _ Hwf) Hi Htx Hop Hcap Hq) as (q & Hl & Hqs).
  assert (step (MetaPacket (endpoint_message cfg info aseq) afrom) self = Ok (set_sedp (on_endpoint info
    (fill_in_zero_address (zero_locator (ec_ipv6 cfg) (ec_data_unicast_port cfg)) afrom) (sedp self))
    (meta_socket self) self)) as Hst.
  { simpl. rewrite handle_endpoint_message; [done|done|done|by rewrite (pw_prefix _ Hwf)]. }
  exists (length q). cbn [for_each]. rewrite Hst, bind_ok. set (self0 := set_sedp _ _ self) in *.
  pose proof (match_rounds self0 _ Hl) as Hm0. cbn [chan_queue chan_cap chan_open] in Hm0.
  rewrite Hm0. eexists. split; [done|].
  assert (participant_wf self0) as Hwf0 by by eapply step_wf.
  split.
  { apply (for_each_inv participant_wf) with (f := step) (l := replicate (length q) MatchRound) (s := self0);
      [intros x s s'; apply step_wf|done|exact Hm0]. }
  split_and!; [done..|]. intros e. simpl. destruct (matched_lookup q (readers self) e) as (S & HS & Hm).
  exists S. split; [exact Hm|]. intros st Hr. destruct (pw_reader _ Hwf _ _ Hr) as (i & Hli & Hti).
  apply set_eq. intros g. rewrite HS, Hqs. case_decide as Ht.
  - rewrite elem_of_singleton. split; [by intros [? _]|]. intros ->. split; [done|]. exists i. split; congruence.
  - split; [|set_solver]. intros (_ & i' & Hli' & Hti'). congruence.
Qed.

Lemma accepts_remote st own g : prefix g ≠ own →
  accepts_source st own g = bool_decide (g ∈ sources st).
Proof using Type.
  intros Hp. unfold accepts_source. rewrite !(bool_decide_false (prefix g = own)) by done.
  case_bool_decide as He; [|done]. rewrite He. by rewrite bool_decide_false by apply not_elem_of_empty.
Qed.

(** A remote sample at a participant without reliable readers. *)
Lemma deliver_remote_best_effort clock g seq p from self :
  participant_wf self → best_effort self → prefix g ≠ rp_guid_prefix self →
  ∃ self', deliver_remote clock g seq p from self = Ok self' ∧ readers self' = readers self ∧
    frag_assembler self' = frag_assembler self ∧ rp_guid_prefix self' = rp_guid_prefix self ∧
    ∀ e st, readers self !! e = Some st → ∃ q, inners self !! r_inner st = Some q ∧
      inners self' !! r_inner st = Some (if decide (g ∈ sources st)
        then (push q (mkSample (r_topic st) p (utc clock) seq (Guid.to_bytes g))).2 else q).
Proof using Type.
  intros Hwf Hb Hp. unfold deliver_remote. rewrite notify_best_effort, bind_ok by done.
  eexists. split; [done|].
  destruct (dispatch_spec g None p (utc clock) seq self (pw_apart _ Hwf) (proj1 (pw_totals _ Hwf))
              (proj2 (pw_totals _ Hwf))) as (Ho & _ & _ & _ & Hd & _).
  split_and!; [by rewrite Ho..|]. intros e st He.
  pose proof (pw_queue _ Hwf _ _ He) as [q Hq]%lookup_lt_is_Some_2. exists q. split; [done|].
  rewrite (Hd _ _ He), Hq. simpl. unfold takes. cbn [on_topic andb]. rewrite accepts_remote by done.
  by case_bool_decide; [rewrite decide_True|rewrite decide_False].
Qed.

(** *** A run of samples *)

(** A sample of one writer on its way: its number, its payload, where its
    messages come from, when each arrives and which one completes it, and the
    start of its five seconds. *)
Record Transmission : Type := mkTransmission {
  tr_seq : Z; tr_payload : list byte; tr_from : SocketAddr; tr_evs : list (Clock * Z);
  tr_clock : Clock; tr_index : Z; tr_start : Z
}.

Definition arrivals (T : Transmission) : list (Clock * Z) := tr_evs T ++ [(tr_clock T, tr_index T)].

(** The receiver takes in the messages [sender] makes of the sample. *)
Definition hear (weid : EntityId) (sender : participant) (T : Transmission) self : runs participant :=
  msgs ← messages weid (tr_seq T) (wrap_payload (tr_payload T)) sender;
  transmit msgs (tr_from T) (arrivals T) self.

(** A transmission that can be completed, and that is. *)
Definition arrives (weid : EntityId) (sender : participant) (T : Transmission) : Prop :=
  is_u64 (tr_seq T) ∧ len (tr_payload T) <= MAX_REASSEMBLY_BYTES - 4 ∧ in_time (tr_start T) (arrivals T) ∧
  ∀ msgs, messages weid (tr_seq T) (wrap_payload (tr_payload T)) sender = Ok msgs →
    completes (tr_evs T) (tr_index T) (len msgs).

(** The sample a reader of topic [t] gets. *)
Definition heard_as (t : str) (g : Guid) (T : Transmission) : Sample :=
  mkSample t (tr_payload T) (utc (tr_clock T)) (tr_seq T) (Guid.to_bytes g).

(** The samples [xs] offered to a queue in order. *)
Definition pushes (xs : list Sample) (q : SubInner N) : SubInner N := foldl (λ q x, (push q x).2) q xs.

(** No sample of a writer with this entity id is being reassembled. *)
Definition no_reassembly (weid : EntityId) (asm : FragmentAssembler) : Prop :=
  ∀ k, fk_writer k = weid → buffers asm !! k = None.

Lemma hear_wf weid sender T self self' : participant_wf self → hear weid sender T self = Ok self' →
  participant_wf self'.
Proof using Type.
  intros Hwf (msgs & _ & Hr)%bind_ok_inv. unfold transmit in Hr.
  refine (for_each_inv participant_wf _ _ _ _ _ Hwf Hr). intros e s s' Hs Hd.
  exact (step_wf (DataPacket e.1 (datagram msgs e.2) (tr_from T)) s s' Hs Hd).
Qed.

(** One sample of a writer at a participant of best-effort readers. *)
Lemma hear_one weid sender T self : let g := mkGuid (rp_guid_prefix sender) weid in
  participant_wf self → best_effort self → no_reassembly weid (frag_assembler self) →
  rp_guid_prefix sender ≠ rp_guid_prefix self → arrives weid sender T →
  ∃ self', hear weid sender T self = Ok self' ∧ readers self' = readers self ∧
    rp_guid_prefix self' = rp_guid_prefix self ∧ no_reassembly weid (frag_assembler self') ∧
    ∀ e st, readers self !! e = Some st → ∃ q, inners self !! r_inner st = Some q ∧
      inners self' !! r_inner st =
        Some (if decide (g ∈ sources st) then (push q (heard_as (r_topic st) g T)).2 else q).
Proof using Type.
  intros g Hwf Hb Hn Hpre (Hs & Hp & Ht & Hc).
  destruct (sample_crosses weid (tr_seq T) (tr_payload T) sender self (tr_from T) (tr_clock T) (tr_index T)
    (tr_evs T) (tr_start T)) as (msgs & Hm & _ & Hx); try done; [by apply Hn|].
  destruct (Hx (Hc msgs Hm)) as (asm & Hk & Hbs & Hr). fold g in Hr.
  destruct (deliver_remote_best_effort (tr_clock T) g (tr_seq T) (tr_payload T) (tr_from T) (set_assembler asm self))
    as (self' & Hd & Hrd & Ha & Hpf & Hq); [by apply wf_assembler|done..|].
  exists self'. split; [unfold hear; by rewrite Hm, bind_ok, <- Hd, <- Hr|]. split_and!; [done..| |exact Hq].
  rewrite Ha. intros k Hkw. destruct (decide (k = sample_key weid (tr_seq T))) as [->|Hne]; [done|].
  apply (beside_absent _ k _ _ Hbs Hne). by apply Hn.
Qed.

Lemma hear_all weid sender Ts self : let g := mkGuid (rp_guid_prefix sender) weid in
  participant_wf self → best_effort self → no_reassembly weid (frag_assembler self) →
  rp_guid_prefix sender ≠ rp_guid_prefix self → Forall (arrives weid sender) Ts →
  ∃ self', for_each (hear weid sender) Ts self = Ok self' ∧
    ∀ e st, readers self !! e = Some st → ∃ q, inners self !! r_inner st = Some q ∧
      inners self' !! r_inner st =
        Some (if decide (g ∈ sources st) then pushes (heard_as (r_topic st) g <$> Ts) q else q).
Proof using Type.
  intros g Hwf Hb Hn Hpre HTs. revert self Hwf Hb Hn Hpre.
  induction HTs as [|T Ts HT _ IH]; intros self Hwf Hb Hn Hpre.
  - exists self. split; [done|]. intros e st He.
    pose proof (pw_queue _ Hwf _ _ He) as [q Hq]%lookup_lt_is_Some_2. exists q. by case_decide.
  - destruct (hear_one weid sender T self Hwf Hb Hn Hpre HT) as (self1 & Hh & Hr1 & Hp1 & Hn1 & Hq1).
    destruct (IH self1) as (self2 & Hf & Hq2); [by eapply hear_wf| |done|by rewrite Hp1|].
    { intros e st He. rewrite Hr1 in He. by eapply Hb. }
    exists self2. cbn [for_each]. rewrite Hh, bind_ok. split; [exact Hf|]. intros e st He.
    destruct (Hq1 e st He) as (q & Hq & Hq'). exists q. split; [done|].
    rewrite <- Hr1 in He. destruct (Hq2 e st He) as (q' & Hq'' & ->). fold g in Hq'.
    rewrite Hq' in Hq''. injection Hq'' as <-. by case_decide.
Qed.

(** C2. From discovery to delivery.  A participant whose readers are all
    best-effort, that is listening with no match event waiting and is
    reassembling no sample under the writer's entity id, receives the
    announcement of a remote writer and works off the match events it causes.
    Then let any samples of that writer arrive, one after the other and with
    no other datagram between: each of at most 16 MiB less 4 bytes, its
    messages in any order and with any repetition within five seconds.  Every
    one of them is pushed, once and in that order, into the queue of every
    reader of the writer's topic and of every reader that had accepted the
    writer before; no other reader gets anything. *)
Theorem discovered_writer_is_heard cfg weid t aseq afrom (sender sub : participant) tx :
  let g := mkGuid (ec_guid_prefix cfg) weid in
  participant_wf sub → best_effort sub → no_reassembly weid (frag_assembler sub) →
  match_listener (sedp sub) = Some tx → chan_open tx = true → chan_cap tx = None → chan_queue tx = [] →
  endpoint_ok cfg (mkEndpointInfo g t true) → is_u32 aseq →
  ec_guid_prefix cfg = rp_guid_prefix sender → rp_guid_prefix sender ≠ rp_guid_prefix sub →
  ∃ n sub1,
    for_each step (MetaPacket (endpoint_message cfg (mkEndpointInfo g t true) aseq) afrom
                   :: replicate n MatchRound) sub = Ok sub1 ∧
    ∀ Ts, Forall (arrives weid sender) Ts →
      ∃ sub2, for_each (hear weid sender) Ts sub1 = Ok sub2 ∧
        ∀ e st, readers sub !! e = Some st → ∃ q, inners sub !! r_inner st = Some q ∧
          inners sub2 !! r_inner st = Some (if decide (r_topic st = t ∨ g ∈ sources st)
            then pushes (heard_as (r_topic st) g <$> Ts) q else q).
Proof using Type.
  intros g Hwf Hb Hbuf Htx Hop Hcap Hq Ho Has Hsend Hpre.
  destruct (after_announcement cfg (mkEndpointInfo g t true) aseq afrom sub tx) as
    (n & sub1 & Hrun & Hwf1 & Hin & Hasm & Hpf & Hrd); try done; [by rewrite Hsend|].
  exists n, sub1. split; [exact Hrun|]. intros Ts HTs.
  assert (best_effort sub1) as Hb1.
  { intros e st He. destruct (Hrd e) as (S & Hl & _). rewrite Hl in He.
    apply fmap_Some in He as (st0 & He & ->). simpl. by eapply Hb. }
  destruct (hear_all weid sender Ts sub1) as (sub2 & Hd & Hq2); [done|done|by rewrite Hasm|by rewrite Hpf|done|].
  exists sub2. split; [exact Hd|]. intros e st He. destruct (Hrd e) as (S & Hl & HS).
  rewrite He in Hl. simpl in Hl. specialize (HS st He). simpl in HS.
  destruct (Hq2 e _ Hl) as (q & Hq0 & Hq1). simpl in *. rewrite <- Hsend in Hq1. fold g in Hq1.
  exists q. rewrite <- Hin. split; [done|].
  rewrite Hq1. f_equal. apply decide_ext. rewrite elem_of_union.
  assert (g ∈ S ↔ r_topic st = t); [|tauto]. rewrite HS.
  destruct (decide (r_topic st = t)); [rewrite elem_of_singleton|rewrite elem_of_empty]; tauto.
Qed.
End discovery.

(** ** Reliable writers *)

Section writer.
Context {N : Type} `{!Notify N} `{BuildProfile}.
Notation participant := (RtpsParticipant N).
Implicit Types self : participant.

(** The history after the messages [ms], numbered from 1. *)
Definition history_of (ms : list (list byte)) (h : SendHistory) : Prop :=
  match ms with
  | [] => h = SendHistory_new
  | _ => window 1 ms h
  end.

(** The oldest number a history still holds, and what it holds. *)
Definition oldest (ms : list (list byte)) : Z := Z.max 1 (len ms - 255).

Definition held (ms : list (list byte)) (s : Z) : option (list byte) :=
  if (oldest ms <=? s) && (s <=? len ms) then ms !! Z.to_nat (s - 1) else None.

Lemma history_first_last ms h : history_of ms h →
  SendHistory_first_last h = if bool_decide (ms = []) then None else Some (oldest ms, len ms).
Proof using Type.
  unfold history_of. destruct ms as [|m ms]; [by intros ->|].
  intros [-> _]%window_reads. rewrite bool_decide_false by done.
  unfold oldest. do 2 f_equal; lia.
Qed.

Lemma history_get ms h s : history_of ms h → SendHistory_get s h = Ok (held ms s).
Proof using Type.
  unfold history_of, held, oldest. destruct ms as [|m ms].
  { intros ->. rewrite len_nil. destruct (Z.leb_spec (Z.max 1 (0 - 255)) s), (Z.leb_spec s 0); (done || lia). }
  intros [_ ->]%window_reads. by rewrite Z.add_simpl_l.
Qed.

Lemma history_store ms h m : history_of ms h → ∃ h',
  SendHistory_store (len ms + 1) m h = Ok h' ∧ history_of (ms ++ [m]) h' ∧
    Reliable.hb_count h' = Reliable.hb_count h.
Proof using Type.
  intros Hh. assert (∃ h', SendHistory_store (len ms + 1) m h = Ok h' ∧ history_of (ms ++ [m]) h')
    as (h' & Hs & Hh').
  { destruct ms as [|m0 ms]; [simpl in Hh; subst; by apply (store_first 1)|].
    rewrite Z.add_comm. destruct (window_store 1 (m0 :: ms) h m) as (h' & ? & ?); [lia|done|done|by exists h']. }
  exists h'. split_and!; [done..|]. unfold SendHistory_store in Hs. unbind Hs.
  destruct (negb (any h)); by injection Hs as <-.
Qed.

Lemma history_count ms h c : history_of ms h → ms ≠ [] →
  history_of ms (mkSendHistory (sh_msg h) (sh_sn h) (highest h) (lowest h) (any h) c).
Proof using Type. by destruct ms. Qed.

(** *** Sends *)

Definition sends (l : list (SocketAddr * list byte)) self : participant :=
  set_data_socket (mkRtpsSocket (sock_port (data_socket self)) (sent (data_socket self) ++ l)
    (verdict (data_socket self))) self.

Definition to_all (dsts : list SocketAddr) (m : list byte) : list (SocketAddr * list byte) :=
  (λ dst, (dst, m)) <$> dsts.

Lemma sends_nil self : sends [] self = self.
Proof using Type. unfold sends. rewrite app_nil_r. by destruct self as [??[]]. Qed.

Lemma sends_app l k self : sends k (sends l self) = sends (l ++ k) self.
Proof using Type. unfold sends. simpl. by rewrite <- app_assoc. Qed.

Lemma send_sends m dst self : send m dst self = sends [(dst, m)] self.
Proof using Type. done. Qed.

Lemma send_all_sends m dsts self : send_all m dsts self = sends (to_all dsts m) self.
Proof using Type. apply send_all_eq. Qed.

Lemma sends_addrs t l self : reader_addrs t (sends l self) = reader_addrs t self.
Proof using Type. done. Qed.

(** *** ACKNACK *)

Lemma requested_bit bm n : 0 <= n → (Z.land bm (Z.shiftl 1 n) =? 0) = negb (Z.testbit bm n).
Proof using Type.
  intros Hn. destruct (Z.testbit bm n) eqn:Hb; simpl.
  - apply Z.eqb_neq. intros Hz. apply (f_equal (λ z, Z.testbit z n)) in Hz.
    rewrite Z.land_spec, Hb, Z.shiftl_spec, Z.sub_diag, Z.bits_0 in Hz by lia. done.
  - apply Z.eqb_eq. apply Z.bits_inj_0. intros k. rewrite Z.land_spec, Z.shiftl_1_l.
    destruct (Z.eq_dec k n) as [->|]; [by rewrite Hb|]. rewrite Z.pow2_bits_false by done.
    apply andb_false_r.
Qed.

(** The messages that answer a bitmap, in the order they are sent. *)
Definition resent (bm b : Z) (ms : list (list byte)) (dsts : list SocketAddr) (ns : list Z)
    : list (SocketAddr * list byte) :=
  n ← filter (λ n, Z.testbit bm n = true) ns;
  match held ms (b + n) with Some m => to_all dsts m | None => [] end.

Lemma retransmit_one bm b h ms t n self : history_of ms h → 0 <= n → b + n < 2 ^ 64 →
  retransmit bm b h t n self = Ok (sends (resent bm b ms (reader_addrs t self) [n]) self).
Proof using Type.
  intros Hh Hn Hb. unfold retransmit, resent. rewrite requested_bit by done. rewrite filter_cons.
  destruct (Z.testbit bm n); cbn [negb].
  2:{ rewrite decide_False by done. by rewrite <- (sends_nil self) at 1. }
  rewrite decide_True by done. rewrite uadd_ok, bind_ok by done.
  rewrite (history_get ms) by done. cbn [lift]. rewrite bind_ok, filter_nil. cbn [mbind list_bind].
  rewrite app_nil_r. destruct (held ms (b + n)) as [m|]; [by rewrite send_all_sends|].
  by rewrite <- (sends_nil self) at 1.
Qed.

Lemma resent_cons bm b ms dsts n ns :
  resent bm b ms dsts (n :: ns) = resent bm b ms dsts [n] ++ resent bm b ms dsts ns.
Proof using Type. unfold resent. rewrite <- bind_app, <- filter_app. done. Qed.

Lemma retransmit_loop bm b h ms t ns self : history_of ms h →
  Forall (λ n, 0 <= n ∧ b + n < 2 ^ 64) ns →
  for_each (retransmit bm b h t) ns self = Ok (sends (resent bm b ms (reader_addrs t self) ns) self).
Proof using Type.
  intros Hh Hns. revert self. induction Hns as [|n ns [Hn Hb] _ IH]; intros self.
  { by rewrite <- (sends_nil self) at 1. }
  cbn [for_each]. rewrite (retransmit_one _ _ _ ms), bind_ok, IH, sends_app by done.
  by rewrite sends_addrs, (resent_cons _ _ _ _ n ns).
Qed.

(** The GAP that declares what is lost of a request. *)
Definition gap_message self (an : AckNack) (b : Z) (ms : list (list byte)) : list byte :=
  wrap_in_rtps_message (header self) (encode_gap_submessage
    (mkGap (an_reader_entity_id an) (an_writer_entity_id an) (SequenceNumber.from_u64 b)
       (SequenceNumber.from_u64 (Z.min (oldest ms - 1) (b + 31))))).

Definition gap_sends self (an : AckNack) (b : Z) (ms : list (list byte)) (from : SocketAddr)
    (dsts : list SocketAddr) : list (SocketAddr * list byte) :=
  if bool_decide (ms ≠ []) && (b <? oldest ms)
  then (from, gap_message self an b ms) :: to_all dsts (gap_message self an b ms) else [].

Lemma acknack_answer an from self ws ms h :
  writers self !! an_writer_entity_id an = Some ws → w_reliable ws = true →
  w_history ws = Some h → history_of ms h →
  let b := SequenceNumber.to_u64 (base an) in 0 <= b → b + 31 < 2 ^ 64 →
  let dsts := reader_addrs (w_topic ws) self in
  handle_acknack an from self =
  Ok (sends (resent (bitmap an) b ms dsts (seqZ 0 32) ++ gap_sends self an b ms from dsts)
        (set_writers (<[an_writer_entity_id an := advance_acked b ws]> (writers self)) self)).
Proof using Type.
  intros Hw Hr Hh Hms b Hb0 Hb dsts. unfold handle_acknack. rewrite Hw, Hr, Hh. cbn [negb]. cbv zeta.
  fold b. rewrite (retransmit_loop _ _ _ ms) by
    (done || (apply Forall_forall; intros n Hn%elem_of_seqZ; lia)).
  rewrite bind_ok, (history_first_last ms) by done. unfold gap_sends.
  destruct (decide (ms = [])) as [->|Hne].
  { rewrite (bool_decide_true ([] = [])), (bool_decide_false (¬ _)) by naive_solver.
    cbn [andb]. by rewrite app_nil_r. }
  rewrite (bool_decide_false (ms = [])), (bool_decide_true (¬ _)) by done. cbn [andb].
  destruct (Z.ltb_spec b (oldest ms)) as [Hlt|]; [|by rewrite app_nil_r].
  assert (1 <= oldest ms) by (unfold oldest; lia).
  unfold send_gap. rewrite usub_ok, bind_ok by lia. rewrite uadd_ok, bind_ok by lia. cbv zeta.
  replace (if b + 31 <? oldest ms - 1 then b + 31 else oldest ms - 1) with (Z.min (oldest ms - 1) (b + 31))
    by (destruct (Z.ltb_spec (b + 31) (oldest ms - 1)); lia).
  rewrite send_all_sends, send_sends, !sends_app. done.
Qed.

(** C14. Retransmission: an ACKNACK to a reliable writer that has written
    [ms] makes it resend, in order, to every address its topic is matched
    with, exactly those requested messages its history still holds; if the
    request starts before that history, a GAP that ends where the history
    begins (or with the 32 numbers of the request) goes to the requester and
    to every matched address; the acknowledged mark never moves back. *)
Theorem acknack_answered an from self ws ms h :
  writers self !! an_writer_entity_id an = Some ws → w_reliable ws = true →
  w_history ws = Some h → history_of ms h →
  let b := SequenceNumber.to_u64 (base an) in 0 <= b → b + 31 < 2 ^ 64 →
  let dsts := reader_addrs (w_topic ws) self in
  handle_acknack an from self =
  Ok (sends (resent (bitmap an) b ms dsts (seqZ 0 32) ++ gap_sends self an b ms from dsts)
        (set_writers (<[an_writer_entity_id an := advance_acked b ws]> (writers self)) self)) ∧
  w_acked (advance_acked b ws) = (if b =? 0 then w_acked ws else Z.max (w_acked ws) (b - 1)) ∧
  (∀ m, m ∈ (resent (bitmap an) b ms dsts (seqZ 0 32)).*2 → ∃ n, 0 <= n < 32 ∧
     Z.testbit (bitmap an) n = true ∧ oldest ms <= b + n <= len ms ∧
     ms !! Z.to_nat (b + n - 1) = Some m).
Proof using Type.
  intros Hw Hr Hh Hms b Hb0 Hb dsts. split_and!; [by eapply acknack_answer| |].
  - unfold advance_acked. destruct (b =? 0); [done|]. destruct (Z.ltb_spec (w_acked ws) (b - 1)); simpl; lia.
  - intros m Hm. apply list_elem_of_fmap in Hm as ([d m'] & -> & Hm). unfold resent in Hm.
    apply list_elem_of_bind in Hm as (n & Hm & [Ht Hn%elem_of_seqZ]%list_elem_of_filter).
    exists n. split_and!; [lia|lia|done|..]; unfold held in Hm;
      destruct (Z.leb_spec (oldest ms) (b + n)), (Z.leb_spec (b + n) (len ms)); simpl in Hm;
      try (by apply elem_of_nil in Hm); try lia.
    destruct (ms !! Z.to_nat (b + n - 1)) as [x|] eqn:Hx; [|by apply elem_of_nil in Hm].
    apply list_elem_of_fmap in Hm as (a & [= <- ->] & _). done.
Qed.

(** *** HEARTBEAT and writing *)

Definition heartbeat_message self (eid : EntityId) (ms : list (list byte)) (count : Z) : list byte :=
  wrap_in_rtps_message (header self) (encode_heartbeat_submessage
    (mkHeartbeat ENTITYID_UNKNOWN eid (SequenceNumber.from_u64 (oldest ms))
       (SequenceNumber.from_u64 (len ms)) count)).

(** The number of HEARTBEATs a history has counted. *)
Definition heartbeats (ws : WriterState) : Z :=
  match w_history ws with Some h => Reliable.hb_count h | None => 0 end.

(** A writer that has written the messages [ms]: the first message of each
    sample, and counters with room for one more. *)
Record wrote (ws : WriterState) (ms : list (list byte)) : Prop := {
  wr_seq : w_seq ws = len ms;
  wr_reliable : w_reliable ws = true ↔ is_Some (w_history ws);
  wr_history h : w_history ws = Some h → history_of ms h;
  wr_count : - 2 ^ 31 <= heartbeats ws }.

Lemma send_heartbeat_eq e self ws ms : writers self !! e = Some ws → w_reliable ws = true →
  wrote ws ms → ms ≠ [] → heartbeats ws + 1 < 2 ^ 31 → ∃ ws',
  send_heartbeat e self =
    Ok (sends (to_all (reader_addrs (w_topic ws) self) (heartbeat_message self e ms (heartbeats ws + 1)))
          (set_writers (<[e := ws']> (writers self)) self)) ∧
  wrote ws' ms ∧ w_topic ws' = w_topic ws ∧ w_reliable ws' = true ∧ heartbeats ws' = heartbeats ws + 1 ∧
  w_acked ws' = w_acked ws.
Proof using Type.
  intros He Hr Hw Hne Hc. destruct Hw as [Hseq Hrel Hh Hc0].
  destruct (proj1 Hrel Hr) as [h Hh0]. pose proof (Hh h Hh0) as Hms.
  unfold heartbeats in *. rewrite Hh0 in *. unfold send_heartbeat. rewrite He, Hh0.
  rewrite (history_first_last ms), bool_decide_false by done.
  unfold SendHistory_next_hb_count. rewrite sadd_ok, bind_ok by lia. cbn [lift]. rewrite bind_ok.
  rewrite send_all_sends. eexists. split; [done|].
  assert (as_i 32 (Reliable.hb_count h + 1) = Reliable.hb_count h + 1) as Hi by (apply as_i_id; lia).
  split_and!; try done. split; try done.
  - simpl. intros h' [= <-]. by apply history_count.
  - unfold heartbeats. simpl. rewrite Hi. lia.
Qed.

Lemma foldl_sends {A} (f : A → list (SocketAddr * list byte)) (g : participant → A → participant) l self :
  (∀ s x, g s x = sends (f x) s) → foldl g self l = sends (l ≫= f) self.
Proof using Type.
  intros Hg. revert self. induction l as [|x l IH]; intros self; [by rewrite sends_nil|].
  simpl. by rewrite Hg, IH, sends_app.
Qed.

(** What [write] sends to remote readers. *)
Definition remote_sends self (t : str) (msgs : list (list byte)) : list (SocketAddr * list byte) :=
  match matched_reader_locators t (sedp self) with
  | [] => []
  | _ => match user_data_multicast_addr self with
         | Some dst => (λ m, (dst, m)) <$> msgs
         | None => addr ← reader_addrs t self; (λ m, (addr, m)) <$> msgs
         end
  end.

Lemma send_remote_eq t msgs self : send_remote t msgs self = sends (remote_sends self t msgs) self.
Proof using Type.
  assert (∀ dst msgs self, foldl (λ self msg, send msg dst self) self msgs
            = sends ((λ m, (dst, m)) <$> msgs) self) as Hd.
  { intros dst l s. rewrite (foldl_sends (λ m, [(dst, m)])) by done. f_equal. }
  unfold send_remote, remote_sends. destruct (matched_reader_locators t (sedp self)); [by rewrite sends_nil|].
  destruct (user_data_multicast_addr self); [apply Hd|].
  apply foldl_sends. intros s a. apply Hd.
Qed.

Lemma accepts_own st g : accepts_source st (prefix g) g = true.
Proof using Type.
  unfold accepts_source. rewrite (bool_decide_true (prefix g = prefix g)) by done. by destruct (bool_decide _).
Qed.

Lemma messages_ok eid seq p self : is_u64 seq → len p <= MAX_REASSEMBLY_BYTES - 4 →
  ∃ m msgs, messages eid seq (wrap_payload p) self = Ok (m :: msgs).
Proof using Type.
  intros Hs Hp. destruct (Z.le_gt_cases (len p) 1196).
  - rewrite messages_small by done. eauto.
  - rewrite messages_large by done. pose proof (nfrags_pos _ (sample_stream_wf eid seq p Hs Hp)).
    rewrite (seqZ_cons 0) by lia. simpl. eauto.
Qed.

(** The history after one more sample. *)
Lemma write_stores ws ms m msgs : wrote ws ms → len ms + 1 < 2 ^ 64 →
  let ws1 := Participant.set_seq (fetch_add (w_seq ws) 1) ws in
  ∃ ws2, (match w_history ws1, m :: msgs with
          | Some history, first :: _ =>
              h ← lift (SendHistory_store (len ms + 1) first history); Ok (set_history h ws1)
          | _, _ => Ok ws1
          end : runs WriterState) = Ok ws2 ∧
    wrote ws2 (ms ++ [m]) ∧ w_topic ws2 = w_topic ws ∧ w_reliable ws2 = w_reliable ws ∧
    heartbeats ws2 = heartbeats ws.
Proof using Type.
  intros [Hseq Hrel Hh Hc] Hlen ws1. pose proof (len_nonneg ms).
  assert (w_seq ws1 = len (ms ++ [m])) as Hs1.
  { unfold ws1. simpl. rewrite Hseq, len_app. unfold fetch_add. by rewrite as_u_small by lia. }
  assert (w_history ws1 = w_history ws) as Hh1 by done.
  rewrite Hh1. destruct (w_history ws) as [h|] eqn:Hhist.
  - destruct (history_store ms h m (Hh h eq_refl)) as (h' & -> & Hh' & Hcnt).
    cbn [lift]. rewrite bind_ok. eexists. split; [done|].
    assert (heartbeats (set_history h' ws1) = heartbeats ws) as Hb.
    { unfold heartbeats. by rewrite Hhist. }
    split_and!; try done. split; simpl; try done; [|by intros ? [= <-]|by rewrite Hb].
    rewrite Hrel. split; by eexists.
  - exists ws1. assert (heartbeats ws1 = heartbeats ws) as Hb by done.
    split_and!; try done. split; try done; [by rewrite Hh1|by rewrite Hh1].
Qed.

Lemma write_eq now w p self ws ms : queues_apart self →
  is_u64 (rp_delivers self) → is_u64 (rp_drops self) →
  writers self !! rw_eid w = Some ws → w_topic ws = rw_topic w →
  wrote ws ms → heartbeats ws + 1 < 2 ^ 31 → len ms + 1 < 2 ^ 64 → len p <= MAX_REASSEMBLY_BYTES - 4 →
  ∃ m msgs self' ws',
    messages (rw_eid w) (len ms + 1) (wrap_payload p) self = Ok (m :: msgs) ∧
    write now w p self = Ok self' ∧
    writers self' !! rw_eid w = Some ws' ∧ wrote ws' (ms ++ [m]) ∧
    w_topic ws' = w_topic ws ∧ w_reliable ws' = w_reliable ws ∧
    heartbeats ws' = heartbeats ws + (if w_reliable ws then 1 else 0) ∧
    sent (data_socket self') = sent (data_socket self) ++ remote_sends self (rw_topic w) (m :: msgs) ++
      (if w_reliable ws then to_all (reader_addrs (rw_topic w) self)
         (heartbeat_message self (rw_eid w) (ms ++ [m]) (heartbeats ws + 1)) else []) ∧
    let x := mkSample (rw_topic w) p now (len ms + 1)
               (Guid.to_bytes (mkGuid (rp_guid_prefix self) (rw_eid w))) in
    last_sample self' = <[rw_topic w := x]> (last_sample self) ∧
    disk self' = (if persist_dir self is Some dir then persist_flush dir (rw_topic w) p (disk self)
                  else disk self) ∧
    (∀ e st, readers self !! e = Some st → inners self' !! r_inner st =
       (λ i, if on_topic (Some (rw_topic w)) st
             then (push i (mkSample (r_topic st) p now (len ms + 1) (Types.writer_guid x))).2 else i)
         <$> inners self !! r_inner st).
Proof using Type.
  intros Hq Hd Hdr Hws Ht Hw Hhb Hlen Hp. pose proof (len_nonneg ms) as Hms0.
  destruct (messages_ok (rw_eid w) (len ms + 1) p self) as (m & msgs & Hm); [unfold is_u64; lia|done|].
  destruct (write_stores ws ms m msgs Hw Hlen) as (ws2 & Hst & Hw2 & Ht2 & Hr2 & Hb2).
  exists m, msgs. unfold write. rewrite Hws, (wr_seq _ _ Hw) in *. rewrite uadd_ok, bind_ok by lia. cbv zeta.
  set (self1 := set_topic_counter _ _ _).
  change (messages (rw_eid w) (len ms + 1) (wrap_payload p) self1)
    with (messages (rw_eid w) (len ms + 1) (wrap_payload p) self).
  rewrite Hm, bind_ok, Hst, bind_ok.
  match goal with |- context [dispatch_to_readers ?g ?tf ?p ?ts ?n ?s] => set (self2 := s) end.
  set (x := mkSample (rw_topic w) p now (len ms + 1)
              (Guid.to_bytes (mkGuid (rp_guid_prefix self) (rw_eid w)))).
  assert (self2 = set_disk (disk self2) (set_last_sample (<[rw_topic w := x]> (last_sample self))
    (set_writers (<[rw_eid w := ws2]> (writers self1)) (set_topic_counters (topic_counters self2) self))))
    as E2 by (unfold self2; simpl; by destruct (persist_dir self), self).
  assert (disk self2 = if persist_dir self is Some dir then persist_flush dir (rw_topic w) p (disk self)
                       else disk self) as Edisk by (unfold self2; simpl; by destruct (persist_dir self)).
  assert (queues_apart self2) as Hq2 by (intros e1 e2 st1 st2; rewrite E2; apply Hq).
  destruct (dispatch_spec (mkGuid (rp_guid_prefix self) (rw_eid w)) (Some (rw_topic w)) p now (len ms + 1)
    self2 Hq2) as (Ho & _ & _ & _ & Hdel & _); [by rewrite E2|by rewrite E2|].
  change (rp_guid_prefix (set_writers _ self1)) with (rp_guid_prefix self).
  set (self3 := dispatch_to_readers _ _ _ _ _ self2) in *. clearbody self3. unfold only_delivered in Ho.
  assert (writers self3 !! rw_eid w = Some ws2) as Ews by (rewrite Ho, E2; apply lookup_insert_eq).
  assert (∀ l, remote_sends self3 (rw_topic w) l = remote_sends self (rw_topic w) l) as Er
    by (intros l; by rewrite Ho, E2).
  assert (reader_addrs (rw_topic w) self3 = reader_addrs (rw_topic w) self) as Ea by by rewrite Ho, E2.
  assert (header self3 = header self) as Eh by by rewrite Ho, E2.
  assert (data_socket self3 = data_socket self) as Es by by rewrite Ho, E2.
  assert (last_sample self3 = <[rw_topic w := x]> (last_sample self)) as El by by rewrite Ho, E2.
  assert (disk self3 = disk self2) as Ed by by rewrite Ho.
  assert (∀ e st, readers self !! e = Some st → inners self3 !! r_inner st =
    (λ i, if on_topic (Some (rw_topic w)) st then (push i (mkSample (r_topic st) p now (len ms + 1)
       (Types.writer_guid x))).2 else i) <$> inners self !! r_inner st) as Ei.
  { intros e st He. rewrite (Hdel e st) by by rewrite E2. rewrite E2. unfold takes. cbn [rp_guid_prefix].
    apply option_fmap_ext. intros i. simpl. unfold accepts_source. simpl.
    rewrite (bool_decide_true (rp_guid_prefix self = rp_guid_prefix self)) by done.
    destruct (bool_decide (sources st = ∅)); by rewrite andb_true_r. }
  clear Ho Hdel. rewrite send_remote_eq, Er, Hr2.
  destruct (w_reliable ws) eqn:Hrel.
  - destruct (send_heartbeat_eq (rw_eid w) (sends (remote_sends self (rw_topic w) (m :: msgs)) self3) ws2
      (ms ++ [m])) as (ws' & -> & Hw' & Ht' & Hrel' & Hcnt' & _); [done|done|done|by destruct ms|lia|].
    do 2 eexists. split_and!; [done|done|apply lookup_insert_eq|done|congruence|congruence|congruence| |done|etrans; [exact Ed|exact Edisk]|done].
    simpl. rewrite sends_addrs, Ht2, Ht, Ea, Es, Hb2, <- app_assoc.
    do 3 f_equal. unfold heartbeat_message, to_all. change (header (sends _ self3)) with (header self3).
    by rewrite Eh.
  - do 2 eexists. split_and!; [done|done|exact Ews|done|done|done|lia| |done|etrans; [exact Ed|exact Edisk]|done].
    simpl. by rewrite Es, app_nil_r.
Qed.

(** C15. A write: with the next sequence number it puts the messages of the
    sample on the wire - one copy to the multicast group or one to each
    matched reader, none when no reader is matched - and, if the writer is
    reliable, a HEARTBEAT that names exactly what its history holds; the
    history gains the first of these messages, the topic's last sample and
    its file are replaced, and every local reader of the topic, by name or by
    pattern, is offered the sample once. *)
Theorem write_spec now w p self ws ms : participant_wf self →
  writers self !! rw_eid w = Some ws → w_topic ws = rw_topic w →
  wrote ws ms → heartbeats ws + 1 < 2 ^ 31 → len ms + 1 < 2 ^ 64 → len p <= MAX_REASSEMBLY_BYTES - 4 →
  ∃ m msgs self' ws',
    messages (rw_eid w) (len ms + 1) (wrap_payload p) self = Ok (m :: msgs) ∧
    write now w p self = Ok self' ∧
    writers self' !! rw_eid w = Some ws' ∧ wrote ws' (ms ++ [m]) ∧
    w_topic ws' = w_topic ws ∧ w_reliable ws' = w_reliable ws ∧
    heartbeats ws' = heartbeats ws + (if w_reliable ws then 1 else 0) ∧
    sent (data_socket self') = sent (data_socket self) ++ remote_sends self (rw_topic w) (m :: msgs) ++
      (if w_reliable ws then to_all (reader_addrs (rw_topic w) self)
         (heartbeat_message self (rw_eid w) (ms ++ [m]) (heartbeats ws + 1)) else []) ∧
    let x := mkSample (rw_topic w) p now (len ms + 1)
               (Guid.to_bytes (mkGuid (rp_guid_prefix self) (rw_eid w))) in
    last_sample self' = <[rw_topic w := x]> (last_sample self) ∧
    disk self' = (if persist_dir self is Some dir then persist_flush dir (rw_topic w) p (disk self)
                  else disk self) ∧
    (∀ e st, readers self !! e = Some st → inners self' !! r_inner st =
       (λ i, if on_topic (Some (rw_topic w)) st
             then (push i (mkSample (r_topic st) p now (len ms + 1) (Types.writer_guid x))).2 else i)
         <$> inners self !! r_inner st).
Proof using Type.
  intros Hwf. destruct (pw_totals _ Hwf). by apply write_eq; [apply pw_apart|..].
Qed.
End writer.

(** ** What a receiver ignores, and what stops it *)

Section receiver.
Context {N : Type} `{!Notify N} `{BuildProfile}.
Notation participant := (RtpsParticipant N).
Implicit Types self : participant.

(** A loop that returned has run its body on every element. *)
Lemma for_each_reached {E A S} (P : S → Prop) (f : A → S → res E S) l s s' x :
  (∀ x s s', P s → f x s = Ok s' → P s') → P s → for_each f l s = Ok s' → x ∈ l →
  ∃ s1 s2, P s1 ∧ f x s1 = Ok s2.
Proof using Type.
  intros Hf. revert s. induction l as [|y l IH]; intros s Hs; cbn [for_each]; [by intros _ ?%elem_of_nil|].
  intros (s1 & H1 & H2)%bind_ok_inv [->|Hx]%elem_of_cons; [by exists s, s1|]. eauto.
Qed.

Lemma heartbeat_reader_prefix g hb from er (s s' : participant) :
  heartbeat_reader g hb from er s = Ok s' → rp_guid_prefix s' = rp_guid_prefix s.
Proof using Type.
  unfold heartbeat_reader, nack_missing, send_acknack. destruct er as [e st].
  destruct (_ || _); [by intros [= <-]|]. intros ([[b bm] need] & _ & Hs)%bind_ok_inv.
  destruct need; simpl in Hs; [|by injection Hs as <-].
  apply bind_ok_inv in Hs as ([c tr] & _ & [= <-]). done.
Qed.

Lemma heartbeat_untracked g hb from e st self : r_reliable st = true →
  accepts_source st (rp_guid_prefix self) g = true → trackers st !! g = None →
  SequenceNumber.to_u64 (first_sn hb) = 2 ^ 64 - 32 → SequenceNumber.to_u64 (last_sn hb) = 2 ^ 64 - 1 →
  heartbeat_reader g hb from (e, st) self = if overflow_checks then Panic else Err out_of_fuel.
Proof using Type.
  intros Hr Ha Ht Hf Hl. unfold heartbeat_reader. rewrite Hr, Ha. cbn [negb orb]. unfold tracker_for.
  rewrite Ht, Hf, Hl. unfold nack_missing. simpl default.
  set (tr := RecvTracker_init_expected _ _).
  destruct (missing_stops tr eq_refl eq_refl) as [-> _]. by destruct overflow_checks.
Qed.

(** The numbers of a HEARTBEAT that announces the last 32 ones. *)
Definition announces_last (hb : Heartbeat) : Prop :=
  SequenceNumber.to_u64 (first_sn hb) = 2 ^ 64 - 32 ∧ SequenceNumber.to_u64 (last_sn hb) = 2 ^ 64 - 1.

Lemma for_each_never {E A S} (bad : res E S) (f : A → S → res E S) l s : (∀ s, bad ≠ Ok s) →
  (∀ x s, f x s ≠ bad) → for_each f l s ≠ bad.
Proof using Type.
  intros Hb Hf. revert s. induction l as [|x l IH]; intros s; [intros Hs; by destruct (Hb s)|].
  cbn [for_each]. pose proof (Hf x s). destruct (f x s); [apply IH|done|done].
Qed.

(** One reader's answer to a HEARTBEAT panics only in a checked build, and
    fails to return only in a release build. *)
Lemma heartbeat_reader_outcome g hb from x (s : participant) :
  heartbeat_reader g hb from x s ≠ if overflow_checks then Err out_of_fuel else Panic.
Proof using Type.
  unfold heartbeat_reader, nack_missing, send_acknack, RecvTracker_next_ack_count. destruct x as [e st].
  set (tr := RecvTracker_init_expected _ _). clearbody tr.
  pose proof (missing_checked (SequenceNumber.to_u64 (last_sn hb)) tr) as H1.
  pose proof (missing_release (SequenceNumber.to_u64 (last_sn hb)) tr) as H2.
  destruct (_ || _); [by destruct overflow_checks|]. unfold sadd.
  destruct (RecvTracker_missing _ tr) as [[[b bm] need]|[]|].
  - rewrite bind_ok. destruct need; [|by destruct overflow_checks]. cbn [negb].
    destruct (_ && _); [by destruct overflow_checks|]. by destruct overflow_checks.
  - destruct overflow_checks; [by destruct H1|done].
  - destruct overflow_checks; [done|by destruct H2].
Qed.

(** C40. A datagram that stops the receive path: at one HEARTBEAT for the last
    32 sequence numbers, from a writer that a reliable reader accepts and has
    not heard before, the handler panics in a checked build.  In a release
    build it does not return: it ends in the scan of [missing] running out of
    fuel, which happens only to scans that no fuel is enough for, as the one
    of that reader. *)
Theorem heartbeat_stops_receiver clock h hb from self e st :
  let g := mkGuid (guid_prefix h) (hb_writer_entity_id hb) in
  guid_prefix h ≠ rp_guid_prefix self → heartbeat_wf hb →
  readers self !! e = Some st → r_reliable st = true → g ∈ sources st → trackers st !! g = None →
  announces_last hb →
  handle_data_packet clock (wrap_in_rtps_message h (encode_heartbeat_submessage hb)) from self
    = (if overflow_checks then Panic else Err out_of_fuel) ∧
  (∀ tr last fuel, is_u64 (expected tr) → is_u64 last → RecvTracker_missing last tr = Err out_of_fuel →
     missing_loop fuel (expected tr) last (expected tr) (ahead tr) 0 false = Err out_of_fuel) ∧
  (overflow_checks = false → ∀ fuel,
     missing_loop fuel (2 ^ 64 - 32) (2 ^ 64 - 1) (2 ^ 64 - 32) ∅ 0 false = Err out_of_fuel).
Proof using Type.
  intros g Hown Hwf He Hr Hg Ht [Hf Hl].
  split; [|split; [intros tr last fuel H1 H2 H3; by apply missing_out_of_fuel|intros Hc fuel; by apply missing_loop_wraps]].
  rewrite encode_heartbeat_eq, receive_raw by (done || by apply fixed_raw_wf, len_heartbeat_body).
  unfold handle_submessage. cbn [raw_id raw_flags raw_body].
  rewrite !bool_decide_false by done. rewrite bool_decide_true by done.
  rewrite decode_heartbeat_body by done. cbn [ok]. rewrite bind_ok. unfold handle_heartbeat. fold g.
  assert (∀ x (s s' : participant), rp_guid_prefix s = rp_guid_prefix self →
    heartbeat_reader g hb from x s = Ok s' → rp_guid_prefix s' = rp_guid_prefix self) as Hinv.
  { intros x s s' Hs Hx%heartbeat_reader_prefix. congruence. }
  assert (∀ s', for_each (heartbeat_reader g hb from) (map_to_list (readers self)) self ≠ Ok s') as Hnot.
  { intros s' Hrun. destruct (for_each_reached _ _ _ _ _ (e, st) Hinv eq_refl Hrun) as (s1 & s2 & Hs1 & Hs2);
      [by apply elem_of_map_to_list|].
    rewrite heartbeat_untracked in Hs2; try done; [by destruct overflow_checks|].
    rewrite Hs1, accepts_remote by done. by apply bool_decide_true. }
  pose proof (for_each_never (if overflow_checks then Err out_of_fuel else Panic) (heartbeat_reader g hb from)
    (map_to_list (readers self)) self ltac:(by destruct overflow_checks)
    (heartbeat_reader_outcome g hb from)) as Hnever.
  destruct (for_each _ _ _) as [s'|[]|]; [by destruct (Hnot s')|by destruct overflow_checks..].
Qed.

(** A reader ignores GAP submessages: the message with which a writer
    declares its evicted samples irrecoverable changes nothing at the
    receiver, whose watermark stays where it is. *)
Theorem gap_is_ignored clock h g from self : guid_prefix h ≠ rp_guid_prefix self →
  handle_data_packet clock (wrap_in_rtps_message h (encode_gap_submessage g)) from self = Ok self.
Proof using Type.
  intros Hown. assert (len (gap_body g) = 28) as Hl by (unfold gap_body; len_tac).
  by rewrite encode_gap_eq, receive_raw by (done || by apply fixed_raw_wf).
Qed.

(** *** Sources nobody accepts *)

Definition unheard (p : GuidPrefix) self : Prop :=
  p ≠ rp_guid_prefix self ∧
  ∀ e st g, readers self !! e = Some st → g ∈ sources st → prefix g ≠ p.

Lemma unheard_accepts p self e st g : unheard p self → prefix g = p → readers self !! e = Some st →
  accepts_source st (rp_guid_prefix self) g = false.
Proof using Type.
  intros [Hp Hs] Hg He. rewrite accepts_remote by congruence. apply bool_decide_false.
  intros Hin. by apply (Hs e st g).
Qed.

Lemma each_reader_skipped (f : EntityId * ReaderState → participant → runs participant) self :
  (∀ e st, readers self !! e = Some st → f (e, st) self = Ok self) →
  for_each f (map_to_list (readers self)) self = Ok self.
Proof using Type.
  intros Hf. assert (∀ er, er ∈ map_to_list (readers self) → f er self = Ok self) as Hers.
  { intros [e st] He%elem_of_map_to_list. by apply Hf. }
  revert Hers. generalize (map_to_list (readers self)). intros ers.
  induction ers as [|er ers IH]; intros Hers; [done|]. cbn [for_each].
  rewrite (Hers er) by by left. rewrite bind_ok. apply IH. intros er' Her. apply Hers. by right.
Qed.

Lemma unheard_remote clock g seq p from self : unheard (prefix g) self →
  deliver_remote clock g seq p from self = Ok self.
Proof using Type.
  intros Hu. unfold deliver_remote, notify_reliable_readers. rewrite each_reader_skipped, bind_ok.
  - f_equal. unfold dispatch_to_readers.
    assert (∀ er, er ∈ map_to_list (readers self) →
      dispatch_one g None p (utc clock) seq self er = self) as Hers.
    { intros [e st] He%elem_of_map_to_list. rewrite dispatch_one_eq. unfold takes. cbn [snd].
      by rewrite (unheard_accepts _ _ _ _ _ Hu eq_refl He), andb_false_r. }
    revert Hers. generalize (map_to_list (readers self)). intros ers.
    induction ers as [|er ers IH]; intros Hers; [done|]. simpl. rewrite (Hers er) by by left.
    apply IH. intros er' Her. apply Hers. by right.
  - intros e st He. unfold notify_reader.
    by rewrite (unheard_accepts _ _ _ _ _ Hu eq_refl He), orb_true_r.
Qed.

(** The part of a participant that its application sees. *)
Definition same_subscribers self self' : Prop :=
  readers self' = readers self ∧ inners self' = inners self ∧
  rp_guid_prefix self' = rp_guid_prefix self ∧ topic_counters self' = topic_counters self ∧
  rp_delivers self' = rp_delivers self ∧ rp_drops self' = rp_drops self.

Lemma unheard_submessage clock from h raw self self' : unheard (guid_prefix h) self →
  handle_submessage clock from h raw self = Ok self' → same_subscribers self self'.
Proof using Type.
  intros Hu. unfold handle_submessage. cbv zeta. repeat case_bool_decide.
  - intros (ods & _ & Hr)%bind_ok_inv. destruct ods as [ds|]; [|by injection Hr as <-].
    destruct (payload ds) as [w|]; [|by injection Hr as <-].
    apply bind_ok_inv in Hr as (op & _ & Hr). destruct op as [p|]; [|by injection Hr as <-].
    rewrite unheard_remote in Hr by done. by injection Hr as <-.
  - intros (ofr & _ & Hr)%bind_ok_inv. destruct ofr as [f|]; [|by injection Hr as <-].
    apply bind_ok_inv in Hr as ([out asm] & _ & Hr). destruct out as [w|]; [|by injection Hr as <-].
    apply bind_ok_inv in Hr as (op & _ & Hr). destruct op as [p|]; [|by injection Hr as <-].
    rewrite unheard_remote in Hr by done. by injection Hr as <-.
  - intros (ohb & _ & Hr)%bind_ok_inv. destruct ohb as [hb|]; [|by injection Hr as <-].
    unfold handle_heartbeat in Hr. rewrite each_reader_skipped in Hr; [by injection Hr as <-|].
    intros e st He. unfold heartbeat_reader.
    rewrite (unheard_accepts (guid_prefix h) self e st) by done. by rewrite orb_true_r.
  - intros (oan & _ & Hr)%bind_ok_inv. destruct oan as [an|]; [|by injection Hr as <-].
    apply acknack_sent in Hr as [-> _]. done.
  - by intros [= <-].
Qed.

(** C31. Safety of the data path: a datagram whose header claims a prefix none
    of whose writers any reader accepts - whatever submessages it holds -
    leaves every reader, queue and delivery counter of the participant as it
    was, if it is handled to the end. *)
Theorem unmatched_prefix_ignored clock data from self h self' :
  Header.decode data = Ok h → unheard (guid_prefix h) self →
  handle_data_packet clock data from self = Ok self' → same_subscribers self self'.
Proof using Type.
  intros Hd Hu. unfold handle_data_packet.
  destruct (receive_message_cases (rp_guid_prefix self) (handle_submessage clock from) data self)
    as [[-> _]|(h' & rs & e & Hd' & _ & _ & ->)]; [by intros [= <-]|].
  assert (h' = h) as -> by congruence.
  apply for_each_inv; [|done]. intros raw s s' Hs Hr.
  assert (unheard (guid_prefix h) s) as Hus.
  { destruct Hs as (H1 & _ & H3 & _), Hu as [Hp Hg]. split; [by rewrite H3|]. rewrite H1. exact Hg. }
  apply unheard_submessage in Hr; [|done]. destruct Hs as (?&?&?&?&?&?), Hr as (?&?&?&?&?&?).
  split_and!; congruence.
Qed.

(** *** Late joiners *)

(** What a transient-local reader finds in its queue. *)
Definition replayed (now : Z) (t : str) self : list Sample :=
  match last_sample self !! t with
  | Some x => [x]
  | None =>
      match persist_dir self with
      | None => []
      | Some dir =>
          match persist_load dir t (disk self) with
          | Ok (Some p) => [mkSample t p now 0 (vreplicate 16 x00)]
          | _ => []
          end
      end
  end.

Lemma fresh_push cap pol x : 1 <= cap → queue (push (SubInner_new (N:=N) cap pol) x).2 = [x].
Proof using Type.
  intros Hc. rewrite push_open by done. unfold push_locked. simpl.
  destruct pol; simpl; rewrite ?len_nil; destruct (Z.leb_spec cap 0); try lia; done.
Qed.

Lemma chan_depth_pos opts : 1 <= chan_depth opts 64.
Proof using Type. unfold chan_depth. destruct (Z.ltb_spec 0 (channel_depth opts)); lia. Qed.

Lemma push_fresh id x self cap pol : inners self !! id = Some (SubInner_new cap pol) → 1 <= cap →
  let self' := (push_sample id x self).2 in
  readers self' = readers self ∧ ∃ q, inners self' !! id = Some q ∧ queue q = [x].
Proof using Type.
  intros Hi Hc. cbv zeta. unfold push_sample. rewrite Hi.
  pose proof (fresh_push cap pol x Hc) as Hf. destruct (push _ x) as [b q]. simpl in *.
  split; [done|]. exists q. split; [|done]. apply list_lookup_insert_eq. by eapply lookup_lt_Some.
Qed.

Lemma replay_spec now t id self cap pol self' :
  inners self !! id = Some (SubInner_new cap pol) → 1 <= cap →
  deliver_transient_local now t id self = Ok self' →
  readers self' = readers self ∧ ∃ q, inners self' !! id = Some q ∧ queue q = replayed now t self.
Proof using Type.
  intros Hi Hc. unfold deliver_transient_local, replayed. destruct (last_sample self !! t) as [x|].
  { intros [= <-]. by eapply push_fresh. }
  destruct (persist_dir self) as [dir|]; [|intros [= <-]; eauto].
  destruct (persist_load dir t (disk self)) as [[pl|]|e|]; cbn [ok]; [| | |done]; rewrite bind_ok;
    intros [= <-]; [|eauto..].
  by eapply (push_fresh id _ (set_last_sample _ self)).
Qed.

Lemma new_reader_spec now t opts rel tl ps self r self' :
  new_reader_impl now t opts rel tl ps self = Ok (r, self') →
  (∃ q, inners self' !! rr_inner r = Some q ∧ queue q = if tl then replayed now t self else []) ∧
  readers self' !! rr_eid r = Some (mkReaderState t
    (list_to_set (writers_of_topic t (remote_writers (sedp self)))) (rr_inner r) rel ∅).
Proof using Type.
  unfold new_reader_impl. intros ([n self1] & Hn%next_entity_num_eq & Hr)%bind_ok_inv.
  cbv beta zeta iota in Hr. apply bind_ok_inv in Hr as ([[m sv] sock] & [-> _]%register_reader_frame & Hr).
  subst self1. apply bind_ok_inv in Hr as (self2 & Htl & [= <- <-]). cbn [rr_inner rr_eid] in *.
  match type of Htl with (if tl then deliver_transient_local _ _ _ ?x else _) = _ => set (self3 := x) in * end.
  assert (inners self3 !! length (inners self) = Some (SubInner_new (chan_depth opts 64) (back_pressure opts)))
    as Hi by (unfold self3; simpl; apply lookup_app_middle_eq || by rewrite lookup_app_r, Nat.sub_diag by lia).
  assert (readers self3 !! entity_id_for_reader n = Some (mkReaderState t
    (list_to_set (writers_of_topic t (remote_writers (sedp self)))) (length (inners self)) rel ∅)) as Hrd
    by apply lookup_insert_eq.
  destruct tl.
  - destruct (replay_spec now t _ self3 _ _ _ Hi (chan_depth_pos opts) Htl) as (-> & q & Hq & Hqq).
    split; [|exact Hrd]. exists q. by split.
  - injection Htl as <-. split; [|exact Hrd]. eexists. by split.
Qed.

(** Late joiners: a new reader accepts the writers of its topic that are
    already known, and its queue holds, if it is transient-local, exactly the
    topic's last sample - the cached one, or else the one on disk - and is
    empty otherwise.  A sample written with persistent history is there for
    a late joiner of the next participant over the same files. *)
Theorem late_joiner_replay now t opts rel tl ps self r self' :
  new_reader_impl now t opts rel tl ps self = Ok (r, self') →
  ((∃ q, inners self' !! rr_inner r = Some q ∧ queue q = if tl then replayed now t self else []) ∧
   readers self' !! rr_eid r = Some (mkReaderState t
     (list_to_set (writers_of_topic t (remote_writers (sedp self)))) (rr_inner r) rel ∅)) ∧
  ∀ (old : participant) dir p g v ds sv ms,
    dir ≠ [] → len p <= MAX_PERSISTED_PAYLOAD_BYTES → can_create (disk old) (persist_path dir t) = true →
    4 + len p <= Z.of_nat (max_file (disk old)) →
    replayed now t (new_inner (N:=N) g v ds sv ms (Some dir) (persist_flush dir t p (disk old)))
    = [mkSample t p now 0 (vreplicate 16 x00)].
Proof using Type.
  intros Hr. split; [by eapply new_reader_spec|]. intros old dir p g v ds sv ms Hdir Hp Hc Hm.
  unfold replayed, new_inner. cbn [last_sample persist_dir disk]. rewrite lookup_empty, load_flushed by done.
  rewrite Hc. by rewrite (proj2 (Z.ltb_ge _ _)) by lia.
Qed.
End receiver.

(** ** Witnesses *)

#[local] Instance demo_profile : BuildProfile := true.
#[local] Notation demo := (RtpsParticipant (bool * option bool)).

(** Another participant, empty or with a reader that listens. *)
Definition far_config : SedpConfig := SedpConfig.new (mkGuidPrefix (vreplicate 12 x02)) 7421.
Definition far_inner : demo :=
  new_inner (ec_guid_prefix far_config) VENDOR_ID_RUST_DDS demo_data_socket (SedpService_new far_config)
    demo_meta_socket None demo_disk.
Definition far_from : SocketAddr := SocketAddrV4 (vreplicate 4 x0a) 7421.
Definition far_writer : Guid := mkGuid (ec_guid_prefix far_config) (entity_id_for_writer 1).

Definition demo_run (evs : list Event) : demo := or_else demo_inner (for_each step evs demo_inner).
Definition demo_listening : demo :=
  demo_run [NewReader 1 demo_words demo_reader_opts false false []; Listen].

Lemma demo_run_ok evs : returned (for_each step evs demo_inner) = true →
  for_each step evs demo_inner = Ok (demo_run evs).
Proof. apply returned_ok. Qed.

Lemma demo_run_wf evs : returned (for_each step evs demo_inner) = true → participant_wf (demo_run evs).
Proof. intros H%demo_run_ok. exact (reachable_wf demo_config _ _ _ _ _ evs (demo_run evs) H). Qed.

Lemma demo_listening_wf : participant_wf demo_listening.
Proof. apply demo_run_wf. vm_compute. reflexivity. Qed.

(** Its one reader. *)
Definition is_demo_reader (er : EntityId * ReaderState) : Prop :=
  er.1 = entity_id_for_reader 1 ∧ r_topic er.2 = demo_words ∧ r_inner er.2 = 0%nat ∧
  r_reliable er.2 = false ∧ sources er.2 = ∅.

Lemma demo_listening_reader e st : readers demo_listening !! e = Some st → is_demo_reader (e, st).
Proof.
  assert (bool_decide (Forall is_demo_reader (map_to_list (readers demo_listening))) = true)
    as Hr%bool_decide_eq_true by (vm_compute; reflexivity).
  intros He%elem_of_map_to_list. by apply (proj1 (Forall_forall _ _) Hr (e, st)).
Qed.

Lemma demo_listening_has : is_Some (readers demo_listening !! entity_id_for_reader 1).
Proof. apply (bool_decide_unpack _). vm_compute. exact I. Qed.

Lemma demo_listening_queue : inners demo_listening !! 0%nat = Some (SubInner_new 2 DropOldest).
Proof. vm_compute. reflexivity. Qed.

Lemma demo_listening_buffers : buffers (frag_assembler demo_listening) = ∅.
Proof. apply map_size_empty_iff. vm_compute. reflexivity. Qed.

(** Two fragments, the second one first. *)
Lemma sample_crosses_wire_witness :
  let p := replicate 1200 x05 in
  ∃ msgs asm, messages (entity_id_for_writer 1) 1 (wrap_payload p) far_inner = Ok msgs ∧ len msgs = 2 ∧
    transmit msgs far_from [(mkClock 5 6, 1); (mkClock 7 8, 0)] demo_listening
    = deliver_remote (mkClock 7 8) far_writer 1 p far_from (set_assembler asm demo_listening).
Proof.
  intros p.
  destruct (sample_crosses_wire (entity_id_for_writer 1) 1 p far_inner demo_listening far_from (mkClock 7 8) 0
    [(mkClock 5 6, 1)] 0) as (msgs & Hm & _ & H).
  - split; vm_compute; congruence.
  - vm_compute. congruence.
  - vm_compute. congruence.
  - vm_compute. reflexivity.
  - repeat constructor; vm_compute; congruence.
  - assert (len msgs = 2) as Hl.
    { assert (match messages (entity_id_for_writer 1) 1 (wrap_payload p) far_inner with
              | Ok l => len l | _ => 0 end = 2) as E by (vm_compute; reflexivity). by rewrite Hm in E. }
    destruct H as (asm & _ & _ & H).
    { rewrite Hl. split; [|lia]. intros j. change ([(mkClock 5 6, 1)].*2) with [1].
      rewrite list_elem_of_singleton. lia. }
    exists msgs, asm. split; [exact Hm|]. split; [exact Hl|exact H].
Defined.

Definition far_transmission (seq : Z) (p : list byte) : Transmission :=
  mkTransmission seq p far_from [] (mkClock 7 8) 0 0.

Lemma far_arrives seq b : 0 <= seq < 2 ^ 64 →
  arrives (entity_id_for_writer 1) far_inner (far_transmission seq [b]).
Proof.
  intros Hs. split_and!; [exact Hs|vm_compute; congruence|repeat constructor; vm_compute; congruence|].
  cbn [tr_seq tr_payload tr_evs tr_index far_transmission]. intros msgs. rewrite messages_small by (vm_compute; congruence).
  intros [= <-]. split; [|vm_compute; split; congruence]. intros j. change (len [_]) with 1.
  split; [by intros ?%elem_of_nil|lia].
Qed.

(** Two samples after the announcement. *)
Lemma discovered_writer_is_heard_witness :
  ∃ n sub1 sub2,
    for_each step (MetaPacket (endpoint_message far_config (mkEndpointInfo far_writer demo_words true) 1)
                     far_from :: replicate n MatchRound) demo_listening = Ok sub1 ∧
    for_each (hear (entity_id_for_writer 1) far_inner)
      [far_transmission 1 [x05]; far_transmission 2 [x06]] sub1 = Ok sub2 ∧
    ((λ i, s_payload <$> queue i) <$> inners sub2 !! 0%nat) = Some [[x05]; [x06]].
Proof.
  destruct (discovered_writer_is_heard far_config (entity_id_for_writer 1) demo_words 1 far_from far_inner
    demo_listening unbounded_channel) as (n & sub1 & H1 & H2).
  - apply demo_listening_wf.
  - intros e st (_ & _ & _ & Hr & _)%demo_listening_reader. exact Hr.
  - intros k _. rewrite demo_listening_buffers. apply lookup_empty.
  - vm_compute. reflexivity.
  - reflexivity.
  - reflexivity.
  - reflexivity.
  - split_and!; by apply (bool_decide_unpack _).
  - split; vm_compute; congruence.
  - reflexivity.
  - vm_compute. congruence.
  - destruct (H2 [far_transmission 1 [x05]; far_transmission 2 [x06]]) as (sub2 & H4 & H5).
    { apply Forall_cons_2; [apply far_arrives; lia|]. apply Forall_cons_2; [apply far_arrives; lia|].
      apply Forall_nil_2. }
    exists n, sub1, sub2. split; [exact H1|]. split; [exact H4|].
    destruct demo_listening_has as [st Hst]. destruct (demo_listening_reader _ _ Hst) as (_ & Ht & Hi & _).
    simpl in Ht, Hi. destruct (H5 (entity_id_for_reader 1) st Hst) as (q & Hq & Hq2).
    rewrite Ht, Hi, demo_listening_queue in *. injection Hq as <-. rewrite Hq2, decide_True by by left.
    vm_compute. reflexivity.
Defined.

(** A reliable writer with one matched reader, that has written one sample. *)
Definition near_topic_state (h : SendHistory) : WriterState := mkWriterState demo_words 1 true (Some h) 0.
Definition near_message : list byte := [x01; x02].
Definition near_history : SendHistory :=
  match SendHistory_store 1 near_message SendHistory_new with Ok h => h | _ => SendHistory_new end.
Definition near_writer : demo :=
  set_writers {[entity_id_for_writer 1 := near_topic_state near_history]}
    (set_sedp (on_endpoint (mkEndpointInfo (mkGuid (ec_guid_prefix far_config) (entity_id_for_reader 1))
                              demo_words false) (Locator.udp_v4 (vreplicate 4 x0a) 7421)
                 (SedpService_new demo_config)) demo_meta_socket demo_inner).

Lemma near_history_ok : history_of [near_message] near_history.
Proof.
  destruct (store_first 1 near_message) as (h & Hs & Hh); [lia|]. simpl. unfold near_history.
  by rewrite Hs.
Qed.

(** Sample 1 is resent to the matched reader; sample 2 was never written. *)
Lemma acknack_answered_witness :
  let an := mkAckNack (entity_id_for_reader 1) (entity_id_for_writer 1) (SequenceNumber.from_u64 1) 3 1 in
  ∃ s, handle_acknack an far_from near_writer = Ok s ∧
    sent (data_socket s) = [(SocketAddrV4 (vreplicate 4 x0a) 7421, near_message)].
Proof.
  intros an.
  destruct (acknack_answered an far_from near_writer (near_topic_state near_history) [near_message]
    near_history) as [H _];
    [vm_compute; reflexivity|reflexivity|reflexivity|apply near_history_ok|vm_compute; congruence..|].
  eexists. split; [exact H|]. vm_compute. reflexivity.
Defined.

Definition demo_writing : demo :=
  demo_run [NewReader 1 demo_words demo_reader_opts true false []; NewWriter demo_words true []].

Lemma write_spec_witness :
  let w := mkRtpsWriter (entity_id_for_writer 2) demo_words in
  ∃ self', write 9 w [x07] demo_writing = Ok self' ∧
    s_payload <$> last_sample self' !! demo_words = Some [x07] ∧
    (λ i, s_payload <$> queue i) <$> inners self' = [[[x07]]].
Proof.
  intros w.
  destruct (write_spec 9 w [x07] demo_writing (mkWriterState demo_words 0 true (Some SendHistory_new) 0) [])
    as (m & msgs & self' & ws' & _ & Hw & _ & _ & _ & _ & _ & _ & Hl & _ & _).
  - apply demo_run_wf. vm_compute. reflexivity.
  - vm_compute. reflexivity.
  - reflexivity.
  - split; [reflexivity|split; [eauto|reflexivity]|by intros h [= <-]|vm_compute; congruence].
  - vm_compute. reflexivity.
  - vm_compute. reflexivity.
  - vm_compute. congruence.
  - exists self'. split; [exact Hw|]. rewrite Hl, lookup_insert_eq. split; [reflexivity|].
    assert (match write 9 w [x07] demo_writing with
            | Ok s => (λ i, s_payload <$> queue i) <$> inners s | _ => [] end = [[[x07]]]) as E
      by (vm_compute; reflexivity). by rewrite Hw in E.
Defined.

(** A reliable reader that has heard of the writer but not from it. *)
Lemma heartbeat_stops_receiver_witness :
  let self := set_readers {[entity_id_for_reader 1 := mkReaderState demo_words {[far_writer]} 0 true ∅]}
                demo_inner in
  let hb := mkHeartbeat ENTITYID_UNKNOWN (entity_id_for_writer 1) (SequenceNumber.from_u64 (2 ^ 64 - 32))
              (SequenceNumber.from_u64 (2 ^ 64 - 1)) 1 in
  handle_data_packet (mkClock 5 6)
    (wrap_in_rtps_message (header far_inner) (encode_heartbeat_submessage hb)) far_from self = Panic.
Proof.
  intros self hb.
  refine (proj1 (heartbeat_stops_receiver (mkClock 5 6) (header far_inner) hb far_from self (entity_id_for_reader 1)
    (mkReaderState demo_words {[far_writer]} 0 true ∅) _ _ _ _ _ _ _)).
  - vm_compute. congruence.
  - split_and!; apply (bool_decide_unpack _); vm_compute; exact I.
  - apply lookup_singleton_eq.
  - reflexivity.
  - apply (bool_decide_unpack _). vm_compute. exact I.
  - reflexivity.
  - split; vm_compute; reflexivity.
Defined.

Lemma gap_is_ignored_witness :
  let g := mkGap ENTITYID_UNKNOWN (entity_id_for_writer 1) (SequenceNumber.from_u64 1)
             (SequenceNumber.from_u64 3) in
  handle_data_packet (mkClock 5 6) (wrap_in_rtps_message (header far_inner) (encode_gap_submessage g))
    far_from demo_listening = Ok demo_listening.
Proof.
  intros g. apply (gap_is_ignored (mkClock 5 6) (header far_inner) g far_from demo_listening).
  vm_compute. congruence.
Defined.

(** DATA of a writer nobody has announced. *)
Lemma unmatched_prefix_ignored_witness :
  let data := wrap_in_rtps_message (header far_inner) (encode_data_submessage (entity_id_for_writer 1)
                ENTITYID_UNKNOWN (SequenceNumber.from_u64 1) (wrap_payload [x05])) in
  ∃ self', handle_data_packet (mkClock 5 6) data far_from demo_listening = Ok self' ∧
    same_subscribers demo_listening self'.
Proof.
  intros data.
  assert (match handle_data_packet (mkClock 5 6) data far_from demo_listening with
          | Ok _ => true | _ => false end = true) as E by (vm_compute; reflexivity).
  destruct (handle_data_packet (mkClock 5 6) data far_from demo_listening) as [self'| |] eqn:Hd;
    [|discriminate..].
  exists self'. split; [reflexivity|].
  apply (unmatched_prefix_ignored (mkClock 5 6) data far_from demo_listening (header far_inner) self');
    [vm_compute; reflexivity| |exact Hd].
  split; [vm_compute; congruence|]. intros e st g (_ & _ & _ & _ & Hs)%demo_listening_reader Hg.
  simpl in Hs. rewrite Hs in Hg. by apply not_elem_of_empty in Hg.
Defined.

(** A transient-local reader after a write, and one after a restart. *)
Lemma late_joiner_replay_witness :
  (∃ r self' q, new_reader_impl 9 demo_words demo_reader_opts false true [] demo_started = Ok (r, self') ∧
     inners self' !! rr_inner r = Some q ∧ s_payload <$> queue q = [[x05]]) ∧
  replayed 9 demo_words (new_inner (N:=bool * option bool) (ec_guid_prefix demo_config) VENDOR_ID_RUST_DDS
    demo_data_socket (SedpService_new demo_config) demo_meta_socket (Some [x64])
    (persist_flush [x64] demo_words [x05] demo_disk)) = [mkSample demo_words [x05] 9 0 (vreplicate 16 x00)].
Proof.
  assert (match new_reader_impl 9 demo_words demo_reader_opts false true [] demo_started with
          | Ok _ => true | _ => false end = true) as E by (vm_compute; reflexivity).
  destruct (new_reader_impl 9 demo_words demo_reader_opts false true [] demo_started) as [[r self']| |] eqn:Hr;
    [|discriminate..].
  destruct (late_joiner_replay 9 demo_words demo_reader_opts false true [] demo_started r self' Hr)
    as [[(q & Hq & Hqq) _] H].
  split.
  - exists r, self', q. split; [reflexivity|]. split; [exact Hq|]. rewrite Hqq. vm_compute. reflexivity.
  - apply (H demo_started [x64] [x05]); [congruence|vm_compute; congruence|reflexivity|vm_compute; congruence].
Defined.
