(* ===== verification/Recovery.v ===== *)
(** * Recovery: lost samples recovered over the wire (src/rtps/participant.rs)

    A reliable writer and a reliable reader, each in its participant, and the
    datagrams between them: HEARTBEAT, ACKNACK, the messages that are resent.
    The handlers are those of Participant; what is exchanged is what they put
    on the data sockets. *)

From S2P Require Import Prelude Codec Guid Locator Wildcard Persist Types SubQueue Counters.
From S2P Require Import Reliable Message Cdr Fragment Reassembly Socket Spdp Sedp Participant Delivery.

Section recovery.
Context {N : Type} `{!Notify N} `{BuildProfile}.
Notation participant := (RtpsParticipant N).
Implicit Types self R W : participant.

(** ** The exchange *)

(** The messages sent to an address; what a participant has sent since it
    was [self0]. *)
Definition inbox (a : SocketAddr) (l : list (SocketAddr * list byte)) : list (list byte) :=
  (filter (λ x, x.1 = a) l).*2.
Definition since self0 self : list (SocketAddr * list byte) :=
  drop (length (sent (data_socket self0))) (sent (data_socket self)).

Definition receive_all (clock : Clock) (from : SocketAddr) (msgs : list (list byte)) self : runs participant :=
  for_each (λ m, handle_data_packet clock m from) msgs self.

(** A tick of the heartbeat task of the writer [eid], whose participant is at
    [w_addr], and what it sets off at the participant at [r_addr]. *)
Definition exchange (eid : EntityId) (w_addr r_addr : SocketAddr) (clock : Clock) (WR : participant * participant)
    : runs (participant * participant) :=
  let '(W, R) := WR in
  W1 ← send_heartbeat eid W;
  R1 ← receive_all clock w_addr (inbox r_addr (since W W1)) R;
  W2 ← receive_all clock r_addr (inbox w_addr (since R R1)) W1;
  R2 ← receive_all clock w_addr (inbox r_addr (since W1 W2)) R1;
  Ok (W2, R2).

Lemma since_sends l self0 self : sent (data_socket self) = sent (data_socket self0) ++ l → since self0 self = l.
Proof using Type. intros Hs. unfold since. by rewrite Hs, drop_app_length. Qed.

Lemma inbox_app a l k : inbox a (l ++ k) = inbox a l ++ inbox a k.
Proof using Type. unfold inbox. by rewrite filter_app, fmap_app. Qed.

Lemma inbox_to_all a dsts m : filter (eq a) dsts = [a] → inbox a (to_all dsts m) = [m].
Proof using Type.
  intros Ha. unfold inbox, to_all.
  assert (filter (λ x : SocketAddr * list byte, x.1 = a) ((λ dst, (dst, m)) <$> dsts)
          = (λ dst, (dst, m)) <$> filter (eq a) dsts) as ->; [|by rewrite Ha].
  clear Ha. induction dsts as [|d dsts IH]; [done|]. rewrite fmap_cons, !filter_cons. simpl.
  rewrite IH. do 2 case_decide; (done || congruence).
Qed.

(** ** The reader *)

Section reader.
Context (g : Guid) (er : EntityId).

(** The reader [er] is reliable, of topic [t], hears the writer [g] with the
    tracker [tr] and has the queue [q]; no other reliable reader of the
    participant hears [g]. *)
Record hears R (t : str) (tr : RecvTracker) (q : SubInner N) : Prop := {
  he_wf : participant_wf R;
  he_far : prefix g ≠ rp_guid_prefix R;
  he_sole e st : readers R !! e = Some st → e ≠ er →
    r_reliable st = false ∨ accepts_source st (rp_guid_prefix R) g = false;
  he_reader : ∃ st, readers R !! er = Some st ∧ r_reliable st = true ∧ g ∈ sources st ∧ r_topic st = t ∧
    tracker_for st g = tr ∧ inners R !! r_inner st = Some q }.

Lemma for_each_skipped (f : EntityId * ReaderState → participant → runs participant) ers self :
  (∀ x, x ∈ ers → f x self = Ok self) → for_each f ers self = Ok self.
Proof using Type.
  intros Hf. induction ers as [|x ers IH]; [done|]. cbn [for_each]. rewrite Hf by by left. rewrite bind_ok.
  apply IH. intros y Hy. apply Hf. by right.
Qed.

(** A loop over the readers that skips all but [er]. *)
Lemma for_each_sole (f : EntityId * ReaderState → participant → runs participant) R st :
  readers R !! er = Some st →
  (∀ e st' s, readers R !! e = Some st' → e ≠ er → rp_guid_prefix s = rp_guid_prefix R → f (e, st') s = Ok s) →
  (∀ s, f (er, st) R = Ok s → rp_guid_prefix s = rp_guid_prefix R) →
  for_each f (map_to_list (readers R)) R = f (er, st) R.
Proof using Type.
  intros Her Hskip Hpre. pose proof (NoDup_fst_map_to_list (readers R)) as Hnd.
  assert ((er, st) ∈ map_to_list (readers R)) as Hin by by apply elem_of_map_to_list.
  assert (∀ e st', (e, st') ∈ map_to_list (readers R) → readers R !! e = Some st') as Hl
    by (intros e st'; apply elem_of_map_to_list).
  apply list_elem_of_split in Hin as (l1 & l2 & E). rewrite E in *. rewrite fmap_app, fmap_cons in Hnd.
  apply NoDup_app in Hnd as (_ & H1 & [H2 _]%NoDup_cons). cbn [fst] in *.
  rewrite for_each_app, for_each_skipped, bind_ok.
  - cbn [for_each]. destruct (f (er, st) R) as [s| |] eqn:Hs; [|done..]. rewrite bind_ok. apply for_each_skipped.
    intros [e st'] Hx. apply Hskip; [apply Hl; set_solver| |by apply Hpre].
    intros ->. apply H2, list_elem_of_fmap. by exists (er, st').
  - intros [e st'] Hx. apply Hskip; [apply Hl; set_solver| |done].
    intros ->. apply (H1 er); [|by left]. apply list_elem_of_fmap. by exists (er, st').
Qed.

Lemma hears_set_tracker R t tr q tr' : hears R t tr q → tracker_ok tr' →
  hears (set_tracker er g tr' R) t tr' q.
Proof using Type.
  intros [Hwf Hfar Hsole (st & Her & Hrel & Hg & Ht & Htr & Hq)] Hok.
  assert (only_tracked R (set_tracker er g tr' R)) as Hon.
  { apply set_tracker_only; [done|]. intros st' Hst. congruence. }
  split; [by eapply wf_only_tracked|done| |].
  - intros e st' He Hne. simpl in He. rewrite lookup_alter_ne in He by done. by eapply Hsole.
  - simpl. rewrite lookup_alter_eq, Her. eexists. split; [done|]. split_and!; try done.
    unfold tracker_for. simpl. by rewrite lookup_insert_eq.
Qed.

Lemma hears_send R t tr q m dst : hears R t tr q → hears (send m dst R) t tr q.
Proof using Type.
  intros [Hwf Hfar Hsole Hr]. split; try done. eapply wf_only_tracked; [apply send_only|done].
Qed.

(** *** A HEARTBEAT *)

Definition counted (tr : RecvTracker) : RecvTracker :=
  mkRecvTracker (expected tr) (ahead tr) (init_done tr) (ack_count tr + 1).

Definition acknack_for (tr : RecvTracker) (bm : Z) : AckNack :=
  mkAckNack er (entity g) (SequenceNumber.from_u64 (expected tr)) bm (ack_count tr + 1).

Lemma hears_ok R t tr q : hears R t tr q → init_done tr = true → tracker_ok tr.
Proof using Type.
  intros [Hwf _ _ (st & Her & _ & _ & _ & <- & _)] Hi. split; [done|].
  apply tracker_for_u64. by apply (pw_trackers _ Hwf er).
Qed.

(** Nothing is missing; or an ACKNACK that names what is. *)
Lemma nack_none R tr last from : init_done tr = true → last < expected tr →
  nack_missing er g last tr from R = Ok (set_tracker er g tr R).
Proof using Type.
  intros Hi Hlt. unfold nack_missing, RecvTracker_missing. rewrite Hi. cbn [negb]. ltb_true lia. by rewrite bind_ok.
Qed.

Lemma nack_some R t tr0 tr q last from : hears R t tr0 q → tracker_wf tr → init_done tr = true →
  expected tr <= last → last < 2 ^ 64 - 1 → expected tr + 31 < 2 ^ 64 → - 2 ^ 31 <= ack_count tr < 2 ^ 31 - 1 →
  ∃ R' bm, nack_missing er g last tr from R = Ok R' ∧ hears R' t (counted tr) q ∧
    sent (data_socket R') = sent (data_socket R)
      ++ [(from, wrap_in_rtps_message (header R) (encode_acknack_submessage (acknack_for tr bm)))] ∧
    0 <= bm ∧ ∀ n, 0 <= n → Z.testbit bm n = bool_decide (n < 32 ∧ expected tr + n <= last ∧ ¬ has tr (expected tr + n)).
Proof using Type.
  intros Hh Hw Hi Hle Hlast H31 Hc.
  destruct (missing_spec tr last Hw Hi Hle Hlast H31) as (bm & Hm & H0 & Hb).
  unfold nack_missing. rewrite Hm, bind_ok. cbn [negb]. unfold send_acknack, RecvTracker_next_ack_count.
  rewrite sadd_ok, bind_ok by lia. cbn [lift]. rewrite bind_ok.
  rewrite as_i_id by lia. change (mkRecvTracker _ _ _ (ack_count tr + 1)) with (counted tr).
  assert (tracker_ok tr) as Hok by (split; [done|unfold is_u64; destruct Hw as (_ & ? & _); lia]).
  eexists _, bm. split; [done|]. split; [|done].
  apply hears_send. eapply hears_set_tracker; [by eapply hears_set_tracker|done].
Qed.

(** What [er] accepts, and what the others skip. *)
Lemma hears_skips R t tr q e st : hears R t tr q → readers R !! e = Some st → e ≠ er →
  ∀ s : participant, rp_guid_prefix s = rp_guid_prefix R →
    negb (r_reliable st) || negb (accepts_source st (rp_guid_prefix s) g) = true.
Proof using Type.
  intros Hh He Hne s ->. destruct (he_sole _ _ _ _ Hh e st He Hne) as [->| ->]; [done|by rewrite orb_true_r].
Qed.

Lemma hears_accepts R t tr q st : hears R t tr q → readers R !! er = Some st →
  negb (r_reliable st) || negb (accepts_source st (rp_guid_prefix R) g) = false.
Proof using Type.
  intros [_ Hfar _ (st' & Her & Hrel & Hg & _)] He. simplify_eq. rewrite Hrel, accepts_remote by done.
  by rewrite bool_decide_true.
Qed.

Lemma hears_dispatch R t tr q p ts seq : hears R t tr q →
  let R' := dispatch_to_readers g None p ts seq R in
  hears R' t tr (push q (mkSample t p ts seq (Guid.to_bytes g))).2 ∧ data_socket R' = data_socket R.
Proof using Type.
  intros [Hwf Hfar Hsole (st & Her & Hrel & Hg & Ht & Htr & Hq)] R'.
  destruct (dispatch_spec g None p ts seq R (pw_apart _ Hwf) (proj1 (pw_totals _ Hwf)) (proj2 (pw_totals _ Hwf)))
    as (Ho & _ & _ & _ & Hd & _). fold R' in Ho, Hd. unfold only_delivered in Ho.
  specialize (Hd er st Her). rewrite Hq in Hd. simpl in Hd. unfold takes in Hd. rewrite accepts_remote in Hd by done.
  rewrite bool_decide_true in Hd by done.
  split; [|by rewrite Ho]. split; [by apply wf_dispatch|by rewrite Ho| |].
  - intros e st'. rewrite Ho. apply Hsole.
  - exists st. split; [by rewrite Ho|]. split_and!; try done. rewrite Hd. unfold sample_for. by rewrite Ht.
Qed.

Section hearing.
Context (h : Header) (Hh : guid_prefix h = prefix g) (clock : Clock) (from : SocketAddr).

(** The reader's part of the HEARTBEAT handler. *)
Lemma receive_heartbeat R t tr q hb : hears R t tr q → heartbeat_wf hb → hb_writer_entity_id hb = entity g →
  handle_data_packet clock (wrap_in_rtps_message h (encode_heartbeat_submessage hb)) from R =
  nack_missing er g (SequenceNumber.to_u64 (last_sn hb))
    (RecvTracker_init_expected (SequenceNumber.to_u64 (first_sn hb)) tr) from R.
Proof using Hh.
  intros Hr Hwf He. destruct (he_reader _ _ _ _ Hr) as (st & Her & _ & _ & _ & Htr & _).
  rewrite encode_heartbeat_eq, receive_raw; [|by rewrite Hh; apply (he_far _ _ _ _ Hr)|by apply fixed_raw_wf, len_heartbeat_body].
  unfold handle_submessage. cbn [raw_id raw_flags raw_body].
  rewrite !bool_decide_false by done. rewrite bool_decide_true by done.
  rewrite decode_heartbeat_body by done. cbn [ok]. rewrite bind_ok. unfold handle_heartbeat.
  assert (mkGuid (guid_prefix h) (hb_writer_entity_id hb) = g) as -> by (rewrite Hh, He; by destruct g).
  rewrite (for_each_sole _ R st).
  - unfold heartbeat_reader. by rewrite (hears_accepts _ _ _ _ _ Hr Her), Htr.
  - done.
  - intros e st' s Hl Hne Hs. unfold heartbeat_reader. by rewrite (hears_skips _ _ _ _ _ _ Hr Hl Hne _ Hs).
  - intros s. apply heartbeat_reader_prefix.
Qed.

(** *** A sample *)

Lemma record_count seq tr b tr' : RecvTracker_record seq tr = Ok (b, tr') → init_done tr = true →
  ack_count tr' = ack_count tr.
Proof using Type.
  intros Hr Hi. unfold RecvTracker_record, RecvTracker_init_expected in Hr. rewrite Hi in Hr. cbn [negb] in Hr.
  destruct (seq <? expected tr); [by injection Hr as <- <-|]. destruct (seq =? expected tr).
  - apply bind_ok_inv in Hr as (e & _ & Hr). apply bind_ok_inv in Hr as ([e' a'] & _ & Hr). by injection Hr as <- <-.
  - case_bool_decide; by injection Hr as <- <-.
Qed.

(** The sample a datagram becomes. *)
Definition heard_sample (t : str) (p : list byte) (seq : Z) : Sample := mkSample t p (utc clock) seq (Guid.to_bytes g).

(** A message of the writer whose number the tracker records and is then past:
    the queue is offered the sample, new or not, and nothing is sent. *)
Lemma receive_recorded R t tr q seq p b tr' : hears R t tr q → is_u64 seq → len p <= 65511 →
  RecvTracker_record seq tr = Ok (b, tr') → tracker_ok tr' → seq < expected tr' →
  ∃ R', handle_data_packet clock (wrap_in_rtps_message h
      (encode_data_submessage (entity g) ENTITYID_UNKNOWN (SequenceNumber.from_u64 seq) (wrap_payload p))) from R = Ok R' ∧
    hears R' t tr' (push q (heard_sample t p seq)).2 ∧ data_socket R' = data_socket R.
Proof using Hh.
  intros Hr Hseq Hp Hrec Hok' Hpast. destruct (he_reader _ _ _ _ Hr) as (st & Her & _ & _ & _ & Htr & _).
  rewrite receive_data; [|by rewrite Hh; apply (he_far _ _ _ _ Hr)|done|done].
  assert (mkGuid (guid_prefix h) (entity g) = g) as -> by (rewrite Hh; by destruct g).
  pose proof (hears_set_tracker R t tr q tr' Hr Hok') as Hr1.
  unfold deliver_remote, notify_reliable_readers.
  assert (notify_reader g seq from (er, st) R = Ok (set_tracker er g tr' R)) as Hn.
  { unfold notify_reader. rewrite (hears_accepts _ _ _ _ _ Hr Her), Htr, Hrec. cbn [lift]. rewrite bind_ok.
    apply (nack_none R tr'); [apply Hok'|done]. }
  rewrite (for_each_sole _ R st), Hn, bind_ok; [|done| |].
  - destruct (hears_dispatch _ _ _ _ p (utc clock) seq Hr1) as [Hr2 Hs2]. by eexists.
  - intros e st' s Hl Hne Hs. unfold notify_reader. by rewrite (hears_skips _ _ _ _ _ _ Hr Hl Hne _ Hs).
  - intros s. rewrite Hn. by intros [= <-].
Qed.

(** A sample all of whose predecessors were received. *)
Lemma receive_sample R t tr q seq p : hears R t tr q → tracker_wf tr → init_done tr = true →
  expected tr <= seq <= expected tr + 31 → seq < 2 ^ 64 - 1 → (∀ s, expected tr <= s < seq → has tr s) → len p <= 65511 →
  ∃ R' tr', handle_data_packet clock (wrap_in_rtps_message h
      (encode_data_submessage (entity g) ENTITYID_UNKNOWN (SequenceNumber.from_u64 seq) (wrap_payload p))) from R = Ok R' ∧
    hears R' t tr' (push q (heard_sample t p seq)).2 ∧ data_socket R' = data_socket R ∧
    tracker_wf tr' ∧ init_done tr' = true ∧ ack_count tr' = ack_count tr ∧ expected tr <= expected tr' ∧
    (∀ s, has tr' s ↔ has tr s ∨ s = seq).
Proof using Hh.
  intros Hr Hw Hi Hseq Hmax Hbelow Hp. assert (0 <= expected tr) as H0 by apply Hw.
  destruct (record_initialised seq tr Hw Hi ltac:(lia)) as (tr' & Hrec & Hw' & Hi' & He' & Hhas).
  assert (∀ s, has tr' s ↔ has tr s ∨ s = seq) as Hhas'.
  { intros s. rewrite Hhas. unfold MAX_REORDER_AHEAD. split; [tauto|]. intros [?| ->]; [by left|right; split; [done|lia]]. }
  assert (seq + 1 <= expected tr') as Hpast.
  { apply watermark_at_least; [done..|]. intros s Hs. apply Hhas'.
    destruct (Z.eq_dec s seq); [by right|left; apply Hbelow; lia]. }
  assert (tracker_ok tr') as Hok' by (split; [done|unfold is_u64; destruct Hw' as (_ & ? & _); lia]).
  destruct (receive_recorded R t tr q seq p (negb (bool_decide (has tr seq))) tr' Hr) as (R' & Hrun & Hr' & Hs');
    [unfold is_u64; lia|done|exact Hrec|done|lia|].
  exists R', tr'. split_and!; try done. by eapply record_count.
Qed.

(** The reader does not use the answer of the tracker: a sample below its
    watermark that arrives again is offered to its queue again. *)
Theorem duplicate_is_delivered R t tr q seq p : hears R t tr q → init_done tr = true →
  0 <= seq < expected tr → len p <= 65511 →
  RecvTracker_record seq tr = Ok (false, tr) ∧
  ∃ R', handle_data_packet clock (wrap_in_rtps_message h
      (encode_data_submessage (entity g) ENTITYID_UNKNOWN (SequenceNumber.from_u64 seq) (wrap_payload p))) from R = Ok R' ∧
    hears R' t tr (push q (heard_sample t p seq)).2.
Proof using Hh.
  intros Hr Hi Hseq Hp. pose proof (hears_ok _ _ _ _ Hr Hi) as Hok. assert (is_u64 (expected tr)) as Hu by apply Hok.
  assert (RecvTracker_record seq tr = Ok (false, tr)) as Hrec.
  { unfold RecvTracker_record, RecvTracker_init_expected. rewrite Hi. cbn [negb]. by ltb_true lia. }
  split; [done|]. unfold is_u64 in *.
  destruct (receive_recorded R t tr q seq p false tr Hr) as (R' & Hrun & Hr' & _); [unfold is_u64; lia|done|exact Hrec|done|lia|].
  by exists R'.
Qed.

(** *** A window of samples *)

Definition sample_message (s : Z) (p : list byte) : list byte :=
  wrap_in_rtps_message h
    (encode_data_submessage (entity g) ENTITYID_UNKNOWN (SequenceNumber.from_u64 s) (wrap_payload p)).

(** The numbers from [m] on, [k] of them, that are missing. *)
Definition gaps (tr : RecvTracker) (m : Z) (k : nat) : list Z := filter (λ s, ¬ has tr s) (seqZ m (Z.of_nat k)).

Lemma gaps_S tr m k : gaps tr m (S k) = (if decide (has tr m) then [] else [m]) ++ gaps tr (m + 1) k.
Proof using Type.
  unfold gaps. rewrite seqZ_cons by lia. replace (Z.pred (Z.of_nat (S k))) with (Z.of_nat k) by lia. rewrite filter_cons.
  rewrite Z.add_1_r. by destruct (decide (has tr m)), (decide (¬ has tr m)).
Qed.

Lemma gaps_ext tr tr' m k : (∀ s, m <= s < m + Z.of_nat k → has tr s ↔ has tr' s) → gaps tr m k = gaps tr' m k.
Proof using Type.
  revert m. induction k as [|k IH]; intros m Hs; [done|]. rewrite !gaps_S. f_equal.
  - pose proof (Hs m ltac:(lia)). destruct (decide (has tr m)), (decide (has tr' m)); tauto.
  - apply IH. intros s ?. apply Hs. lia.
Qed.

(** The messages of the missing samples of a window, in order. *)
Lemma receive_window p_of e0 k m R t tr q : hears R t tr q → tracker_wf tr → init_done tr = true →
  e0 <= expected tr → m + Z.of_nat k <= e0 + 32 → m + Z.of_nat k < 2 ^ 64 → (∀ s, s < m → has tr s) →
  (∀ s, len (p_of s) <= 65511) →
  let ss := gaps tr m k in
  ∃ R' tr', receive_all clock from ((λ s, sample_message s (p_of s)) <$> ss) R = Ok R' ∧
    hears R' t tr' (pushes ((λ s, heard_sample t (p_of s) s) <$> ss) q) ∧ data_socket R' = data_socket R ∧
    tracker_wf tr' ∧ init_done tr' = true ∧ ack_count tr' = ack_count tr ∧ expected tr <= expected tr' ∧
    (∀ s, has tr' s ↔ has tr s ∨ m <= s < m + Z.of_nat k).
Proof using Hh.
  intros Hr Hw Hi He0 Hm H64 Hbelow Hp. revert m R tr q Hr Hw Hi He0 Hm H64 Hbelow.
  induction k as [|k IH]; intros m R tr q Hr Hw Hi He0 Hm H64 Hbelow ss.
  { exists R, tr. split_and!; try (done || lia). intros s. split; [by left|]. intros [?|?]; [done|lia]. }
  unfold ss. rewrite gaps_S. destruct (decide (has tr m)) as [Hhas|Hno]; cbn [app].
  - destruct (IH (m + 1) R tr q) as (R' & tr' & H1 & H2 & H3 & H4 & H5 & H6 & H7 & H8); try done; [lia|lia| |].
    { intros s Hs. destruct (Z.eq_dec s m) as [->|]; [done|]. apply Hbelow. lia. }
    exists R', tr'. split_and!; try done. intros s. rewrite H8. destruct (Z.eq_dec s m) as [->|]; [tauto|].
    split; (intros [?|?]; [by left|right; lia]).
  - assert (expected tr <= m) as Hle.
    { destruct (Z.le_gt_cases (expected tr) m); [done|]. destruct Hno. split; [done|left; lia]. }
    destruct (receive_sample R t tr q m (p_of m) Hr Hw Hi) as (R1 & tr1 & Hd & Hr1 & Hs1 & Hw1 & Hi1 & Hc1 & He1 & Hh1);
      [lia|lia|intros s ?; apply Hbelow; lia|done|].
    destruct (IH (m + 1) R1 tr1 _ Hr1 Hw1 Hi1) as (R' & tr' & H1 & H2 & H3 & H4 & H5 & H6 & H7 & H8); [lia..| |].
    { intros s Hs. apply Hh1. destruct (Z.eq_dec s m) as [->|]; [by right|]. left. apply Hbelow. lia. }
    assert (gaps tr1 (m + 1) k = gaps tr (m + 1) k) as Hg.
    { apply gaps_ext. intros s ?. rewrite Hh1. split; [intros [?|?]; [done|lia]|by left]. }
    rewrite Hg in H1, H2.
    exists R', tr'. split_and!; try (done || congruence || lia).
    + rewrite fmap_cons. unfold receive_all. cbn [for_each]. fold (sample_message m (p_of m)) in Hd.
      rewrite Hd, bind_ok. exact H1.
    + intros s. rewrite H8, Hh1. destruct (Z.eq_dec s m) as [->|]; [split; intros _; [right; lia|left; by right]|].
      split; [intros [[?|?]|?]; [by left|lia|right; lia]|intros [?|?]; [left; by left|right; lia]].
Qed.
End hearing.

(** ** The writer *)

Section writer.
Context (h : Header) (Hh : guid_prefix h = prefix g) (t : str) (w_addr r_addr : SocketAddr).

(** The messages of the samples [ps]. *)
Definition sample_messages (ps : list (list byte)) : list (list byte) :=
  imap (λ i p, sample_message h (Z.of_nat i + 1) p) ps.

Definition payload_of (ps : list (list byte)) (s : Z) : list byte := default [] (ps !! Z.to_nat (s - 1)).

(** [g] is a reliable writer of topic [t] in the participant with header [h];
    it has written [ps] and counted [c] HEARTBEATs, and one of the locators it
    is matched with is [r_addr]. *)
Record writing W (ps : list (list byte)) (c : Z) : Prop := {
  wi_header : header W = h;
  wi_addr : filter (eq r_addr) (reader_addrs t W) = [r_addr];
  wi_writer : ∃ ws, writers W !! entity g = Some ws ∧ w_reliable ws = true ∧ w_topic ws = t ∧
    wrote ws (sample_messages ps) ∧ heartbeats ws = c }.

Lemma len_sample_messages ps : len (sample_messages ps) = len ps.
Proof using Type. unfold len, sample_messages. by rewrite length_imap. Qed.

Lemma oldest_sample_messages ps : oldest (sample_messages ps) = Z.max 1 (len ps - 255).
Proof using Type. unfold oldest. by rewrite len_sample_messages. Qed.

Lemma held_sample_messages ps s : oldest (sample_messages ps) <= s <= len ps →
  held (sample_messages ps) s = Some (sample_message h s (payload_of ps s)).
Proof using Type.
  intros Hs. assert (1 <= s) by (rewrite oldest_sample_messages in Hs; lia). unfold held.
  rewrite len_sample_messages, (proj2 (Z.leb_le _ _)), (proj2 (Z.leb_le _ _)) by lia. cbn [andb].
  unfold sample_messages, payload_of. rewrite list_lookup_imap.
  destruct (lookup_lt_is_Some_2 ps (Z.to_nat (s - 1))) as [p ->]; [unfold len in Hs; lia|].
  simpl. do 2 f_equal. lia.
Qed.

(** The HEARTBEAT of a tick reaches the reader's participant. *)
Definition heartbeat_of (ps : list (list byte)) (c : Z) : Heartbeat :=
  mkHeartbeat ENTITYID_UNKNOWN (entity g) (SequenceNumber.from_u64 (oldest (sample_messages ps)))
    (SequenceNumber.from_u64 (len ps)) c.

Lemma tick W ps c : writing W ps c → ps ≠ [] → c + 1 < 2 ^ 31 →
  ∃ W', send_heartbeat (entity g) W = Ok W' ∧ writing W' ps (c + 1) ∧
    inbox r_addr (since W W') = [wrap_in_rtps_message h (encode_heartbeat_submessage (heartbeat_of ps (c + 1)))].
Proof using Type.
  intros [Hhd Ha (ws & Hws & Hrel & Ht & Hw & <-)] Hne Hc.
  assert (sample_messages ps ≠ []) as Hne'.
  { intros E. apply (f_equal len) in E. rewrite len_sample_messages in E. destruct ps; [done|]. rewrite len_cons in E.
    pose proof (len_nonneg ps). change (len []) with 0 in E. lia. }
  destruct (send_heartbeat_eq (entity g) W ws _ Hws Hrel Hw Hne' Hc) as (ws' & -> & Hw' & Ht' & Hrel' & Hcnt' & _).
  eexists. split; [done|]. split; [split|].
  - done.
  - rewrite sends_addrs. exact Ha.
  - exists ws'. split_and!; try done; [apply lookup_insert_eq|congruence].
  - erewrite since_sends by done. rewrite Ht, inbox_to_all by done. unfold heartbeat_message, heartbeat_of.
    by rewrite Hhd, len_sample_messages.
Qed.

Lemma bitmap_u32 bm : 0 <= bm → (∀ n, 32 <= n → Z.testbit bm n = false) → is_u32 bm.
Proof using Type.
  intros H0 Hb. assert (bm = bm mod 2 ^ 32) as ->.
  { apply Z.bits_inj'. intros n Hn. destruct (Z.lt_ge_cases n 32).
    - by rewrite Z.mod_pow2_bits_low.
    - rewrite Z.mod_pow2_bits_high by lia. by apply Hb. }
  pose proof (Z.mod_pos_bound bm (2 ^ 32) ltac:(lia)). unfold is_u32. lia.
Qed.

Lemma inbox_resent bm b ms dsts ns (f : Z → list byte) : filter (eq r_addr) dsts = [r_addr] →
  (∀ n, n ∈ ns → Z.testbit bm n = true → held ms (b + n) = Some (f (b + n))) →
  inbox r_addr (resent bm b ms dsts ns) = (λ n, f (b + n)) <$> filter (λ n, Z.testbit bm n = true) ns.
Proof using Type.
  intros Ha Hf. induction ns as [|n ns IH]; [done|]. rewrite resent_cons, inbox_app, IH by (intros; apply Hf; [by right|done]).
  unfold resent. rewrite !filter_cons, filter_nil. case_decide as Hn; [|done]. cbn [mbind list_bind].
  rewrite app_nil_r, (Hf n) by (done || by left). by rewrite inbox_to_all.
Qed.

Lemma requested tr bm last : (∀ n, 0 <= n → Z.testbit bm n =
    bool_decide (n < 32 ∧ expected tr + n <= last ∧ ¬ has tr (expected tr + n))) →
  expected tr <= last →
  (λ n, expected tr + n) <$> filter (λ n, Z.testbit bm n = true) (seqZ 0 32)
  = gaps tr (expected tr) (Z.to_nat (Z.min 32 (last + 1 - expected tr))).
Proof using Type.
  intros Hb Hle. set (k := Z.min 32 (last + 1 - expected tr)). unfold gaps. rewrite Z2Nat.id by lia.
  replace 32 with (k + (32 - k)) at 1 by lia. rewrite seqZ_app by lia. rewrite filter_app, fmap_app.
  assert (filter (λ n, Z.testbit bm n = true) (seqZ (0 + k) (32 - k)) = []) as ->.
  { apply elem_of_nil_inv. intros n [Hn Hr%elem_of_seqZ]%list_elem_of_filter.
    rewrite Hb in Hn by lia. apply bool_decide_eq_true in Hn. lia. }
  rewrite app_nil_r. assert (seqZ (expected tr) k = Z.add (expected tr) <$> seqZ 0 k) as -> by by rewrite fmap_add_seqZ, Z.add_0_r.
  assert (∀ n, n ∈ seqZ 0 k → Z.testbit bm n = true ↔ ¬ has tr (expected tr + n)) as Hl.
  { intros n Hn%elem_of_seqZ. rewrite Hb, bool_decide_eq_true by lia. split; [by intros (_ & _ & ?)|]. intros ?. split_and!; (done || lia). }
  revert Hl. generalize (seqZ 0 k). intros l. induction l as [|n l IH]; intros Hl; [done|].
  rewrite fmap_cons, !filter_cons. pose proof (Hl n ltac:(by left)).
  do 2 case_decide; try tauto; rewrite ?fmap_cons, IH by (intros; apply Hl; by right); done.
Qed.

(** The answer to the reader's ACKNACK. *)
Lemma answer W ps c hr tr bm clock : writing W ps c → guid_prefix hr ≠ guid_prefix h →
  tracker_wf tr → oldest (sample_messages ps) <= expected tr → expected tr <= len ps → len ps + 31 < 2 ^ 64 →
  - 2 ^ 31 <= ack_count tr < 2 ^ 31 - 1 → 0 <= bm →
  (∀ n, 0 <= n → Z.testbit bm n = bool_decide (n < 32 ∧ expected tr + n <= len ps ∧ ¬ has tr (expected tr + n))) →
  ∃ W', handle_data_packet clock (wrap_in_rtps_message hr (encode_acknack_submessage (acknack_for tr bm))) r_addr W = Ok W' ∧
    writing W' ps c ∧
    inbox r_addr (since W W') = (λ s, sample_message h s (payload_of ps s))
      <$> gaps tr (expected tr) (Z.to_nat (Z.min 32 (len ps + 1 - expected tr))).
Proof using Type.
  intros [Hhd Ha (ws & Hws & Hrel & Ht & Hw & Hc)] Hfar Hwf Hold Hle Hlen Hack H0 Hb.
  assert (1 <= oldest (sample_messages ps)) as Hold1 by (rewrite oldest_sample_messages; lia).
  assert (acknack_wf (acknack_for tr bm)) as Han.
  { split_and!; simpl; [apply from_u64_wf; unfold is_u64; lia| |unfold is_i32; lia].
    apply bitmap_u32; [done|]. intros n Hn. rewrite Hb by lia. apply bool_decide_false. lia. }
  rewrite encode_acknack_eq, receive_raw; [| |by apply fixed_raw_wf, len_acknack_body].
  2:{ rewrite <- Hhd in Hfar. exact Hfar. }
  unfold handle_submessage. cbn [raw_id raw_flags raw_body].
  rewrite !bool_decide_false by done. rewrite bool_decide_true by done.
  rewrite decode_acknack_body by done. cbn [ok]. rewrite bind_ok.
  destruct (proj1 (wr_reliable _ _ Hw) Hrel) as [hist Hhist].
  assert (SequenceNumber.to_u64 (base (acknack_for tr bm)) = expected tr) as Hbase
    by (simpl; apply to_u64_from_u64; unfold is_u64; lia).
  rewrite (acknack_answer _ _ _ ws _ hist) by (done || rewrite ?Hbase; (apply (wr_history _ _ Hw); done) || lia).
  rewrite Hbase. cbn [bitmap acknack_for an_writer_entity_id].
  set (acc := advance_acked (expected tr) ws). eexists. split; [done|].
  assert (gap_sends W (acknack_for tr bm) (expected tr) (sample_messages ps) r_addr (reader_addrs (w_topic ws) W) = []) as Hgap.
  { unfold gap_sends. rewrite (proj2 (Z.ltb_ge _ _)) by lia. by rewrite andb_false_r. }
  rewrite Hgap, app_nil_r, Ht. split.
  - split; [done|by rewrite sends_addrs|]. exists acc.
    assert (w_topic acc = w_topic ws ∧ w_reliable acc = w_reliable ws ∧ w_seq acc = w_seq ws ∧ w_history acc = w_history ws)
      as (E1 & E2 & E3 & E4) by (unfold acc, advance_acked; by repeat case_match).
    split_and!; [apply lookup_insert_eq|congruence|congruence| |unfold heartbeats in *; by rewrite E4].
    destruct Hw as [W1 W2 W3 W4]. split; [congruence|by rewrite E2, E4|by rewrite E4|unfold heartbeats in *; by rewrite E4].
  - erewrite since_sends by done. rewrite (inbox_resent _ _ _ _ _ (λ s, sample_message h s (payload_of ps s)) Ha).
    + rewrite <- (requested tr bm (len ps)) by done. by rewrite <- list_fmap_compose.
    + intros n Hn%elem_of_seqZ Hbit. rewrite Hb in Hbit by lia. apply bool_decide_eq_true in Hbit.
      apply held_sample_messages. lia.
Qed.

(** *** Writing *)

Lemma heartbeat_frame e self self' : send_heartbeat e self = Ok self' → header self' = header self ∧ sedp self' = sedp self.
Proof using Type.
  unfold send_heartbeat. destruct (writers self !! e) as [ws|]; [|by intros [= <-]].
  destruct (w_history ws) as [hist|]; [|by intros [= <-]].
  destruct (SendHistory_first_last hist) as [[f l]|]; [|by intros [= <-]].
  intros ([n hist'] & _ & Hs)%bind_ok_inv. cbv iota beta in Hs. rewrite send_all_sends in Hs. by injection Hs as <-.
Qed.

Lemma write_frame now w p self self' : participant_wf self → write now w p self = Ok self' →
  header self' = header self ∧ sedp self' = sedp self.
Proof using Type.
  intros Hwf. unfold write. destruct (writers self !! rw_eid w) as [ws|]; [|by intros [= <-]].
  intros (seq & _ & Hs)%bind_ok_inv. cbv zeta in Hs. apply bind_ok_inv in Hs as (msgs & _ & Hs).
  apply bind_ok_inv in Hs as (ws2 & _ & Hs).
  match type of Hs with context [dispatch_to_readers ?g ?tf ?p ?ts ?n ?s] => set (self2 := s) in Hs end.
  assert (header self2 = header self ∧ sedp self2 = sedp self ∧ queues_apart self2 ∧
    rp_delivers self2 = rp_delivers self ∧ rp_drops self2 = rp_drops self) as (E1 & E2 & E3 & E4 & E5).
  { unfold self2. destruct (persist_dir _); (split_and!; [done..| |done|done]); intros e1 e2 st1 st2; apply (pw_apart _ Hwf). }
  clearbody self2. destruct (pw_totals _ Hwf) as [Hd Hdr]. rewrite <- E4 in Hd. rewrite <- E5 in Hdr.
  match type of Hs with context [dispatch_to_readers ?g ?tf ?p ?ts ?n ?s] =>
    destruct (dispatch_spec g tf p ts n s E3 Hd Hdr) as (Ho & _); set (self3 := dispatch_to_readers g tf p ts n s) in * end.
  clearbody self3. unfold only_delivered in Ho. rewrite send_remote_eq in Hs.
  assert (header self3 = header self ∧ sedp self3 = sedp self) as [F1 F2] by (rewrite <- E1, <- E2, Ho; done).
  destruct (w_reliable ws2).
  - apply heartbeat_frame in Hs as [-> ->]. done.
  - by injection Hs as <-.
Qed.

Lemma messages_header eid s p self : header self = h → entity g = eid → len p <= 1196 →
  messages eid s (wrap_payload p) self = Ok [sample_message h s p].
Proof using Type. intros E <- Hp. unfold sample_message. rewrite <- E. by apply messages_small. Qed.

(** A write of a sample that needs no fragments. *)
Lemma writing_write W ps c now w p : participant_wf W → writing W ps c → rw_eid w = entity g → rw_topic w = t →
  c + 1 < 2 ^ 31 → len ps + 1 < 2 ^ 64 → len p <= 1196 →
  ∃ W', write now w p W = Ok W' ∧ participant_wf W' ∧ writing W' (ps ++ [p]) (c + 1).
Proof using Type.
  intros Hwf [Hhd Ha (ws & Hws & Hrel & Ht & Hw & Hc)] Heid Htop Hhb Hlen Hp. subst c. rewrite <- Heid in Hws.
  destruct (write_spec now w p W ws (sample_messages ps) Hwf Hws) as (m & msgs & W' & ws' & Hm & Hr & Hws' & Hw' & Ht' & Hrel' & Hcnt' & _);
    [congruence|done|done|by rewrite len_sample_messages|unfold MAX_REASSEMBLY_BYTES; lia|].
  destruct (write_frame _ _ _ _ _ Hwf Hr) as [F1 F2]. exists W'. split; [done|]. split.
  { apply (step_wf (Participant.Write now w p) W W' Hwf). exact Hr. }
  rewrite len_sample_messages in Hm. rewrite (messages_header _ _ _ _ Hhd) in Hm by done. injection Hm as <- <-.
  assert (sample_messages (ps ++ [p]) = sample_messages ps ++ [sample_message h (len ps + 1) p]) as Hsm.
  { unfold sample_messages. rewrite imap_app. f_equal. simpl. by rewrite Nat.add_0_r. }
  split; [congruence|unfold reader_addrs in *; by rewrite F2|]. exists ws'. rewrite <- Heid, Hsm.
  rewrite Hrel in Hcnt'. split_and!; (done || congruence).
Qed.

(** *** A round *)

Lemma inbox_own a (m : list byte) : inbox a [(a, m)] = [m].
Proof using Type. unfold inbox. rewrite filter_cons. by case_decide. Qed.

Lemma init_count first tr : ack_count (RecvTracker_init_expected first tr) = ack_count tr.
Proof using Type. unfold RecvTracker_init_expected. by destruct (negb _). Qed.

Lemma header_far R tR tr q : hears R tR tr q → guid_prefix (header R) ≠ guid_prefix h.
Proof using Hh. intros Hr. rewrite Hh. intros E. by apply (he_far _ _ _ _ Hr). Qed.

Lemma round W R ps c tR tr q clock : writing W ps c → hears R tR tr q → tracker_wf tr →
  let tr0 := RecvTracker_init_expected (oldest (sample_messages ps)) tr in
  oldest (sample_messages ps) <= expected tr0 → ps ≠ [] → Forall (λ p, len p <= 1196) ps → len ps + 32 < 2 ^ 64 →
  c + 1 < 2 ^ 31 → - 2 ^ 31 <= ack_count tr < 2 ^ 31 - 1 →
  let k := Z.to_nat (Z.min 32 (len ps + 1 - expected tr0)) in
  let xs := (λ s, heard_sample clock tR (payload_of ps s) s) <$> gaps tr0 (expected tr0) k in
  ∃ W' R' tr', exchange (entity g) w_addr r_addr clock (W, R) = Ok (W', R') ∧
    writing W' ps (c + 1) ∧ hears R' tR tr' (pushes xs q) ∧ tracker_wf tr' ∧ init_done tr' = true ∧
    (∀ s, has tr' s ↔ has tr0 s ∨ expected tr0 <= s < expected tr0 + Z.of_nat k) ∧ expected tr0 <= expected tr' ∧
    ack_count tr <= ack_count tr' <= ack_count tr + 1.
Proof using Hh.
  intros Hw Hr Hwf tr0 Hold Hne Hps Hlen Hc Hack k xs. pose proof (len_nonneg ps) as Hn0.
  assert (1 <= oldest (sample_messages ps) <= len ps) as Ho.
  { rewrite oldest_sample_messages. destruct ps; [done|]. rewrite len_cons in *. pose proof (len_nonneg ps). lia. }
  destruct (init_expected_wf (oldest (sample_messages ps)) tr Hwf ltac:(lia)) as [Hwf0 Hi0]. fold tr0 in Hwf0, Hi0.
  assert (tracker_ok tr0) as Hok0 by (split; [done|unfold is_u64; destruct Hwf0 as (_ & ? & _); lia]).
  assert (ack_count tr0 = ack_count tr) as Hc0 by apply init_count.
  destruct (tick W ps c Hw Hne Hc) as (W1 & Hs1 & Hw1 & Hin1).
  assert (- 2 ^ 31 <= c) as Hcmin.
  { destruct (wi_writer _ _ _ Hw) as (ws & _ & _ & _ & Hwr & <-). apply (wr_count _ _ Hwr). }
  unfold exchange, receive_all. rewrite Hs1, bind_ok, Hin1. cbn [for_each].
  rewrite (receive_heartbeat h Hh clock w_addr R tR tr q) by
    (done || (split_and!; simpl; [apply from_u64_wf; unfold is_u64; lia..|unfold is_i32; lia])).
  cbn [heartbeat_of first_sn last_sn]. rewrite !to_u64_from_u64 by (unfold is_u64; lia). fold tr0.
  destruct (Z.lt_ge_cases (len ps) (expected tr0)) as [Hlt|Hge].
  - rewrite nack_none, !bind_ok by done. rewrite (since_sends []) by by rewrite app_nil_r.
    change (inbox ?a []) with (@nil (list byte)). cbn [for_each]. rewrite bind_ok.
    rewrite (since_sends []) by by rewrite app_nil_r. change (inbox ?a []) with (@nil (list byte)). cbn [for_each].
    rewrite bind_ok. assert (k = 0%nat) as Hk by lia. exists W1, (set_tracker er g tr0 R), tr0.
    unfold xs. rewrite Hk. split_and!; try (done || lia); [by eapply hears_set_tracker|].
    intros s. split; [by left|]. intros [?|?]; [done|lia].
  - destruct (nack_some R tR tr tr0 q (len ps) w_addr Hr Hwf0 Hi0 Hge ltac:(lia) ltac:(lia) ltac:(lia))
      as (R1 & bm & -> & Hr1 & Hsent & Hbm & Hb). rewrite !bind_ok, (since_sends _ _ _ Hsent), inbox_own.
    destruct (answer W1 ps (c + 1) (header R) tr0 bm clock Hw1 (header_far _ _ _ _ Hr) Hwf0 Hold Hge ltac:(lia) ltac:(lia) Hbm Hb)
      as (W2 & Ha & Hw2 & Hin2).
    cbn [for_each]. rewrite Ha, !bind_ok, Hin2. fold k.
    assert (has (counted tr0) = has tr0) as Hcounted by done.
    destruct (receive_window h Hh clock w_addr (payload_of ps) (expected tr0) k (expected tr0) R1 tR (counted tr0) q)
      as (R2 & tr2 & H1 & H2 & H3 & H4 & H5 & H6 & H7 & H8); try (done || lia).
    { intros s Hs. split; [done|by left]. }
    { intros s. unfold payload_of. destruct (ps !! _) as [p|] eqn:Hp; simpl; [|done].
      pose proof (Forall_lookup_1 _ _ _ _ Hps Hp). simpl in *. lia. }
    assert (gaps (counted tr0) (expected tr0) k = gaps tr0 (expected tr0) k) as Hg by (apply gaps_ext; by intros s _).
    unfold receive_all in H1. rewrite Hg in H1, H2. rewrite H1, bind_ok.
    simpl in H6, H7. exists W2, R2, tr2. split_and!; try (done || lia).
Qed.

(** *** Recovery *)

Lemma gaps_app tr m j k : gaps tr m (j + k) = gaps tr m j ++ gaps tr (m + Z.of_nat j) k.
Proof using Type.
  revert m. induction j as [|j IH]; intros m; [simpl; by rewrite Z.add_0_r|]. simpl Nat.add.
  rewrite !gaps_S, IH, app_assoc. do 2 f_equal. lia.
Qed.

Lemma gaps_none tr m k : (∀ s, m <= s < m + Z.of_nat k → has tr s) → gaps tr m k = [].
Proof using Type.
  revert m. induction k as [|k IH]; intros m Hs; [done|]. rewrite gaps_S, decide_True by (apply Hs; lia).
  apply IH. intros s ?. apply Hs. lia.
Qed.

(** What is missing of the writer's window. *)
Definition missing_of (ps : list (list byte)) (tr : RecvTracker) : list Z :=
  let lo := oldest (sample_messages ps) in gaps tr lo (Z.to_nat (len ps + 1 - lo)).

Lemma missing_split ps tr tr' : init_done tr = true → oldest (sample_messages ps) <= expected tr →
  let k := Z.to_nat (Z.min 32 (len ps + 1 - expected tr)) in
  (∀ s, has tr' s ↔ has tr s ∨ expected tr <= s < expected tr + Z.of_nat k) →
  missing_of ps tr = gaps tr (expected tr) k ++ missing_of ps tr'.
Proof using Type.
  intros Hi Hlo k Hh'. unfold missing_of. set (lo := oldest _) in *.
  assert (∀ s, s < expected tr → has tr s) as Hbelow by (intros s ?; split; [done|by left]).
  destruct (Z.lt_ge_cases (len ps) (expected tr)) as [Hlt|Hge].
  { rewrite !gaps_none; [done|intros s ?..]; [apply Hh'; left; apply Hbelow|lia|apply Hbelow]; lia. }
  replace (Z.to_nat (len ps + 1 - lo))
    with (Z.to_nat (expected tr - lo) + (k + Z.to_nat (len ps + 1 - expected tr - Z.of_nat k)))%nat by lia.
  rewrite !gaps_app. replace (lo + Z.of_nat (Z.to_nat (expected tr - lo))) with (expected tr) by lia.
  rewrite (gaps_none tr lo), (gaps_none tr' lo), (gaps_none tr' (expected tr)).
  - cbn [app]. f_equal. apply gaps_ext. intros s ?. rewrite Hh'. split; [by left|intros [?|?]; [done|lia]].
  - intros s ?. apply Hh'. right. lia.
  - intros s ?. apply Hh'. left. apply Hbelow. lia.
  - intros s ?. apply Hbelow. lia.
Qed.

(** Lost samples are recovered.  A reliable writer has written the samples
    [ps], none fragmented, and is matched with a reliable reader of another
    participant, which may have received any of them, or nothing at all; what
    it has received reaches as far back as the writer's history.  Whatever was
    lost: after enough ticks of the writer's heartbeat task whose HEARTBEAT,
    ACKNACK and resent messages arrive - one for every 32 numbers between the
    reader's watermark and the writer's last - both participants have handled
    everything without a panic, the watermark is past the last sample, and the
    reader's queue was offered exactly the samples it had missed, each once,
    in order and with its own number, payload and source. *)
Theorem lost_samples_recovered W R ps c tR tr q clocks : writing W ps c → hears R tR tr q → tracker_wf tr →
  let tr0 := RecvTracker_init_expected (oldest (sample_messages ps)) tr in
  oldest (sample_messages ps) <= expected tr0 → ps ≠ [] → Forall (λ p, len p <= 1196) ps → len ps + 32 < 2 ^ 64 →
  c + len clocks < 2 ^ 31 → - 2 ^ 31 <= ack_count tr → ack_count tr + len clocks < 2 ^ 31 →
  len ps + 1 <= expected tr0 + 32 * len clocks →
  ∃ W' R' tr' xs,
    for_each (exchange (entity g) w_addr r_addr) clocks (W, R) = Ok (W', R') ∧
    writing W' ps (c + len clocks) ∧ hears R' tR tr' (pushes xs q) ∧ len ps < expected tr' ∧
    (λ x, (topic x, sequence_number x, s_payload x, Types.writer_guid x)) <$> xs
    = (λ s, (tR, s, payload_of ps s, Guid.to_bytes g)) <$> missing_of ps tr0.
Proof using Hh.
  intros Hw Hr Hwf tr0 Hold Hne Hps Hlen. subst tr0. revert W R c tr q Hw Hr Hwf Hold.
  induction clocks as [|clock clocks IH]; intros W R c tr q Hw Hr Hwf Hold Hc Ha0 Ha Hn.
  - change (len []) with 0 in *.
    assert (RecvTracker_init_expected (oldest (sample_messages ps)) tr = tr) as E.
    { unfold RecvTracker_init_expected in *. destruct (init_done tr); [done|]. simpl in *.
      rewrite oldest_sample_messages in *. destruct ps; [done|]. rewrite len_cons in *. pose proof (len_nonneg ps). lia. }
    rewrite E in *. exists W, R, tr, []. rewrite Z.add_0_r. split_and!; try (done || lia).
    unfold missing_of. rewrite gaps_none; [done|]. intros s ?. split; [|left; lia].
    destruct (init_done tr) eqn:Hi; [done|]. unfold RecvTracker_init_expected in E. rewrite Hi in E. by rewrite <- E in Hi.
  - rewrite len_cons in *. pose proof (len_nonneg clocks).
    destruct (round W R ps c tR tr q clock Hw Hr Hwf Hold Hne Hps Hlen ltac:(lia) ltac:(lia))
      as (W1 & R1 & tr1 & He & Hw1 & Hr1 & Hwf1 & Hi1 & Hh1 & He1 & Hk1).
    set (tr0 := RecvTracker_init_expected _ tr) in *. set (k := Z.to_nat _) in *.
    assert (RecvTracker_init_expected (oldest (sample_messages ps)) tr1 = tr1) as E1
      by (unfold RecvTracker_init_expected; by rewrite Hi1).
    assert (init_done tr0 = true) as Hi0.
    { unfold tr0, RecvTracker_init_expected. by destruct (init_done tr) eqn:Hi. }
    assert (expected tr0 + Z.of_nat k <= expected tr1) as Hmark.
    { apply watermark_at_least; [done..|]. intros s ?. apply Hh1. destruct (Z.lt_ge_cases s (expected tr0)); [left; split; [done|by left]|right; lia]. }
    destruct (IH W1 R1 (c + 1) tr1 _ Hw1 Hr1 Hwf1) as (W' & R' & tr' & xs & Hrun & Hw' & Hr' & Hlast & Hxs);
      rewrite ?E1 in *; [lia..|].
    exists W', R', tr'. eexists (_ ++ xs). cbn [for_each]. rewrite He, bind_ok. split; [exact Hrun|]. split.
    { by replace (c + (1 + len clocks)) with (c + 1 + len clocks) by lia. }
    split; [by unfold pushes in *; rewrite foldl_app|]. split; [done|].
    rewrite (missing_split ps tr0 tr1 Hi0 Hold Hh1), !fmap_app, Hxs. f_equal. by rewrite <- list_fmap_compose.
Qed.
End writer.
End reader.
End recovery.

(** ** An instance

    The writer sends three samples, of which the second is lost; the reader
    got the third before the heartbeat. *)

#[local] Instance demo_profile : BuildProfile := true.
#[local] Notation demo := (RtpsParticipant (bool * option bool)).

Definition near_addr : SocketAddr := SocketAddrV4 (vreplicate 4 x0a) 7411.
Definition far_addr : SocketAddr := SocketAddrV4 (vreplicate 4 x0b) 7421.
Definition near_guid : Guid := mkGuid (ec_guid_prefix demo_config) (entity_id_for_writer 1).
Definition near_handle : RtpsWriter := mkRtpsWriter (entity_id_for_writer 1) demo_words.

Definition near_start : list Event :=
  [NewWriter demo_words true [];
   MetaPacket (endpoint_message far_config
     (mkEndpointInfo (mkGuid (ec_guid_prefix far_config) (entity_id_for_reader 1)) demo_words false) 1) far_addr].
Definition near_three : list (list byte) := [[x01]; [x02]; [x03]].

Definition ran (evs : list Event) (self : demo) : demo := or_else self (for_each step evs self).

Lemma ran_ok evs self : returned (for_each step evs self) = true → for_each step evs self = Ok (ran evs self).
Proof. apply returned_ok. Qed.

Definition demo_sample_message (s : Z) (p : list byte) : list byte := sample_message near_guid (header demo_inner) s p.

Definition far_events : list Event :=
  [NewReader 1 demo_words (mkSubscriberOptions 8 DropNewest None None) true false []; Listen;
   MetaPacket (endpoint_message demo_config (mkEndpointInfo near_guid demo_words true) 1) near_addr; MatchRound;
   DataPacket (mkClock 2 2) (demo_sample_message 1 [x01]) near_addr;
   DataPacket (mkClock 3 3) (demo_sample_message 3 [x03]) near_addr].
Definition far_reader : demo := ran far_events far_inner.

Lemma near_writing : ∃ W, for_each step (near_start ++ (Participant.Write 5 near_handle <$> near_three)) demo_inner = Ok W ∧
  writing near_guid (header demo_inner) demo_words far_addr W near_three 3.
Proof.
  assert (for_each step near_start demo_inner = Ok (ran near_start demo_inner)) as H0
    by (apply ran_ok; vm_compute; reflexivity).
  assert (participant_wf (ran near_start demo_inner)) as Hwf0 by exact (reachable_wf demo_config _ _ _ _ _ _ _ H0).
  assert (writing near_guid (header demo_inner) demo_words far_addr (ran near_start demo_inner) [] 0) as Hw0.
  { split; [vm_compute; reflexivity..|]. exists (mkWriterState demo_words 0 true (Some SendHistory_new) 0).
    split; [vm_compute; reflexivity|]. split; [reflexivity|]. split; [reflexivity|].
    split; [|reflexivity]. split; [reflexivity|split; [eauto|reflexivity]|by intros ? [= <-]|vm_compute; congruence]. }
  destruct (writing_write near_guid _ _ _ _ [] 0 5 near_handle [x01] Hwf0 Hw0) as (W1 & H1 & Hwf1 & Hw1); [reflexivity..|vm_compute; congruence|].
  destruct (writing_write near_guid _ _ _ _ _ _ 5 near_handle [x02] Hwf1 Hw1) as (W2 & H2 & Hwf2 & Hw2); [reflexivity..|vm_compute; congruence|].
  destruct (writing_write near_guid _ _ _ _ _ _ 5 near_handle [x03] Hwf2 Hw2) as (W3 & H3 & Hwf3 & Hw3); [reflexivity..|vm_compute; congruence|].
  exists W3. split; [|exact Hw3]. rewrite for_each_app, H0, bind_ok. cbn [near_three fmap list_fmap for_each step].
  by rewrite H1, bind_ok, H2, bind_ok, H3, bind_ok.
Qed.

Definition far_queue : SubInner (bool * option bool) :=
  default (SubInner_new 8 DropNewest) (inners far_reader !! 0%nat).

Lemma far_hears : hears near_guid (entity_id_for_reader 1) far_reader demo_words (mkRecvTracker 2 {[3]} true 1) far_queue.
Proof.
  assert ((map_to_list (readers far_reader)).*1 = [entity_id_for_reader 1]) as Hk by (vm_compute; reflexivity).
  split.
  - assert (for_each step far_events far_inner = Ok far_reader) as H0 by (apply ran_ok; vm_compute; reflexivity).
    exact (reachable_wf far_config _ _ _ _ _ _ _ H0).
  - vm_compute. congruence.
  - intros e st' He Hne. destruct Hne. apply elem_of_map_to_list in He. apply (list_elem_of_fmap_2 fst) in He.
    rewrite Hk in He. by apply list_elem_of_singleton in He.
  - assert ((λ st, (r_reliable st, bool_decide (near_guid ∈ sources st), r_topic st, tracker_for st near_guid, r_inner st))
              <$> readers far_reader !! entity_id_for_reader 1
            = Some (true, true, demo_words, mkRecvTracker 2 {[3]} true 1, 0%nat)) as Hst by (vm_compute; reflexivity).
    apply fmap_Some in Hst as (st & Hl & E). injection E. intros E5 E4 E3 E2 E1. exists st. rewrite <- E1, <- E3, <- E4, <- E5.
    split; [exact Hl|]. split; [reflexivity|]. split; [symmetry in E2; by apply bool_decide_eq_true in E2|].
    split; [reflexivity|]. split; [reflexivity|]. vm_compute. reflexivity.
Qed.

(** The first sample, again. *)
Lemma duplicate_is_delivered_witness :
  ∃ R', handle_data_packet (mkClock 9 9) (demo_sample_message 1 [x01]) near_addr far_reader = Ok R' ∧
    ∃ q', hears near_guid (entity_id_for_reader 1) R' demo_words (mkRecvTracker 2 {[3]} true 1) q' ∧
      s_payload <$> queue q' = [[x01]; [x03]; [x01]].
Proof.
  destruct (duplicate_is_delivered near_guid (entity_id_for_reader 1) (header demo_inner) eq_refl (mkClock 9 9) near_addr
    far_reader demo_words _ far_queue 1 [x01] far_hears) as (_ & R' & H1 & H2); [reflexivity|split; [discriminate|reflexivity]|discriminate|].
  exists R'. split; [exact H1|]. eexists. split; [exact H2|]. vm_compute. reflexivity.
Defined.

Lemma lost_samples_recovered_witness :
  ∃ W W' R' q', for_each step (near_start ++ (Participant.Write 5 near_handle <$> near_three)) demo_inner = Ok W ∧
    for_each (exchange (entity_id_for_writer 1) near_addr far_addr) [mkClock 9 9] (W, far_reader) = Ok (W', R') ∧
    (∃ tr', hears near_guid (entity_id_for_reader 1) R' demo_words tr' q' ∧ 3 < expected tr') ∧
    (λ x, (sequence_number x, s_payload x)) <$> queue q' = [(1, [x01]); (3, [x03]); (2, [x02])].
Proof.
  destruct near_writing as (W & HW & Hw).
  destruct (lost_samples_recovered near_guid (entity_id_for_reader 1) (header demo_inner) eq_refl demo_words near_addr far_addr
    W far_reader near_three 3 demo_words (mkRecvTracker 2 {[3]} true 1) far_queue [mkClock 9 9] Hw far_hears)
    as (W' & R' & tr' & xs & Hrun & _ & Hr & Hlast & Hxs).
  - split; [discriminate|]. split; [split; [discriminate|reflexivity]|]. intros s Hs. cbn [ahead] in Hs.
    apply elem_of_singleton in Hs as ->. split; [split; [reflexivity|discriminate]|reflexivity].
  - vm_compute. discriminate.
  - discriminate.
  - repeat constructor; discriminate.
  - reflexivity.
  - reflexivity.
  - discriminate.
  - reflexivity.
  - discriminate.
  - exists W, W', R', (pushes xs far_queue). split; [exact HW|]. split; [exact Hrun|].
    split; [exists tr'; split; [exact Hr|exact Hlast]|].
    match type of Hxs with _ = _ <$> ?m => assert (m = [2]) as Hm by (vm_compute; reflexivity) end.
    rewrite Hm in Hxs. destruct xs as [|x [|y xs]]; [discriminate Hxs| |discriminate Hxs].
    cbn [fmap list_fmap] in Hxs. injection Hxs as _ Hseq Hpay _.
    assert ((λ x, (sequence_number x, s_payload x)) <$> queue (pushes [x] far_queue)
            = [(1, [x01]); (3, [x03]); (sequence_number x, s_payload x)]) as Hq by (vm_compute; reflexivity).
    rewrite Hq, Hseq, Hpay. reflexivity.
Defined.
