(* ===== verification/ShmemIpc.v ===== *)
(** * ShmemIpc: the rendezvous files of the shared-memory transport
    (src/shmem/ipc.rs)

    The format of a rendezvous file, where it lies, how a publisher replaces
    it and how a subscriber polls it.  A path is the list of its components;
    the file system maps resolved paths to inodes, so that a file created
    twice under the same name, or renamed while open, is one file.  Every
    system call that can fail takes its outcome from outside. *)

From stdpp Require Import pretty.
From S2P Require Import Prelude Types SubQueue Persist.

(** ** The file format *)

Definition MAX_PAYLOAD_BYTES : Z := 16 * 1024 * 1024.
Definition HEADER_LEN : Z := 8 + 8 + 8 + 16 + 4.

Record Decoded : Type := mkDecoded {
  d_origin_id : Z;
  d_seq : Z;
  d_timestamp_unix_nanos : Z;
  d_writer_guid : GuidBytes;
  d_payload : list byte }.

Module DecodeError.
Inductive t : Type := Truncated | OversizedPayload | Io.
End DecodeError.

(** [timestamp_nanos_opt().unwrap_or(0)] *)
Definition timestamp_nanos (t : Z) : Z := if bool_decide (is_i64 t) then t else 0.

Definition encode (origin : Z) (sample : Sample) : list byte :=
  to_le 8 origin ++ to_le 8 (sequence_number sample) ++ to_le 8 (timestamp_nanos (timestamp sample))
  ++ vec_to_list (writer_guid sample) ++ to_le 4 (as_u 32 (len (s_payload sample)))
  ++ s_payload sample.

Definition decode (bytes : list byte) : res DecodeError.t Decoded :=
  if len bytes <? HEADER_LEN then Err DecodeError.Truncated
  else
    origin_id ← read_le 8 bytes 0;
    seq ← read_le 8 bytes 8;
    nanos ← read_le 8 bytes 16;
    guid ← slice bytes 24 40;
    payload_len ← read_le 4 bytes 40;
    if MAX_PAYLOAD_BYTES <? payload_len then Err DecodeError.OversizedPayload
    else if len bytes <? HEADER_LEN + payload_len then Err DecodeError.Truncated
    else
      payload ← slice bytes HEADER_LEN (HEADER_LEN + payload_len);
      Ok (mkDecoded origin_id seq (as_i 64 nanos) (vec_fill 16 guid) payload).

(** ** Paths *)

Notation Path := (list (list byte)).

(** [Path::join] of a component without a separator. *)
Definition join (p : Path) (c : list byte) : Path := p ++ [c].

(** Under [std::env::temp_dir()]. *)
Definition root_dir (temp_dir : Path) : Path := join temp_dir (bytes_of_ascii "rust-dds-shmem").

Definition topic_dir (temp_dir : Path) (domain : Domain) (topic : str) : Path :=
  let safe := sanitise topic in
  join (join (root_dir temp_dir) (bytes_of_ascii "domain-" ++ show (domain_id domain))) safe.

Definition data_path (temp_dir : Path) (domain : Domain) (topic : str) : Path :=
  join (topic_dir temp_dir domain topic) (bytes_of_ascii "data.bin").

(** How the system resolves the dots of a path. *)
Definition resolve_one (acc : Path) (c : list byte) : Path :=
  if bool_decide (c = bytes_of_ascii ".") then acc
  else if bool_decide (c = bytes_of_ascii "..") then removelast acc
  else acc ++ [c].
Definition resolve (p : Path) : Path := foldl resolve_one [] p.

(** ** Files *)

Record Files : Type := mkFiles { names : gmap Path nat; inodes : list (list byte) }.

(** [File::create]: an existing file is truncated. *)
Definition file_create (p : Path) (fs : Files) : nat * Files :=
  let p := resolve p in
  match names fs !! p with
  | Some i => (i, mkFiles (names fs) (<[i := []]> (inodes fs)))
  | None => let i := length (inodes fs) in (i, mkFiles (<[p := i]> (names fs)) (inodes fs ++ [[]]))
  end.

(** A [write] of [bs] at offset [off]; a gap before it reads as zeros. *)
Definition overwrite (off : nat) (bs c : list byte) : list byte :=
  take off (c ++ replicate (off - length c) x00) ++ bs ++ drop (off + length bs) c.
Definition file_write (i off : nat) (bs : list byte) (fs : Files) : Files :=
  mkFiles (names fs) (alter (overwrite off bs) i (inodes fs)).

(** [std::fs::rename], which replaces the destination. *)
Definition rename (p q : Path) (fs : Files) : Files :=
  let p := resolve p in
  let q := resolve q in
  match names fs !! p with
  | None => fs
  | Some i => mkFiles (<[q := i]> (delete p (names fs))) (inodes fs)
  end.

(** The contents under a resolved name. *)
Definition content (q : Path) (fs : Files) : option (list byte) := i ← names fs !! q; inodes fs !! i.

Definition file_read (p : Path) (fs : Files) : option (list byte) := content (resolve p) fs.

(** ** Writing *)

(** Where a call of [write_sample] stands. *)
Inductive WritePc : Type :=
| WDir | WCreate | WWrite (inode off : nat) | WRename | WDone.

Record Writing : Type := mkWriting { wr_dir : Path; wr_bytes : list byte; wr_pc : WritePc }.

(** The outcome of a system call: [IoShort n] is a [write] of [n] bytes. *)
Inductive IoOutcome : Type := IoOk | IoErr | IoShort (n : nat).

#[global] Instance IoOutcome_eq_dec : EqDecision IoOutcome.
Proof. solve_decision. Defined.
#[global] Instance WritePc_eq_dec : EqDecision WritePc.
Proof. solve_decision. Defined.

Definition tmp_path (dir : Path) : Path := join dir (bytes_of_ascii "data.bin.tmp").
Definition final_path (dir : Path) : Path := join dir (bytes_of_ascii "data.bin").

Definition write_step (o : IoOutcome) (st : Writing * Files) : Writing * Files :=
  let '(w, fs) := st in
  let goto pc := mkWriting (wr_dir w) (wr_bytes w) pc in
  match wr_pc w, o with
  | WDone, _ => (w, fs)
  | _, IoErr => (goto WDone, fs)
  | WDir, _ => (goto WCreate, fs)
  | WCreate, _ => let '(i, fs) := file_create (tmp_path (wr_dir w)) fs in (goto (WWrite i 0), fs)
  | WWrite i off, _ =>
      match drop off (wr_bytes w), o with
      | [], _ => (goto WRename, fs)
      | _, IoShort 0 => (goto WDone, fs)
      | rest, IoShort n => let chunk := take n rest in
                           (goto (WWrite i (off + length chunk)), file_write i off chunk fs)
      | rest, _ => (goto (WWrite i (off + length rest)), file_write i off rest fs)
      end
  | WRename, _ => (goto WDone, rename (tmp_path (wr_dir w)) (final_path (wr_dir w)) fs)
  end.

(** The steps of one call, undisturbed; five more than [io] are enough. *)
Fixpoint write_run (n : nat) (io : list IoOutcome) (st : Writing * Files) : Writing * Files :=
  match n with
  | O => st
  | S n => write_run n (tl io) (write_step (hd IoOk io) st)
  end.

Definition start_write (temp_dir : Path) (origin : Z) (domain : Domain) (topic : str) (sample : Sample)
    : Writing :=
  mkWriting (topic_dir temp_dir domain topic) (encode origin sample) WDir.

Definition write_sample (temp_dir : Path) (origin : Z) (io : list IoOutcome) (domain : Domain)
    (topic : str) (sample : Sample) (fs : Files) : Files :=
  (write_run (length io + 5) io (start_write temp_dir origin domain topic sample, fs)).2.

(** ** Polling *)

Definition read_current (p : Path) (fs : Files) : res DecodeError.t Decoded :=
  match file_read p fs with
  | None => Err DecodeError.Io
  | Some bytes => decode bytes
  end.

(** The task of [spawn_poller]: [po_last_seq] is [None] until it first runs. *)
Record Poller : Type := mkPoller {
  po_path : Path;
  po_topic : str;
  po_durability : DurabilityKind;
  po_last_seq : option Z;
  po_running : bool }.

Definition spawn_poller (temp_dir : Path) (domain : Domain) (topic : str) (durability : DurabilityKind)
    : Poller :=
  mkPoller (data_path temp_dir domain topic) topic durability None true.

Section poller.
Context {N : Type} `{!Notify N}.
Notation inner := (SubInner N).

Definition deliver (topic : str) (d : Decoded) (i : inner) : inner :=
  (push i (mkSample topic (d_payload d) (d_timestamp_unix_nanos d) (d_seq d) (d_writer_guid d))).2.

(** The start of the task, then a tick of its loop. *)
Definition poll (self_origin : Z) (fs : Files) (p : Poller) (i : inner) : Poller * inner :=
  let next last_seq running :=
    mkPoller (po_path p) (po_topic p) (po_durability p) last_seq running in
  if negb (po_running p) then (p, i)
  else match po_last_seq p with
       | None =>
           match read_current (po_path p) fs with
           | Ok d =>
               if negb (d_origin_id d =? self_origin) && bool_decide (po_durability p = TransientLocal)
               then (next (Some (d_seq d)) true, deliver (po_topic p) d i)
               else (next (Some (d_seq d)) true, i)
           | _ => (next (Some 0) true, i)
           end
       | Some last_seq =>
           if closed i || unsubscribed i then (next (Some last_seq) false, i)
           else match read_current (po_path p) fs with
                | Ok d =>
                    if (d_origin_id d =? self_origin) || (d_seq d <=? last_seq) then (p, i)
                    else (next (Some (d_seq d)) true, deliver (po_topic p) d i)
                | _ => (p, i)
                end
       end.
End poller.

(** ** The format *)

Lemma vec16_len (g : GuidBytes) : len (vec_to_list g) = 16.
Proof. unfold len. by rewrite length_vec_to_list. Qed.

Lemma decode_eq bytes : HEADER_LEN <= len bytes →
  decode bytes =
  let n := from_le (sub bytes 40 4) in
  if MAX_PAYLOAD_BYTES <? n then Err DecodeError.OversizedPayload
  else if len bytes <? HEADER_LEN + n then Err DecodeError.Truncated
  else Ok (mkDecoded (from_le (sub bytes 0 8)) (from_le (sub bytes 8 8)) (as_i 64 (from_le (sub bytes 16 8)))
             (vec_fill 16 (sub bytes 24 16)) (sub bytes 44 n)).
Proof.
  intros Hl. unfold decode. rewrite (proj2 (Z.ltb_ge _ _)) by done. change HEADER_LEN with 44 in *.
  rewrite !read_le_ok by lia. rewrite !bind_ok, slice_ok, !bind_ok by lia.
  change (Z.of_nat 8) with 8. change (Z.of_nat 4) with 4. change (40 - 24) with 16. cbv zeta.
  set (n := from_le (sub bytes 40 4)).
  assert (0 <= n) by (pose proof (from_le_range (sub bytes 40 4)); lia).
  destruct (MAX_PAYLOAD_BYTES <? n); [done|].
  destruct (Z.ltb_spec (len bytes) (44 + n)) as [?|Hn]; [done|].
  rewrite slice_ok, bind_ok by lia. do 3 f_equal. lia.
Qed.

(** The header fields of an encoded sample, whatever follows. *)
Lemma encode_fields origin s tail : is_u64 origin → is_u64 (sequence_number s) →
  let b := encode origin s ++ tail in
  len (encode origin s) = HEADER_LEN + len (s_payload s) ∧
  from_le (sub b 0 8) = origin ∧ from_le (sub b 8 8) = sequence_number s ∧
  as_i 64 (from_le (sub b 16 8)) = timestamp_nanos (timestamp s) ∧
  vec_fill 16 (sub b 24 16) = writer_guid s ∧ from_le (sub b 40 4) = as_u 32 (len (s_payload s)) ∧
  sub b 44 (len (s_payload s)) = s_payload s.
Proof.
  intros Ho Hs b. unfold b, encode. rewrite <- !app_assoc. cbv zeta.
  set (n := len (s_payload s)) in *.
  assert (is_i64 (timestamp_nanos (timestamp s))) as Hts by (unfold timestamp_nanos; by case_bool_decide).
  pose proof (vec16_len (writer_guid s)) as Hg.
  repeat (rewrite sub_app_skip by (autorewrite with len; rewrite ?Hg; lia)).
  autorewrite with len. rewrite ?Hg. change HEADER_LEN with 44.
  split_and!; [lia|..];
    repeat (rewrite sub_app_skip by (autorewrite with len; rewrite ?Hg; lia); autorewrite with len; rewrite ?Hg);
    rewrite sub_app_here by (autorewrite with len; rewrite ?Hg; unfold n; lia).
  - by apply from_le_u64.
  - by apply from_le_u64.
  - by apply from_le_i64.
  - by apply vec_fill_list.
  - apply from_le_u32. apply as_u_range. lia.
  - done.
Qed.

Lemma decode_encode origin s tail : is_u64 origin → is_u64 (sequence_number s) → len (s_payload s) <= MAX_PAYLOAD_BYTES →
  decode (encode origin s ++ tail) =
  Ok (mkDecoded origin (sequence_number s) (timestamp_nanos (timestamp s)) (writer_guid s) (s_payload s)).
Proof.
  intros Ho Hs Hp. destruct (encode_fields origin s tail Ho Hs) as (Hl & H1 & H2 & H3 & H4 & H5 & H6).
  pose proof (len_nonneg (s_payload s)). pose proof (len_nonneg tail). unfold MAX_PAYLOAD_BYTES in Hp.
  rewrite decode_eq by (rewrite len_app, Hl; unfold HEADER_LEN; lia). cbv zeta.
  rewrite H1, H2, H3, H4, H5. rewrite as_u_small by lia. unfold MAX_PAYLOAD_BYTES.
  rewrite (proj2 (Z.ltb_ge _ _)) by lia. rewrite len_app, Hl, (proj2 (Z.ltb_ge _ _)) by lia. by rewrite H6.
Qed.

(** The length field holds the low 32 bits of the length of the payload. *)
Lemma decode_any_length origin s : is_u64 origin → is_u64 (sequence_number s) →
  let n := as_u 32 (len (s_payload s)) in
  decode (encode origin s) =
  if MAX_PAYLOAD_BYTES <? n then Err DecodeError.OversizedPayload
  else Ok (mkDecoded origin (sequence_number s) (timestamp_nanos (timestamp s)) (writer_guid s)
             (take (Z.to_nat n) (s_payload s))).
Proof.
  intros Ho Hs n. destruct (encode_fields origin s [] Ho Hs) as (Hl & H1 & H2 & H3 & H4 & Hn & H6).
  rewrite app_nil_r in *. pose proof (len_nonneg (s_payload s)).
  assert (0 <= n <= len (s_payload s)) as Hr.
  { unfold n, as_u. split; [by apply Z.mod_pos_bound|]. apply Z.mod_le; lia. }
  rewrite decode_eq by (rewrite Hl; unfold HEADER_LEN; lia). cbv zeta. rewrite Hn, H1, H2, H3, H4. fold n.
  destruct (MAX_PAYLOAD_BYTES <? n); [done|]. rewrite Hl, (proj2 (Z.ltb_ge _ _)) by lia. do 2 f_equal.
  rewrite <- H6 at 1. unfold sub. rewrite take_take. f_equal. lia.
Qed.

Lemma decode_oversized origin s : is_u64 origin → is_u64 (sequence_number s) →
  MAX_PAYLOAD_BYTES < len (s_payload s) < 2 ^ 32 → decode (encode origin s) = Err DecodeError.OversizedPayload.
Proof.
  intros Ho Hs Hp. rewrite decode_any_length, as_u_small by (done || (unfold MAX_PAYLOAD_BYTES in *; lia)).
  by rewrite (proj2 (Z.ltb_lt _ _)) by lia.
Qed.

(** What a file that decodes was written from. *)
Lemma decode_encode_inv origin s d : is_u64 origin → is_u64 (sequence_number s) → len (s_payload s) < 2 ^ 32 →
  decode (encode origin s) = Ok d →
  d = mkDecoded origin (sequence_number s) (timestamp_nanos (timestamp s)) (writer_guid s) (s_payload s).
Proof.
  intros Ho Hs Hl. destruct (Z.le_gt_cases (len (s_payload s)) MAX_PAYLOAD_BYTES).
  - rewrite <- (app_nil_r (encode origin s)), decode_encode by done. congruence.
  - by rewrite decode_oversized by done.
Qed.

(** C36. The rendezvous format carries a sample exactly.  [decode] never panics;
    it gives back the origin, the number, the time, the writer and the
    payload of every sample of at most 16 MiB, whatever bytes are left
    behind it in the file; it refuses every proper prefix of such a file as
    truncated; and a sample of more than 16 MiB and less than 4 GiB, which
    [encode] writes, is refused.  From 4 GiB on the length field holds only
    the low 32 bits of the length: the sample is refused if they exceed
    16 MiB, and otherwise it is decoded without error, with a payload cut to
    that many bytes. *)
Theorem rendezvous_roundtrip :
  (∀ bytes, decode bytes ≠ Panic) ∧
  ∀ origin s, is_u64 origin → is_u64 (sequence_number s) →
  (len (s_payload s) <= MAX_PAYLOAD_BYTES →
     (∀ tail, decode (encode origin s ++ tail) =
        Ok (mkDecoded origin (sequence_number s) (timestamp_nanos (timestamp s)) (writer_guid s) (s_payload s))) ∧
     (∀ n, (n < length (encode origin s))%nat → decode (take n (encode origin s)) = Err DecodeError.Truncated)) ∧
  (MAX_PAYLOAD_BYTES < len (s_payload s) < 2 ^ 32 → decode (encode origin s) = Err DecodeError.OversizedPayload) ∧
  (2 ^ 32 <= len (s_payload s) → let n := len (s_payload s) mod 2 ^ 32 in decode (encode origin s) =
     if MAX_PAYLOAD_BYTES <? n then Err DecodeError.OversizedPayload
     else Ok (mkDecoded origin (sequence_number s) (timestamp_nanos (timestamp s)) (writer_guid s)
                (take (Z.to_nat n) (s_payload s)))).
Proof.
  split.
  { intros bytes. destruct (Z.le_gt_cases HEADER_LEN (len bytes)) as [Hl|Hl].
    - rewrite decode_eq by done. cbv zeta. by repeat case_match.
    - unfold decode. by rewrite (proj2 (Z.ltb_lt _ _)) by done. }
  intros origin s Ho Hs. destruct (encode_fields origin s [] Ho Hs) as (Hl & _ & _ & _ & _ & Hn & _).
  rewrite app_nil_r in Hn. pose proof (len_nonneg (s_payload s)).
  split_and!; [|by apply decode_oversized|intros _; by apply decode_any_length].
  - intros Hp. split; [intros tail; by apply decode_encode|]. intros n Hlt.
    assert (len (take n (encode origin s)) = Z.of_nat n) as Ht by (unfold len; rewrite length_take; lia).
    unfold len in Hl at 1. destruct (Z.le_gt_cases HEADER_LEN (Z.of_nat n)) as [Hh|Hh].
    2: { unfold decode. by rewrite Ht, (proj2 (Z.ltb_lt _ _)) by done. }
    rewrite decode_eq by lia. cbv zeta. rewrite Ht. change HEADER_LEN with 44 in *.
    assert (sub (take n (encode origin s)) 40 4 = sub (encode origin s) 40 4) as ->.
    { rewrite <- (firstn_skipn n (encode origin s)) at 2. by rewrite sub_app_l by lia. }
    rewrite Hn. unfold MAX_PAYLOAD_BYTES in *. rewrite as_u_small by lia.
    by rewrite (proj2 (Z.ltb_ge _ _)), (proj2 (Z.ltb_lt _ _)) by lia.
Qed.

(** ** The file system *)

(** No two names share an inode, and every name has one. *)
Record names_ok (fs : Files) : Prop := {
  no_inj p q i : names fs !! p = Some i → names fs !! q = Some i → p = q;
  no_inode p i : names fs !! p = Some i → (i < length (inodes fs))%nat }.

Lemma resolve_join p c : c ≠ bytes_of_ascii "." → c ≠ bytes_of_ascii ".." → resolve (join p c) = resolve p ++ [c].
Proof. intros H1 H2. unfold resolve, join. rewrite foldl_snoc. unfold resolve_one at 1. by rewrite !bool_decide_false. Qed.

Lemma tmp_final dir : resolve (tmp_path dir) ≠ resolve (final_path dir).
Proof.
  unfold tmp_path, final_path. rewrite !resolve_join by by apply (bool_decide_unpack _).
  intros [_ He]%app_inj_tail. revert He. by apply (bool_decide_unpack _).
Qed.

Lemma content_alter fs t i f q : names_ok fs → names fs !! t = Some i →
  content q (mkFiles (names fs) (alter f i (inodes fs)))
  = if bool_decide (q = t) then f <$> content t fs else content q fs.
Proof.
  intros Hok Ht. unfold content. simpl. case_bool_decide as Hq.
  - subst. rewrite Ht. simpl. by rewrite list_lookup_alter, decide_True by done.
  - destruct (names fs !! q) as [j|] eqn:Hj; [|done]. simpl. rewrite list_lookup_alter, decide_False; [done|].
    intros ->. apply Hq. by eapply no_inj.
Qed.

Lemma names_ok_alter fs f i : names_ok fs → names_ok (mkFiles (names fs) (alter f i (inodes fs))).
Proof. intros [H1 H2]. split; simpl; [done|]. intros p j Hj. rewrite length_alter. by eapply H2. Qed.

Lemma create_spec p fs : names_ok fs → let '(i, fs') := file_create p fs in
  names_ok fs' ∧ names fs' !! resolve p = Some i ∧ inodes fs' !! i = Some [] ∧
  ∀ q, q ≠ resolve p → content q fs' = content q fs.
Proof.
  intros Hok. unfold file_create. destruct (names fs !! resolve p) as [i|] eqn:Hp.
  - pose proof (no_inode _ Hok _ _ Hp) as Hlt.
    assert (<[i := []]> (inodes fs) = alter (λ _, []) i (inodes fs)) as ->.
    { apply list_eq. intros j. rewrite list_lookup_alter. destruct (decide (i = j)) as [->|Hne].
      - rewrite list_lookup_insert_eq by done. destruct (lookup_lt_is_Some_2 _ _ Hlt) as [c ->]. done.
      - by rewrite list_lookup_insert_ne. }
    split_and!; [by apply names_ok_alter|done| |].
    + simpl. rewrite list_lookup_alter, decide_True by done. by destruct (lookup_lt_is_Some_2 _ _ Hlt) as [c ->].
    + intros q Hq. by rewrite (content_alter _ _ _ _ _ Hok Hp), bool_decide_false.
  - destruct Hok as [Hi Hn]. split_and!; simpl.
    + split; simpl.
      * intros q r j [[<- <-]|[Hq Hq']]%lookup_insert_Some [[<- Hr]|[Hr Hr']]%lookup_insert_Some; try done.
        -- apply Hn in Hr'. lia.
        -- subst. apply Hn in Hq'. lia.
        -- by eapply Hi.
      * intros q j [[<- <-]|[_ Hj%Hn]]%lookup_insert_Some; rewrite length_app; simpl; lia.
    + apply lookup_insert_eq.
    + by rewrite list_lookup_middle.
    + intros q Hq. unfold content. simpl. rewrite lookup_insert_ne by done.
      destruct (names fs !! q) as [j|] eqn:Hj; [|done]. simpl. apply lookup_app_l. by eapply Hn.
Qed.

Lemma rename_spec p q fs i : names_ok fs → names fs !! resolve p = Some i → resolve p ≠ resolve q →
  names_ok (rename p q fs) ∧
  ∀ r, r ≠ resolve p → content r (rename p q fs) = if bool_decide (r = resolve q) then inodes fs !! i else content r fs.
Proof.
  intros [Hi Hn] Hp Hne. unfold rename. rewrite Hp. split.
  - split; simpl.
    + intros r s j [[<- <-]|[Hr Hr']]%lookup_insert_Some [[<- Hs]|[Hs Hs']]%lookup_insert_Some; try done.
      * apply lookup_delete_Some in Hs' as [Hs1 Hs2]. destruct Hs1. by eapply Hi.
      * subst. apply lookup_delete_Some in Hr' as [Hr1 Hr2]. destruct Hr1. by eapply Hi.
      * apply lookup_delete_Some in Hr' as [_ Hr2], Hs' as [_ Hs2]. by eapply Hi.
    + intros r j [[<- <-]|[_ [_ Hj]%lookup_delete_Some]]%lookup_insert_Some; by eapply Hn.
  - intros r Hr. unfold content. simpl. case_bool_decide as Hq.
    + subst. by rewrite lookup_insert_eq.
    + by rewrite lookup_insert_ne, lookup_delete_ne.
Qed.

(** ** One undisturbed call *)

(** What a call in progress has done to the files [fs0] it started from. *)
Definition writing_inv (fs0 : Files) (w : Writing) (fs : Files) : Prop :=
  names_ok fs ∧ (∀ q, q ≠ resolve (tmp_path (wr_dir w)) → content q fs = content q fs0) ∧
  match wr_pc w with
  | WDir | WCreate => True
  | WWrite i off => names fs !! resolve (tmp_path (wr_dir w)) = Some i ∧
      inodes fs !! i = Some (take off (wr_bytes w)) ∧ (off <= length (wr_bytes w))%nat
  | WRename => content (resolve (tmp_path (wr_dir w))) fs = Some (wr_bytes w)
  | WDone => False
  end.

Definition rank (w : Writing) : nat :=
  match wr_pc w with
  | WDir => 5 | WCreate => 4
  | WWrite _ off => if (off =? length (wr_bytes w))%nat then 2 else 3
  | WRename => 1 | WDone => 0
  end.

(** The result of a call that has replaced the file, or not. *)
Definition written (b : bool) (fs0 : Files) (w : Writing) (fs : Files) : Prop :=
  names_ok fs ∧ ∀ q, q ≠ resolve (tmp_path (wr_dir w)) →
    content q fs = if b && bool_decide (q = resolve (final_path (wr_dir w))) then Some (wr_bytes w) else content q fs0.

Definition succeeds (o : IoOutcome) : Prop := o ≠ IoErr ∧ o ≠ IoShort 0.

(** The step that replaces the file. *)
Definition renames (o : IoOutcome) (w : Writing) : bool := bool_decide (wr_pc w = WRename ∧ o ≠ IoErr).

(** Whether a call does not fail: it gets as far as replacing the file. *)
Fixpoint replaces (n : nat) (io : list IoOutcome) (st : Writing * Files) : bool :=
  match n with
  | O => false
  | S n => renames (hd IoOk io) st.1 || replaces n (tl io) (write_step (hd IoOk io) st)
  end.

Lemma overwrite_end off bs (c : list byte) : length c = off → overwrite off bs c = c ++ bs.
Proof.
  intros <-. unfold overwrite. rewrite Nat.sub_diag, app_nil_r, take_ge, drop_ge by lia. by rewrite app_nil_r.
Qed.

(** One [write] of a call in progress; [t] is the name of its file. *)
Lemma write_chunk fs0 fs t i off bytes chunk rest : names_ok fs → names fs !! t = Some i →
  inodes fs !! i = Some (take off bytes) → (off <= length bytes)%nat →
  (∀ q, q ≠ t → content q fs = content q fs0) → drop off bytes = chunk ++ rest → chunk ≠ [] →
  let fs' := file_write i off chunk fs in
  names_ok fs' ∧ (∀ q, q ≠ t → content q fs' = content q fs0) ∧ names fs' !! t = Some i ∧
  inodes fs' !! i = Some (take (off + length chunk) bytes) ∧ (off + length chunk <= length bytes)%nat.
Proof.
  intros Hok Hn Hi Hle Hsame Hd Hne. pose proof (f_equal length Hd) as Hlen.
  rewrite length_drop, length_app in Hlen.
  split_and!; [by apply names_ok_alter| |done| |lia].
  - intros q Hq. unfold file_write. rewrite (content_alter _ _ _ _ _ Hok Hn), bool_decide_false by done. by apply Hsame.
  - simpl. rewrite list_lookup_alter, decide_True, Hi by done. simpl.
    rewrite overwrite_end by (rewrite length_take; lia). f_equal.
    rewrite <- (firstn_skipn off bytes) at 2. rewrite take_app, length_take.
    rewrite (take_ge (take off bytes)) by (rewrite length_take; lia). f_equal.
    replace (off + length chunk - off `min` length bytes)%nat with (length chunk) by lia.
    by rewrite Hd, take_app_length.
Qed.

Lemma write_step_inv fs0 o w fs : writing_inv fs0 w fs →
  let '(w', fs') := write_step o (w, fs) in
  wr_dir w' = wr_dir w ∧ wr_bytes w' = wr_bytes w ∧
  ((wr_pc w' = WDone ∧ (succeeds o → renames o w = true) ∧ written (renames o w) fs0 w fs') ∨
   (renames o w = false ∧ writing_inv fs0 w' fs' ∧
      (rank w' < rank w ∨ (rank w' = rank w ∧ ∃ n, o = IoShort n)))%nat).
Proof.
  intros (Hok & Hsame & Hpc).
  assert (∀ b, b = false → written b fs0 w fs) as Hfail by (intros ? ->; by split).
  destruct w as [dir bytes pc]. unfold writing_inv, written, rank, renames in *. simpl in *.
  destruct pc as [| |i off| |]; [..|done].
  1-3: rewrite bool_decide_false by (by intros [? _]).
  - destruct o; simpl; (split_and!; [done..|]); first [left; split; [done|split; [by intros []|by apply (Hfail false)]]
      | right; split; [done|split; [by split_and!|left; lia]]].
  - pose proof (create_spec (tmp_path dir) fs Hok) as Hc.
    destruct o; simpl; [|split_and!; [done..|]; left; split; [done|split; [by intros []|by apply (Hfail false)]]|];
      destruct (file_create (tmp_path dir) fs) as [i fs']; destruct Hc as (Hok' & Hn & Hi & Hc); simpl;
      (split_and!; [done..|]; right; split; [done|]; split;
        [split_and!; [done|intros q Hq; rewrite Hc by done; by apply Hsame|done|by rewrite take_0|lia]
        |left; case_match; lia]).
  - destruct Hpc as (Hn & Hi & Hle).
    pose proof (λ chunk rest, write_chunk fs0 fs (resolve (tmp_path dir)) i off bytes chunk rest Hok Hn Hi Hle Hsame) as Hw.
    destruct (drop off bytes) as [|c rest] eqn:Hd.
    { assert (off = length bytes) as -> by (pose proof (f_equal length Hd) as Hl; rewrite length_drop in Hl; simpl in Hl; lia).
      rewrite Nat.eqb_refl. destruct o; simpl; [|split_and!; [done..|]; left; split; [done|split; [by intros []|by apply (Hfail false)]]|];
        (split_and!; [done..|]; right; split; [done|]; split; [|left; lia]; split_and!; [done..|];
         unfold content; rewrite Hn; simpl; by rewrite Hi, take_ge by lia). }
    assert (off <> length bytes) as Hoff by (intros ->; rewrite drop_ge in Hd by lia; done).
    rewrite (proj2 (Nat.eqb_neq _ _) Hoff).
    destruct o as [| |n]; simpl.
    + split_and!; [done..|]. right. destruct (Hw (c :: rest) []) as (? & ? & ? & ? & ?); [by rewrite app_nil_r|done|].
      pose proof (f_equal length Hd) as Hlen. rewrite length_drop in Hlen.
      split; [done|]. split; [by split_and!|]. left. simpl in *. destruct (Nat.eqb_spec (off + S (length rest)) (length bytes)); lia.
    + split_and!; [done..|]. left. split; [done|split; [by intros []|by apply (Hfail false)]].
    + destruct n as [|n]; simpl.
      * split_and!; [done..|]. left. split; [done|split; [by intros []|by apply (Hfail false)]].
      * split_and!; [done..|]. right.
        destruct (Hw (c :: take n rest) (drop n rest)) as (? & ? & ? & ? & ?); [simpl; by rewrite take_drop|done|].
        split; [done|]. split; [by split_and!|]. simpl in *.
        destruct (Nat.eqb_spec (off + S (length (take n rest))) (length bytes)); [left; lia|right; split; [done|eauto]].
  - destruct (names fs !! resolve (tmp_path dir)) as [i|] eqn:Hn.
    2: { unfold content in Hpc. by rewrite Hn in Hpc. }
    unfold content in Hpc. rewrite Hn in Hpc. simpl in Hpc.
    destruct (rename_spec (tmp_path dir) (final_path dir) fs i Hok Hn (tmp_final dir)) as [Hok' Hr].
    destruct o; simpl; [|split_and!; [done..|]; left; split; [done|split; [by intros []|by apply (Hfail false)]]|];
      (split_and!; [done..|]; left; split_and!; [done|done|done|];
       intros q Hq; rewrite Hr by done; simpl; case_bool_decide; [done|by apply Hsame]).
Qed.

Lemma write_run_done n io w fs : wr_pc w = WDone →
  write_run n io (w, fs) = (w, fs) ∧ replaces n io (w, fs) = false.
Proof.
  intros Hw. revert io. induction n as [|n IH]; intros io; [done|]. cbn [write_run write_step replaces].
  rewrite Hw. unfold renames. cbn [fst]. rewrite Hw, bool_decide_false by by intros []. apply IH.
Qed.

Lemma write_run_spec n io fs0 w fs : (length io + rank w <= n)%nat → writing_inv fs0 w fs →
  ∃ w' fs', write_run n io (w, fs) = (w', fs') ∧ wr_pc w' = WDone ∧
    (Forall succeeds io → replaces n io (w, fs) = true) ∧ written (replaces n io (w, fs)) fs0 w fs'.
Proof.
  revert io w fs. induction n as [|n IH]; intros io w fs Hn Hinv.
  { destruct Hinv as (_ & _ & Hpc). unfold rank in Hn. destruct (wr_pc w); [lia..| |lia|done].
    case_match; lia. }
  cbn [write_run replaces fst]. pose proof (write_step_inv fs0 (hd IoOk io) w fs Hinv) as Hstep.
  destruct (write_step (hd IoOk io) (w, fs)) as [w1 fs1].
  destruct Hstep as (Hd & Hb & [(Hpc & Hs & Hw)|(Hno & Hinv1 & Hr)]).
  - destruct (write_run_done n (tl io) w1 fs1 Hpc) as [-> ->]. rewrite orb_false_r.
    exists w1, fs1. split_and!; [done|done| |done]. intros Hio. apply Hs. by destruct Hio.
  - destruct (IH (tl io) w1 fs1) as (w' & fs' & -> & Hpc & Hs & Hw); [|done|].
    { destruct io as [|o io]; simpl in *; [destruct Hr as [?|[_ [k [=]]]]; lia|]. destruct Hr as [?|[? _]]; lia. }
    rewrite Hno. exists w', fs'. split_and!; [done|done| |].
    + intros Hio. apply Hs. by destruct Hio.
    + unfold written in *. by rewrite <- Hd, <- Hb.
Qed.

Definition names_empty : Files := mkFiles ∅ [].

(** Whether a call of [write_sample] that is not disturbed does not fail. *)
Definition write_succeeds (temp_dir : Path) (origin : Z) (io : list IoOutcome) (d : Domain) (t : str) (s : Sample)
    (fs : Files) : bool :=
  replaces (length io + 5) io (start_write temp_dir origin d t s, fs).

(** Each [write_sample] call that is not disturbed replaces the file of its
    topic, or leaves it alone; and replaces it if no system call fails. *)
Lemma write_sample_succeeds temp_dir origin io d t s fs : names_ok fs →
  let b := write_succeeds temp_dir origin io d t s fs in
  (Forall succeeds io → b = true) ∧
  written b fs (start_write temp_dir origin d t s) (write_sample temp_dir origin io d t s fs).
Proof.
  intros Hok. destruct (write_run_spec (length io + 5) io fs (start_write temp_dir origin d t s) fs)
    as (w & fs' & Hr & _ & Hs & Hw); [unfold rank; simpl; lia|by split_and!|].
  split; [done|]. unfold write_sample. by rewrite Hr.
Qed.

Lemma write_sample_spec temp_dir origin io d t s fs : names_ok fs →
  ∃ b, (Forall succeeds io → b = true) ∧
    written b fs (start_write temp_dir origin d t s) (write_sample temp_dir origin io d t s fs).
Proof. intros Hok. eexists. by apply write_sample_succeeds. Qed.

(** ** Any number of calls *)

Record WriteCall : Type := mkWriteCall {
  wc_io : list IoOutcome; wc_origin : Z; wc_domain : Domain; wc_topic : str; wc_sample : Sample }.

Section calls.
Context (temp_dir : Path).

(** The calls one after the other, of whatever processes. *)
Definition write_all_samples (calls : list WriteCall) : Files :=
  foldl (λ fs c, write_sample temp_dir (wc_origin c) (wc_io c) (wc_domain c) (wc_topic c) (wc_sample c) fs)
    names_empty calls.

(** Which of them do not fail. *)
Fixpoint outcomes (calls : list WriteCall) (fs : Files) : list bool :=
  match calls with
  | [] => []
  | c :: calls =>
      write_succeeds temp_dir (wc_origin c) (wc_io c) (wc_domain c) (wc_topic c) (wc_sample c) fs ::
      outcomes calls (write_sample temp_dir (wc_origin c) (wc_io c) (wc_domain c) (wc_topic c) (wc_sample c) fs)
  end.

Definition same_file (d : Domain) (t : str) (c : WriteCall) : Prop :=
  resolve (data_path temp_dir (wc_domain c) (wc_topic c)) = resolve (data_path temp_dir d t).

#[local] Instance same_file_dec d t c : Decision (same_file d t c).
Proof. unfold same_file. apply _. Defined.

Lemma data_not_tmp d t dir : resolve (data_path temp_dir d t) ≠ resolve (tmp_path dir).
Proof.
  unfold data_path, tmp_path. rewrite !resolve_join by by apply (bool_decide_unpack _).
  intros [_ He]%app_inj_tail. revert He. by apply (bool_decide_unpack _).
Qed.

Lemma outcomes_snoc calls c fs : outcomes (calls ++ [c]) fs = outcomes calls fs ++
  [write_succeeds temp_dir (wc_origin c) (wc_io c) (wc_domain c) (wc_topic c) (wc_sample c)
     (foldl (λ fs c, write_sample temp_dir (wc_origin c) (wc_io c) (wc_domain c) (wc_topic c) (wc_sample c) fs)
        fs calls)].
Proof using Type. revert fs. induction calls as [|c' calls IH]; intros fs; simpl; [done|]. by rewrite IH. Qed.

Lemma outcomes_length calls fs : length (outcomes calls fs) = length calls.
Proof using Type. revert fs. induction calls as [|c calls IH]; intros fs; simpl; [done|]. by rewrite IH. Qed.

Lemma write_all_snoc calls c : names_ok (write_all_samples calls) →
  let b := write_succeeds temp_dir (wc_origin c) (wc_io c) (wc_domain c) (wc_topic c) (wc_sample c)
             (write_all_samples calls) in
  names_ok (write_all_samples (calls ++ [c])) ∧ (Forall succeeds (wc_io c) → b = true) ∧
  ∀ d t, file_read (data_path temp_dir d t) (write_all_samples (calls ++ [c])) =
    if b && bool_decide (same_file d t c) then Some (encode (wc_origin c) (wc_sample c))
    else file_read (data_path temp_dir d t) (write_all_samples calls).
Proof.
  intros Hok b.
  assert (write_all_samples (calls ++ [c]) = write_sample temp_dir (wc_origin c) (wc_io c) (wc_domain c)
    (wc_topic c) (wc_sample c) (write_all_samples calls)) as ->
    by (unfold write_all_samples; by rewrite foldl_snoc).
  destruct (write_sample_succeeds temp_dir (wc_origin c) (wc_io c) (wc_domain c) (wc_topic c) (wc_sample c) _ Hok)
    as (Hb & Hok' & Hw). fold b in Hb, Hw, Hok'.
  split; [exact Hok'|]. split; [done|]. intros d t.
  specialize (Hw (resolve (data_path temp_dir d t)) (data_not_tmp d t _)).
  unfold file_read. rewrite Hw. unfold same_file.
  destruct b; [|done]. cbn [andb]. do 2 case_bool_decide; try done; exfalso; eauto.
Qed.

Lemma write_all_ok calls : names_ok (write_all_samples calls).
Proof.
  induction calls as [|c calls IH] using rev_ind; [|by apply write_all_snoc].
  split; simpl; intros *; by rewrite ?lookup_empty.
Qed.

(** The calls on the file of a topic that did not fail. *)
Definition effective (d : Domain) (t : str) (calls : list WriteCall) : list WriteCall :=
  (filter (λ cb, same_file d t cb.1 ∧ cb.2 = true) (zip calls (outcomes calls names_empty))).*1.

(** C21. No torn read, as long as calls do not overlap.  After any sequence of
    [write_sample] calls on any domains and topics, by any processes and
    with any failures of the system calls and partial [write]s among them,
    starting without any files: the file of a topic is the complete encoding
    of the sample of the last call on this file that did not fail, and it is
    absent if there is none.  A call whose system calls all succeed does not
    fail. *)
Theorem rendezvous_never_torn calls :
  (∀ d t, file_read (data_path temp_dir d t) (write_all_samples calls)
     = (λ c, encode (wc_origin c) (wc_sample c)) <$> last (effective d t calls)) ∧
  Forall2 (λ c b, Forall succeeds (wc_io c) → b = true) calls (outcomes calls names_empty).
Proof.
  induction calls as [|c calls [IH1 IH2]] using rev_ind; [by split|].
  destruct (write_all_snoc calls c (write_all_ok calls)) as (_ & Hb & Hr).
  rewrite outcomes_snoc. fold (write_all_samples calls).
  set (b := write_succeeds _ _ _ _ _ _ (write_all_samples calls)) in *.
  split; [|apply Forall2_app; [done|by constructor]]. intros d t. rewrite Hr. unfold effective in *.
  rewrite outcomes_snoc. fold (write_all_samples calls). fold b.
  rewrite zip_with_app by by rewrite outcomes_length. rewrite filter_app, fmap_app. cbn [zip_with].
  destruct (decide (same_file d t c ∧ b = true)) as [[Hs Hbt]|Hn].
  - rewrite filter_cons_True by done. rewrite filter_nil, fmap_cons, fmap_nil, last_snoc.
    by rewrite Hbt, bool_decide_true.
  - rewrite filter_cons_False by done. rewrite filter_nil, fmap_nil, app_nil_r, IH1.
    destruct b; [|done]. cbn [andb]. rewrite bool_decide_false; [done|]. intros ?. by apply Hn.
Qed.
End calls.

(** ** Two calls at the same time *)

(** The steps of two calls on one file system, [true] those of the first. *)
Definition interleave_step (e : bool * IoOutcome) (st : Writing * Writing * Files) : Writing * Writing * Files :=
  let '(a, b, fs) := st in
  if e.1 then let '(a, fs) := write_step e.2 (a, fs) in (a, b, fs)
  else let '(b, fs) := write_step e.2 (b, fs) in (a, b, fs).
Definition interleave (evs : list (bool * IoOutcome)) (st : Writing * Writing * Files) : Writing * Writing * Files :=
  foldl (λ st e, interleave_step e st) st evs.

(** Both calls create the temporary file, the first writes all of its sample,
    the second its header, and the first renames. *)
Definition tearing : list (bool * IoOutcome) :=
  [(false, IoOk); (false, IoOk); (true, IoOk); (true, IoOk); (true, IoOk);
   (false, IoShort (Z.to_nat HEADER_LEN)); (true, IoOk); (true, IoOk)].

Definition header_bytes (origin : Z) (s : Sample) : list byte :=
  to_le 8 origin ++ to_le 8 (sequence_number s) ++ to_le 8 (timestamp_nanos (timestamp s))
  ++ vec_to_list (writer_guid s) ++ to_le 4 (as_u 32 (len (s_payload s))).

Lemma encode_header origin s : encode origin s = header_bytes origin s ++ s_payload s.
Proof. unfold encode, header_bytes. by rewrite <- !app_assoc. Qed.

Lemma header_length origin s : length (header_bytes origin s) = 44%nat.
Proof.
  assert (len (header_bytes origin s) = 44) as Hl.
  { unfold header_bytes. rewrite !len_app, !len_to_le, vec16_len. lia. }
  unfold len in Hl. lia.
Qed.

Lemma write_inode i off bs fs c : inodes fs !! i = Some c →
  inodes (file_write i off bs fs) !! i = Some (overwrite off bs c).
Proof. intros Hi. simpl. by rewrite list_lookup_alter, decide_True, Hi. Qed.

(** A file created after another call created it is the same file. *)
Lemma create_twice p fs : names_ok fs → let '(i, fs1) := file_create p fs in
  let '(j, fs2) := file_create p fs1 in
  j = i ∧ names_ok fs2 ∧ names fs2 !! resolve p = Some i ∧ inodes fs2 !! i = Some [].
Proof.
  intros Hok. pose proof (create_spec p fs Hok) as H1. destruct (file_create p fs) as [i fs1].
  destruct H1 as (Hok1 & Hn1 & _). pose proof (create_spec p fs1 Hok1) as H2.
  destruct (file_create p fs1) as [j fs2] eqn:Hc. destruct H2 as (Hok2 & Hn2 & Hi2 & _).
  assert (j = i) as -> by (unfold file_create in Hc; rewrite Hn1 in Hc; by injection Hc). done.
Qed.

Lemma step_dir dir bs fs :
  write_step IoOk (mkWriting dir bs WDir, fs) = (mkWriting dir bs WCreate, fs).
Proof. done. Qed.
Lemma step_create dir bs fs i fs' : file_create (tmp_path dir) fs = (i, fs') →
  write_step IoOk (mkWriting dir bs WCreate, fs) = (mkWriting dir bs (WWrite i 0), fs').
Proof. intros Hc. simpl. by rewrite Hc. Qed.
Lemma step_write_all dir bs i fs : bs ≠ [] →
  write_step IoOk (mkWriting dir bs (WWrite i 0), fs) =
  (mkWriting dir bs (WWrite i (length bs)), file_write i 0 bs fs).
Proof. by destruct bs. Qed.
Lemma step_write_short dir bs i n fs : bs ≠ [] → n ≠ 0%nat →
  write_step (IoShort n) (mkWriting dir bs (WWrite i 0), fs) =
  (mkWriting dir bs (WWrite i (length (take n bs))), file_write i 0 (take n bs) fs).
Proof. by destruct bs, n. Qed.
Lemma step_written dir bs i fs :
  write_step IoOk (mkWriting dir bs (WWrite i (length bs)), fs) = (mkWriting dir bs WRename, fs).
Proof. simpl. by rewrite drop_ge. Qed.
Lemma step_rename dir bs fs :
  write_step IoOk (mkWriting dir bs WRename, fs) =
  (mkWriting dir bs WDone, rename (tmp_path dir) (final_path dir) fs).
Proof. done. Qed.

Lemma encode_nonempty origin s : encode origin s ≠ [].
Proof. rewrite encode_header. intros [Hh _]%app_nil. pose proof (header_length origin s) as Hl. by rewrite Hh in Hl. Qed.

(** Overlapping calls do tear the file.  For any two samples of one topic,
    the payload of the second no longer than that of the first, there is an
    interleaving of their two [write_sample] calls, no system call failing,
    after which the rendezvous file decodes without error as a sample with
    the identity, number and time of the second and a payload cut from the
    first, a sample that nobody wrote. *)
Theorem overlapping_writes_tear temp_dir d t oa a ob b fs : names_ok fs →
  is_u64 ob → is_u64 (sequence_number b) →
  len (s_payload b) <= len (s_payload a) → len (s_payload b) <= MAX_PAYLOAD_BYTES →
  Forall (λ e, succeeds e.2) tearing ∧
  ∃ wa wb fs',
    interleave tearing (start_write temp_dir oa d t a, start_write temp_dir ob d t b, fs) = (wa, wb, fs') ∧
    read_current (data_path temp_dir d t) fs' =
    Ok (mkDecoded ob (sequence_number b) (timestamp_nanos (timestamp b)) (writer_guid b)
          (take (length (s_payload b)) (s_payload a))).
Proof.
  intros Hok Hob Hsb Hle Hmax. split; [repeat constructor; by intros ?|].
  set (dir := topic_dir temp_dir d t). pose proof (create_twice (tmp_path dir) fs Hok) as Hc.
  destruct (file_create (tmp_path dir) fs) as [i fs1] eqn:H1.
  destruct (file_create (tmp_path dir) fs1) as [j fs2] eqn:H2. destruct Hc as (-> & Hok2 & Hn2 & Hi2).
  set (fs3 := file_write i 0 (encode oa a) fs2).
  set (fs4 := file_write i 0 (take 44 (encode ob b)) fs3).
  assert (names_ok fs4) as Hok4 by by apply names_ok_alter, names_ok_alter.
  assert (inodes fs4 !! i = Some (header_bytes ob b ++ s_payload a)) as Hi4.
  { unfold fs4, fs3. erewrite write_inode; [|by apply write_inode].
    f_equal. rewrite (overwrite_end 0 (encode oa a) []) by done. unfold overwrite.
    rewrite take_0, !app_nil_l, !encode_header, take_app_length' by by rewrite header_length.
    by rewrite header_length, drop_app_length' by by rewrite header_length. }
  assert (names fs4 !! resolve (tmp_path dir) = Some i) as Hn4 by exact Hn2.
  destruct (rename_spec (tmp_path dir) (final_path dir) fs4 i Hok4 Hn4 (tmp_final dir)) as [_ Hr].
  eexists _, _, (rename (tmp_path dir) (final_path dir) fs4). split.
  { unfold interleave, tearing, start_write. fold dir. cbn [foldl interleave_step fst snd].
    rewrite step_dir. cbn [interleave_step fst snd]. rewrite (step_create _ _ _ _ _ H1). cbn [interleave_step fst snd].
    rewrite step_dir. cbn [interleave_step fst snd]. rewrite (step_create _ _ _ _ _ H2). cbn [interleave_step fst snd].
    rewrite step_write_all by apply encode_nonempty. cbn [interleave_step fst snd].
    rewrite step_write_short by (apply encode_nonempty || done). cbn [interleave_step fst snd].
    rewrite step_written. cbn [interleave_step fst snd]. rewrite step_rename. done. }
  unfold read_current, file_read. change (data_path temp_dir d t) with (final_path dir).
  rewrite Hr, bool_decide_true, Hi4 by (done || by intros ?%symmetry%tmp_final).
  rewrite <- (firstn_skipn (length (s_payload b)) (s_payload a)), app_assoc.
  set (p := take (length (s_payload b)) (s_payload a)).
  assert (length p = length (s_payload b)) as Hp by (unfold p, len in *; rewrite length_take; lia).
  replace (header_bytes ob b ++ p) with (encode ob (mkSample (topic b) p (timestamp b) (sequence_number b) (writer_guid b))).
  - rewrite decode_encode; simpl; [by rewrite take_app_length'|done|done|]. unfold len in *. by rewrite Hp.
  - rewrite encode_header. unfold header_bytes. simpl. unfold len. by rewrite Hp.
Qed.

(** ** Isolation *)

(** A topic that names its directory as it is. *)
Definition plain (t : str) : Prop :=
  Forall (λ c, c ≠ x2f ∧ c ≠ x5c ∧ c ≠ x3a) t ∧ t ≠ bytes_of_ascii "." ∧ t ≠ bytes_of_ascii "..".

Lemma sanitise_plain t : plain t → sanitise t = t.
Proof.
  intros [Ht _]. unfold sanitise. induction Ht as [|c t (H1 & H2 & H3) _ IH]; [done|].
  rewrite fmap_cons, IH, bool_decide_false by tauto. done.
Qed.

Lemma bytes_of_ascii_inj a b : bytes_of_ascii a = bytes_of_ascii b → a = b.
Proof. intros Hab. rewrite <- (String.string_of_list_byte_of_string a), <- (String.string_of_list_byte_of_string b). unfold bytes_of_ascii in Hab. by rewrite Hab. Qed.

Lemma domain_dir_name n : bytes_of_ascii "domain-" ++ show n ≠ bytes_of_ascii "." ∧
  bytes_of_ascii "domain-" ++ show n ≠ bytes_of_ascii "..".
Proof. by split. Qed.

Lemma resolve_domain temp_dir d :
  resolve (join (root_dir temp_dir) (bytes_of_ascii "domain-" ++ show (domain_id d)))
  = resolve temp_dir ++ [bytes_of_ascii "rust-dds-shmem"; bytes_of_ascii "domain-" ++ show (domain_id d)].
Proof.
  destruct (domain_dir_name (domain_id d)). unfold root_dir.
  rewrite !resolve_join, <- app_assoc by (done || by apply (bool_decide_unpack _)). done.
Qed.

Lemma resolve_data temp_dir d t : plain t → resolve (data_path temp_dir d t) =
  resolve temp_dir ++ [bytes_of_ascii "rust-dds-shmem"; bytes_of_ascii "domain-" ++ show (domain_id d); t; bytes_of_ascii "data.bin"].
Proof.
  intros Ht. unfold data_path, topic_dir. cbv zeta. rewrite (sanitise_plain t Ht). destruct Ht as (_ & H1 & H2).
  rewrite resolve_join by by apply (bool_decide_unpack _).
  rewrite resolve_join, resolve_domain, <- !app_assoc by done. done.
Qed.

Lemma data_path_inj temp_dir d d' t t' : plain t → plain t' →
  resolve (data_path temp_dir d t) = resolve (data_path temp_dir d' t') → d = d' ∧ t = t'.
Proof.
  intros Ht Ht'. rewrite !resolve_data by done. intros [= Hd ->]%app_inv_head. split; [|done].
  destruct d as [n], d' as [n']. simpl in Hd. f_equal.
  unfold show in Hd. by apply bytes_of_ascii_inj, (inj pretty) in Hd.
Qed.

(** What keeps domains and topics apart on disk, and what does not.  Topics
    without a slash, a backslash, a colon, and other than the two dot names
    have the same rendezvous file only if they are equal and on the same
    domain.  But topics that differ in those three characters alone share
    one file, and the topic [..] has one file for all domains. *)
Theorem rendezvous_isolation temp_dir d d' t t' :
  (plain t → plain t' →
     resolve (data_path temp_dir d t) = resolve (data_path temp_dir d' t') ↔ d = d' ∧ t = t') ∧
  (sanitise t = sanitise t' → data_path temp_dir d t = data_path temp_dir d t') ∧
  resolve (data_path temp_dir d (bytes_of_ascii "..")) = resolve (data_path temp_dir d' (bytes_of_ascii "..")).
Proof.
  split_and!.
  - intros Ht Ht'. split; [by apply data_path_inj|by intros [-> ->]].
  - intros Hs. unfold data_path, topic_dir. by rewrite Hs.
  - assert (∀ d, resolve (data_path temp_dir d (bytes_of_ascii "..")) =
      resolve temp_dir ++ [bytes_of_ascii "rust-dds-shmem"; bytes_of_ascii "data.bin"]) as Hall; [|by rewrite !Hall].
    clear. intros d. unfold data_path, topic_dir. cbv zeta. change (sanitise (bytes_of_ascii "..")) with (bytes_of_ascii "..").
    rewrite resolve_join by by apply (bool_decide_unpack _).
    set (p := join (root_dir temp_dir) _). assert (resolve (join p (bytes_of_ascii "..")) = removelast (resolve p)) as ->.
    { unfold resolve, join. by rewrite foldl_snoc. }
    unfold p. rewrite resolve_domain. change [?x; ?y] with ([x] ++ [y]).
    rewrite app_assoc, removelast_last, <- app_assoc. done.
Qed.

(** ** Instances *)

Definition demo_tmp : Path := [bytes_of_ascii "tmp"].
Definition demo_sample (payload : list byte) (seq : Z) : Sample :=
  mkSample (bytes_of_ascii "a/b") payload 5 seq (vinsert 0 x07 (vreplicate 16 x00)).
Definition demo_short := demo_sample [x01; x02] 1.
Definition demo_long := demo_sample [x03; x04; x05] 2.
Definition demo_call (io : list IoOutcome) (s : Sample) : WriteCall := mkWriteCall io 9 (mkDomain 0) (topic s) s.

Lemma demo_u64 : is_u64 9 ∧ is_u64 1 ∧ is_u64 2.
Proof. by vm_compute. Qed.

Lemma rendezvous_roundtrip_witness :
  decode (encode 9 demo_short ++ [x00]) = Ok (mkDecoded 9 1 5 (writer_guid demo_short) [x01; x02]) ∧
  decode (take 45 (encode 9 demo_short)) = Err DecodeError.Truncated.
Proof.
  destruct (proj2 rendezvous_roundtrip 9 demo_short) as [H _]; [by vm_compute..|].
  destruct H as [H1 H2]; [by vm_compute|].
  split; [exact (H1 [x00])|]. apply H2. vm_compute. lia.
Defined.

(** A complete call, and one that fails after a partial [write]. *)
Example failed_call_changes_nothing :
  let calls := [demo_call [] demo_short; demo_call [IoOk; IoOk; IoShort 3; IoErr] demo_long] in
  file_read (data_path demo_tmp (mkDomain 0) (bytes_of_ascii "a/b")) (write_all_samples demo_tmp calls)
    = Some (encode 9 demo_short) ∧
  outcomes demo_tmp calls names_empty = [true; false].
Proof.
  intros calls. assert (outcomes demo_tmp calls names_empty = [true; false]) as Ho by by vm_compute.
  split; [|exact Ho]. by vm_compute.
Qed.

Lemma overlapping_writes_tear_witness : ∃ wa wb fs',
  interleave tearing (start_write demo_tmp 9 (mkDomain 0) (bytes_of_ascii "a/b") demo_long,
    start_write demo_tmp 9 (mkDomain 0) (bytes_of_ascii "a/b") demo_short, names_empty) = (wa, wb, fs') ∧
  read_current (data_path demo_tmp (mkDomain 0) (bytes_of_ascii "a/b")) fs' =
    Ok (mkDecoded 9 1 5 (writer_guid demo_short) [x03; x04]).
Proof.
  destruct (overlapping_writes_tear demo_tmp (mkDomain 0) (bytes_of_ascii "a/b") 9 demo_long 9 demo_short names_empty)
    as [_ H]; [|by vm_compute..|exact H].
  split; simpl; intros *; by rewrite lookup_empty.
Defined.

Lemma rendezvous_isolation_witness :
  resolve (data_path demo_tmp (mkDomain 0) (bytes_of_ascii "a")) ≠
    resolve (data_path demo_tmp (mkDomain 1) (bytes_of_ascii "a")) ∧
  data_path demo_tmp (mkDomain 0) (bytes_of_ascii "a/b") = data_path demo_tmp (mkDomain 0) (bytes_of_ascii "a_b").
Proof.
  assert (plain (bytes_of_ascii "a")) as Hp.
  { split; [repeat constructor; by intros ?|by split]. }
  split.
  - destruct (rendezvous_isolation demo_tmp (mkDomain 0) (mkDomain 1) (bytes_of_ascii "a") (bytes_of_ascii "a")) as [H _].
    intros He. by apply (H Hp Hp) in He as [? _].
  - destruct (rendezvous_isolation demo_tmp (mkDomain 0) (mkDomain 0) (bytes_of_ascii "a/b") (bytes_of_ascii "a_b"))
      as (_ & H & _). apply H. by vm_compute.
Defined.
