(* ===== verification/Shmem.v ===== *)
(** * Shmem: the shared-memory transport
    (src/shmem/broker.rs, participant.rs, pool.rs, loan.rs)

    A process has one broker per domain, its participants and what they
    handed out; a world is some processes over one file system.  A queue is
    its index in the store of its process, where the broker, the poller and
    the receiver share it.  The position of a handle is its name. *)

From S2P Require Import Prelude Types Observability SubQueue Counters Broadcast Persist ShmemIpc.

#[global] Instance Domain_eq_dec : EqDecision Domain.
Proof. solve_decision. Defined.

(** ** Broker *)

Module ShmemBroker.
Record TopicState : Type := mkTopicState {
  subscribers : list nat;
  last_sample : option Sample;
  metrics : TopicCounters }.

Definition TopicState_new : TopicState := mkTopicState [] None TopicCounters_default.

(** The table of topics. *)
Notation Broker := (gmap str TopicState).

Definition Broker_new : Broker := ∅.

(** [topics.entry(topic).or_insert_with(TopicState::new)] *)
Definition topic_entry (t : str) (b : Broker) : TopicState := default TopicState_new (b !! t).

Section broker.
Context {N : Type} `{!Notify N}.
Notation inner := (SubInner N).
Implicit Types (b : Broker) (qs : list inner).

Definition publish (t : str) (sample : Sample) (qos : QoS) b qs : Broker * list inner :=
  let state := topic_entry t b in
  let payload_len := len (s_payload sample) in
  let m := count_write (metrics state) payload_len in
  let last := if bool_decide (durability qos = TransientLocal) then Some sample else last_sample state in
  let subs := List.filter (live qs) (subscribers state) in
  let '(qs, m) := deliver_loop payload_len sample subs qs m in
  (<[t := mkTopicState subs last m]> b, qs).

Definition topic_metrics b : list Observability.TopicMetrics :=
  (λ x, TopicCounters_snapshot (metrics x.2) x.1) <$>
    List.filter (λ x, 0 <? writes (metrics x.2)) (map_to_list b).

Definition subscribe (t : str) (qos : QoS) (opts : SubscriberOptions) b qs : nat * Broker * list inner :=
  let depth := chan_depth opts 64 in
  let i := SubInner_new depth (back_pressure opts) in
  let state := topic_entry t b in
  let i := if bool_decide (durability qos = TransientLocal) then
             match last_sample state with Some last => (push i last).2 | None => i end
           else i in
  let id := length qs in
  (id, <[t := mkTopicState (subscribers state ++ [id]) (last_sample state) (metrics state)]> b, qs ++ [i]).

Definition remove_subscriber (t : str) (id : nat) b : Broker :=
  alter (λ state, mkTopicState (filter (λ s, s ≠ id) (subscribers state)) (last_sample state) (metrics state)) t b.
End broker.
End ShmemBroker.

Notation Broker := (gmap str ShmemBroker.TopicState).

(** ** The pool of buffers *)

(** A [Vec<u8>]: its elements and its capacity. *)
Record Buf : Type := mkBuf { b_bytes : list byte; b_capacity : Z }.

Definition DEFAULT_POOL_BUF_SIZE : Z := 4096.

Record BytePool : Type := mkBytePool { bp_free : list Buf; bp_size : Z }.

Module BytePool.
Section pool.
(** The capacity [Vec::with_capacity] gives. *)
Context (with_capacity : Z → Z).

Definition MAX_POOLED : Z := 64.

Definition new (size : Z) : BytePool :=
  let size := if size =? 0 then DEFAULT_POOL_BUF_SIZE else size in
  mkBytePool [] size.

Definition buf_size (self : BytePool) : Z := bp_size self.

(** The free list is a stack, its top at the end. *)
Definition get (self : BytePool) : Buf * BytePool :=
  match last (bp_free self) with
  | Some buf => (mkBuf [] (b_capacity buf), mkBytePool (removelast (bp_free self)) (bp_size self))
  | None => (mkBuf [] (with_capacity (bp_size self)), self)
  end.

Definition put (buf : Buf) (self : BytePool) : BytePool :=
  if b_capacity buf <? bp_size self then self
  else if MAX_POOLED <=? len (bp_free self) then self
  else mkBytePool (bp_free self ++ [mkBuf [] (b_capacity buf)]) (bp_size self).
End pool.
End BytePool.

(** ** Handles *)

Record ShmemPublisher : Type := mkShmemPublisher {
  sp_domain : Domain;
  sp_topic : str;
  sp_qos : QoS;
  sp_writer_guid : GuidBytes;
  sp_seq : Z;
  sp_closed : bool }.

Record ShmemSubscriber : Type := mkShmemSubscriber {
  su_inner : nat;
  su_domain : Domain;
  su_topic : str;
  su_poller : Poller;
  su_deadline_task : option Z }.

Record ShmemParticipant : Type := mkShmemParticipant {
  pa_domain : Domain;
  pa_closed : bool;
  pa_guid_prefix : vec byte 12;
  pa_pub_counter : Z }.

(** A [ShmemLoaningPublisher]: its publisher and its pool. *)
Record ShmemLoaningPublisher : Type := mkShmemLoaningPublisher { lo_inner : nat; lo_pool : BytePool }.

(** [SHARED_BROKERS] is [sh_brokers], and [process_origin_id()] [sh_origin]. *)
Record Process (N : Type) : Type := mkProcess {
  sh_origin : Z;
  sh_brokers : gmap Z Broker;
  sh_queues : list (SubInner N);
  sh_participants : list ShmemParticipant;
  sh_publishers : list ShmemPublisher;
  sh_loaning : list ShmemLoaningPublisher;
  sh_subscribers : list ShmemSubscriber }.
Arguments mkProcess {N}.
Arguments sh_origin {N}.
Arguments sh_brokers {N}.
Arguments sh_queues {N}.
Arguments sh_participants {N}.
Arguments sh_publishers {N}.
Arguments sh_loaning {N}.
Arguments sh_subscribers {N}.

Definition set_local {N : Type} (b : gmap Z Broker) (q : list (SubInner N)) (p : Process N) : Process N :=
  mkProcess (sh_origin p) b q (sh_participants p) (sh_publishers p) (sh_loaning p) (sh_subscribers p).
Definition set_participants {N : Type} x (p : Process N) : Process N :=
  mkProcess (sh_origin p) (sh_brokers p) (sh_queues p) x (sh_publishers p) (sh_loaning p) (sh_subscribers p).
Definition set_publishers {N : Type} x (p : Process N) : Process N :=
  mkProcess (sh_origin p) (sh_brokers p) (sh_queues p) (sh_participants p) x (sh_loaning p) (sh_subscribers p).
Definition set_loaning {N : Type} x (p : Process N) : Process N :=
  mkProcess (sh_origin p) (sh_brokers p) (sh_queues p) (sh_participants p) (sh_publishers p) x (sh_subscribers p).
Definition set_subscribers {N : Type} x (p : Process N) : Process N :=
  mkProcess (sh_origin p) (sh_brokers p) (sh_queues p) (sh_participants p) (sh_publishers p) (sh_loaning p) x.

Definition Process_new {N : Type} (origin : Z) : Process N := mkProcess origin ∅ [] [] [] [] [].

(** ** Operations *)

Section shmem.
Context {N : Type} `{!Notify N} `{!BuildProfile} (temp_dir : Path) (with_capacity : Z → Z).
Notation process := (Process N).
Implicit Types p : process.

Definition broker_of (d : Domain) p : Broker := default ShmemBroker.Broker_new (sh_brokers p !! domain_id d).
Definition set_broker (d : Domain) (b : Broker) (q : list (SubInner N)) p : process :=
  set_local (<[domain_id d := b]> (sh_brokers p)) q p.

(** [table.entry(domain.0).or_insert_with(Broker::new)] *)
Definition broker_for (d : Domain) p : process := set_broker d (broker_of d p) (sh_queues p) p.

Definition make_guid (self : ShmemParticipant) (id : Z) : GuidBytes :=
  vec_fill 16 (vec_to_list (pa_guid_prefix self) ++ to_be 4 (as_u 32 id)).

Definition ShmemParticipant_new (d : Domain) p : eres nat * process :=
  match validate_domain d with
  | Ok _ =>
      let prefix := vinsert 0 (byte.of_Z (as_u 8 (domain_id d))) (vreplicate 12 x00) in
      let p := broker_for d p in
      (Ok (length (sh_participants p)),
       set_participants (sh_participants p ++ [mkShmemParticipant d false prefix 0]) p)
  | Err e => (Err e, p)
  | Panic => (Panic, p)
  end.

(** The checks both constructors of endpoints make first; [k] is the participant. *)
Definition usable (k : nat) (topic : str) p : eres ShmemParticipant :=
  match sh_participants p !! k with
  | None => Err Closed
  | Some pa => if pa_closed pa then Err Closed
               else match topic with [] => Err TopicEmpty | _ => Ok pa end
  end.

Definition make_publisher (k : nat) (topic : str) (qos : QoS) p : eres nat * process :=
  match usable k topic p with
  | Ok pa =>
      let id := pa_pub_counter pa in
      let pa' := mkShmemParticipant (pa_domain pa) (pa_closed pa) (pa_guid_prefix pa)
                   (fetch_add (pa_pub_counter pa) 1) in
      (Ok (length (sh_publishers p)),
       set_publishers
         (sh_publishers p ++ [mkShmemPublisher (pa_domain pa) topic qos (make_guid pa id) 0 false])
         (set_participants (<[k := pa']> (sh_participants p)) p))
  | Err e => (Err e, p)
  | Panic => (Panic, p)
  end.

Definition new_loaning_publisher (k : nat) (topic : str) (qos : QoS) (buf_size : Z) p : eres nat * process :=
  match make_publisher k topic qos p with
  | (Ok i, p) => (Ok (length (sh_loaning p)),
                  set_loaning (sh_loaning p ++ [mkShmemLoaningPublisher i (BytePool.new buf_size)]) p)
  | (r, p) => (r, p)
  end.

Definition new_subscriber (k : nat) (topic : str) (qos : QoS) (opts : SubscriberOptions) p : eres nat * process :=
  match usable k topic p with
  | Ok pa =>
      let d := pa_domain pa in
      let '(id, b, q) := ShmemBroker.subscribe topic qos opts (broker_of d p) (sh_queues p) in
      let p := set_broker d b q p in
      let poller := spawn_poller temp_dir d topic (durability qos) in
      let deadline_task := match deadline_missed opts with
                           | Some _ => spawn_deadline_watcher (deadline_ns qos)
                           | None => None
                           end in
      (Ok (length (sh_subscribers p)),
       set_subscribers (sh_subscribers p ++ [mkShmemSubscriber id d topic poller deadline_task]) p)
  | Err e => (Err e, p)
  | Panic => (Panic, p)
  end.

(** *** Publishers *)

Definition write_payload (k : nat) (now : Z) (payload : list byte) (io : list IoOutcome)
    (st : process * Files) : eres unit * (process * Files) :=
  let '(p, fs) := st in
  match sh_publishers p !! k with
  | None => (Ok tt, st)
  | Some w =>
      if sp_closed w then (Err Closed, st)
      else if (0 <? max_sample_size (sp_qos w)) && (max_sample_size (sp_qos w) <? len payload) then
        (Err PayloadTooLarge, st)
      else
        let w' := mkShmemPublisher (sp_domain w) (sp_topic w) (sp_qos w) (sp_writer_guid w)
                    (fetch_add (sp_seq w) 1) (sp_closed w) in
        let p := set_publishers (<[k := w']> (sh_publishers p)) p in
        match uadd 64 (sp_seq w) 1 with
        | Ok seq =>
            let sample := mkSample (sp_topic w) payload now seq (sp_writer_guid w) in
            let '(b, q) :=
              ShmemBroker.publish (sp_topic w) sample (sp_qos w) (broker_of (sp_domain w) p) (sh_queues p) in
            let p := set_broker (sp_domain w) b q p in
            (Ok tt, (p, write_sample temp_dir (sh_origin p) io (sp_domain w) (sp_topic w) sample fs))
        | Err e => (Err e, (p, fs))
        | Panic => (Panic, (p, fs))
        end
  end.

Definition write_payload_ctx (k : nat) (ctx : Context_) (now : Z) (payload : list byte)
    (io : list IoOutcome) (st : process * Files) : eres unit * (process * Files) :=
  if Context_done now ctx then (Err Timeout, st) else write_payload k now payload io st.

Definition publisher_close (k : nat) p : process :=
  set_publishers
    (alter (λ w, mkShmemPublisher (sp_domain w) (sp_topic w) (sp_qos w) (sp_writer_guid w) (sp_seq w) true) k
       (sh_publishers p)) p.

Definition publisher_closed (k : nat) p : bool :=
  match sh_publishers p !! k with Some w => sp_closed w | None => true end.

(** [loan] and [commit] of the loaning publisher [l]. *)
Definition loan_from (size : Z) (pool : BytePool) : eres Buf * BytePool :=
  let '(buf, pool) := BytePool.get with_capacity pool in
  if b_capacity buf <? size then (Err LoanBuffer, BytePool.put buf pool)
  else (Ok (mkBuf (b_bytes buf ++ replicate (Z.to_nat size - length (b_bytes buf)) x00) (b_capacity buf)), pool).

Definition set_pool (l : nat) (pool : BytePool) p : process :=
  set_loaning (alter (λ x, mkShmemLoaningPublisher (lo_inner x) pool) l (sh_loaning p)) p.

Definition loan (l : nat) (size : Z) p : eres Buf * process :=
  match sh_loaning p !! l with
  | None => (Err Closed, p)
  | Some x =>
      if publisher_closed (lo_inner x) p then (Err Closed, p)
      else let '(r, pool) := loan_from size (lo_pool x) in (r, set_pool l pool p)
  end.

Definition commit (l : nat) (buf : Buf) (now : Z) (io : list IoOutcome) (st : process * Files)
    : eres unit * (process * Files) :=
  match sh_loaning st.1 !! l with
  | None => (Ok tt, st)
  | Some x =>
      let '(result, (p, fs)) := write_payload (lo_inner x) now (b_bytes buf) io st in
      match result with
      | Panic => (Panic, (p, fs))
      | _ => (result, (set_pool l (BytePool.put buf (lo_pool x)) p, fs))
      end
  end.

(** The [Publisher] methods of the loaning publisher [l]: those of its inner
    publisher. *)
Definition loaning_write (l : nat) (now : Z) (payload : list byte) (io : list IoOutcome) (st : process * Files)
    : eres unit * (process * Files) :=
  match sh_loaning st.1 !! l with
  | None => (Ok tt, st)
  | Some x => write_payload (lo_inner x) now payload io st
  end.

Definition loaning_write_ctx (l : nat) (ctx : Context_) (now : Z) (payload : list byte) (io : list IoOutcome)
    (st : process * Files) : eres unit * (process * Files) :=
  if Context_done now ctx then (Err Timeout, st) else loaning_write l now payload io st.

Definition loaning_close (l : nat) p : process :=
  match sh_loaning p !! l with
  | None => p
  | Some x => publisher_close (lo_inner x) p
  end.

(** *** Subscribers *)

Definition with_queue (f : SubInner N → SubInner N) (id : nat) p : process :=
  set_local (sh_brokers p) (alter f id (sh_queues p)) p.

Definition remove_from_broker (s : ShmemSubscriber) p : process :=
  set_broker (su_domain s)
    (ShmemBroker.remove_subscriber (su_topic s) (su_inner s) (broker_of (su_domain s) p)) (sh_queues p) p.

Definition subscriber_unsubscribe (k : nat) p : process :=
  match sh_subscribers p !! k with
  | None => p
  | Some s => remove_from_broker s (with_queue SubQueue.unsubscribe (su_inner s) p)
  end.

(** [task.abort()] of the poller. *)
Definition abort_poller (po : Poller) : Poller :=
  mkPoller (po_path po) (po_topic po) (po_durability po) (po_last_seq po) false.

Definition subscriber_close (k : nat) p : process :=
  match sh_subscribers p !! k with
  | None => p
  | Some s =>
      let p := remove_from_broker s (with_queue SubQueue.close (su_inner s) p) in
      set_subscribers
        (<[k := mkShmemSubscriber (su_inner s) (su_domain s) (su_topic s) (abort_poller (su_poller s)) None]>
           (sh_subscribers p)) p
  end.

Definition subscriber_try_recv (k : nat) p : process :=
  match sh_subscribers p !! k with
  | None => p
  | Some s => with_queue (λ i, (SubQueue.try_recv i).2) (su_inner s) p
  end.

(** The poller of subscriber [k] runs once. *)
Definition poll_round (k : nat) (fs : Files) p : process :=
  match sh_subscribers p !! k with
  | None => p
  | Some s =>
      match sh_queues p !! su_inner s with
      | None => p
      | Some i =>
          let '(po, i) := poll (sh_origin p) fs (su_poller s) i in
          set_subscribers
            (<[k := mkShmemSubscriber (su_inner s) (su_domain s) (su_topic s) po (su_deadline_task s)]>
               (sh_subscribers p))
            (set_local (sh_brokers p) (<[su_inner s := i]> (sh_queues p)) p)
      end
  end.

(** *** Participants *)

Definition participant_close (k : nat) p : process :=
  set_participants
    (alter (λ pa, mkShmemParticipant (pa_domain pa) true (pa_guid_prefix pa) (pa_pub_counter pa)) k
       (sh_participants p)) p.

Definition participant_health (k : nat) p : Observability.Health :=
  match sh_participants p !! k with
  | Some pa => if pa_closed pa then Observability.Health_down CLOSED_DETAILS else Observability.Health_ok
  | None => Observability.Health_ok
  end.

Definition participant_topic_metrics (k : nat) p : list Observability.TopicMetrics :=
  match sh_participants p !! k with
  | Some pa => ShmemBroker.topic_metrics (broker_of (pa_domain pa) p)
  | None => []
  end.

(** ** Worlds

    A [write], [write_ctx] or [close] of a loaning publisher is an event of its
    inner publisher ([loaning_is_inner]). *)

Inductive ShmEvent : Type :=
| NewParticipant (d : Domain)
| NewPublisher (k : nat) (t : str) (qos : QoS)
| NewLoaning (k : nat) (t : str) (qos : QoS) (buf_size : Z)
| NewSubscriber (k : nat) (t : str) (qos : QoS) (opts : SubscriberOptions)
| Write (k : nat) (ctx : Context_) (now : Z) (payload : list byte) (io : list IoOutcome)
| PublisherClose (k : nat)
| Loan (l : nat) (size : Z)
| Commit (l : nat) (buf : Buf) (now : Z) (io : list IoOutcome)
| Unsubscribe (k : nat)
| SubscriberClose (k : nat)
| TryRecv (k : nat)
| PollRound (k : nat)
| ParticipantClose (k : nat).

(** A call of a process, as one step: in the runs below the calls of all
    processes are over before the next one begins.  Nothing in the program
    makes it so for [Write] and [Commit], whose [write_sample] creates, writes
    and renames one temporary file per topic without a lock; runs in which
    these system calls interleave are those of [write_run] in ShmemIpc. *)
Definition process_step (e : ShmEvent) (st : process * Files) : process * Files :=
  let '(p, fs) := st in
  match e with
  | NewParticipant d => ((ShmemParticipant_new d p).2, fs)
  | NewPublisher k t qos => ((make_publisher k t qos p).2, fs)
  | NewLoaning k t qos n => ((new_loaning_publisher k t qos n p).2, fs)
  | NewSubscriber k t qos opts => ((new_subscriber k t qos opts p).2, fs)
  | Write k ctx now payload io => (write_payload_ctx k ctx now payload io st).2
  | PublisherClose k => (publisher_close k p, fs)
  | Loan l size => ((loan l size p).2, fs)
  | Commit l buf now io => (commit l buf now io st).2
  | Unsubscribe k => (subscriber_unsubscribe k p, fs)
  | SubscriberClose k => (subscriber_close k p, fs)
  | TryRecv k => (subscriber_try_recv k p, fs)
  | PollRound k => (poll_round k fs p, fs)
  | ParticipantClose k => (participant_close k p, fs)
  end.

Lemma loaning_is_inner l x (st : process * Files) : sh_loaning st.1 !! l = Some x →
  (∀ ctx now payload io, (loaning_write_ctx l ctx now payload io st).2 = process_step (Write (lo_inner x) ctx now payload io) st) ∧
  (∀ now payload io, (loaning_write l now payload io st).2 = process_step (Write (lo_inner x) Context_background now payload io) st) ∧
  (loaning_close l st.1, st.2) = process_step (PublisherClose (lo_inner x)) st.
Proof. intros Hx. destruct st as [p fs]. unfold loaning_write_ctx, loaning_write, loaning_close, process_step, write_payload_ctx. by rewrite Hx. Qed.

(** The processes over the file system; an event is one of a process. *)
Definition World : Type := list process * Files.

Definition world_step (w : World) (e : nat * ShmEvent) : World :=
  match w.1 !! e.1 with
  | None => w
  | Some p => let '(p, fs) := process_step e.2 (p, w.2) in (<[e.1 := p]> w.1, fs)
  end.

(** The processes start on a directory without rendezvous files.  No code
    deletes these files, so the files of processes that have ended are those
    of a run in which they are among the processes and take no further step. *)
Definition world_start (origins : list Z) : World := (Process_new <$> origins, names_empty).

Definition world_run (origins : list Z) (evs : list (nat * ShmEvent)) : World :=
  foldl world_step (world_start origins) evs.
End shmem.
Arguments World : clear implicits.
