(* ===== verification/ShmemRuns.v ===== *)
(** * ShmemRuns: what holds in every run of the shared-memory transport
    (src/shmem/)

    Where the samples of a subscriber come from, on the path inside a process
    and on the one through the rendezvous files; that the two do not
    duplicate a sample; what the files deliver between processes and what
    they miss; what closing stops; and the buffers of a loaning publisher. *)

From S2P Require Import Prelude Types Observability SubQueue Counters Broadcast Persist ShmemIpc Shmem.

(** ** The invariant of a process *)

Section wf.
Context {N : Type} `{!Notify N} `{!BuildProfile} (temp_dir : Path).
Notation process := (Process N).
Implicit Types p : process.

(** The subscribers of topic [t] on domain [d] that a broker lists. *)
Definition listed (d : Domain) (t : str) p : list nat :=
  ShmemBroker.subscribers (ShmemBroker.topic_entry t (broker_of d p)).
Definition cached (d : Domain) (t : str) p : option Sample :=
  ShmemBroker.last_sample (ShmemBroker.topic_entry t (broker_of d p)).
Definition counters (d : Domain) (t : str) p : TopicCounters :=
  ShmemBroker.metrics (ShmemBroker.topic_entry t (broker_of d p)).

(** Queue [k] is that of subscriber [k]; a broker lists the subscribers of
    its domain and topic, each once, and all those that are open. *)
Record process_wf p : Prop := {
  pw_queues : su_inner <$> sh_subscribers p = List.seq 0%nat (length (sh_queues p));
  pw_listed d t : NoDup (listed d t p) ∧ ∀ id, id ∈ listed d t p →
    ∃ s, sh_subscribers p !! id = Some s ∧ su_domain s = d ∧ su_topic s = t;
  pw_open k s i : sh_subscribers p !! k = Some s → sh_queues p !! k = Some i → closed i = false →
    k ∈ listed (su_domain s) (su_topic s) p;
  pw_counters d t : counters_wf (counters d t p);
  pw_poller k s : sh_subscribers p !! k = Some s →
    po_path (su_poller s) = data_path temp_dir (su_domain s) (su_topic s) ∧ po_topic (su_poller s) = su_topic s;
  pw_seq k w : sh_publishers p !! k = Some w → is_u64 (sp_seq w) }.

Lemma queue_of p k s : process_wf p → sh_subscribers p !! k = Some s →
  su_inner s = k ∧ ∃ i, sh_queues p !! k = Some i.
Proof using Type.
  intros Hw Hs. pose proof (pw_queues _ Hw) as Hq.
  assert (List.seq 0%nat (length (sh_queues p)) !! k = Some (su_inner s)) as Hk by (rewrite <- Hq, list_lookup_fmap; by rewrite Hs).
  apply lookup_seq in Hk as [-> Hlt]. split; [done|]. by apply lookup_lt_is_Some_2.
Qed.

Lemma subscriber_of p k i : process_wf p → sh_queues p !! k = Some i → ∃ s, sh_subscribers p !! k = Some s.
Proof using Type.
  intros Hw Hi. apply lookup_lt_is_Some_2. rewrite <- (length_fmap su_inner), (pw_queues _ Hw), length_seq.
  by eapply lookup_lt_Some.
Qed.

(** Updates that keep brokers, queues and subscribers. *)
Lemma wf_frame p p' : (∀ d, broker_of d p' = broker_of d p) → sh_queues p' = sh_queues p →
  sh_subscribers p' = sh_subscribers p →
  (∀ k w, sh_publishers p' !! k = Some w → is_u64 (sp_seq w)) → process_wf p → process_wf p'.
Proof using Type.
  intros Hb Hq Hs Hseq [H1 H2 H3 H4 H5 _].
  assert (∀ d t, listed d t p' = listed d t p) as Hl by (intros; unfold listed; by rewrite Hb).
  assert (∀ d t, counters d t p' = counters d t p) as Hc by (intros; unfold counters; by rewrite Hb).
  split; rewrite ?Hq, ?Hs; try done; intros *; rewrite ?Hl, ?Hc; eauto.
Qed.

Lemma broker_of_set d b q p d' :
  broker_of d' (set_broker d b q p) = if bool_decide (d' = d) then b else broker_of d' p.
Proof using Type.
  unfold broker_of, set_broker. simpl. destruct d as [n], d' as [n']. simpl. case_bool_decide as Hd.
  - injection Hd as ->. by rewrite lookup_insert_eq.
  - rewrite lookup_insert_ne; [done|]. congruence.
Qed.

(** Updates of the queues alone. *)
Lemma wf_alter f k p : process_wf p → (∀ i, closed i = true → closed (f i) = true) →
  process_wf (with_queue f k p).
Proof using Type.
  intros [H1 H2 H3 H4 H5 H6] Hf. split; simpl; rewrite ?length_alter; try done.
  intros j s i Hs. rewrite list_lookup_alter. case_decide; [|by eauto].
  intros (i0 & Hi0 & ->)%fmap_Some Hc. eapply H3; [done|by subst; exact Hi0|].
  destruct (closed i0) eqn:E; [|done]. by rewrite Hf in Hc.
Qed.

Lemma listed_remove s p d t :
  listed d t (remove_from_broker s p) =
  if bool_decide (d = su_domain s ∧ t = su_topic s) then filter (λ id, id ≠ su_inner s) (listed d t p) else listed d t p.
Proof using Type.
  unfold listed, remove_from_broker. rewrite broker_of_set. case_bool_decide as Hd.
  - subst. unfold ShmemBroker.topic_entry, ShmemBroker.remove_subscriber. rewrite lookup_alter.
    destruct (decide (t = su_topic s)) as [->|Hne].
    + rewrite decide_True, bool_decide_true by done. by destruct (_ !! _).
    + rewrite decide_False, bool_decide_false by naive_solver. done.
  - rewrite bool_decide_false by naive_solver. done.
Qed.

Lemma counters_remove s p d t : counters d t (remove_from_broker s p) = counters d t p.
Proof using Type.
  unfold counters, remove_from_broker. rewrite broker_of_set. case_bool_decide; [|done]. subst.
  unfold ShmemBroker.topic_entry, ShmemBroker.remove_subscriber. rewrite lookup_alter.
  destruct (decide _); [subst|done]. by destruct (_ !! _).
Qed.

Lemma cached_remove s p d t : cached d t (remove_from_broker s p) = cached d t p.
Proof using Type.
  unfold cached, remove_from_broker. rewrite broker_of_set. case_bool_decide; [|done]. subst.
  unfold ShmemBroker.topic_entry, ShmemBroker.remove_subscriber. rewrite lookup_alter.
  destruct (decide _); [subst|done]. by destruct (_ !! _).
Qed.

(** Taking a closed subscriber off the list of its topic. *)
Lemma wf_remove k s p : process_wf p → sh_subscribers p !! k = Some s →
  (∀ i, sh_queues p !! k = Some i → closed i = true) → process_wf (remove_from_broker s p).
Proof using Type.
  intros Hw Hs Hcl. destruct (queue_of _ _ _ Hw Hs) as [Hk _]. destruct Hw as [H1 H2 H3 H4 H5 H6]. split; try done.
  - intros d t. rewrite listed_remove. destruct (H2 d t) as [Hnd Hin]. case_bool_decide; [|done]. split.
    + by apply NoDup_filter.
    + intros id [_ Hid]%list_elem_of_filter. by apply Hin.
  - intros j sj i Hj Hi Hc. rewrite listed_remove. case_bool_decide as Hd; [|by eapply H3].
    apply list_elem_of_filter. split; [|by eapply H3]. intros ->. rewrite Hk in *. by rewrite (Hcl i) in Hc.
  - intros d t. rewrite counters_remove. apply H4.
Qed.

(** *** Publishing *)

Lemma push_flag (i : SubInner N) x : closed (push i x).2 = closed i.
Proof using Type.
  unfold push. destruct (unsubscribed i || closed i); [done|]. unfold push_locked.
  destruct (policy i); repeat case_match; simplify_eq; done.
Qed.

Lemma set_listed d b q p d' t : listed d' t (set_broker d b q p) =
  if bool_decide (d' = d) then ShmemBroker.subscribers (ShmemBroker.topic_entry t b) else listed d' t p.
Proof using Type. unfold listed. rewrite broker_of_set. by case_bool_decide. Qed.
Lemma set_counters d b q p d' t : counters d' t (set_broker d b q p) =
  if bool_decide (d' = d) then ShmemBroker.metrics (ShmemBroker.topic_entry t b) else counters d' t p.
Proof using Type. unfold counters. rewrite broker_of_set. by case_bool_decide. Qed.
Lemma set_cached d b q p d' t : cached d' t (set_broker d b q p) =
  if bool_decide (d' = d) then ShmemBroker.last_sample (ShmemBroker.topic_entry t b) else cached d' t p.
Proof using Type. unfold cached. rewrite broker_of_set. by case_bool_decide. Qed.

Lemma entry_insert t st b t' :
  ShmemBroker.topic_entry t' (<[t := st]> b) = if bool_decide (t' = t) then st else ShmemBroker.topic_entry t' b.
Proof using Type.
  unfold ShmemBroker.topic_entry. case_bool_decide as Ht.
  - subst. by rewrite lookup_insert_eq.
  - by rewrite lookup_insert_ne.
Qed.

(** A sample published on [d] and [t] reaches each subscriber of them once,
    and nobody else. *)
Lemma shm_publish_spec p d t x qos : process_wf p →
  let '(b, q) := ShmemBroker.publish t x qos (broker_of d p) (sh_queues p) in
  let p' := set_broker d b q p in
  process_wf p' ∧
  (∀ k s i, sh_subscribers p !! k = Some s → sh_queues p !! k = Some i →
     q !! k = Some (if decide (su_domain s = d ∧ su_topic s = t) then (push i x).2 else i)) ∧
  (∀ d' t', cached d' t' p' =
     if bool_decide (d' = d ∧ t' = t ∧ durability qos = TransientLocal) then Some x else cached d' t' p).
Proof using Type.
  intros Hw. unfold ShmemBroker.publish. set (ids := List.filter (live (sh_queues p)) _).
  destruct (pw_listed _ Hw d t) as [Hnd Hin]. change (ShmemBroker.subscribers _) with (listed d t p) in ids.
  assert (Forall (λ id, id < length (sh_queues p))%nat (listed d t p)) as Hlt.
  { apply Forall_forall. intros id (s & Hs & _)%Hin. destruct (queue_of _ _ _ Hw Hs) as [_ [i Hi]]. by eapply lookup_lt_Some. }
  pose proof (deliver_loop_spec (len (s_payload x)) x ids (sh_queues p)
    (count_write (counters d t p) (len (s_payload x)))
    (NoDup_live _ _ Hnd) (Forall_live _ _ _ Hlt) (counters_wf_write _ _ (pw_counters _ Hw d t))) as Hd.
  change (ShmemBroker.metrics (ShmemBroker.topic_entry t (broker_of d p))) with (counters d t p).
  destruct (deliver_loop _ x ids _ _) as [q m]. cbn [fst snd] in Hd. destruct Hd as (Hlen & Hlk & Hm).
  assert (∀ k s i, sh_subscribers p !! k = Some s → sh_queues p !! k = Some i →
     q !! k = Some (if decide (su_domain s = d ∧ su_topic s = t) then (push i x).2 else i)) as Hq.
  { intros k s i Hs Hi. rewrite Hlk, Hi. destruct (decide (k ∈ ids)) as [Hk|Hk].
    - apply elem_of_live in Hk as [(s' & Hs' & Hdt)%Hin _]. rewrite Hs in Hs'. injection Hs' as <-. by rewrite decide_True.
    - case_decide as Hdt; [|done]. rewrite push_closed; [done|]. intros [_ Hc]. apply Hk, elem_of_live.
      split; [|eauto]. destruct Hdt as [<- <-]. by eapply pw_open. }
  split_and!; [|done|].
  2: { intros d' t'. rewrite set_cached. unfold cached. destruct (decide (d' = d)) as [->|Hne].
       - rewrite bool_decide_true, entry_insert by done. destruct (decide (t' = t)) as [->|Hne].
         + rewrite (bool_decide_true (t = t)) by done. simpl. do 2 case_bool_decide; naive_solver.
         + by rewrite !bool_decide_false by tauto.
       - by rewrite !bool_decide_false by tauto. }
  assert (∀ d' t', listed d' t' (set_broker d (<[t:=ShmemBroker.mkTopicState ids
      (if bool_decide (durability qos = TransientLocal) then Some x
       else ShmemBroker.last_sample (ShmemBroker.topic_entry t (broker_of d p))) m]> (broker_of d p)) q p)
    = if bool_decide (d' = d ∧ t' = t) then ids else listed d' t' p) as Hl.
  { intros d' t'. rewrite set_listed. unfold listed. destruct (decide (d' = d)) as [->|Hne].
    - rewrite bool_decide_true, entry_insert by done. destruct (decide (t' = t)) as [->|Hne].
      + by rewrite (bool_decide_true (t = t)), (bool_decide_true (d = d ∧ t = t)).
      + by rewrite (bool_decide_false (t' = t)), (bool_decide_false (d = d ∧ t' = t)) by tauto.
    - by rewrite !bool_decide_false by tauto. }
  split; simpl.
  - by rewrite (pw_queues _ Hw), Hlen.
  - intros d' t'. rewrite Hl. destruct (decide (d' = d ∧ t' = t)) as [[-> ->]|Hne].
    2: { rewrite bool_decide_false by done. exact (pw_listed _ Hw d' t'). }
    rewrite bool_decide_true by done. split; [by apply NoDup_live|]. intros id [Hid _]%elem_of_live. by apply Hin.
  - intros k s i Hs Hi Hc. destruct (queue_of _ _ _ Hw Hs) as [_ [i0 Hi0]]. rewrite (Hq k s i0 Hs Hi0) in Hi.
    assert (closed i0 = false) as Hc0 by (injection Hi as <-; case_decide; [by rewrite push_flag in Hc|done]).
    assert (k ∈ listed (su_domain s) (su_topic s) p) as Hk by by eapply pw_open.
    rewrite Hl. destruct (bool_decide_reflect (su_domain s = d ∧ su_topic s = t)) as [[Hsd Hst]|_]; [|done].
    apply elem_of_live. split; [|eauto]. by rewrite <- Hsd, <- Hst.
  - clear Hl. intros d' t'. rewrite set_counters. destruct (bool_decide_reflect (d' = d)) as [->|_]; [|apply (pw_counters _ Hw)].
    rewrite entry_insert. destruct (bool_decide_reflect (t' = t)) as [->|_]; [|apply (pw_counters _ Hw)]. simpl. rewrite Hm. apply counters_wf_counted, counters_wf_write, Hw.
  - apply (pw_poller _ Hw).
  - apply (pw_seq _ Hw).
Qed.

(** What a write of publisher [k] publishes, if it does. *)
Definition emission (k : nat) (now : Z) (payload : list byte) p : option (Domain * Sample) :=
  match sh_publishers p !! k with
  | None => None
  | Some w =>
      if sp_closed w || ((0 <? max_sample_size (sp_qos w)) && (max_sample_size (sp_qos w) <? len payload)) then None
      else match uadd (E:=Error) 64 (sp_seq w) 1 with
           | Ok seq => Some (sp_domain w, mkSample (sp_topic w) payload now seq (sp_writer_guid w))
           | _ => None
           end
  end.

(** [p'] is [p] but for its publishers, participants and pools. *)
Definition same_routing p p' : Prop :=
  sh_origin p' = sh_origin p ∧ (∀ d, broker_of d p' = broker_of d p) ∧ sh_queues p' = sh_queues p ∧
  sh_subscribers p' = sh_subscribers p.

Lemma bumped_seqs k w p : (∀ j v, sh_publishers p !! j = Some v → is_u64 (sp_seq v)) → is_u64 (sp_seq w) →
  ∀ j v, <[k := w]> (sh_publishers p) !! j = Some v → is_u64 (sp_seq v).
Proof using Type.
  intros Hp Hw j v Hj. destruct (decide (k = j)) as [<-|Hne].
  - apply list_lookup_insert_Some in Hj as [(_ & <- & _)|[? _]]; [done|congruence].
  - rewrite list_lookup_insert_ne in Hj by done. by eapply Hp.
Qed.

Lemma write_payload_cases k now payload io p fs : process_wf p →
  match emission k now payload p with
  | Some (d, x) => ∃ qos p1, same_routing p p1 ∧ process_wf p1 ∧ is_u64 (sequence_number x) ∧
      let '(b, q) := ShmemBroker.publish (topic x) x qos (broker_of d p1) (sh_queues p1) in
      write_payload temp_dir k now payload io (p, fs) =
      (Ok tt, (set_broker d b q p1, write_sample temp_dir (sh_origin p) io d (topic x) x fs))
  | None => ∃ r p1, write_payload temp_dir k now payload io (p, fs) = (r, (p1, fs)) ∧ same_routing p p1 ∧ process_wf p1
  end.
Proof using Type.
  intros Hw. unfold emission, write_payload. destruct (sh_publishers p !! k) as [w|] eqn:Hk; [|by eexists _, p].
  destruct (sp_closed w) eqn:Hc; simpl; [by eexists _, p|].
  destruct ((0 <? max_sample_size (sp_qos w)) && _); [by eexists _, p|].
  set (p1 := set_publishers _ p).
  assert (process_wf p1) as Hw1.
  { apply (wf_frame p); try done. apply bumped_seqs; [apply Hw|]. simpl. apply as_u64_range. }
  destruct (uadd 64 (sp_seq w) 1) as [n|[]|] eqn:Hn; try (by eexists _, p1).
  exists (sp_qos w), p1. split_and!; [done..| |].
  - simpl. unfold uadd in Hn. pose proof (pw_seq _ Hw _ _ Hk) as [? ?].
    destruct (Z.ltb_spec (sp_seq w + 1) (2 ^ 64)); [injection Hn as <-; unfold is_u64; lia|].
    destruct overflow_checks; [done|]. injection Hn as <-. apply as_u64_range.
  - simpl. by destruct (ShmemBroker.publish _ _ _ _ _).
Qed.

Lemma new_subscriber_cases k t qos opts p : process_wf p →
  (∃ r, new_subscriber temp_dir k t qos opts p = (r, p)) ∨
  ∃ d i b q dl, new_subscriber temp_dir k t qos opts p =
      (Ok (length (sh_subscribers p)),
       set_subscribers (sh_subscribers p ++ [mkShmemSubscriber (length (sh_queues p)) d t
         (spawn_poller temp_dir d t (durability qos)) dl]) (set_broker d b q p)) ∧
    q = sh_queues p ++ [i] ∧ closed i = false ∧
    (queue i = [] ∨ ∃ x, cached d t p = Some x ∧ queue i = [x]) ∧
    b = <[t := ShmemBroker.mkTopicState (listed d t p ++ [length (sh_queues p)]) (cached d t p) (counters d t p)]> (broker_of d p).
Proof using Type.
  intros Hw. unfold new_subscriber. destruct (usable k t p) as [pa|e|]; [|left; eauto..]. right.
  unfold ShmemBroker.subscribe. eexists (pa_domain pa), _, _, _, _. split; [reflexivity|]. split; [reflexivity|].
  set (i0 := SubInner_new _ _).
  assert (is_open i0 ∧ queue i0 = [] ∧ 1 <= capacity i0) as (Ho & Hq0 & Hc).
  { split_and!; [done|done|]. unfold i0, SubInner_new, chan_depth. simpl. destruct (Z.ltb_spec 0 (channel_depth opts)); lia. }
  destruct Ho as [Hu Hcl]. clearbody i0.
  unfold cached. destruct (bool_decide _); [|split_and!; [done|by left|done]].
  destruct (ShmemBroker.last_sample _) as [x|] eqn:Hx; [|split_and!; [done|by left|done]].
  split_and!; [by rewrite push_flag| |done]. right. exists x. split; [done|].
  rewrite push_open by done. simpl. unfold push_locked. rewrite Hq0, len_nil.
  destruct (policy i0); by rewrite (proj2 (Z.leb_gt _ _)) by lia.
Qed.

Lemma broker_for_same d p d' : broker_of d' (broker_for d p) = broker_of d' p.
Proof using Type. unfold broker_for. rewrite broker_of_set. by destruct (bool_decide_reflect (d' = d)) as [->|]. Qed.

(** The calls that leave the routing alone. *)
Lemma make_publisher_same k t qos p r p' : process_wf p → make_publisher k t qos p = (r, p') →
  same_routing p p' ∧ process_wf p'.
Proof using Type.
  intros Hw. unfold make_publisher. destruct (usable k t p) as [pa|e|]; [|by intros [= <- <-]..].
  intros [= <- <-]. split; [done|]. apply (wf_frame p); try done. simpl. intros j w Hj.
  apply lookup_app_Some in Hj as [Hj|[_ Hj]]; [by eapply pw_seq|].
  by apply list_lookup_singleton_Some in Hj as [_ <-].
Qed.

Context (with_capacity : Z → Z).

Lemma quiet_step e p fs : process_wf p →
  match e with
  | NewParticipant _ | NewPublisher _ _ _ | NewLoaning _ _ _ _ | PublisherClose _ | Loan _ _ | ParticipantClose _ =>
      let '(p', fs') := process_step temp_dir with_capacity e (p, fs) in
      same_routing p p' ∧ process_wf p' ∧ fs' = fs
  | _ => True
  end.
Proof using Type.
  intros Hw. destruct e as [d|k t qos|k t qos n|k t qos opts|k ctx now pl io|k|l size|l buf now io|k|k|k|k|k]; try done;
    cbn [process_step].
  - unfold ShmemParticipant_new. destruct (validate_domain d); simpl; [|by split_and!..].
    split; [split_and!; try done; apply broker_for_same|]. split; [|done].
    apply (wf_frame p); try done; [apply broker_for_same|]. apply Hw.
  - destruct (make_publisher k t qos p) as [r p'] eqn:Hm. by destruct (make_publisher_same _ _ _ _ _ _ Hw Hm).
  - unfold new_loaning_publisher. destruct (make_publisher k t qos p) as [r p'] eqn:Hm.
    destruct (make_publisher_same _ _ _ _ _ _ Hw Hm) as [Hs Hw']. destruct r; simpl; [|done..].
    split; [exact Hs|]. split; [|done]. apply (wf_frame p'); try done. apply Hw'.
  - split_and!; try done. apply (wf_frame p); try done. unfold publisher_close. simpl. intros j w.
    rewrite list_lookup_alter. case_decide; [|by apply Hw]. intros (v & Hv & ->)%fmap_Some. simpl. by eapply (pw_seq _ Hw).
  - unfold loan. destruct (sh_loaning p !! l); [|done]. destruct (publisher_closed _ p); [done|].
    destruct (loan_from _ _ _). split_and!; try done. apply (wf_frame p); try done. apply Hw.
  - split_and!; try done. apply (wf_frame p); try done. apply Hw.
Qed.
End wf.

(** ** Where samples come from *)

Section provenance.
Context {N : Type} `{!Notify N} `{!BuildProfile} (temp_dir : Path).
Notation process := (Process N).
Implicit Types p : process.
Notation process_wf := (process_wf temp_dir).

(** A sample published by the process with this origin, on this domain. *)
Notation Publication := (Z * Domain * Sample)%type.

(** What an event publishes. *)
Definition publishes (e : ShmEvent) p : option (Domain * Sample) :=
  match e with
  | Write k ctx now payload _ => if Context_done now ctx then None else emission k now payload p
  | Commit l buf now _ => x ← sh_loaning p !! l; emission (lo_inner x) now (b_bytes buf) p
  | _ => None
  end.
Definition publication (e : ShmEvent) p : list Publication :=
  match publishes e p with Some (d, x) => [(sh_origin p, d, x)] | None => [] end.

(** The same file, and the same sample but for its time and topic. *)
Definition came_from (pubs : list Publication) (d : Domain) (t : str) (x : Sample) : Prop :=
  ∃ o d' y, (o, d', y) ∈ pubs ∧ resolve (data_path temp_dir d' (topic y)) = resolve (data_path temp_dir d t) ∧
    topic x = t ∧ s_payload x = s_payload y ∧ sequence_number x = sequence_number y ∧ writer_guid x = writer_guid y.

Record sourced (pubs : list Publication) p : Prop := {
  so_queue k s i : sh_subscribers p !! k = Some s → sh_queues p !! k = Some i →
    Forall (came_from pubs (su_domain s) (su_topic s)) (queue i);
  so_cached d t x : cached d t p = Some x → (∃ o, (o, d, x) ∈ pubs) ∧ topic x = t }.

Record files_sourced (pubs : list Publication) (fs : Files) : Prop := {
  fo_names : names_ok fs;
  fo_file d t bytes : file_read (data_path temp_dir d t) fs = Some bytes →
    ∃ o d' y, (o, d', y) ∈ pubs ∧ resolve (data_path temp_dir d' (topic y)) = resolve (data_path temp_dir d t) ∧
      bytes = encode o y }.

(** Sequence numbers and lengths at their width. *)
Definition pubs_ok (pubs : list Publication) : Prop :=
  Forall (λ u, is_u64 u.1.1 ∧ is_u64 (sequence_number u.2) ∧ len (s_payload u.2) < 2 ^ 32) pubs.

Lemma came_from_mono pubs pubs' d t x : pubs ⊆ pubs' → came_from pubs d t x → came_from pubs' d t x.
Proof using Type. intros Hp (o & d' & y & Hin & ?). exists o, d', y. split; [by apply Hp|done]. Qed.

Lemma sourced_mono pubs pubs' p : pubs ⊆ pubs' → sourced pubs p → sourced pubs' p.
Proof using Type.
  intros Hp [H1 H2]. split.
  - intros k s i Hs Hi. eapply Forall_impl; [by eapply H1|]. intros x. by apply came_from_mono.
  - intros d t x Hx. destruct (H2 d t x Hx) as [[o Ho] ?]. split; [exists o; by apply Hp|done].
Qed.

Lemma files_mono pubs pubs' fs : pubs ⊆ pubs' → files_sourced pubs fs → files_sourced pubs' fs.
Proof using Type.
  intros Hp [H1 H2]. split; [done|]. intros d t bytes Hb.
  destruct (H2 d t bytes Hb) as (o & d' & y & Hin & ?). exists o, d', y. split; [by apply Hp|done].
Qed.

Lemma sourced_same pubs p p' : same_routing p p' → sourced pubs p → sourced pubs p'.
Proof using Type.
  intros (_ & Hb & Hq & Hs) [H1 H2]. split; rewrite ?Hq, ?Hs; [done|].
  intros d t. unfold cached. rewrite Hb. apply H2.
Qed.

Lemma push_elem (i : SubInner N) x y : y ∈ queue (push i x).2 → y ∈ queue i ∨ y = x.
Proof using Type.
  unfold push. destruct (unsubscribed i || closed i); [by left|]. unfold push_locked.
  destruct (policy i); repeat case_match; simplify_eq; simpl; rewrite ?elem_of_app, ?list_elem_of_singleton; try tauto.
  intros [Hy|?]; [left|by right]. destruct (queue i); [done|]. by right.
Qed.

Lemma push_sourced P (i : SubInner N) x : Forall P (queue i) → P x → Forall P (queue (push i x).2).
Proof using Type.
  rewrite !Forall_forall. intros Hi Hx y [Hy| ->]%push_elem; [by apply Hi|done].
Qed.

(** A poll adds a sample that some process published to the same file. *)
Lemma poll_sourced pubs o fs po (i : SubInner N) d t : files_sourced pubs fs → pubs_ok pubs →
  po_path po = data_path temp_dir d t → po_topic po = t → Forall (came_from pubs d t) (queue i) →
  let '(po', i') := poll o fs po i in
  po_path po' = po_path po ∧ po_topic po' = t ∧ closed i' = closed i ∧ Forall (came_from pubs d t) (queue i').
Proof using Type.
  intros Hf Hpubs Hpath Htopic Hi.
  assert (∀ dd, read_current (po_path po) fs = Ok dd → Forall (came_from pubs d t) (queue (deliver t dd i))) as Hd.
  { intros dd. unfold read_current. rewrite Hpath. destruct (file_read _ fs) as [bytes|] eqn:Hr; [|done]. intros Hdec.
    destruct (fo_file _ _ Hf _ _ _ Hr) as (o' & d' & y & Hin & Hp & ->).
    destruct (proj1 (Forall_forall _ _) Hpubs _ Hin) as (Ho & Hs & Hl). simpl in *.
    apply decode_encode_inv in Hdec as ->; [|done..]. apply push_sourced; [done|]. exists o', d', y. by split_and!. }
  unfold poll. rewrite Htopic. repeat case_match; simplify_eq/=; split_and!; try done; first [by apply Hd | apply push_flag].
Qed.

(** *** Every step *)

(** [p'] has other queues and pollers for the same subscribers. *)
Lemma wf_queues p p' :
  (∀ d, broker_of d p' = broker_of d p) → sh_publishers p' = sh_publishers p →
  length (sh_queues p') = length (sh_queues p) →
  (∀ k i', sh_queues p' !! k = Some i' → ∃ i, sh_queues p !! k = Some i ∧ (closed i' = false → closed i = false)) →
  length (sh_subscribers p') = length (sh_subscribers p) →
  (∀ k s', sh_subscribers p' !! k = Some s' → ∃ s, sh_subscribers p !! k = Some s ∧ su_inner s' = su_inner s ∧
     su_domain s' = su_domain s ∧ su_topic s' = su_topic s ∧
     po_path (su_poller s') = po_path (su_poller s) ∧ po_topic (su_poller s') = po_topic (su_poller s)) →
  process_wf p → process_wf p'.
Proof using Type.
  intros Hb Hpub Hlen Hq Hlens Hsub Hw.
  assert (∀ d t, listed d t p' = listed d t p) as Hl by (intros; unfold listed; by rewrite Hb).
  assert (∀ d t, counters d t p' = counters d t p) as Hc by (intros; unfold counters; by rewrite Hb).
  split.
  - rewrite Hlen, <- (pw_queues _ _ Hw). apply list_eq. intros k. rewrite !list_lookup_fmap.
    destruct (sh_subscribers p' !! k) as [s'|] eqn:Hs'.
    + destruct (Hsub k s' Hs') as (s & -> & Hi & _). simpl. by rewrite Hi.
    + apply lookup_ge_None in Hs'. rewrite Hlens in Hs'. by apply lookup_ge_None in Hs' as ->.
  - intros d t. rewrite Hl. destruct (pw_listed _ _ Hw d t) as [Hnd Hin]. split; [done|].
    intros id (s & Hs & Hd & Ht)%Hin.
    destruct (lookup_lt_is_Some_2 (sh_subscribers p') id) as [s' Hs'].
    { rewrite Hlens. by eapply lookup_lt_Some. }
    destruct (Hsub id s' Hs') as (s0 & Hs0 & _ & Hd0 & Ht0 & _). exists s'. split_and!; [done|congruence..].
  - intros k s' i' Hs' Hi' Hc'. destruct (Hsub k s' Hs') as (s & Hs & _ & -> & -> & _).
    destruct (Hq k i' Hi') as (i & Hi & Hci). rewrite Hl. eapply pw_open; [done..|by apply Hci].
  - intros d t. rewrite Hc. apply (pw_counters _ _ Hw).
  - intros k s' Hs'. destruct (Hsub k s' Hs') as (s & Hs & _ & -> & -> & -> & ->). by eapply pw_poller.
  - rewrite Hpub. apply (pw_seq _ _ Hw).
Qed.

(** The queue of a subscriber changes and its poller may. *)
Lemma wf_one k s i i' s' p : process_wf p → sh_subscribers p !! k = Some s → sh_queues p !! k = Some i →
  (closed i' = false → closed i = false) →
  su_inner s' = su_inner s ∧ su_domain s' = su_domain s ∧ su_topic s' = su_topic s ∧
  po_path (su_poller s') = po_path (su_poller s) ∧ po_topic (su_poller s') = po_topic (su_poller s) →
  process_wf (set_subscribers (<[k := s']> (sh_subscribers p)) (set_local (sh_brokers p) (<[k := i']> (sh_queues p)) p)).
Proof using Type.
  intros Hw Hs Hi Hc Hs'. apply (wf_queues p); try done; simpl; rewrite ?length_insert; try done.
  - intros j i0. destruct (decide (k = j)) as [<-|Hne].
    + intros [(_ & <- & _)|[? _]]%list_lookup_insert_Some; [by exists i|done].
    + rewrite list_lookup_insert_ne by done. intros Hj. by exists i0.
  - intros j s0. destruct (decide (k = j)) as [<-|Hne].
    + intros [(_ & <- & _)|[? _]]%list_lookup_insert_Some; [by exists s|done].
    + rewrite list_lookup_insert_ne by done. intros Hj. by exists s0.
Qed.

Lemma sourced_one pubs k s i i' s' p : sourced pubs p → process_wf p → sh_subscribers p !! k = Some s →
  sh_queues p !! k = Some i → Forall (came_from pubs (su_domain s) (su_topic s)) (queue i') →
  su_domain s' = su_domain s → su_topic s' = su_topic s →
  sourced pubs (set_subscribers (<[k := s']> (sh_subscribers p)) (set_local (sh_brokers p) (<[k := i']> (sh_queues p)) p)).
Proof using Type.
  intros [H1 H2] Hw Hs Hi Hq Hd Ht. split; [|done]. simpl. intros j s0 i0. destruct (decide (k = j)) as [<-|Hne].
  - intros [(_ & <- & _)|[? _]]%list_lookup_insert_Some; [|done].
    intros [(_ & <- & _)|[? _]]%list_lookup_insert_Some; [|done]. by rewrite Hd, Ht.
  - rewrite !list_lookup_insert_ne by done. apply H1.
Qed.

Lemma sourced_alter pubs f k p : (∀ i, queue (f i) ⊆ queue i) → sourced pubs p → sourced pubs (with_queue f k p).
Proof using Type.
  intros Hf [H1 H2]. split; [|done]. simpl. intros j s i Hs. rewrite list_lookup_alter.
  case_decide; [|by eauto]. intros (i0 & Hi0 & ->)%fmap_Some. apply Forall_forall. intros x Hx%Hf.
  eapply Forall_forall; [|exact Hx]. subst. by eapply H1.
Qed.

Lemma sourced_remove pubs s p : sourced pubs p → sourced pubs (remove_from_broker s p).
Proof using Type. intros [H1 H2]. split; [exact H1|]. intros d t x. rewrite cached_remove. apply H2. Qed.

Lemma unsubscribed_step f k s pubs p : process_wf p → sourced pubs p → sh_subscribers p !! k = Some s →
  (∀ i, closed (f i) = true) → (∀ i, queue (f i) = queue i) →
  process_wf (remove_from_broker s (with_queue f (su_inner s) p)) ∧
  sourced pubs (remove_from_broker s (with_queue f (su_inner s) p)).
Proof using Type.
  intros Hw Hs Hk Hc Hq. destruct (queue_of _ _ _ _ Hw Hk) as [Hin [i Hi]]. split.
  - apply (wf_remove _ k); [by apply wf_alter|done|]. simpl. intros i'. rewrite list_lookup_alter, decide_True by done.
    by intros (i0 & _ & ->)%fmap_Some.
  - apply sourced_remove, sourced_alter; [|done]. intros i0. by rewrite Hq.
Qed.

Lemma files_written pubs o io d x fs : files_sourced pubs fs → 
  files_sourced (pubs ++ [(o, d, x)]) (write_sample temp_dir o io d (topic x) x fs).
Proof using Type.
  intros Hf. destruct (write_sample_spec temp_dir o io d (topic x) x fs (fo_names _ _ Hf)) as (b & _ & Hok & Hw).
  split; [done|]. intros d' t' bytes Hb. unfold file_read in Hb.
  rewrite Hw in Hb by apply data_not_tmp. destruct (b && bool_decide _) eqn:E.
  - apply andb_prop in E as [_ E%bool_decide_eq_true]. injection Hb as <-. exists o, d, x.
    split_and!; [set_solver| |done]. symmetry. exact E.
  - destruct (fo_file _ _ Hf d' t' bytes Hb) as (o' & d1 & y & Hin & ?). exists o', d1, y. split; [set_solver|done].
Qed.

Lemma write_inv pubs k now payload io p fs : process_wf p → sourced pubs p → files_sourced pubs fs →
  let pubs' := pubs ++ match emission k now payload p with Some (d, x) => [(sh_origin p, d, x)] | None => [] end in
  let '(r, (p', fs')) := write_payload temp_dir k now payload io (p, fs) in
  process_wf p' ∧ sh_origin p' = sh_origin p ∧ sourced pubs' p' ∧ files_sourced pubs' fs'.
Proof using Type.
  intros Hw Hs Hf. pose proof (write_payload_cases temp_dir k now payload io p fs Hw) as Hc.
  destruct (emission k now payload p) as [[d x]|]; cbv zeta.
  2: { destruct Hc as (r & p1 & -> & Hr & Hw1). rewrite app_nil_r. split_and!; [done|apply Hr|by eapply sourced_same|done]. }
  destruct Hc as (qos & p1 & Hr & Hw1 & _ & Hc). pose proof (shm_publish_spec temp_dir p1 d (topic x) x qos Hw1) as Hp.
  destruct (ShmemBroker.publish _ _ _ _ _) as [b q]. rewrite Hc. destruct Hp as (Hw2 & Hq & Hca).
  split_and!; [done|apply Hr| |by apply files_written].
  apply (sourced_same _ _ _ Hr) in Hs. destruct Hs as [H1 H2]. split.
  - intros j s i Hj Hi. simpl in Hj, Hi. destruct (queue_of _ _ _ _ Hw1 Hj) as [_ [i0 Hi0]].
    rewrite (Hq j s i0 Hj Hi0) in Hi. injection Hi as <-.
    assert (Forall (came_from (pubs ++ [(sh_origin p, d, x)]) (su_domain s) (su_topic s)) (queue i0)) as Hall.
    { eapply Forall_impl; [by eapply H1|]. intros y. apply came_from_mono. set_solver. }
    destruct (decide (su_domain s = d ∧ su_topic s = topic x)) as [[Hsd Ht]|_]; [|exact Hall].
    apply push_sourced; [exact Hall|]. exists (sh_origin p), d, x. rewrite Hsd, Ht. split_and!; try done. set_solver.
  - intros d' t' y. rewrite Hca. destruct (bool_decide_reflect (d' = d ∧ t' = topic x ∧ durability qos = TransientLocal))
      as [(-> & -> & _)|_].
    + intros [= <-]. split; [exists (sh_origin p); set_solver|done].
    + intros Hx. destruct (H2 _ _ _ Hx) as [[o Ho] ?]. split; [exists o; set_solver|done].
Qed.

Lemma new_subscriber_inv pubs k t qos opts p : process_wf p → sourced pubs p →
  let p' := (new_subscriber temp_dir k t qos opts p).2 in
  process_wf p' ∧ sh_origin p' = sh_origin p ∧ sourced pubs p'.
Proof using Type.
  intros Hw Hs. cbv zeta.
  destruct (new_subscriber_cases temp_dir k t qos opts p Hw) as [[r ->]|(d & i & b & q & dl & -> & Hq & Hcl & Hqi & Hb)];
    [done|]. cbn [snd]. set (n := length (sh_queues p)) in *.
  set (s := mkShmemSubscriber n d t _ dl).
  assert (length (sh_subscribers p) = n) as Hn.
  { rewrite <- (length_fmap su_inner), (pw_queues _ _ Hw). apply length_seq. }
  assert (∀ d' t', listed d' t' (set_broker d b q p) = if decide (d' = d ∧ t' = t) then listed d t p ++ [n] else listed d' t' p) as Hl.
  { intros d' t'. rewrite set_listed, Hb, entry_insert. destruct (bool_decide_reflect (d' = d)) as [->|Hne].
    - destruct (bool_decide_reflect (t' = t)) as [->|Hne]; [by rewrite decide_True|by rewrite decide_False by tauto].
    - by rewrite decide_False by tauto. }
  assert (∀ d' t', cached d' t' (set_broker d b q p) = cached d' t' p) as Hca.
  { intros d' t'. rewrite set_cached, Hb, entry_insert. destruct (bool_decide_reflect (d' = d)) as [->|Hne]; [|done].
    by destruct (bool_decide_reflect (t' = t)) as [->|Hne]. }
  assert (∀ j s0, (sh_subscribers p ++ [s]) !! j = Some s0 → (sh_subscribers p !! j = Some s0 ∧ j < n)%nat ∨ (j = n ∧ s0 = s)) as Hsub.
  { intros j s0 [Hj|[Hj1 Hj2]]%lookup_app_Some; [left; split; [done|]; rewrite <- Hn; by eapply lookup_lt_Some|right].
    apply list_lookup_singleton_Some in Hj2 as [? <-]. split; [lia|done]. }
  assert (∀ j i0, q !! j = Some i0 → (sh_queues p !! j = Some i0 ∧ j < n)%nat ∨ (j = n ∧ i0 = i)) as Hqs.
  { intros j i0. rewrite Hq. intros [Hj|[Hj1 Hj2]]%lookup_app_Some; [left; split; [done|]; by eapply lookup_lt_Some|right].
    apply list_lookup_singleton_Some in Hj2 as [? <-]. unfold n. split; [lia|done]. }
  split_and!; [|done|].
  - split; simpl.
    + rewrite fmap_app, (pw_queues _ _ Hw), Hq, length_app, Nat.add_1_r, List.seq_S. done.
    + intros d' t'. change (listed d' t' (set_subscribers _ _)) with (listed d' t' (set_broker d b q p)). rewrite Hl.
      destruct (pw_listed _ _ Hw d' t') as [Hnd Hin].
      assert (∀ id, id ∈ listed d' t' p → ∃ s0, (sh_subscribers p ++ [s]) !! id = Some s0 ∧ su_domain s0 = d' ∧ su_topic s0 = t') as Hin'.
      { intros id (s0 & Hs0 & ?)%Hin. exists s0. split; [by apply (lookup_app_l_Some _ _ _ _ Hs0)|done]. }
      destruct (decide (d' = d ∧ t' = t)) as [[-> ->]|_]; [|done]. split.
      * apply NoDup_app. split_and!; [done| |apply NoDup_singleton]. intros id (s0 & Hs0 & _)%Hin ->%list_elem_of_singleton.
        apply lookup_lt_Some in Hs0. lia.
      * intros id [Hid| ->%list_elem_of_singleton]%elem_of_app; [by apply Hin'|]. exists s. rewrite <- Hn, list_lookup_middle by done. done.
    + intros j s0 i0 Hj Hi Hc. change (listed ?x ?y (set_subscribers _ _)) with (listed x y (set_broker d b q p)). rewrite Hl.
      destruct (Hsub _ _ Hj) as [[Hj' Hlt]|[-> ->]].
      * destruct (Hqs _ _ Hi) as [[Hi' _]|[? _]]; [|lia]. pose proof (pw_open _ _ Hw _ _ _ Hj' Hi' Hc).
        destruct (decide (su_domain s0 = d ∧ su_topic s0 = t)) as [[<- <-]|_]; [set_solver|done].
      * rewrite decide_True by done. set_solver.
    + intros d' t'. change (counters d' t' (set_subscribers _ _)) with (counters d' t' (set_broker d b q p)).
      rewrite set_counters, Hb, entry_insert. destruct (bool_decide_reflect (d' = d)) as [->|]; [|apply (pw_counters _ _ Hw)].
      destruct (bool_decide_reflect (t' = t)) as [->|]; apply (pw_counters _ _ Hw).
    + intros j s0 Hj. destruct (Hsub _ _ Hj) as [[Hj' _]|[_ ->]]; [exact (pw_poller _ _ Hw _ _ Hj')|done].
    + apply (pw_seq _ _ Hw).
  - destruct Hs as [H1 H2]. split; simpl.
    + intros j s0 i0 Hj Hi. destruct (Hsub _ _ Hj) as [[Hj' Hlt]|[-> ->]], (Hqs _ _ Hi) as [[Hi' ?]|[? ->]]; try lia; [by eapply H1|].
      destruct Hqi as [->|(x & Hx & ->)]; [done|]. apply Forall_singleton. destruct (H2 d t x Hx) as [[o Ho] Ht].
      exists o, d, x. simpl. split_and!; try done. by rewrite Ht.
    + intros d' t' x. change (cached d' t' (set_subscribers _ _)) with (cached d' t' (set_broker d b q p)).
      rewrite Hca. apply H2.
Qed.
(** *** The steps of a process *)

Context (with_capacity : Z → Z).
Notation process_step := (process_step temp_dir with_capacity).

Lemma subscriber_step pubs e p fs : process_wf p → sourced pubs p → files_sourced pubs fs → pubs_ok pubs →
  match e with
  | Unsubscribe _ | SubscriberClose _ | TryRecv _ | PollRound _ =>
      let '(p', fs') := process_step e (p, fs) in
      process_wf p' ∧ sh_origin p' = sh_origin p ∧ sourced pubs p' ∧ fs' = fs
  | _ => True
  end.
Proof using Type.
  intros Hw Hs Hf Hp. destruct e as [?|?|?|?|?|?|?|?|k|k|k|k|?]; try done; cbn [Shmem.process_step].
  - unfold subscriber_unsubscribe. destruct (sh_subscribers p !! k) as [s|] eqn:Hk; [|done].
    by destruct (unsubscribed_step SubQueue.unsubscribe k s pubs p Hw Hs Hk).
  - unfold subscriber_close. destruct (sh_subscribers p !! k) as [s|] eqn:Hk; [|done].
    destruct (unsubscribed_step SubQueue.close k s pubs p Hw Hs Hk) as [Hw' [H1 H2]]; [done..|].
    set (p1 := remove_from_broker s _) in *. split_and!; try done.
    + apply (wf_queues p1); try done; simpl; rewrite ?length_insert; try done; [by eauto|].
      intros j s0. destruct (decide (k = j)) as [<-|Hne].
      * intros [(_ & <- & _)|[? _]]%list_lookup_insert_Some; [by exists s|done].
      * rewrite list_lookup_insert_ne by done. intros Hj. by exists s0.
    + split; [|done]. intros j s0 i. simpl. destruct (decide (k = j)) as [<-|Hne].
      * intros [(_ & <- & _)|[? _]]%list_lookup_insert_Some; [|done]. exact (H1 k s i Hk).
      * rewrite list_lookup_insert_ne by done. exact (H1 j s0 i).
  - unfold subscriber_try_recv. destruct (sh_subscribers p !! k) as [s|]; [|done].
    assert (∀ i : SubInner N, queue (SubQueue.try_recv i).2 ⊆ queue i ∧ closed (SubQueue.try_recv i).2 = closed i) as Hpop.
    { intros i. unfold SubQueue.try_recv, pop. destruct (queue i) eqn:E; simpl; [by rewrite E|].
      split; [by apply list_subseteq_cons|done]. }
    split_and!; [|done| |done].
    + apply wf_alter; [done|]. intros i. by rewrite (proj2 (Hpop i)).
    + apply sourced_alter; [|done]. intros i. apply Hpop.
  - unfold poll_round. destruct (sh_subscribers p !! k) as [s|] eqn:Hk; [|done].
    destruct (queue_of _ _ _ _ Hw Hk) as [Hin [i Hi]]. rewrite Hin, Hi.
    destruct (pw_poller _ _ Hw _ _ Hk) as [Hpath Htopic].
    pose proof (poll_sourced pubs (sh_origin p) fs (su_poller s) i (su_domain s) (su_topic s) Hf Hp Hpath Htopic
      (so_queue _ _ Hs _ _ _ Hk Hi)) as Hpoll.
    destruct (poll _ _ _ _) as [po' i']. destruct Hpoll as (Hp1 & Hp2 & Hc & Hq). split_and!; [|done| |done].
    + apply (wf_one _ s i); [done..|by rewrite Hc|]. simpl. split_and!; congruence.
    + by apply (sourced_one _ _ s i).
Qed.

Lemma publication_origin e p u : u ∈ publication e p → u.1.1 = sh_origin p.
Proof using Type.
  unfold publication. destruct (publishes e p) as [[d x]|]; [|by intros ?%elem_of_nil].
  by intros ->%list_elem_of_singleton.
Qed.

Lemma publication_seq e p u : process_wf p → u ∈ publication e p → is_u64 (sequence_number u.2).
Proof.
  intros Hw. assert (∀ k now payload d x, emission k now payload p = Some (d, x) → is_u64 (sequence_number x)) as He.
  { intros k now payload d x Hx. pose proof (write_payload_cases temp_dir k now payload [] p names_empty Hw) as Hc.
    rewrite Hx in Hc. by destruct Hc as (_ & _ & _ & _ & ? & _). }
  unfold publication, publishes. destruct e as [?|?|?|?|k ctx now pl io|?|?|l buf now io|?|?|?|?|?];
    try (by intros ?%elem_of_nil).
  - destruct (Context_done now ctx); [by intros ?%elem_of_nil|].
    destruct (emission _ _ _ _) as [[d x]|] eqn:E; [|by intros ?%elem_of_nil]. intros ->%list_elem_of_singleton. by eapply He.
  - destruct (sh_loaning p !! l) as [lo|]; simpl; [|by intros ?%elem_of_nil].
    destruct (emission _ _ _ _) as [[d x]|] eqn:E; [|by intros ?%elem_of_nil]. intros ->%list_elem_of_singleton. by eapply He.
Qed.

Lemma step_inv pubs e p fs : process_wf p → sourced pubs p → files_sourced pubs fs → pubs_ok pubs →
  let pubs' := pubs ++ publication e p in
  let '(p', fs') := process_step e (p, fs) in
  process_wf p' ∧ sh_origin p' = sh_origin p ∧ sourced pubs' p' ∧ files_sourced pubs' fs'.
Proof.
  intros Hw Hs Hf Hp. pose proof (quiet_step temp_dir with_capacity e p fs Hw) as Hquiet.
  pose proof (subscriber_step pubs e p fs Hw Hs Hf Hp) as Hsub.
  assert (publishes e p = None → publication e p = []) as Hnone by (unfold publication; by intros ->).
  destruct e as [d|k t qos|k t qos n|k t qos opts|k ctx now pl io|k|l size|l buf now io|k|k|k|k|k]; cbv zeta;
    try (rewrite Hnone, app_nil_r by done; destruct (process_step _ _) as [p' fs'];
      destruct Hquiet as (Hr & Hw' & ->); split_and!; [done|apply Hr|by eapply sourced_same|done]);
    try (rewrite Hnone, app_nil_r by done; destruct (process_step _ _) as [p' fs']; by destruct Hsub as (? & ? & ? & ->)).
  - rewrite Hnone, app_nil_r by done. cbn [Shmem.process_step].
    destruct (new_subscriber_inv pubs k t qos opts p Hw Hs) as (? & ? & ?). by split_and!.
  - cbn [Shmem.process_step]. unfold publication, publishes, write_payload_ctx. destruct (Context_done now ctx).
    { by rewrite app_nil_r. }
    pose proof (write_inv pubs k now pl io p fs Hw Hs Hf) as Hwr. cbv zeta in Hwr.
    destruct (write_payload _ _ _ _ _ _) as [r [p' fs']]. exact Hwr.
  - cbn [Shmem.process_step]. unfold publication, publishes, commit. cbn [fst].
    destruct (sh_loaning p !! l) as [lo|]; cbn [mbind option_bind snd]; [|by rewrite app_nil_r].
    pose proof (write_inv pubs (lo_inner lo) now (b_bytes buf) io p fs Hw Hs Hf) as Hwr. cbv zeta in Hwr.
    destruct (write_payload _ _ _ _ _ _) as [r [p' fs']]. destruct Hwr as (Hw' & Ho & Hs' & Hf').
    set (p1 := set_pool l (BytePool.put buf (lo_pool lo)) p').
    assert (process_wf p1) as Hw1 by (apply (wf_frame _ p'); try done; apply Hw').
    assert (sourced (pubs ++ match emission (lo_inner lo) now (b_bytes buf) p with
                             | Some (d, x) => [(sh_origin p, d, x)] | None => [] end) p1) as Hs1
      by by apply (sourced_same _ p').
    destruct r; cbn [snd]; by split_and!.
Qed.
End provenance.

(** ** Worlds *)

Section worlds.
Context {N : Type} `{!Notify N} `{!BuildProfile} (temp_dir : Path) (with_capacity : Z → Z).
Notation process := (Process N).
Notation world := (World N).
Notation Publication := (Z * Domain * Sample)%type.
Notation world_step := (world_step temp_dir with_capacity).
Notation world_run := (world_run (N:=N) temp_dir with_capacity).

Definition world_publication (e : nat * ShmEvent) (w : world) : list Publication :=
  match w.1 !! e.1 with Some p => publication e.2 p | None => [] end.

(** Everything published in the course of a run. *)
Fixpoint published (evs : list (nat * ShmEvent)) (w : world) : list Publication :=
  match evs with
  | [] => []
  | e :: evs => world_publication e w ++ published evs (world_step w e)
  end.

Record world_inv (origins : list Z) (pubs : list Publication) (w : world) : Prop := {
  wi_origins : sh_origin <$> w.1 = origins;
  wi_wf : Forall (process_wf temp_dir) w.1;
  wi_sourced : Forall (sourced temp_dir pubs) w.1;
  wi_files : files_sourced temp_dir pubs w.2;
  wi_pubs : Forall (λ u, u.1.1 ∈ origins ∧ is_u64 (sequence_number u.2)) pubs }.

Lemma world_start_inv origins : world_inv origins [] (world_start (N:=N) origins).
Proof.
  split; simpl; [| | | |done].
  - rewrite <- list_fmap_compose. apply list_fmap_id.
  - apply Forall_fmap, Forall_true. intros o. split; simpl; try done; intros *; try by rewrite lookup_nil.
    unfold listed, broker_of, ShmemBroker.topic_entry. simpl. rewrite lookup_empty. split; [constructor|by intros ? ?%elem_of_nil].
  - apply Forall_fmap, Forall_true. intros o. split; simpl; intros *; by rewrite ?lookup_nil.
  - split; [split; simpl; intros *; by rewrite ?lookup_empty|]. intros d t bytes. unfold file_read, content. simpl.
    by rewrite lookup_empty.
Qed.

Definition short (pubs : list Publication) : Prop := Forall (λ u, len (s_payload u.2) < 2 ^ 32) pubs.

Lemma inv_pubs_ok origins pubs w : Forall is_u64 origins → short pubs → world_inv origins pubs w → pubs_ok pubs.
Proof.
  intros Ho Hs [_ _ _ _ Hp]. apply Forall_forall. intros u Hu.
  destruct (proj1 (Forall_forall _ _) Hp u Hu) as [Hou Hsu]. split_and!; [|done|].
  - by apply (proj1 (Forall_forall _ _) Ho).
  - by apply (proj1 (Forall_forall _ _) Hs).
Qed.

Lemma world_step_inv origins pubs e w : Forall is_u64 origins → short pubs → world_inv origins pubs w →
  world_inv origins (pubs ++ world_publication e w) (world_step w e).
Proof.
  intros Ho Hshort Hinv. pose proof (inv_pubs_ok _ _ _ Ho Hshort Hinv) as Hok. destruct Hinv as [Hi1 Hi2 Hi3 Hi4 Hi5].
  unfold world_publication, Shmem.world_step. destruct (w.1 !! e.1) as [p|] eqn:Hp; [|rewrite app_nil_r; by split].
  pose proof (Forall_lookup_1 _ _ _ _ Hi2 Hp) as Hwp. pose proof (Forall_lookup_1 _ _ _ _ Hi3 Hp) as Hsp.
  pose proof (step_inv temp_dir with_capacity pubs e.2 p w.2 Hwp Hsp Hi4 Hok) as Hstep. cbv zeta in Hstep.
  destruct (process_step _ _ e.2 (p, w.2)) as [p' fs']. destruct Hstep as (Hw' & Ho' & Hs' & Hf').
  assert (pubs ⊆ pubs ++ publication e.2 p) as Hsub by set_solver.
  split; simpl; [| | |done|].
  - rewrite list_fmap_insert, Ho', <- Hi1. apply list_insert_id. by rewrite list_lookup_fmap, Hp.
  - by apply Forall_insert.
  - apply Forall_insert; [|done]. eapply Forall_impl; [exact Hi3|]. intros q. by apply sourced_mono.
  - apply Forall_app. split; [done|]. apply Forall_forall. intros u Hu. split; [|exact (publication_seq temp_dir _ _ _ Hwp Hu)].
    rewrite (publication_origin _ _ _ Hu), <- Hi1. apply list_elem_of_fmap. exists p. split; [done|].
    by eapply list_elem_of_lookup_2.
Qed.

Lemma world_run_inv_from origins pubs evs w : Forall is_u64 origins → short (pubs ++ published evs w) →
  world_inv origins pubs w → world_inv origins (pubs ++ published evs w) (foldl world_step w evs).
Proof.
  intros Ho. revert pubs w. induction evs as [|e evs IH]; intros pubs w Hshort Hinv; cbn [published foldl] in *.
  { by rewrite app_nil_r. }
  rewrite app_assoc in *. apply IH; [done|]. apply world_step_inv; [done| |done].
  apply Forall_app in Hshort as [Hs _]. by apply Forall_app in Hs as [? _].
Qed.

Lemma world_run_inv origins evs : Forall is_u64 origins → short (published evs (world_start origins)) →
  world_inv origins (published evs (world_start origins)) (world_run origins evs).
Proof. intros Ho Hs. exact (world_run_inv_from origins [] evs _ Ho Hs (world_start_inv origins)). Qed.

(** ** The properties *)

(** What a run must satisfy: process ids of 64 bits, payloads shorter than
    4 GiB. *)
Definition admissible (origins : list Z) (evs : list (nat * ShmEvent)) : Prop :=
  Forall is_u64 origins ∧ short (published evs (world_start origins)).

(** C7. No sample is invented as long as no two writes overlap.  Take any run of
    any processes that starts without rendezvous files, in which every call
    is over before the next one begins - the calls of different processes in
    any order, with any failures of their system calls - and every payload
    written is shorter than 4 GiB.  Then a sample in the queue of a subscriber
    carries its topic, and the payload, number and writer of a sample that a
    process of the run published, to the same rendezvous file; so on the same
    domain and topic, if both topics are plain.  Two writes to one file that
    do overlap can put a sample there that nobody wrote
    ([overlapping_writes_tear]), and a longer payload arrives cut
    ([rendezvous_roundtrip]). *)
Theorem shm_received_was_published origins evs a p k s i x :
  admissible origins evs → (world_run origins evs).1 !! a = Some p →
  sh_subscribers p !! k = Some s → sh_queues p !! su_inner s = Some i → x ∈ queue i →
  topic x = su_topic s ∧ ∃ o d y, (o, d, y) ∈ published evs (world_start origins) ∧ o ∈ origins ∧
    s_payload x = s_payload y ∧ sequence_number x = sequence_number y ∧ writer_guid x = writer_guid y ∧
    (plain (su_topic s) → plain (topic y) → d = su_domain s ∧ topic y = su_topic s).
Proof.
  intros [Ho Hshort] Hp Hs Hi Hx. destruct (world_run_inv _ _ Ho Hshort) as [_ Hw Hsrc _ Hpubs].
  pose proof (Forall_lookup_1 _ _ _ _ Hw Hp) as Hwp. destruct (queue_of _ _ _ _ Hwp Hs) as [Hin _]. rewrite Hin in Hi.
  pose proof (so_queue _ _ _ (Forall_lookup_1 _ _ _ _ Hsrc Hp) _ _ _ Hs Hi) as Hall.
  destruct (proj1 (Forall_forall _ _) Hall x Hx) as (o & d & y & Hpub & Hpath & Ht & ? & ? & ?). split; [done|].
  exists o, d, y. split_and!; try done.
  - by apply (proj1 (Forall_forall _ _) Hpubs (o, d, y)).
  - intros Hps Hpy. by apply (data_path_inj temp_dir).
Qed.

(** *** Within a process *)

(** The file holds nothing of another origin, so polls add nothing. *)
Lemma poll_own o pubs fs po (i : SubInner N) d t : files_sourced temp_dir pubs fs → pubs_ok pubs →
  Forall (λ u, u.1.1 = o) pubs → po_path po = data_path temp_dir d t → (poll o fs po i).2 = i.
Proof using Type.
  intros Hf Hok Ho Hpath.
  assert (∀ dd, read_current (po_path po) fs = Ok dd → (d_origin_id dd =? o) = true) as Hd.
  { intros dd. unfold read_current. rewrite Hpath. destruct (file_read _ fs) as [bytes|] eqn:Hr; [|done]. intros Hdec.
    destruct (fo_file _ _ _ Hf _ _ _ Hr) as (o' & d' & y & Hin & _ & ->).
    destruct (proj1 (Forall_forall _ _) Hok _ Hin) as (Hu & Hs & Hl). simpl in *.
    apply decode_encode_inv in Hdec as ->; [|done..]. simpl.
    rewrite <- (proj1 (Forall_forall _ _) Ho _ Hin). apply Z.eqb_refl. }
  unfold poll. destruct (po_running po); [|done]. simpl.
  destruct (po_last_seq po); [destruct (closed i || unsubscribed i); [done|]|];
    (destruct (read_current _ fs) as [dd|e|] eqn:E; [|done..]); by rewrite (Hd dd).
Qed.

(** C20. The two paths do not duplicate a sample.  In every run of a single
    process, a poll adds nothing to any queue, for the file holds only
    samples of the process itself; and a write that is not refused reaches
    each subscriber of its domain and topic exactly once, nobody else, and
    returns [Ok] whatever the file system does. *)
Theorem shm_local_exactly_once o evs p :
  admissible [o] evs → (world_run [o] evs).1 !! 0%nat = Some p →
  (∀ k fs, fs = (world_run [o] evs).2 → sh_queues (poll_round k fs p) = sh_queues p) ∧
  ∀ k now payload io fs d x, emission k now payload p = Some (d, x) →
    ∃ p' fs', write_payload temp_dir k now payload io (p, fs) = (Ok tt, (p', fs')) ∧
      ∀ j s i, sh_subscribers p !! j = Some s → sh_queues p !! su_inner s = Some i →
        sh_queues p' !! su_inner s =
          Some (if decide (su_domain s = d ∧ su_topic s = topic x) then (push i x).2 else i).
Proof.
  intros [Ho Hshort] Hp. pose proof (world_run_inv _ _ Ho Hshort) as Hinv.
  pose proof (inv_pubs_ok _ _ _ Ho Hshort Hinv) as Hok. destruct Hinv as [Horg Hw Hsrc Hfiles Hpubs].
  pose proof (Forall_lookup_1 _ _ _ _ Hw Hp) as Hwp. split.
  - intros k fs ->. unfold poll_round. destruct (sh_subscribers p !! k) as [s|] eqn:Hk; [|done].
    destruct (queue_of _ _ _ _ Hwp Hk) as [Hin [i Hi]]. rewrite Hin, Hi.
    destruct (pw_poller _ _ Hwp _ _ Hk) as [Hpath _].
    assert (sh_origin p = o) as Hpo.
    { assert ((sh_origin <$> (world_run [o] evs).1) !! 0%nat = Some (sh_origin p)) as He by by rewrite list_lookup_fmap, Hp.
      rewrite Horg in He. by injection He. }
    pose proof (poll_own o _ _ (su_poller s) i (su_domain s) (su_topic s) Hfiles Hok) as Hpoll. rewrite Hpo.
    destruct (poll o _ _ i) as [po i'] eqn:E. simpl. simpl in Hpoll. rewrite Hpoll; [by apply list_insert_id| |done].
    eapply Forall_impl; [exact Hpubs|]. intros u [Hu _]. by apply list_elem_of_singleton in Hu.
  - intros k now payload io fs d x Hx.
    pose proof (write_payload_cases temp_dir k now payload io p fs Hwp) as Hc. rewrite Hx in Hc.
    destruct Hc as (qos & p1 & (_ & Hb1 & Hq1 & Hs1) & Hw1 & _ & Hc).
    pose proof (shm_publish_spec temp_dir p1 d (topic x) x qos Hw1) as Hpub.
    destruct (ShmemBroker.publish _ _ _ _ _) as [b q]. destruct Hpub as (_ & Hq & _).
    eexists _, _. split; [exact Hc|]. intros j s i Hj Hi. destruct (queue_of _ _ _ _ Hwp Hj) as [Hin _].
    rewrite Hin in *. apply (Hq j s i); congruence.
Qed.

(** *** Between processes *)

(** Whether a tick of the poller delivers the sample numbered [seq]. *)
Definition hears (po : Poller) (seq : Z) : bool :=
  match po_last_seq po with
  | None => bool_decide (po_durability po = TransientLocal)
  | Some n => n <? seq
  end.

(** A sample as another process reads it. *)
Definition as_read (t : str) (x : Sample) : Sample :=
  mkSample t (s_payload x) (timestamp_nanos (timestamp x)) (sequence_number x) (writer_guid x).

Lemma poll_other o o' fs po (i : SubInner N) x : po_running po = true → is_open i →
  file_read (po_path po) fs = Some (encode o' x) → is_u64 o' → is_u64 (sequence_number x) → o' ≠ o →
  len (s_payload x) <= MAX_PAYLOAD_BYTES →
  poll o fs po i =
  (mkPoller (po_path po) (po_topic po) (po_durability po)
     (Some (match po_last_seq po with None => sequence_number x | Some n => Z.max n (sequence_number x) end)) true,
   if hears po (sequence_number x) then (push i (as_read (po_topic po) x)).2 else i).
Proof using Type.
  intros Hr [Hu Hc] Hf Ho Hs Hne Hl.
  assert (read_current (po_path po) fs = Ok (mkDecoded o' (sequence_number x) (timestamp_nanos (timestamp x))
    (writer_guid x) (s_payload x))) as Hread.
  { unfold read_current. by rewrite Hf, <- (app_nil_r (encode o' x)), decode_encode. }
  unfold poll, hears. rewrite Hr, Hread, Hu, Hc. simpl. rewrite (proj2 (Z.eqb_neq _ _)) by done. simpl.
  destruct po as [path t du [n|] run]; simpl in *; subst.
  - destruct (Z.leb_spec (sequence_number x) n), (Z.ltb_spec n (sequence_number x)); try lia.
    + by rewrite Z.max_l.
    + by rewrite Z.max_r by lia.
  - by case_bool_decide.
Qed.

Lemma emission_payload k now payload (p : process) d x : emission k now payload p = Some (d, x) → s_payload x = payload.
Proof using Type. unfold emission. repeat case_match; try done. by intros [= <- <-]. Qed.

(** C19. What crosses the file system.  In every run, let one process write a
    sample of at most 16 MiB, no system call failing, and then the poller of
    an open subscriber to the same file, in a process of another origin,
    tick: the subscriber gets the sample, once, with its time as the format
    carries it, if the poller hears it; else its queue is as before.  It
    hears numbers above the highest it has seen {e in the file}, of any
    writer; and on its first tick, the sample it finds, if it is
    transient-local. *)
Theorem shm_cross_process_delivery origins evs a b pa pb k ctx now payload io d x j s i :
  admissible origins evs → NoDup origins → a ≠ b →
  (world_run origins evs).1 !! a = Some pa → (world_run origins evs).1 !! b = Some pb →
  Context_done now ctx = false → emission k now payload pa = Some (d, x) →
  Forall succeeds io → len payload <= MAX_PAYLOAD_BYTES →
  sh_subscribers pb !! j = Some s → sh_queues pb !! su_inner s = Some i → po_running (su_poller s) = true → is_open i →
  resolve (data_path temp_dir d (topic x)) = resolve (data_path temp_dir (su_domain s) (su_topic s)) →
  ∃ pb' s', (world_run origins (evs ++ [(a, Write k ctx now payload io); (b, PollRound j)])).1 !! b = Some pb' ∧
    sh_queues pb' !! su_inner s =
      Some (if hears (su_poller s) (sequence_number x) then (push i (as_read (su_topic s) x)).2 else i) ∧
    sh_subscribers pb' !! j = Some s' ∧
    po_last_seq (su_poller s') =
      Some (match po_last_seq (su_poller s) with None => sequence_number x | Some n => Z.max n (sequence_number x) end).
Proof.
  intros [Ho Hshort] Hnd Hab Hpa Hpb Hctx Hem Hio Hlen Hj Hi Hrun Hopen Hpath.
  destruct (world_run_inv _ _ Ho Hshort) as [Horg Hw _ Hfiles _].
  unfold Shmem.world_run. rewrite foldl_app. fold (world_run origins evs). set (w := world_run origins evs) in *.
  pose proof (Forall_lookup_1 _ _ _ _ Hw Hpa) as Hwa. pose proof (Forall_lookup_1 _ _ _ _ Hw Hpb) as Hwb.
  pose proof (emission_payload _ _ _ _ _ _ Hem) as Hpl.
  assert (∀ c p, w.1 !! c = Some p → origins !! c = Some (sh_origin p)) as Horig.
  { intros c p Hc. by rewrite <- Horg, list_lookup_fmap, Hc. }
  assert (sh_origin pa ≠ sh_origin pb) as Hne.
  { intros He. apply Hab. eapply NoDup_lookup; [exact Hnd|by apply Horig|]. rewrite He. by apply Horig. }
  assert (is_u64 (sh_origin pa)) as Hoa by (eapply Forall_lookup_1; [exact Ho|by apply Horig]).
  destruct (queue_of _ _ _ _ Hwb Hj) as [Hin _]. destruct (pw_poller _ _ Hwb _ _ Hj) as [Hpo Htp]. rewrite Hin in *.
  pose proof (write_payload_cases temp_dir k now payload io pa w.2 Hwa) as Hc. rewrite Hem in Hc.
  destruct Hc as (qos & p1 & _ & _ & Hseq & Hc). destruct (ShmemBroker.publish _ _ _ _ _) as [br q].
  destruct (write_sample_spec temp_dir (sh_origin pa) io d (topic x) x w.2 (fo_names _ _ _ Hfiles)) as (bb & Hb & _ & Hwr).
  rewrite (Hb Hio) in Hwr. cbn [foldl]. unfold Shmem.world_step at 2. simpl. rewrite Hpa.
  unfold write_payload_ctx. rewrite Hctx, Hc. simpl. unfold Shmem.world_step. simpl.
  rewrite list_lookup_insert_ne, Hpb by done. simpl. unfold poll_round. rewrite Hj, Hin, Hi.
  rewrite (poll_other (sh_origin pb) (sh_origin pa) _ (su_poller s) i x); try done; [| |by rewrite Hpl].
  2: { rewrite Hpo. unfold file_read. rewrite <- Hpath, Hwr by apply data_not_tmp. simpl.
       by rewrite bool_decide_true. }
  rewrite Htp. eexists _, _. simpl. split_and!.
  - rewrite list_lookup_insert_eq; [done|]. rewrite length_insert. by eapply lookup_lt_Some.
  - simpl. rewrite list_lookup_insert_eq; [done|]. by eapply lookup_lt_Some.
  - simpl. rewrite list_lookup_insert_eq; [done|]. by eapply lookup_lt_Some.
  - done.
Qed.

(** *** Closing *)

(** Closed, and otherwise only emptied from the front. *)
Definition drained (i i' : SubInner N) : Prop := closed i' = true ∧ ∃ taken, queue i = taken ++ queue i'.

Lemma drained_refl i : closed i = true → drained i i.
Proof using Type. intros Hc. split; [done|by exists []]. Qed.

Lemma drained_trans i1 i2 i3 : drained i1 i2 → drained i2 i3 → drained i1 i3.
Proof using Type. intros [_ [l1 H1]] [Hc [l2 H2]]. split; [done|]. exists (l1 ++ l2). by rewrite H1, H2, app_assoc. Qed.

Lemma push_shut (i : SubInner N) x : closed i = true → (push i x).2 = i.
Proof using Type. intros Hc. rewrite push_closed; [done|]. intros [_ Hc']. congruence. Qed.

Lemma poll_shut o fs po (i : SubInner N) : closed i = true → (poll o fs po i).2 = i.
Proof using Type.
  intros Hc. unfold poll. rewrite Hc. simpl. destruct (po_running po); [|done]. simpl.
  destruct (po_last_seq po); [done|]. repeat case_match; simpl; try done. by apply push_shut.
Qed.

Lemma write_shut k now payload io p fs j i : process_wf temp_dir p → sh_queues p !! j = Some i → closed i = true →
  sh_queues (write_payload temp_dir k now payload io (p, fs)).2.1 !! j = Some i.
Proof using Type.
  intros Hw Hj Hc. pose proof (write_payload_cases temp_dir k now payload io p fs Hw) as Hcase.
  destruct (emission k now payload p) as [[d x]|].
  - destruct Hcase as (qos & p1 & (_ & _ & Hq1 & _) & Hw1 & _ & Hcase).
    pose proof (shm_publish_spec temp_dir p1 d (topic x) x qos Hw1) as Hpub.
    destruct (ShmemBroker.publish _ _ _ _ _) as [b q]. rewrite Hcase. destruct Hpub as (_ & Hq & _). simpl.
    rewrite <- Hq1 in Hj. destruct (subscriber_of _ _ _ _ Hw1 Hj) as [s Hs]. rewrite (Hq j s i Hs Hj).
    case_decide; [by rewrite push_shut|done].
  - destruct Hcase as (r & p1 & -> & (_ & _ & Hq1 & _) & _). simpl. by rewrite Hq1.
Qed.

Lemma alter_drained f k j i p : sh_queues p !! j = Some i → closed i = true →
  (∀ i, closed i = true → drained i (f i)) → ∃ i', sh_queues (with_queue f k p) !! j = Some i' ∧ drained i i'.
Proof using Type.
  intros Hj Hc Hf. simpl. rewrite list_lookup_alter, Hj. destruct (decide (k = j)) as [->|_].
  - exists (f i). rewrite Hj. split; [done|by apply Hf].
  - exists i. split; [done|by apply drained_refl].
Qed.

Lemma shut_step e p fs j i : process_wf temp_dir p → sh_queues p !! j = Some i → closed i = true →
  ∃ i', sh_queues (process_step temp_dir with_capacity e (p, fs)).1 !! j = Some i' ∧ drained i i'.
Proof using Type.
  intros Hw Hj Hc. pose proof (quiet_step temp_dir with_capacity e p fs Hw) as Hquiet.
  pose proof (drained_refl i Hc) as Hrefl.
  destruct e as [d|k t qos|k t qos n|k t qos opts|k ctx now pl io|k|l size|l buf now io|k|k|k|k|k];
    try (destruct (process_step _ _ _ _) as [p' fs']; destruct Hquiet as ((_ & _ & Hq & _) & _); exists i; simpl; by rewrite Hq);
    cbn [process_step].
  - destruct (new_subscriber_cases temp_dir k t qos opts p Hw) as [[r ->]|(d & i0 & b & q & dl & -> & Hq & _)]; simpl; [by exists i|].
    exists i. rewrite Hq. split; [by apply lookup_app_l_Some|done].
  - exists i. split; [|done]. unfold write_payload_ctx. destruct (Context_done now ctx); [done|]. by apply write_shut.
  - exists i. split; [|done]. unfold commit. cbn [fst]. destruct (sh_loaning p !! l) as [lo|]; [|done].
    pose proof (write_shut (lo_inner lo) now (b_bytes buf) io p fs j i Hw Hj Hc) as Hws.
    destruct (write_payload _ _ _ _ _ _) as [r [p' fs']]. by destruct r.
  - unfold subscriber_unsubscribe. destruct (sh_subscribers p !! k) as [s|]; [|by exists i].
    apply (alter_drained SubQueue.unsubscribe); [done..|]. intros i0 _. split; [done|by exists []].
  - unfold subscriber_close. destruct (sh_subscribers p !! k) as [s|]; [|by exists i].
    apply (alter_drained SubQueue.close); [done..|]. intros i0 _. split; [done|by exists []].
  - unfold subscriber_try_recv. destruct (sh_subscribers p !! k) as [s|]; [|by exists i].
    apply alter_drained; [done..|]. intros i0 Hc0. unfold SubQueue.try_recv, pop.
    destruct (queue i0) as [|x q] eqn:E; simpl; [by apply drained_refl|]. split; [done|]. exists [x]. by rewrite E.
  - unfold poll_round. destruct (sh_subscribers p !! k) as [s|] eqn:Hk; [|by exists i].
    destruct (queue_of _ _ _ _ Hw Hk) as [Hin [i0 Hi0]]. rewrite Hin, Hi0.
    destruct (poll _ _ _ _) as [po i1] eqn:E. simpl. destruct (decide (k = j)) as [->|Hne].
    + rewrite Hi0 in Hj. injection Hj as ->. rewrite list_lookup_insert_eq by by eapply lookup_lt_Some.
      exists i1. split; [done|]. pose proof (poll_shut (sh_origin p) fs (su_poller s) i Hc) as Hp. rewrite E in Hp. by simpl in Hp; subst.
    + rewrite list_lookup_insert_ne by done. by exists i.
Qed.

Lemma shut_world_step e w a p j i : Forall (process_wf temp_dir) w.1 → w.1 !! a = Some p →
  sh_queues p !! j = Some i → closed i = true →
  ∃ p' i', (world_step w e).1 !! a = Some p' ∧ sh_queues p' !! j = Some i' ∧ drained i i'.
Proof using Type.
  intros Hw Ha Hj Hc. unfold Shmem.world_step. destruct (w.1 !! e.1) as [q|] eqn:Hq.
  2: { exists p, i. split_and!; [done..|by apply drained_refl]. }
  destruct (decide (e.1 = a)) as [He|Hne].
  - rewrite He in *. rewrite Ha in Hq. injection Hq as <-.
    destruct (shut_step e.2 p w.2 j i (Forall_lookup_1 _ _ _ _ Hw Ha) Hj Hc) as (i' & Hi' & Hd).
    destruct (process_step _ _ _ _) as [p' fs']. exists p', i'. simpl in *.
    split_and!; [|done..]. apply list_lookup_insert_eq. by eapply lookup_lt_Some.
  - destruct (process_step _ _ _ _) as [p' fs']. exists p, i. simpl. rewrite list_lookup_insert_ne by done.
    split_and!; [done..|by apply drained_refl].
Qed.

Lemma published_app evs1 evs2 w : published (evs1 ++ evs2) w = published evs1 w ++ published evs2 (foldl world_step w evs1).
Proof using Type. revert w. induction evs1 as [|e evs1 IH]; intros w; [done|]. simpl. by rewrite IH, app_assoc. Qed.

Lemma shut_world_run origins pubs evs w a p j i : Forall is_u64 origins → short (pubs ++ published evs w) →
  world_inv origins pubs w → w.1 !! a = Some p → sh_queues p !! j = Some i → closed i = true →
  ∃ p' i', (foldl world_step w evs).1 !! a = Some p' ∧ sh_queues p' !! j = Some i' ∧ drained i i'.
Proof using Type.
  intros Ho. revert pubs w p i. induction evs as [|e evs IH]; intros pubs w p i Hshort Hinv Ha Hj Hc; simpl in *.
  { exists p, i. split_and!; [done..|by apply drained_refl]. }
  destruct (shut_world_step e w a p j i (wi_wf _ _ _ Hinv) Ha Hj Hc) as (p1 & i1 & Ha1 & Hj1 & Hd1).
  rewrite app_assoc in Hshort.
  destruct (IH (pubs ++ world_publication e w) (world_step w e) p1 i1) as (p' & i' & ? & ? & Hd); [done| |done..|apply Hd1|].
  - apply world_step_inv; [done| |done]. apply Forall_app in Hshort as [Hs _]. by apply Forall_app in Hs as [? _].
  - exists p', i'. split_and!; [done..|by eapply drained_trans].
Qed.

(** Closing a subscriber is final.  Whatever all the processes do after it,
    the queue of a closed subscriber stays closed and is only emptied from
    the front: neither a publisher of its process nor its poller adds to it
    again, and what it held stays to be received. *)
Theorem shm_close_is_final origins evs1 a k evs2 p s i :
  admissible origins (evs1 ++ (a, SubscriberClose k) :: evs2) →
  (world_run origins evs1).1 !! a = Some p →
  sh_subscribers p !! k = Some s → sh_queues p !! su_inner s = Some i →
  ∃ p' i', (world_run origins (evs1 ++ (a, SubscriberClose k) :: evs2)).1 !! a = Some p' ∧
    sh_queues p' !! su_inner s = Some i' ∧ closed i' = true ∧ ∃ taken, queue i = taken ++ queue i'.
Proof.
  intros [Ho Hshort] Ha Hk Hi. rewrite published_app in Hshort. unfold Shmem.world_run. rewrite foldl_app.
  assert (world_inv origins (published evs1 (world_start origins)) (world_run origins evs1)) as Hinv
    by (apply world_run_inv; [done|]; by apply Forall_app in Hshort as [? _]).
  fold (world_run origins evs1) in *. set (w := world_run origins evs1) in *. cbn [foldl published] in *.
  rewrite app_assoc in Hshort.
  destruct (shut_world_run origins (published evs1 (world_start origins) ++ world_publication (a, SubscriberClose k) w)
    evs2 (world_step w (a, SubscriberClose k)) a (subscriber_close k p) (su_inner s) (SubQueue.close i))
    as (p' & i' & ? & ? & ? & ?); [done|done| | | |done|].
  - apply world_step_inv; [done| |done]. apply Forall_app in Hshort as [Hs _]. by apply Forall_app in Hs as [? _].
  - unfold Shmem.world_step. simpl. rewrite Ha. simpl. apply list_lookup_insert_eq. by eapply lookup_lt_Some.
  - unfold subscriber_close. rewrite Hk. simpl. by rewrite list_lookup_alter, decide_True, Hi.
  - by exists p', i'.
Qed.

(** Closing a participant only refuses new endpoints.  Its publishers write
    and its subscribers receive, from their process and from others, exactly
    as if it were open; [health] reports it down. *)
Theorem shm_participant_close_stops_no_endpoint j (p : process) fs :
  (∀ k now payload io, write_payload temp_dir k now payload io (participant_close j p, fs) =
     let '(r, (p', fs')) := write_payload temp_dir k now payload io (p, fs) in (r, (participant_close j p', fs'))) ∧
  (∀ k, poll_round k fs (participant_close j p) = participant_close j (poll_round k fs p)) ∧
  (∀ k, subscriber_try_recv k (participant_close j p) = participant_close j (subscriber_try_recv k p)) ∧
  ∀ pa, sh_participants p !! j = Some pa →
    participant_health j (participant_close j p) = Observability.Health_down CLOSED_DETAILS ∧
    (∀ t qos, make_publisher j t qos (participant_close j p) = (Err Closed, participant_close j p)) ∧
    (∀ t qos opts, new_subscriber temp_dir j t qos opts (participant_close j p) = (Err Closed, participant_close j p)).
Proof.
  split_and!.
  - intros k now payload io. unfold write_payload. simpl. destruct (sh_publishers p !! k) as [w|]; [|done].
    destruct (sp_closed w); [done|]. destruct ((0 <? _) && _); [done|]. destruct (uadd _ _ _); try done.
    unfold broker_of. simpl. by destruct (ShmemBroker.publish _ _ _ _ _).
  - intros k. unfold poll_round. simpl. destruct (sh_subscribers p !! k); [|done].
    destruct (sh_queues p !! _); [|done]. by destruct (poll _ _ _ _).
  - intros k. unfold subscriber_try_recv. simpl. by destruct (sh_subscribers p !! k).
  - intros pa Hj. unfold participant_health, make_publisher, new_subscriber, usable. simpl.
    rewrite list_lookup_alter, decide_True, Hj by done. done.
Qed.

(** *** Loans *)

Record pool_wf (pool : BytePool) : Prop := {
  pool_bound : len (bp_free pool) <= BytePool.MAX_POOLED;
  pool_bufs : Forall (λ b, b_bytes b = [] ∧ bp_size pool <= b_capacity b) (bp_free pool) }.

Lemma put_wf buf pool : pool_wf pool → pool_wf (BytePool.put buf pool).
Proof using Type.
  intros [Hl Hb]. unfold BytePool.put, BytePool.MAX_POOLED in *.
  destruct (Z.ltb_spec (b_capacity buf) (bp_size pool)); [by split|].
  destruct (Z.leb_spec 64 (len (bp_free pool))); [by split|].
  split; simpl; [rewrite len_app, len_cons, len_nil; unfold BytePool.MAX_POOLED; lia|].
  apply Forall_app. split; [done|]. by apply Forall_singleton.
Qed.

Lemma last_removelast {A} (l : list A) b : last l = Some b → l = removelast l ++ [b].
Proof using Type.
  intros Hl. destruct l as [|y l _] using rev_ind; [done|]. rewrite last_snoc in Hl. injection Hl as ->.
  by rewrite removelast_last.
Qed.

Lemma get_cases pool : pool_wf pool →
  let '(buf, pool') := BytePool.get with_capacity pool in
  b_bytes buf = [] ∧ pool_wf pool' ∧ bp_size pool' = bp_size pool ∧
  b_capacity buf = match last (bp_free pool) with Some b => b_capacity b | None => with_capacity (bp_size pool) end ∧
  len (bp_free pool') < BytePool.MAX_POOLED ∧
  match last (bp_free pool) with Some _ => bp_free pool = bp_free pool' ++ [buf] | None => bp_free pool' = bp_free pool end.
Proof using Type.
  intros [Hl Hb]. unfold BytePool.get, BytePool.MAX_POOLED in *. destruct (last (bp_free pool)) as [b|] eqn:E.
  - pose proof (last_removelast _ _ E) as Heq. rewrite Heq in Hl, Hb. rewrite len_app, len_cons, len_nil in Hl.
    apply Forall_app in Hb as [Hb1 [Hb2 _]%Forall_singleton].
    split_and!; simpl; try done; [split; simpl; [unfold BytePool.MAX_POOLED; lia|done]|lia|].
    rewrite Heq at 1. f_equal. destruct b; simpl in *. by subst.
  - split_and!; try done. apply last_None in E. rewrite E. done.
Qed.

Lemma loan_from_wf size pool : pool_wf pool → pool_wf (loan_from with_capacity size pool).2.
Proof using Type.
  intros Hp. pose proof (get_cases pool Hp) as Hg. unfold loan_from.
  destruct (BytePool.get _ _) as [buf pool']. destruct Hg as (_ & Hp' & _).
  destruct (b_capacity buf <? size); [by apply put_wf|done].
Qed.

Definition pools_wf (p : process) : Prop := Forall (λ x, pool_wf (lo_pool x)) (sh_loaning p).

Lemma set_pool_wf l pool p : pools_wf p → pool_wf pool → pools_wf (set_pool l pool p).
Proof using Type.
  intros Hp Hl. apply Forall_lookup_2. intros j x. simpl. rewrite list_lookup_alter. case_decide.
  - by intros (y & _ & ->)%fmap_Some.
  - by eapply (Forall_lookup_1 _ _ _ _ Hp).
Qed.

Lemma write_loaning k now payload io p fs : sh_loaning (write_payload temp_dir k now payload io (p, fs)).2.1 = sh_loaning p.
Proof using Type.
  unfold write_payload. repeat case_match; done.
Qed.

Lemma pools_step e p fs : pools_wf p → pools_wf (process_step temp_dir with_capacity e (p, fs)).1.
Proof using Type.
  intros Hp. assert (∀ p', sh_loaning p' = sh_loaning p → pools_wf p') as Hsame by (intros p' He; by unfold pools_wf; rewrite He).
  destruct e as [d|k t qos|k t qos n|k t qos opts|k ctx now pl io|k|l size|l buf now io|k|k|k|k|k]; cbn [process_step fst];
    try (apply Hsame; unfold ShmemParticipant_new, make_publisher, new_subscriber, publisher_close, subscriber_unsubscribe,
      subscriber_close, subscriber_try_recv, poll_round, participant_close; repeat case_match; done).
  - unfold new_loaning_publisher, make_publisher. destruct (usable k t p); simpl; try done.
    apply Forall_app. split; [done|]. apply Forall_singleton. by split.
  - apply Hsame. unfold write_payload_ctx. case_match; [done|]. apply write_loaning.
  - unfold loan. destruct (sh_loaning p !! l) as [x|] eqn:Hl; [|done]. destruct (publisher_closed _ p); [done|].
    pose proof (loan_from_wf size (lo_pool x) (Forall_lookup_1 _ _ _ _ Hp Hl)) as Hw.
    destruct (loan_from _ _ _) as [r pool]. by apply set_pool_wf.
  - unfold commit. cbn [fst]. destruct (sh_loaning p !! l) as [x|] eqn:Hl; [|done].
    pose proof (write_loaning (lo_inner x) now (b_bytes buf) io p fs) as He.
    destruct (write_payload _ _ _ _ _ _) as [r [p' fs']]. simpl in He. apply Hsame in He.
    destruct r; cbn [fst snd]; try done; (apply set_pool_wf; [done|]; apply put_wf; by eapply (Forall_lookup_1 _ _ _ _ Hp)).
Qed.

(** The memory of a loaning publisher is bounded.  In every run, whatever is
    loaned, committed and dropped, a pool keeps at most 64 buffers, each of
    them emptied and of at least its buffer size. *)
Theorem shm_pools_bounded origins evs a p l x :
  (world_run origins evs).1 !! a = Some p → sh_loaning p !! l = Some x → pool_wf (lo_pool x).
Proof.
  assert (∀ w : world, Forall pools_wf w.1 → Forall pools_wf (foldl world_step w evs).1) as Hrun.
  { induction evs as [|e evs IH]; intros w Hw; [done|]. apply IH. unfold Shmem.world_step.
    destruct (w.1 !! e.1) as [q|] eqn:Hq; [|done]. pose proof (pools_step e.2 q w.2 (Forall_lookup_1 _ _ _ _ Hw Hq)) as Hs.
    destruct (process_step _ _ _ _). by apply Forall_insert. }
  intros Ha. apply (Forall_lookup_1 _ _ _ _ (Forall_lookup_1 _ _ _ _ (Hrun (world_start origins) ltac:(
    simpl; apply Forall_fmap, Forall_true; intros o; constructor)) Ha)).
Qed.

(** A write neither reads nor changes the loaning publishers. *)
Lemma write_set_loaning k now payload io y (p : Process N) fs :
  write_payload temp_dir k now payload io (set_loaning y p, fs)
  = let '(r, (p', fs')) := write_payload temp_dir k now payload io (p, fs) in (r, (set_loaning y p', fs')).
Proof using Type.
  unfold write_payload. change (sh_publishers (set_loaning y p)) with (sh_publishers p).
  destruct (sh_publishers p !! k) as [w|]; [|done]. destruct (sp_closed w); [done|].
  destruct (_ && _); [done|]. destruct (uadd 64 (sp_seq w) 1) as [seq|e|]; [|done..].
  change (sh_queues (set_publishers ?x (set_loaning y p))) with (sh_queues p).
  change (sh_queues (set_publishers ?x p)) with (sh_queues p).
  change (broker_of ?d (set_publishers ?x (set_loaning y p))) with (broker_of d p).
  change (broker_of ?d (set_publishers ?x p)) with (broker_of d p).
  by destruct (ShmemBroker.publish _ _ _ _ _) as [b q].
Qed.

Lemma set_pool_eq l x pool (p : Process N) : sh_loaning p !! l = Some x →
  set_pool l pool p = set_loaning (<[l := mkShmemLoaningPublisher (lo_inner x) pool]> (sh_loaning p)) p.
Proof using Type.
  intros Hl. unfold set_pool. f_equal. apply list_eq. intros i. rewrite list_lookup_alter.
  destruct (decide (l = i)) as [->|Hne]; [|by rewrite list_lookup_insert_ne].
  rewrite Hl. simpl. symmetry. apply list_lookup_insert_eq. by eapply lookup_lt_Some.
Qed.

(** C29. What [loan] and [commit] do.  With an allocator that gives at least what
    it is asked for, a loan from an open publisher succeeds iff the buffer on
    top of the pool, or a new one if the pool is empty, has the capacity; so
    it never fails up to the configured buffer size, and beyond it depends on
    what was returned, where the documentation has an error.  The buffer it
    gives is [size] zeros.  A commit of any bytes in it does what the write
    of those bytes would have done before the loan - to the whole process,
    the files and the result - and gives the buffer back: the pool is as
    before the loan, or has the new buffer, unless the write panics.  A
    refused loan is an error that changes nothing else. *)
Theorem shm_loan_commit l size p x :
  (∀ n, n <= with_capacity n) → 0 <= size →
  sh_loaning p !! l = Some x → pool_wf (lo_pool x) → publisher_closed (lo_inner x) p = false →
  let top := match last (bp_free (lo_pool x)) with Some b => b_capacity b | None => with_capacity (bp_size (lo_pool x)) end in
  let kept := match bp_free (lo_pool x) with [] => [mkBuf [] top] | free => free end in
  let returned_to p' := set_loaning (<[l := mkShmemLoaningPublisher (lo_inner x)
                          (mkBytePool kept (bp_size (lo_pool x)))]> (sh_loaning p)) p' in
  (size <= bp_size (lo_pool x) → size <= top) ∧
  if top <? size then loan with_capacity l size p = (Err LoanBuffer, returned_to p)
  else ∃ p1, loan with_capacity l size p = (Ok (mkBuf (replicate (Z.to_nat size) x00) top), p1) ∧
    ∀ bs now io fs,
      let '(r, (p2, fs2)) := commit temp_dir l (mkBuf bs top) now io (p1, fs) in
      let '(rw, (pw, fsw)) := write_payload temp_dir (lo_inner x) now bs io (p, fs) in
      r = rw ∧ fs2 = fsw ∧ (r ≠ Panic → p2 = returned_to pw).
Proof.
  intros Hcap Hsz Hl Hp Hopen top kept returned_to. pose proof (get_cases _ Hp) as Hg.
  assert (bp_size (lo_pool x) <= top) as Htop.
  { unfold top. destruct (last _) as [b|] eqn:E; [|apply Hcap]. apply last_Some_elem_of in E.
    by apply (proj1 (Forall_forall _ _) (pool_bufs _ Hp) b). }
  split; [lia|]. unfold loan, loan_from. rewrite Hl, Hopen.
  destruct (BytePool.get _ _) as [buf pool]. destruct Hg as (Hb & Hw & Hs & Hc & Hlen & Hfree). fold top in Hc.
  assert (∀ bs, BytePool.put (mkBuf bs top) pool = mkBytePool kept (bp_size (lo_pool x))) as Hput.
  { intros bs. unfold BytePool.put. simpl. rewrite Hs, (proj2 (Z.ltb_ge _ _)), (proj2 (Z.leb_gt _ _)) by done.
    f_equal. unfold kept. destruct buf as [bb cc]. simpl in *. subst.
    destruct (last (bp_free (lo_pool x))) as [b|] eqn:E.
    - rewrite Hfree. destruct (bp_free pool); done.
    - rewrite Hfree. apply last_None in E. by rewrite E. }
  destruct buf as [bb cc]. simpl in Hb, Hc. subst bb cc. cbn [b_capacity b_bytes app length]. destruct (top <? size).
  - by rewrite Hput, (set_pool_eq _ _ _ _ Hl).
  - eexists. split; [rewrite Nat.sub_0_r; done|]. intros bs now io fs. rewrite (set_pool_eq _ _ _ _ Hl).
    pose proof (lookup_lt_Some _ _ _ Hl) as Hlt. unfold commit. cbn [fst sh_loaning set_loaning].
    rewrite list_lookup_insert_eq by done. cbn [lo_inner lo_pool b_bytes]. rewrite write_set_loaning.
    destruct (write_payload _ _ _ _ _ _) as [r [p' fs']].
    destruct r; cbv beta iota; (split_and!; [done..|]); intros Hr; [| |done]; unfold returned_to;
      (erewrite set_pool_eq; [|cbn [sh_loaning set_loaning]; by apply list_lookup_insert_eq]);
      by rewrite Hput; cbn [sh_loaning set_loaning lo_inner]; rewrite list_insert_insert_eq.
Qed.
End worlds.

(** *** Identities *)

Section identities.
Context {N : Type} `{!BuildProfile}.
Implicit Types p : Process N.

Lemma participant_new_ok d p : validate_domain d = Ok tt →
  ∃ pre, ShmemParticipant_new d p = (Ok (length (sh_participants p)),
    set_participants (sh_participants p ++ [mkShmemParticipant d false pre 0]) (broker_for d p)) ∧
  pre = vinsert 0 (byte.of_Z (as_u 8 (domain_id d))) (vreplicate 12 x00).
Proof. intros Hd. eexists. unfold ShmemParticipant_new. by rewrite Hd. Qed.

Lemma make_publisher_ok k t qos p pa : sh_participants p !! k = Some pa → pa_closed pa = false → t ≠ [] →
  let p' := (make_publisher k t qos p).2 in
  sh_participants p' = <[k := mkShmemParticipant (pa_domain pa) (pa_closed pa) (pa_guid_prefix pa)
                               (fetch_add (pa_pub_counter pa) 1)]> (sh_participants p) ∧
  sh_publishers p' = sh_publishers p ++ [mkShmemPublisher (pa_domain pa) t qos (make_guid pa (pa_pub_counter pa)) 0 false].
Proof. intros Hk Hc Ht. unfold make_publisher, usable. rewrite Hk, Hc. destruct t; [done|]. split; simpl; by rewrite ?Hc. Qed.

(** Participants have no identity of their own.  The GUID of a publisher is
    the low byte of its domain, eleven zeros and its number within its
    participant: the first publishers of two participants of one domain, in
    one process or in two, have the same GUID, and on domain 0 it is the
    all-zero GUID, which stands for none. *)
Theorem shm_guids_collide d t qos p :
  validate_domain d = Ok tt → t ≠ [] →
  let p1 := (ShmemParticipant_new d p).2 in
  let p2 := (ShmemParticipant_new d p1).2 in
  let k := length (sh_participants p) in
  let n := length (sh_publishers p) in
  let p3 := (make_publisher k t qos p2).2 in
  let p4 := (make_publisher (S k) t qos p3).2 in
  let guid := vinsert 0 (byte.of_Z (as_u 8 (domain_id d))) (vreplicate 16 x00) in
  (ShmemParticipant_new d p).1 = Ok k ∧ (ShmemParticipant_new d p1).1 = Ok (S k) ∧
  sp_writer_guid <$> sh_publishers p4 !! n = Some guid ∧ sp_writer_guid <$> sh_publishers p4 !! S n = Some guid ∧
  (domain_id d = 0 → guid = vreplicate 16 x00).
Proof.
  intros Hd Ht p1 p2 k n p3 p4 guid. destruct (participant_new_ok d p Hd) as (pre & H1 & Hpre).
  destruct (participant_new_ok d p1 Hd) as (pre' & H2 & Hpre'). rewrite <- Hpre in Hpre'. subst pre'.
  set (pa := mkShmemParticipant d false pre 0).
  assert (make_guid pa 0 = guid) as Hg by (unfold make_guid, guid, pa; cbn [pa_guid_prefix]; rewrite Hpre;
    generalize (byte.of_Z (as_u 8 (domain_id d))); intros b; vm_compute; reflexivity).
  assert (sh_participants p1 = sh_participants p ++ [pa]) as Hp1 by (unfold p1; by rewrite H1).
  assert (sh_participants p2 = (sh_participants p ++ [pa]) ++ [pa]) as Hp2 by (unfold p2; rewrite H2; simpl; by rewrite Hp1).
  assert (sh_publishers p2 = sh_publishers p) as Hpub by (unfold p2; rewrite H2; simpl; unfold p1; by rewrite H1).
  destruct (make_publisher_ok k t qos p2 pa) as [Ha3 Hb3]; [|done..|].
  { rewrite Hp2. unfold k. rewrite <- app_assoc. by apply list_lookup_middle. }
  destruct (make_publisher_ok (S k) t qos p3 pa) as [_ Hb4]; [|done..|].
  { unfold p3. rewrite Ha3, list_lookup_insert_ne, Hp2 by lia. apply list_lookup_middle. rewrite length_app. simpl. unfold k. lia. }
  fold p3 in Hb3. fold p4 in Hb4. rewrite Hb4, Hb3, Hpub. split_and!.
  - by rewrite H1.
  - rewrite H2, Hp1, length_app. simpl. f_equal. unfold k. lia.
  - rewrite <- app_assoc. cbn [app]. rewrite list_lookup_middle by done. simpl. by rewrite Hg.
  - rewrite list_lookup_middle by (rewrite length_app; simpl; unfold n; lia). simpl. by rewrite Hg.
  - intros Hz. unfold guid. by rewrite Hz.
Qed.
End identities.

(** ** Instances *)

#[local] Instance demo_profile : BuildProfile := true.
#[local] Notation demo := (Process (bool * option bool)).

(** An allocator that gives what it is asked for. *)
Definition demo_capacity (n : Z) : Z := n.
Definition demo_topic : str := bytes_of_ascii "t".
Definition demo_write (k : nat) (b : byte) : nat * ShmEvent := (0%nat, Write k Context_background 5 [b] []).

(** A process with two publishers of one topic, and one that subscribes. *)
Definition demo_setup : list (nat * ShmEvent) :=
  [(0, NewParticipant (mkDomain 0)); (1, NewParticipant (mkDomain 0));
   (0, NewPublisher 0 demo_topic RELIABLE_QOS); (0, NewPublisher 0 demo_topic RELIABLE_QOS);
   (0, NewSubscriber 0 demo_topic RELIABLE_QOS SubscriberOptions_default);
   (1, NewSubscriber 0 demo_topic RELIABLE_QOS SubscriberOptions_default);
   (1, PollRound 0)]%nat.
(** The first publisher writes twice, and the poller sees both. *)
Definition demo_heard : list (nat * ShmEvent) :=
  demo_setup ++ [demo_write 0 x07; (1%nat, PollRound 0); demo_write 0 x08; (1%nat, PollRound 0)].
Definition demo_world (evs : list (nat * ShmEvent)) : World (bool * option bool) :=
  world_run demo_tmp demo_capacity [11; 22] evs.
Definition demo_process (a : nat) (evs : list (nat * ShmEvent)) : demo :=
  default (Process_new 0) ((demo_world evs).1 !! a).

Lemma demo_admissible : admissible (N:=bool * option bool) demo_tmp demo_capacity [11; 22] demo_heard.
Proof. split; [apply (bool_decide_unpack _)|apply (bool_decide_unpack _)]; vm_compute; exact I. Qed.

(** A closed fact, by evaluation. *)
Ltac demo_solve := lazymatch goal with
  | |- _ = _ => vm_compute; reflexivity
  | |- admissible _ _ _ _ => split; apply (bool_decide_unpack _); vm_compute; exact I
  | |- is_open _ => split; vm_compute; reflexivity
  | |- Forall succeeds [] => constructor
  | |- _ => apply (bool_decide_unpack _); vm_compute; exact I
  end.

Definition demo_handle (a k : nat) (evs : list (nat * ShmEvent)) : ShmemSubscriber :=
  default (mkShmemSubscriber 0 (mkDomain 0) [] (mkPoller [] [] Volatile None false) None)
    (sh_subscribers (demo_process a evs) !! k).
Definition demo_queue (a k : nat) (evs : list (nat * ShmEvent)) : SubInner (bool * option bool) :=
  default (SubInner_new 0 DropNewest) (sh_queues (demo_process a evs) !! k).

Lemma shm_received_was_published_witness :
  let received := queue (demo_queue 1 0 demo_heard) in
  s_payload <$> received = [[x07]; [x08]] ∧
  ∀ x, x ∈ received →
    ∃ o d y, (o, d, y) ∈ published demo_tmp demo_capacity demo_heard (world_start (N:=bool * option bool) [11; 22]) ∧
    o ∈ [11; 22] ∧ s_payload x = s_payload y.
Proof.
  split; [vm_compute; reflexivity|]. intros x Hx.
  destruct (shm_received_was_published demo_tmp demo_capacity [11; 22] demo_heard 1 (demo_process 1 demo_heard) 0
    (demo_handle 1 0 demo_heard) (demo_queue 1 0 demo_heard) x demo_admissible) as (_ & o & d & y & H1 & H2 & H3 & _);
    [vm_compute; reflexivity..|exact Hx|]. by exists o, d, y.
Defined.

Lemma shm_local_exactly_once_witness :
  let evs := [(0, NewParticipant (mkDomain 0)); (0, NewPublisher 0 demo_topic RELIABLE_QOS);
    (0, NewSubscriber 0 demo_topic RELIABLE_QOS SubscriberOptions_default); (0, PollRound 0)]%nat ++ [demo_write 0 x07] in
  let w := world_run demo_tmp demo_capacity [11] evs in
  ∃ p : demo, w.1 !! 0%nat = Some p ∧ sh_queues p ≠ [] ∧ sh_queues (poll_round 0 w.2 p) = sh_queues p.
Proof.
  intros evs w. assert (∃ p : demo, w.1 !! 0%nat = Some p ∧ sh_queues p ≠ []) as (p & Hp & Hq)
    by (eexists; split; [vm_compute; reflexivity|vm_compute; discriminate]).
  exists p. split_and!; [exact Hp|exact Hq|].
  destruct (shm_local_exactly_once demo_tmp demo_capacity 11 evs p) as [H _]; [|exact Hp|by apply H].
  split; [apply (bool_decide_unpack _)|apply (bool_decide_unpack _)]; vm_compute; exact I.
Defined.

(** The third sample of the first publisher is heard; the first of the
    second, written after two of the other, is not. *)
Lemma shm_cross_process_delivery_witness :
  (let w := demo_world (demo_heard ++ [demo_write 0 x09; (1%nat, PollRound 0)]) in
   ∃ p' : demo, w.1 !! 1%nat = Some p' ∧ s_payload <$> flat_map queue (sh_queues p') = [[x07]; [x08]; [x09]]) ∧
  (let w := demo_world (demo_heard ++ [demo_write 1 x09; (1%nat, PollRound 0)]) in
   ∃ p' : demo, w.1 !! 1%nat = Some p' ∧ sh_queues p' !! 0%nat = Some (demo_queue 1 0 demo_heard)).
Proof.
  assert (∀ k, demo_world (demo_heard ++ [demo_write k x09; (1%nat, PollRound 0)]) =
    world_run demo_tmp demo_capacity [11; 22] (demo_heard ++ [(0%nat, Write k Context_background 5 [x09] []); (1%nat, PollRound 0)]))
    as He by done.
  split; cbv zeta; rewrite He.
  - eexists. split; vm_compute; reflexivity.
  - destruct (shm_cross_process_delivery demo_tmp demo_capacity [11; 22] demo_heard 0 1 (demo_process 0 demo_heard)
      (demo_process 1 demo_heard) 1 Context_background 5 [x09] [] (mkDomain 0)
      (mkSample demo_topic [x09] 5 1 (default (vreplicate 16 x00)
         (sp_writer_guid <$> sh_publishers (demo_process 0 demo_heard) !! 1%nat))) 0
      (demo_handle 1 0 demo_heard) (demo_queue 1 0 demo_heard) demo_admissible) as (p' & s' & Hp & Hq & _);
      [demo_solve..|].
    exists p'. split; [exact Hp|]. revert Hq. vm_compute. done.
Defined.

Lemma shm_close_is_final_witness :
  ∃ (p' : demo) i', (demo_world (demo_heard ++ [(1%nat, SubscriberClose 0); demo_write 0 x09; (1%nat, PollRound 0)])).1 !! 1%nat = Some p' ∧
    sh_queues p' !! 0%nat = Some i' ∧ closed i' = true.
Proof.
  destruct (shm_close_is_final demo_tmp demo_capacity [11; 22] demo_heard 1 0 [demo_write 0 x09; (1%nat, PollRound 0)]
    (demo_process 1 demo_heard) (demo_handle 1 0 demo_heard) (demo_queue 1 0 demo_heard)) as (p' & i' & H1 & H2 & H3 & _);
    [demo_solve..|].
  exists p', i'. split_and!; [exact H1| |exact H3]. revert H2. vm_compute. done.
Defined.

Lemma shm_participant_close_stops_no_endpoint_witness :
  let p := demo_process 0 demo_heard in
  participant_health 0 (participant_close 0 p) = Observability.Health_down CLOSED_DETAILS ∧
  (write_payload demo_tmp 0 5 [x09] [] (participant_close 0 p, names_empty)).1 = Ok tt.
Proof.
  destruct (shm_participant_close_stops_no_endpoint demo_tmp 0 (demo_process 0 demo_heard) names_empty) as (H & _ & _ & Hc).
  split; [|vm_compute; reflexivity].
  by destruct (Hc (mkShmemParticipant (mkDomain 0) false (vreplicate 12 x00) 2) ltac:(vm_compute; reflexivity)) as [? _].
Defined.

(** A loaning publisher with a pool of buffers of four bytes. *)
Definition demo_loaning : list (nat * ShmEvent) := demo_setup ++ [(0%nat, NewLoaning 0 demo_topic RELIABLE_QOS 4)].

Lemma shm_pools_bounded_witness :
  ∃ x, sh_loaning (demo_process 0 (demo_loaning ++ [(0%nat, Loan 0 5)])) !! 0%nat = Some x ∧ pool_wf (lo_pool x).
Proof.
  exists (mkShmemLoaningPublisher 2 (mkBytePool [mkBuf [] 4] 4)). split; [vm_compute; reflexivity|].
  apply (shm_pools_bounded demo_tmp demo_capacity [11; 22] (demo_loaning ++ [(0%nat, Loan 0 5)]) 0
    (demo_process 0 (demo_loaning ++ [(0%nat, Loan 0 5)])) 0); vm_compute; reflexivity.
Defined.

Lemma shm_loan_commit_witness :
  let p := demo_process 0 demo_loaning in
  (∃ p1 : demo, loan demo_capacity 0 4 p = (Ok (mkBuf [x00; x00; x00; x00] 4), p1)) ∧
  (∃ p1 : demo, loan demo_capacity 0 5 p = (Err LoanBuffer, p1)).
Proof.
  pose (x := mkShmemLoaningPublisher 2 (BytePool.new 4)).
  assert (pool_wf (lo_pool x)) as Hw by (split; [by vm_compute|constructor]).
  split.
  - destruct (shm_loan_commit demo_tmp demo_capacity 0 4 (demo_process 0 demo_loaning) x) as (_ & p1 & H & _);
      [unfold demo_capacity; lia|lia|vm_compute; reflexivity|exact Hw|vm_compute; reflexivity|]. by exists p1.
  - destruct (shm_loan_commit demo_tmp demo_capacity 0 5 (demo_process 0 demo_loaning) x) as (_ & H);
      [unfold demo_capacity; lia|lia|vm_compute; reflexivity|exact Hw|vm_compute; reflexivity|]. eexists. exact H.
Defined.

Lemma shm_guids_collide_witness :
  let p1 := (ShmemParticipant_new (mkDomain 0) (Process_new (N:=bool * option bool) 1)).2 in
  let p2 := (ShmemParticipant_new (mkDomain 0) p1).2 in
  let p4 := (make_publisher 1 demo_topic QoS_default (make_publisher 0 demo_topic QoS_default p2).2).2 in
  sp_writer_guid <$> sh_publishers p4 = [vreplicate 16 x00; vreplicate 16 x00].
Proof.
  destruct (shm_guids_collide (mkDomain 0) demo_topic QoS_default (Process_new (N:=bool * option bool) 1))
    as (_ & _ & _ & _ & H); [reflexivity|done|].
  specialize (H eq_refl). vm_compute. reflexivity.
Defined.
