(* ===== verification/InteropShmem.v ===== *)
(** * InteropShmem: the shared-memory interop peer
    (src/bin/shmem_interop_peer.rs)

    A program that plays a writer or a reader and reports what happened.  A
    peer is its command line, where it stands and its process; what it does
    between two waits is a step, at a time of its clock, and the poller of a
    reader ticks on its own.  A lab is some peers over one file system.
    Parsing the command line and printing the report are the clap and
    serde_json crates'; instants are unbounded. *)

From stdpp Require Import pretty.
From S2P Require Import Prelude Utf8 Types SubQueue Persist ShmemIpc Shmem ShmemRuns.

(** [Display] of [Error] (src/error.rs). *)
Definition Error_display (e : Error) : str :=
  match e with
  | Closed => bytes_of_ascii "relay: closed"
  | NotConnected => bytes_of_ascii "relay: not connected"
  | Timeout => bytes_of_ascii "relay: timeout"
  | PayloadTooLarge => bytes_of_ascii "relay: payload too large"
  | DomainOutOfRange => bytes_of_ascii "dds: domain out of range [0, 232]"
  | TopicEmpty => bytes_of_ascii "dds: topic name must not be empty"
  | QosMismatch => bytes_of_ascii "dds: QoS mismatch between publisher and subscriber"
  | DeadlineMissed => bytes_of_ascii "dds: deadline missed"
  | SampleRejected => bytes_of_ascii "dds: sample rejected " ++ [xe2; x80; x94] ++ bytes_of_ascii " resource limits exceeded"
  | ResourceLimits => bytes_of_ascii "dds: resource limit exceeded"
  | LoanBuffer => bytes_of_ascii "dds: loan buffer unavailable or invalid"
  | AccessDenied => bytes_of_ascii "dds: access denied by topic ACL"
  | Other s => bytes_of_ascii "dds: " ++ s
  end.

Inductive Role : Type := Writer | Reader.

Record Cli : Type := mkCli {
  cl_role : Role;
  cl_topic : str;
  cl_domain : Z;
  cl_count : nat;
  cl_payload : str;
  cl_interval_ms : Z;
  cl_recv_timeout_secs : Z;
  cl_reliable : bool }.

Record ReceivedSample : Type := mkReceivedSample { payload_utf8 : str; rs_sequence_number : Z }.

Record Report : Type := mkReport {
  rp_role : Role;
  rp_ok : bool;
  rp_sent : option nat;
  rp_received : option (list ReceivedSample);
  rp_error : option str }.

(** [print_and_exit] *)
Definition exit_code (r : Report) : Z := if rp_ok r then 0 else 1.

Definition qos (reliable : bool) : QoS := if reliable then RELIABLE_QOS else QoS_default.

(** Where a peer stands: before its first call, at the head of the writer's
    loop with [i] and [sent], at the head of the reader's loop, waiting in
    [timeout(remaining, rx.recv())] until [deadline], or gone. *)
Inductive Pc : Type :=
| PcStart
| PcWrite (pub : nat) (i sent : nat)
| PcLoop (sub : nat) (deadline : Z) (received : list ReceivedSample)
| PcRecv (sub : nat) (deadline : Z) (received : list ReceivedSample)
| PcExit (r : Report)
| PcPanic.

Definition failed (r : Role) (what : string) (e : Error) : Pc :=
  PcExit (mkReport r false None None (Some (bytes_of_ascii what ++ bytes_of_ascii ": " ++ Error_display e))).

(** [format!("{}-{}", cli.payload, i)] *)
Definition message (cli : Cli) (i : nat) : list byte :=
  cl_payload cli ++ bytes_of_ascii "-" ++ show (Z.of_nat i).

Section peer.
Context {N : Type} `{!Notify N} `{!BuildProfile} (temp_dir : Path).
Notation process := (Process N).
Implicit Types (cli : Cli) (p : process) (fs : Files).

Record Peer : Type := mkPeer { pe_cli : Cli; pe_pc : Pc; pe_proc : process }.

(** ** The writer *)

(** [run_writer], up to its loop. *)
Definition writer_start cli p : Pc * process :=
  match ShmemParticipant_new (mkDomain (cl_domain cli)) p with
  | (Err e, p) => (failed Writer "ShmemParticipant::new" e, p)
  | (Panic, p) => (PcPanic, p)
  | (Ok j, p) =>
      match make_publisher j (cl_topic cli) (qos (cl_reliable cli)) p with
      | (Err e, p) => (failed Writer "new_publisher" e, p)
      | (Panic, p) => (PcPanic, p)
      | (Ok k, p) => (PcWrite k 0 0, p)
      end
  end.

(** A turn of its loop, or what comes after it. *)
Definition writer_turn cli (now : Z) (io : list IoOutcome) (k i sent : nat) (st : process * Files)
    : Pc * (process * Files) :=
  if (i <? cl_count cli)%nat then
    match write_payload temp_dir k now (message cli i) io st with
    | (Ok _, st) => (PcWrite k (S i) (S sent), st)
    | (Err e, st) =>
        (PcExit (mkReport Writer false (Some sent) None
           (Some (bytes_of_ascii "write #" ++ show (Z.of_nat i) ++ bytes_of_ascii ": " ++ Error_display e))), st)
    | (Panic, st) => (PcPanic, st)
    end
  else (PcExit (mkReport Writer (sent =? cl_count cli)%nat (Some sent) None None), st).

(** ** The reader *)

Definition reader_start cli (now : Z) p : Pc * process :=
  match ShmemParticipant_new (mkDomain (cl_domain cli)) p with
  | (Err e, p) => (failed Reader "ShmemParticipant::new" e, p)
  | (Panic, p) => (PcPanic, p)
  | (Ok j, p) =>
      match new_subscriber temp_dir j (cl_topic cli) (qos (cl_reliable cli)) SubscriberOptions_default p with
      | (Err e, p) => (failed Reader "new_subscriber" e, p)
      | (Panic, p) => (PcPanic, p)
      | (Ok k, p) => (PcLoop k (now + cl_recv_timeout_secs cli * 1000000000) [], p)
      end
  end.

(** After the loop. *)
Definition reader_done cli (received : list ReceivedSample) : Pc :=
  let ok := (length received =? cl_count cli)%nat in
  PcExit (mkReport Reader ok None (Some received)
    (if ok then None
     else Some (bytes_of_ascii "did not receive the expected number of samples before the timeout"))).

(** The head of the loop: [while received.len() < cli.count], the remaining
    time. *)
Definition reader_head cli (now : Z) (k : nat) (deadline : Z) (received : list ReceivedSample) : Pc :=
  if (length received <? cl_count cli)%nat then
    let remaining := Z.max 0 (deadline - now) in
    if remaining =? 0 then reader_done cli received else PcRecv k deadline received
  else reader_done cli received.

(** The wait: a sample, the end of a closed queue, the timeout, or nothing
    yet; a sample that is there goes before the timeout. *)
Definition reader_recv cli (now : Z) (k : nat) (deadline : Z) (received : list ReceivedSample) p
    : Pc * process :=
  let waiting := PcRecv k deadline received in
  match sh_subscribers p !! k with
  | None => (waiting, p)
  | Some s =>
      match sh_queues p !! su_inner s with
      | None => (waiting, p)
      | Some i =>
          match SubQueue.try_recv i with
          | (Some x, _) =>
              (PcLoop k deadline
                 (received ++ [mkReceivedSample (from_utf8_lossy (s_payload x)) (sequence_number x)]),
               subscriber_try_recv k p)
          | (None, _) =>
              if closed i then (reader_done cli received, p)
              else if deadline <=? now then (reader_done cli received, p)
              else (waiting, p)
          end
      end
  end.

(** ** A lab *)

Definition peer_step (now : Z) (io : list IoOutcome) (pe : Peer) fs : Peer * Files :=
  let '(mkPeer cli pc p) := pe in
  match pc with
  | PcStart =>
      match cl_role cli with
      | Writer => let '(pc, p) := writer_start cli p in (mkPeer cli pc p, fs)
      | Reader => let '(pc, p) := reader_start cli now p in (mkPeer cli pc p, fs)
      end
  | PcWrite k i sent => let '(pc, (p, fs)) := writer_turn cli now io k i sent (p, fs) in (mkPeer cli pc p, fs)
  | PcLoop k dl received => (mkPeer cli (reader_head cli now k dl received) p, fs)
  | PcRecv k dl received => let '(pc, p) := reader_recv cli now k dl received p in (mkPeer cli pc p, fs)
  | PcExit _ | PcPanic => (pe, fs)
  end.

(** The poller of a live reader ticks. *)
Definition peer_tick (pe : Peer) fs : Peer :=
  let '(mkPeer cli pc p) := pe in
  match pc with
  | PcLoop k _ _ | PcRecv k _ _ => mkPeer cli pc (poll_round k fs p)
  | _ => pe
  end.

Inductive LabEvent : Type :=
| Step (a : nat) (now : Z) (io : list IoOutcome)
| Tick (a : nat).

Definition Lab : Type := list Peer * Files.

Definition lab_step (l : Lab) (e : LabEvent) : Lab :=
  let '(peers, fs) := l in
  match e with
  | Step a now io =>
      match peers !! a with
      | None => l
      | Some pe => let '(pe, fs) := peer_step now io pe fs in (<[a := pe]> peers, fs)
      end
  | Tick a => (alter (λ pe, peer_tick pe fs) a peers, fs)
  end.

Definition lab_run (l : Lab) (evs : list LabEvent) : Lab := foldl lab_step l evs.

(** The peers of these command lines and process ids, nothing on disk. *)
Definition lab_start (peers : list (Cli * Z)) : Lab :=
  ((λ x, mkPeer x.1 PcStart (Process_new x.2)) <$> peers, names_empty).
End peer.
Arguments Peer : clear implicits.
Arguments Lab : clear implicits.

(** ** One writer, one reader *)

(** What the reader reports for the sample [j] of the writer. *)
Definition reported (cli : Cli) (j : nat) : ReceivedSample :=
  mkReceivedSample (from_utf8_lossy (message cli j)) (Z.of_nat j + 1).
Definition expected (cli : Cli) : list ReceivedSample := reported cli <$> List.seq 0 (cl_count cli).

Lemma seq_snoc_sublist (idxs : list nat) m j : idxs `sublist_of` List.seq 0 m → (m <= j)%nat →
  idxs ++ [j] `sublist_of` List.seq 0 (S j).
Proof.
  intros Hs Hm. rewrite seq_S. apply sublist_app; [|done]. etrans; [exact Hs|].
  replace j with (m + (j - m))%nat by lia. rewrite seq_app. by apply sublist_inserts_r.
Qed.

Lemma seq_sublist (idxs : list nat) m n : idxs `sublist_of` List.seq 0 m → (m <= n)%nat → idxs `sublist_of` List.seq 0 n.
Proof.
  intros Hs Hm. etrans; [exact Hs|]. replace n with (m + (n - m))%nat by lia. rewrite seq_app. by apply sublist_inserts_r.
Qed.

Lemma sublist_full {A} (l k : list A) : l `sublist_of` k → (length k <= length l)%nat → l = k.
Proof.
  induction 1 as [|x l k Hs IH|x l k Hs IH]; simpl; intros Hl; [done|by rewrite IH by lia|].
  apply sublist_length in Hs. lia.
Qed.

Lemma fmap_sublist {A B} (f : A → B) (l k : list A) : l `sublist_of` k → f <$> l `sublist_of` f <$> k.
Proof. induction 1; rewrite ?fmap_cons; by constructor. Qed.

Section pair.
Context {N : Type} `{!Notify N} `{!BuildProfile} (temp_dir : Path).
Context (wcli rcli : Cli) (o0 o1 : Z).
Context (Hwriter : cl_role wcli = Writer) (Hreader : cl_role rcli = Reader).
Context (Htopic : cl_topic rcli = cl_topic wcli) (Hdomain : cl_domain rcli = cl_domain wcli).
Context (Ho : o0 ≠ o1) (Ho0 : is_u64 o0) (Hcount : Z.of_nat (cl_count wcli) < 2 ^ 64).
Context (Hsmall : ∀ i, (i < cl_count wcli)%nat → len (message wcli i) < 2 ^ 32).
Notation process := (Process N).
Notation peer := (Peer N).
Implicit Types (p : process) (pe : peer).

Let d : Domain := mkDomain (cl_domain wcli).
Let path : Path := data_path temp_dir d (cl_topic wcli).

(** A sample that is the writer's [j]-th. *)
Definition nth_sample (j : nat) (x : Sample) : Prop :=
  s_payload x = message wcli j ∧ sequence_number x = Z.of_nat j + 1.

Definition as_reported (x : Sample) : ReceivedSample :=
  mkReceivedSample (from_utf8_lossy (s_payload x)) (sequence_number x).

(** The file once [n] samples have been written. *)
Definition file_ok (n : nat) (fs : Files) : Prop :=
  names_ok fs ∧ (file_read path fs = None ∨
    ∃ j x, (j < n)%nat ∧ nth_sample j x ∧ file_read path fs = Some (encode o0 x)).

Definition writer_ok (n : nat) pe : Prop :=
  pe_cli pe = wcli ∧ sh_origin (pe_proc pe) = o0 ∧ (n <= cl_count wcli)%nat ∧
  match pe_pc pe with
  | PcStart => n = 0%nat ∧ pe_proc pe = Process_new o0
  | PcWrite k i sent => i = n ∧ sent = n ∧ ∃ q g, max_sample_size q = 0 ∧
      sh_publishers (pe_proc pe) !! k = Some (mkShmemPublisher d (cl_topic wcli) q g (Z.of_nat n) false)
  | PcExit r => rp_role r = Writer ∧ (rp_ok r = true → rp_sent r = Some n ∧ n = cl_count wcli)
  | _ => False
  end.

Definition seen (last_seq : option Z) (m : nat) : Prop :=
  last_seq = None ∧ m = 0%nat ∨ last_seq = Some (Z.of_nat m).

(** A live reader: [m] is one more than the last sample its poller has seen. *)
Definition listening (n : nat) (k : nat) (received : list ReceivedSample) p : Prop :=
  ∃ s i m idxs, sh_subscribers p !! k = Some s ∧ sh_queues p !! su_inner s = Some i ∧
    su_topic s = cl_topic wcli ∧ po_path (su_poller s) = path ∧ po_running (su_poller s) = true ∧
    seen (po_last_seq (su_poller s)) m ∧
    is_open i ∧ policy i = DropNewest ∧ (m <= n)%nat ∧
    idxs `sublist_of` List.seq 0 m ∧ received ++ (as_reported <$> queue i) = reported wcli <$> idxs.

Definition reader_ok (n : nat) pe : Prop :=
  pe_cli pe = rcli ∧ sh_origin (pe_proc pe) = o1 ∧
  match pe_pc pe with
  | PcStart => pe_proc pe = Process_new o1
  | PcLoop k _ received | PcRecv k _ received => listening n k received (pe_proc pe)
  | PcExit r => rp_role r = Reader ∧ (rp_ok r = true → is_Some (rp_received r)) ∧
      ∀ l, rp_received r = Some l → rp_ok r = (length l =? cl_count rcli)%nat ∧
        ∃ idxs, idxs `sublist_of` List.seq 0 n ∧ l = reported wcli <$> idxs
  | _ => False
  end.

(** *** The writer *)

Lemma writer_start_ok : ∀ pc p, writer_start wcli (Process_new o0 : process) = (pc, p) → writer_ok 0 (mkPeer wcli pc p).
Proof.
  intros pc p. unfold writer_start, ShmemParticipant_new, make_publisher, usable, validate_domain.
  destruct (_ || _); [by intros [= <- <-]; split_and!; try done; simpl; lia|].
  simpl. destruct (cl_topic wcli) eqn:Et; intros [= <- <-]; split_and!; try done; simpl; try lia.
  do 2 (split; [done|]). eexists (qos (cl_reliable wcli)), _. split; [by destruct (cl_reliable wcli)|by rewrite Et].
Qed.

Lemma file_ok_write n x io fs : file_ok n fs → nth_sample n x →
  file_ok (S n) (write_sample temp_dir o0 io d (cl_topic wcli) x fs).
Proof.
  intros [Hok Hf] Hx. destruct (write_sample_spec temp_dir o0 io d (cl_topic wcli) x fs Hok) as (b & _ & Hok' & Hw).
  split; [done|]. unfold file_read in *. rewrite Hw by apply data_not_tmp. unfold start_write. cbn [wr_dir wr_bytes].
  destruct (b && _).
  - right. exists n, x. split_and!; [lia|done..].
  - destruct Hf as [?|(j & y & ? & ? & ?)]; [by left|]. right. exists j, y. split_and!; [lia|done..].
Qed.

Lemma file_ok_mono n n' fs : file_ok n fs → (n <= n')%nat → file_ok n' fs.
Proof.
  intros [Hok Hf] Hn. split; [done|]. destruct Hf as [?|(j & y & ? & ? & ?)]; [by left|]. right. exists j, y. split_and!; [lia|done..].
Qed.

Lemma writer_turn_ok n now io k i sent p fs pc p' fs' :
  writer_ok n (mkPeer wcli (PcWrite k i sent) p) → file_ok n fs →
  writer_turn temp_dir wcli now io k i sent (p, fs) = (pc, (p', fs')) →
  ∃ n', (n <= n')%nat ∧ writer_ok n' (mkPeer wcli pc p') ∧ file_ok n' fs'.
Proof.
  intros (_ & Hor & Hle & -> & -> & q & g & Hq & Hk) Hf. cbn [pe_proc] in *. unfold writer_turn.
  destruct (Nat.ltb_spec n (cl_count wcli)) as [Hlt|Hge].
  - unfold write_payload. rewrite Hk. cbn [sp_closed sp_qos sp_seq sp_domain sp_topic sp_writer_guid]. rewrite Hq. cbn [andb Z.ltb Z.compare].
    rewrite uadd_ok by lia. destruct (ShmemBroker.publish _ _ _ _ _) as [b qs]. intros [= <- <- <-]. exists (S n).
    split_and!; [lia| |].
    + split_and!; [done|done|simpl; lia|]. simpl. do 2 (split; [done|]). exists q, g. split; [done|].
      rewrite list_lookup_insert_eq by by apply lookup_lt_Some in Hk. do 2 f_equal. unfold Counters.fetch_add. rewrite as_u_small; lia.
    + cbn [set_broker set_local set_publishers sh_origin]. rewrite Hor. apply file_ok_write; [done|]. by split.
  - intros [= <- <- <-]. exists n. split_and!; [done| |done]. split_and!; try done. simpl. split; [done|].
    intros Hs%Nat.eqb_eq. by split.
Qed.

(** *** The reader *)

Lemma file_ok_seen n fs dd : file_ok n fs → (n <= cl_count wcli)%nat → read_current path fs = Ok dd →
  d_origin_id dd = o0 ∧ ∃ j, (j < n)%nat ∧ d_payload dd = message wcli j ∧ d_seq dd = Z.of_nat j + 1.
Proof.
  intros [_ Hf] Hn Hr. unfold read_current in Hr.
  destruct Hf as [Hf|(j & x & Hj & [Hx1 Hx2] & Hf)]; rewrite Hf in Hr; [done|].
  apply decode_encode_inv in Hr as ->; [|done|unfold is_u64; lia|rewrite Hx1; apply Hsmall; lia].
  split; [done|]. exists j. by split_and!.
Qed.

Lemma push_new_reports (i : SubInner N) x idxs m j received : is_open i → policy i = DropNewest →
  idxs `sublist_of` List.seq 0 m → (m <= j)%nat → as_reported x = reported wcli j →
  received ++ (as_reported <$> queue i) = reported wcli <$> idxs →
  let i' := (push i x).2 in
  is_open i' ∧ policy i' = DropNewest ∧
  ∃ idxs', idxs' `sublist_of` List.seq 0 (S j) ∧ received ++ (as_reported <$> queue i') = reported wcli <$> idxs'.
Proof.
  intros [Hu Hc] Hpol Hs Hm Hx Hq. unfold push. rewrite Hu, Hc. unfold push_locked. rewrite Hpol. cbn [orb].
  destruct (capacity i <=? len (queue i)); cbn [snd].
  - split; [done|]. split; [done|]. exists idxs. split; [by apply (seq_sublist _ m); [|lia]|done].
  - split; [done|]. split; [done|]. exists (idxs ++ [j]). split; [by apply (seq_snoc_sublist _ m)|].
    cbn [queue set_notify set_deadline_notify set_queue]. rewrite !fmap_app, app_assoc, Hq. simpl. by rewrite Hx.
Qed.

(** A poll that finds the sample [j], or finds none. *)
Lemma poll_ok n fs po (i : SubInner N) m idxs received : (n <= cl_count wcli)%nat → file_ok n fs →
  po_path po = path → po_running po = true → seen (po_last_seq po) m → is_open i → policy i = DropNewest → (m <= n)%nat →
  idxs `sublist_of` List.seq 0 m → received ++ (as_reported <$> queue i) = reported wcli <$> idxs →
  let '(po', i') := poll o1 fs po i in
  po_path po' = path ∧ po_running po' = true ∧ is_open i' ∧ policy i' = DropNewest ∧
  ∃ m' idxs', seen (po_last_seq po') m' ∧ (m' <= n)%nat ∧ idxs' `sublist_of` List.seq 0 m' ∧
    received ++ (as_reported <$> queue i') = reported wcli <$> idxs'.
Proof.
  intros Hn Hf Hp Hrun Hseen [Hu Hc] Hpol Hm Hs Hq.
  assert (∀ j, (m <= j < n)%nat → ∀ dd, d_payload dd = message wcli j → d_seq dd = Z.of_nat j + 1 →
    let i' := ShmemIpc.deliver (po_topic po) dd i in is_open i' ∧ policy i' = DropNewest ∧
    ∃ m' idxs', seen (Some (d_seq dd)) m' ∧ (m' <= n)%nat ∧ idxs' `sublist_of` List.seq 0 m' ∧
      received ++ (as_reported <$> queue i') = reported wcli <$> idxs') as Hdel.
  { intros j Hj dd Hpl Hsq i'.
    destruct (push_new_reports i (mkSample (po_topic po) (d_payload dd) (d_timestamp_unix_nanos dd) (d_seq dd) (d_writer_guid dd))
      idxs m j received) as (H1 & H2 & idxs' & H3 & H4); [by split|done|done|lia| |done|].
    - unfold as_reported, reported. cbn [s_payload sequence_number]. by rewrite Hpl, Hsq.
    - split_and!; [done..|]. exists (S j), idxs'. split_and!; [right; f_equal; lia|lia|done..]. }
  assert (∀ dd, read_current path fs = Ok dd → (d_origin_id dd =? o1) = false ∧
    ∃ j, (j < n)%nat ∧ d_payload dd = message wcli j ∧ d_seq dd = Z.of_nat j + 1) as Hread.
  { intros dd Hr. destruct (file_ok_seen n fs dd Hf Hn Hr) as [-> Hj]. split; [by apply Z.eqb_neq|done]. }
  unfold poll. rewrite Hrun, Hp, Hu, Hc. cbn [negb orb].
  destruct Hseen as [[Hl ->]|Hl]; rewrite Hl.
  - destruct (read_current path fs) as [dd| |] eqn:Er.
    + destruct (Hread dd eq_refl) as [-> (j & Hj & Hpl & Hsq)]. cbn [negb andb].
      case_bool_decide; [by destruct (Hdel j ltac:(lia) dd Hpl Hsq)|].
      do 4 (split; [done|]). exists (S j), idxs. split_and!; [right; simpl; f_equal; lia|lia|by apply (seq_sublist _ 0); [|lia]|done].
    + do 4 (split; [done|]). exists 0%nat, idxs. by split_and!; [right|..].
    + do 4 (split; [done|]). exists 0%nat, idxs. by split_and!; [right|..].
  - assert (po_path po = path ∧ po_running po = true ∧ is_open i ∧ policy i = DropNewest ∧
      ∃ m' idxs', seen (po_last_seq po) m' ∧ (m' <= n)%nat ∧ idxs' `sublist_of` List.seq 0 m' ∧
      received ++ (as_reported <$> queue i) = reported wcli <$> idxs') as Hsame
      by (split_and!; [done..|exists m, idxs; by split_and!; [right|..]]).
    destruct (read_current path fs) as [dd| |] eqn:Er; [|exact Hsame..].
    destruct (Hread dd eq_refl) as [-> (j & Hj & Hpl & Hsq)]. cbn [orb].
    destruct (Z.leb_spec (d_seq dd) (Z.of_nat m)); [exact Hsame|]. by destruct (Hdel j ltac:(lia) dd Hpl Hsq).
Qed.

Lemma poll_round_ok n k received p fs : sh_origin p = o1 → (n <= cl_count wcli)%nat → file_ok n fs →
  listening n k received p → sh_origin (poll_round k fs p) = o1 ∧ listening n k received (poll_round k fs p).
Proof.
  intros Hor Hn Hf (s & i & m & idxs & Hs & Hi & Ht & Hp & Hrun & Hseen & Hop & Hpol & Hm & Hsub & Hq).
  unfold poll_round. rewrite Hs, Hi, Hor. pose proof (poll_ok n fs (su_poller s) i m idxs received) as Hpoll.
  destruct (poll o1 fs (su_poller s) i) as [po' i'].
  destruct Hpoll as (H1 & H2 & H3 & H4 & m' & idxs' & H5 & H6 & H7 & H8); [done..|].
  split; [done|]. exists (mkShmemSubscriber (su_inner s) (su_domain s) (su_topic s) po' (su_deadline_task s)), i', m', idxs'.
  cbn [sh_subscribers set_subscribers set_local sh_queues su_inner su_topic su_poller].
  split_and!; try done; rewrite list_lookup_insert_eq; try done; by eapply lookup_lt_Some.
Qed.

Lemma seen_le n n' k received p : listening n k received p → (n <= n')%nat → listening n' k received p.
Proof.
  intros (s & i & m & idxs & ? & ? & ? & ? & ? & ? & ? & ? & ? & ? & ?) Hn. exists s, i, m, idxs. split_and!; try done. lia.
Qed.

Lemma reader_done_ok n k received p : listening n k received p → sh_origin p = o1 →
  reader_ok n (mkPeer rcli (reader_done rcli received) p).
Proof.
  intros (s & i & m & idxs & _ & _ & _ & _ & _ & _ & _ & _ & Hm & Hsub & Hq) Hor. split_and!; try done. simpl.
  split; [done|]. split; [by eexists|]. intros l [= <-]. split; [done|].
  assert (received = reported wcli <$> take (length received) idxs) as Hr.
  { rewrite fmap_take, <- Hq. by rewrite take_app_length. }
  exists (take (length received) idxs). split; [|done]. etrans; [apply sublist_take|]. by apply (seq_sublist _ m).
Qed.

Lemma reader_start_ok n now pc p : reader_start temp_dir rcli now (Process_new o1 : process) = (pc, p) →
  reader_ok n (mkPeer rcli pc p).
Proof.
  unfold reader_start, ShmemParticipant_new, new_subscriber, usable, validate_domain.
  destruct (_ || _); [by intros [= <- <-]|]. simpl. destruct (cl_topic rcli) as [|c t] eqn:Et; [by intros [= <- <-]|].
  unfold ShmemBroker.subscribe, broker_of, ShmemBroker.topic_entry. simpl. rewrite lookup_insert_eq. simpl.
  assert (broker_of (mkDomain (cl_domain rcli)) (Process_new o1 : process) !! (c :: t) = None) as Hb
    by (unfold broker_of; simpl; by rewrite !lookup_empty).
  rewrite Hb. intros [= <- <-]. split; [done|]. split; [done|].
  eexists _, (SubInner_new 64 DropNewest), 0%nat, []. cbn [sh_subscribers sh_queues pe_proc].
  split_and!; simpl; try done; [by case_bool_decide|unfold path, d; by rewrite <- Htopic, <- Hdomain|by left|lia].
Qed.

Lemma reader_head_ok n now k dl received p : listening n k received p → sh_origin p = o1 →
  reader_ok n (mkPeer rcli (reader_head rcli now k dl received) p).
Proof.
  intros Hl Hor. unfold reader_head. cbv zeta. repeat case_match; try by eapply reader_done_ok. by split_and!.
Qed.

Lemma reader_recv_ok n now k dl received p pc p' : listening n k received p → sh_origin p = o1 →
  reader_recv rcli now k dl received p = (pc, p') → reader_ok n (mkPeer rcli pc p').
Proof.
  intros Hl Hor. pose proof Hl as (s & i & m & idxs & Hs & Hi & Ht & Hp & Hrun & Hseen & [Hu Hc] & Hpol & Hm & Hsub & Hq).
  unfold reader_recv, SubQueue.try_recv, pop. cbv zeta. rewrite Hs, Hi, Hc. destruct (queue i) as [|x q] eqn:E; cbn [snd].
  - case_match; intros [= <- <-]; [by eapply reader_done_ok|by split_and!].
  - intros [= <- <-]. unfold subscriber_try_recv. rewrite Hs. split; [done|]. split; [done|].
    exists s, (set_queue q i), m, idxs. cbn [sh_subscribers sh_queues with_queue set_local pe_proc].
    split_and!; try done.
    + rewrite list_lookup_alter, decide_True by done. rewrite Hi. simpl. unfold SubQueue.try_recv, pop. by rewrite E.
    + cbn [queue set_queue]. rewrite <- Hq. simpl. by rewrite <- app_assoc.
Qed.

(** *** The lab *)

Definition lab_ok (l : Lab N) : Prop :=
  ∃ n w r, l.1 = [w; r] ∧ writer_ok n w ∧ reader_ok n r ∧ file_ok n l.2.

Lemma reader_mono n n' r : reader_ok n r → (n <= n')%nat → reader_ok n' r.
Proof.
  intros (Hc & Hor & Hr) Hn. split; [done|]. split; [done|].
  destruct (pe_pc r) as [| |k dl rec|k dl rec|rep|]; try done; try by eapply seen_le.
  destruct Hr as (? & ? & Hl). split; [done|]. split; [done|]. intros l Hrec.
  destruct (Hl l Hrec) as (? & idxs & Hs & ?). split; [done|]. exists idxs. split; [by apply (seq_sublist _ n)|done].
Qed.

Lemma writer_step_ok n w now io fs : writer_ok n w → file_ok n fs →
  let '(w', fs') := peer_step temp_dir now io w fs in ∃ n', (n <= n')%nat ∧ writer_ok n' w' ∧ file_ok n' fs'.
Proof.
  intros Hw Hf. pose proof Hw as (Hcli & Hor & Hn & Hpc). destruct w as [cli pc p]. cbn [pe_cli pe_pc pe_proc] in *. subst cli.
  unfold peer_step. destruct pc as [|k i sent| | |r|]; try done.
  - destruct Hpc as [-> ->]. rewrite Hwriter. destruct (writer_start wcli _) as [pc p] eqn:E. exists 0%nat.
    split_and!; [lia|by apply writer_start_ok|done].
  - destruct (writer_turn _ _ _ _ _ _ _ _) as [pc [p' fs']] eqn:E. by eapply writer_turn_ok.
  - exists n. by split_and!.
Qed.

Lemma reader_step_ok n r now io fs : reader_ok n r →
  let '(r', fs') := peer_step temp_dir now io r fs in reader_ok n r' ∧ fs' = fs.
Proof.
  intros Hr. pose proof Hr as (Hcli & Hor & Hpc). destruct r as [cli pc p]. cbn [pe_cli pe_pc pe_proc] in *. subst cli.
  unfold peer_step. destruct pc as [|k i sent|k dl rec|k dl rec|rep|]; try done.
  - rewrite Hpc, Hreader. destruct (reader_start _ _ _ _) as [pc p'] eqn:E. split; [by eapply reader_start_ok|done].
  - split; [by apply reader_head_ok|done].
  - destruct (reader_recv _ _ _ _ _ _) as [pc p'] eqn:E. split; [by eapply reader_recv_ok|done].
Qed.

Lemma lab_step_ok l e : lab_ok l → lab_ok (lab_step temp_dir l e).
Proof.
  intros (n & w & r & Hl & Hw & Hr & Hf). destruct l as [peers fs]. simpl in Hl. subst peers. cbn [snd] in Hf.
  destruct e as [[|[|a]] now io|[|[|a]]]; cbn [lab_step lookup list_lookup alter list_alter].
  - pose proof (writer_step_ok n w now io fs Hw Hf) as Hs. destruct (peer_step _ _ _ _ _) as [w' fs'].
    destruct Hs as (n' & Hn & Hw' & Hf'). exists n', w', r. split_and!; [done|done|by eapply reader_mono|done].
  - pose proof (reader_step_ok n r now io fs Hr) as Hs. destruct (peer_step _ _ _ _ _) as [r' fs'].
    destruct Hs as [Hr' ->]. by exists n, w, r'.
  - by exists n, w, r.
  - exists n, (peer_tick w fs), r. split_and!; try done. destruct Hw as (? & ? & ? & Hpc). destruct w as [cli pc p].
    by destruct pc.
  - exists n, w, (peer_tick r fs). split_and!; try done. destruct Hr as (Hcli & Hor & Hpc). destruct r as [cli pc p].
    cbn [pe_cli pe_pc pe_proc] in *. destruct Hw as (_ & _ & Hn & _).
    destruct pc; try done; destruct (poll_round_ok n sub received p fs Hor Hn Hf Hpc); by split_and!.
  - exists n, w, r. by destruct a.
Qed.

Definition start : Lab N := lab_start [(wcli, o0); (rcli, o1)].

Lemma lab_run_ok evs : lab_ok (lab_run temp_dir start evs).
Proof.
  induction evs as [|e evs IH] using rev_ind; [|unfold lab_run; rewrite foldl_snoc; by apply lab_step_ok].
  exists 0%nat, (mkPeer wcli PcStart (Process_new o0)), (mkPeer rcli PcStart (Process_new o1)).
  split; [done|]. split; [do 2 (split; [done|]); by split; [lia|]|]. split; [done|].
  split; [split; simpl; intros *; by rewrite ?lookup_empty|by left].
Qed.

(** C30. A report can be trusted.  One writer and one reader with different
    process ids on the same domain and topic, with messages shorter than
    4 GiB and no rendezvous file left from before, in any interleaving
    of their steps, of the ticks of the reader's poller and of failing system
    calls: no peer panics, and the samples the reader reports are some of the
    writer's, in order, each with its own text and number and none twice.  A
    reader that exits with 0 has as many as it was asked to wait for, which
    may be a part of them; only if the writer was asked to send just as many
    has it reported exactly what the writer sent.  A writer that exits with 0
    has sent all it was asked to. *)
Theorem interop_sound evs peers fs w r :
  lab_run temp_dir start evs = (peers, fs) → peers !! 0%nat = Some w → peers !! 1%nat = Some r →
  pe_pc w ≠ PcPanic ∧ pe_pc r ≠ PcPanic ∧
  (∀ rep, pe_pc w = PcExit rep → exit_code rep = 0 → rp_sent rep = Some (cl_count wcli)) ∧
  ∀ rep, pe_pc r = PcExit rep →
    (exit_code rep = 0 → ∃ l, rp_received rep = Some l ∧ length l = cl_count rcli) ∧
    ∀ l, rp_received rep = Some l → l `sublist_of` expected wcli ∧
      (exit_code rep = 0 → cl_count rcli = cl_count wcli → l = expected wcli).
Proof.
  intros Hrun Hw Hr. pose proof (lab_run_ok evs) as (n & w' & r' & Hl & Hwo & Hro & _). rewrite Hrun in Hl. simpl in Hl. subst peers.
  injection Hw as ->. injection Hr as ->. destruct Hwo as (_ & _ & Hn & Hwp), Hro as (_ & _ & Hrp).
  assert (∀ rep, exit_code rep = 0 → rp_ok rep = true) as Hexit by (intros rep; unfold exit_code; by destruct (rp_ok rep)).
  split; [by intros E; rewrite E in Hwp|]. split; [by intros E; rewrite E in Hrp|]. split.
  - intros rep E Hok%Hexit. rewrite E in Hwp. destruct Hwp as [_ Hs]. destruct (Hs Hok) as [-> ->]. done.
  - intros rep E. rewrite E in Hrp. destruct Hrp as (_ & Hsome & Hrec). split.
    + intros Hok%Hexit. destruct (Hsome Hok) as [l Hl]. exists l. split; [done|]. destruct (Hrec l Hl) as [Heq _].
      rewrite Hok in Heq. by apply Nat.eqb_eq.
    + intros l Hl. destruct (Hrec l Hl) as [Heq (idxs & Hs & ->)].
      assert (idxs `sublist_of` List.seq 0 (cl_count wcli)) as Hs' by (by apply (seq_sublist _ n)).
      split; [unfold expected; by apply fmap_sublist|]. intros Hok%Hexit Hc. unfold expected. f_equal.
      rewrite Hok in Heq. symmetry in Heq. apply Nat.eqb_eq in Heq. rewrite length_fmap, Hc in Heq.
      apply sublist_full; [done|]. rewrite length_seq. lia.
Qed.

(** *** A run in which the reader keeps up *)

(** One sample: the writer writes it at [x.1], the poller ticks, the reader
    takes it. *)
Definition sample_round (x : Z * list IoOutcome) : list LabEvent :=
  [Step 0 x.1 x.2; Tick 1; Step 1 x.1 []; Step 1 x.1 []].
Definition keeping_up (t0 : Z) (rounds : list (Z * list IoOutcome)) : list LabEvent :=
  [Step 1 t0 []; Tick 1; Step 0 t0 []] ++ (rounds ≫= sample_round) ++ [Step 0 t0 []; Step 1 t0 []].

(** Both at the heads of their loops, [n] samples exchanged. *)
Definition exchanged (deadline : Z) (n : nat) (l : Lab N) : Prop :=
  ∃ kw q g pw kr s i pr fs,
    l = ([mkPeer wcli (PcWrite kw n n) pw; mkPeer rcli (PcLoop kr deadline (reported wcli <$> List.seq 0 n)) pr], fs) ∧
    max_sample_size q = 0 ∧ sh_origin pw = o0 ∧ sh_origin pr = o1 ∧
    sh_publishers pw !! kw = Some (mkShmemPublisher d (cl_topic wcli) q g (Z.of_nat n) false) ∧
    sh_subscribers pr !! kr = Some s ∧ sh_queues pr !! su_inner s = Some i ∧
    po_path (su_poller s) = path ∧ po_running (su_poller s) = true ∧ po_last_seq (su_poller s) = Some (Z.of_nat n) ∧
    is_open i ∧ policy i = DropNewest ∧ 0 < capacity i ∧ queue i = [] ∧ names_ok fs.

Lemma writer_turn_writes n now io k q g p fs : (n < cl_count wcli)%nat → max_sample_size q = 0 → sh_origin p = o0 → names_ok fs →
  sh_publishers p !! k = Some (mkShmemPublisher d (cl_topic wcli) q g (Z.of_nat n) false) → Forall succeeds io →
  ∃ p' fs' x, writer_turn temp_dir wcli now io k n n (p, fs) = (PcWrite k (S n) (S n), (p', fs')) ∧
    sh_publishers p' !! k = Some (mkShmemPublisher d (cl_topic wcli) q g (Z.of_nat (S n)) false) ∧
    sh_origin p' = o0 ∧ names_ok fs' ∧ nth_sample n x ∧ file_read path fs' = Some (encode o0 x).
Proof.
  intros Hlt Hq Hor Hok Hk Hio. unfold writer_turn. rewrite (proj2 (Nat.ltb_lt _ _) Hlt).
  unfold write_payload. rewrite Hk. cbn [sp_closed sp_qos sp_seq sp_domain sp_topic sp_writer_guid]. rewrite Hq. cbn [andb Z.ltb Z.compare].
  rewrite uadd_ok by lia. destruct (ShmemBroker.publish _ _ _ _ _) as [b qs].
  cbn [set_broker set_local set_publishers sh_origin]. rewrite Hor.
  set (x := mkSample _ _ _ _ _). destruct (write_sample_spec temp_dir o0 io d (cl_topic wcli) x fs Hok) as (ok & Hb & Hok' & Hw).
  eexists _, _, x. split; [done|]. split_and!; try done.
  - unfold set_broker. simpl. rewrite list_lookup_insert_eq by by apply lookup_lt_Some in Hk.
    do 2 f_equal. unfold Counters.fetch_add. rewrite as_u_small; lia.
  - unfold file_read, path. rewrite Hw by apply data_not_tmp. rewrite (Hb Hio), bool_decide_true; done.
Qed.

Lemma reader_takes k now deadline received p s i z q : sh_subscribers p !! k = Some s → sh_queues p !! su_inner s = Some i →
  queue i = z :: q → ∃ p', reader_recv rcli now k deadline received p = (PcLoop k deadline (received ++ [as_reported z]), p') ∧
    sh_origin p' = sh_origin p ∧ sh_subscribers p' = sh_subscribers p ∧ sh_queues p' !! su_inner s = Some (set_queue q i).
Proof.
  intros Hs Hi Hq. unfold reader_recv, SubQueue.try_recv, pop. cbv zeta. rewrite Hs, Hi, Hq. eexists. split; [done|].
  unfold subscriber_try_recv. rewrite Hs. split_and!; [done..|]. simpl. rewrite list_lookup_alter, decide_True, Hi by done. simpl.
  unfold SubQueue.try_recv, pop. by rewrite Hq.
Qed.

Lemma push_empty (i : SubInner N) x : is_open i → policy i = DropNewest → 0 < capacity i → queue i = [] →
  let i' := (push i x).2 in is_open i' ∧ policy i' = DropNewest ∧ capacity i' = capacity i ∧ queue i' = [x].
Proof.
  intros [Hu Hc] Hpol Hcap Hq. unfold push, push_locked. rewrite Hu, Hc, Hpol, Hq. cbn [orb].
  rewrite (proj2 (Z.leb_gt _ _)) by done. by split_and!.
Qed.

Lemma exchange_one deadline n x l : (n < cl_count wcli)%nat → (cl_count wcli <= cl_count rcli)%nat → len (message wcli n) <= MAX_PAYLOAD_BYTES →
  x.1 < deadline → Forall succeeds x.2 → exchanged deadline n l → exchanged deadline (S n) (lab_run temp_dir l (sample_round x)).
Proof.
  intros Hlt Hc Hmax Hx Hio (kw & q & g & pw & kr & s & i & pr & fs & -> & Hq & Ho0' & Ho1' & Hk & Hs & Hi & Hp & Hrun & Hlast & Hop & Hpol & Hcap & Hqu & Hok).
  destruct x as [now io]. cbn [fst snd] in *.
  destruct (writer_turn_writes n now io kw q g pw fs) as (pw' & fs' & y & Hw & Hk' & Ho' & Hok' & [Hy1 Hy2] & Hf); [done..|].
  unfold lab_run, sample_round. cbn [foldl fst snd lab_step lookup list_lookup peer_step]. rewrite Hw.
  cbn [alter list_alter insert list_insert peer_tick lookup list_lookup peer_step lab_step].
  unfold poll_round. rewrite Hs, Hi, Ho1', (poll_other o1 o0 fs' (su_poller s) i y);
    [|done|done|by rewrite Hp|done|unfold is_u64; lia|done|by rewrite Hy1].
  unfold hears. rewrite Hlast, Hy2, (proj2 (Z.ltb_lt _ _)) by lia.
  unfold reader_head. rewrite length_fmap, length_seq, (proj2 (Nat.ltb_lt _ _)) by lia.
  rewrite (proj2 (Z.eqb_neq _ _)) by lia. cbn [peer_step lookup list_lookup insert list_insert].
  set (s' := mkShmemSubscriber (su_inner s) (su_domain s) (su_topic s) _ _).
  destruct (push_empty i (as_read (po_topic (su_poller s)) y)) as (Hop' & Hpol' & Hcap' & Hqu'); [done..|].
  set (i' := (push i _).2) in *. set (p1 := set_subscribers _ _).
  destruct (reader_takes kr now deadline (reported wcli <$> List.seq 0 n) p1 s' i' (as_read (po_topic (su_poller s)) y) [])
    as (p2 & Hr & Ho2 & Hs2 & Hq2); [..|done|].
  { unfold p1. simpl. rewrite list_lookup_insert_eq by by eapply lookup_lt_Some. done. }
  { unfold p1. simpl. by rewrite list_lookup_insert_eq by by eapply lookup_lt_Some. }
  rewrite Hr. exists kw, q, g, pw', kr, s', (set_queue [] i'), p2, fs'. split.
  { rewrite seq_S, fmap_app. do 4 f_equal. simpl. unfold as_reported, reported. by rewrite <- Hy1, <- Hy2. }
  split_and!; try done.
  - by rewrite Ho2.
  - rewrite Hs2. unfold p1. simpl. by rewrite list_lookup_insert_eq by by eapply lookup_lt_Some.
  - simpl. f_equal. lia.
  - simpl. lia.
Qed.

Lemma exchange_all deadline rounds l n : (n + length rounds <= cl_count wcli)%nat → (cl_count wcli <= cl_count rcli)%nat →
  (∀ i, (i < cl_count wcli)%nat → len (message wcli i) <= MAX_PAYLOAD_BYTES) →
  Forall (λ x, x.1 < deadline ∧ Forall succeeds x.2) rounds → exchanged deadline n l →
  exchanged deadline (n + length rounds) (lab_run temp_dir l (rounds ≫= sample_round)).
Proof.
  intros Hn Hc Hmax Hr. revert l n Hn. induction Hr as [|x rounds [Hx Hio] _ IH]; intros l n Hn Hl; cbn [length] in *; [by rewrite Nat.add_0_r|].
  unfold lab_run. rewrite bind_cons, foldl_app. rewrite <- Nat.add_succ_comm. apply (IH _ (S n)); [lia|].
  apply exchange_one; try done; [lia|apply Hmax; lia].
Qed.

Lemma usable_ok k t p pa : sh_participants p !! k = Some pa → pa_closed pa = false → t ≠ [] → usable k t p = Ok pa.
Proof. intros Hk Hc Ht. unfold usable. rewrite Hk, Hc. by destruct t. Qed.

Lemma reader_start_eq now : validate_domain d = Ok tt → cl_topic wcli ≠ [] → ∃ s pr,
  reader_start temp_dir rcli now (Process_new o1 : process) = (PcLoop 0 (now + cl_recv_timeout_secs rcli * 1000000000) [], pr) ∧
  sh_origin pr = o1 ∧ sh_subscribers pr !! 0%nat = Some s ∧ sh_queues pr !! su_inner s = Some (SubInner_new 64 DropNewest) ∧
  su_poller s = spawn_poller temp_dir d (cl_topic wcli) (durability (qos (cl_reliable rcli))).
Proof.
  intros Hd Ht. unfold reader_start, ShmemParticipant_new, new_subscriber. rewrite Hdomain, Htopic. fold d. rewrite Hd.
  erewrite usable_ok by done. unfold ShmemBroker.subscribe, ShmemBroker.topic_entry. simpl.
  set (b := broker_of d _ !! cl_topic wcli). assert (b = None) as ->.
  { unfold b, broker_of. simpl. rewrite lookup_insert_eq. simpl. unfold broker_of. simpl. by rewrite !lookup_empty. }
  eexists _, _. split; [done|]. simpl. split_and!; try done. by case_bool_decide.
Qed.

Lemma writer_start_eq : validate_domain d = Ok tt → cl_topic wcli ≠ [] → ∃ q g pw,
  writer_start wcli (Process_new o0 : process) = (PcWrite 0 0 0, pw) ∧ max_sample_size q = 0 ∧ sh_origin pw = o0 ∧
  sh_publishers pw !! 0%nat = Some (mkShmemPublisher d (cl_topic wcli) q g 0 false).
Proof.
  intros Hd Ht. unfold writer_start, ShmemParticipant_new, make_publisher. fold d. rewrite Hd.
  erewrite usable_ok by done. eexists (qos (cl_reliable wcli)), _, _. split; [done|].
  split; [by destruct (cl_reliable wcli)|by split].
Qed.

Lemma keeping_up_start t0 : validate_domain d = Ok tt → cl_topic wcli ≠ [] →
  exchanged (t0 + cl_recv_timeout_secs rcli * 1000000000) 0 (lab_run temp_dir start [Step 1 t0 []; Tick 1; Step 0 t0 []]).
Proof.
  intros Hd Ht. destruct (reader_start_eq t0 Hd Ht) as (s & pr & Hr & Ho1' & Hs & Hi & Hpo).
  destruct (writer_start_eq Hd Ht) as (q & g & pw & Hw & Hq & Ho0' & Hk).
  unfold lab_run, start, lab_start. cbn [foldl fmap list_fmap lab_step lookup list_lookup peer_step fst snd].
  rewrite Hreader, Hr. cbn [alter list_alter insert list_insert peer_tick lookup list_lookup peer_step lab_step].
  rewrite Hwriter, Hw. unfold poll_round. rewrite Hs, Hi, Hpo. unfold poll, spawn_poller.
  cbn [po_running po_last_seq po_path po_topic po_durability negb].
  assert (read_current (data_path temp_dir d (cl_topic wcli)) names_empty = Err DecodeError.Io) as ->
    by (unfold read_current, file_read, content; simpl; by rewrite lookup_empty).
  eexists _, q, g, pw, _, _, (SubInner_new 64 DropNewest), _, _. split; [done|]. split_and!; try done.
  - simpl. apply list_lookup_insert_eq. by eapply lookup_lt_Some.
  - simpl. apply list_lookup_insert_eq. by eapply lookup_lt_Some.
  - done.
  - done.
  - done.
Qed.

(** C8. A reader that keeps up gets everything.  One writer and one reader with
    different process ids are given the same valid domain and the same topic,
    which is not empty; the reader is asked for as many samples as the writer
    is to send; each message has at most 16 MiB; no rendezvous file is left
    from before.  On the one schedule in which the reader subscribes and its
    poller ticks before the writer starts, and each write, of which no system
    call fails, is followed by one tick of the poller and one look of the
    reader at its queue before its deadline, both peers exit with 0, and the
    reader has reported exactly what the writer sent, in order. *)
Theorem interop_complete t0 rounds :
  validate_domain d = Ok tt → cl_topic wcli ≠ [] → cl_count rcli = cl_count wcli → length rounds = cl_count wcli →
  (∀ i, (i < cl_count wcli)%nat → len (message wcli i) <= MAX_PAYLOAD_BYTES) →
  Forall (λ x, x.1 < t0 + cl_recv_timeout_secs rcli * 1000000000 ∧ Forall succeeds x.2) rounds →
  ∃ w r fs rw rr, lab_run temp_dir start (keeping_up t0 rounds) = ([w; r], fs) ∧
    pe_pc w = PcExit rw ∧ exit_code rw = 0 ∧ rp_sent rw = Some (cl_count wcli) ∧
    pe_pc r = PcExit rr ∧ exit_code rr = 0 ∧ rp_received rr = Some (expected wcli).
Proof.
  intros Hd Ht Hc Hl Hmax Hr. unfold keeping_up. unfold lab_run. rewrite !foldl_app.
  pose proof (exchange_all _ rounds _ 0 ltac:(lia) ltac:(lia) Hmax Hr (keeping_up_start t0 Hd Ht)) as Hx.
  unfold lab_run in Hx. rewrite Hl in Hx. destruct Hx as (kw & q & g & pw & kr & s & i & pr & fs & -> & _).
  cbn [foldl lab_step lookup list_lookup peer_step]. unfold writer_turn. rewrite Nat.ltb_irrefl.
  cbn [insert list_insert lookup list_lookup peer_step lab_step]. unfold reader_head, reader_done.
  rewrite length_fmap, length_seq, Hc, Nat.ltb_irrefl, Nat.eqb_refl. eexists _, _, _, _, _. split; [done|].
  by split_and!.
Qed.
End pair.

(** ** Instances *)

#[local] Instance demo_profile : BuildProfile := true.
#[local] Notation demo := (Lab (bool * option bool)).

Definition demo_cli (role : Role) : Cli :=
  mkCli role (bytes_of_ascii "a/b") 0 2 (bytes_of_ascii "interop") 20 10 false.
Definition demo_start : demo := start (demo_cli Writer) (demo_cli Reader) 11 22.

Lemma demo_small : ∀ i, (i < 2)%nat → len (message (demo_cli Writer) i) <= MAX_PAYLOAD_BYTES.
Proof. intros [|[|i]] Hi; [vm_compute; discriminate..|lia]. Qed.

(** The poller ticks once after two writes: the reader gets the second sample
    only, and reports that it did not get two. *)
Definition demo_missing : list LabEvent :=
  [Step 1 0 []; Tick 1; Step 0 0 []; Step 0 1 []; Step 0 2 []; Tick 1; Step 1 3 []; Step 1 3 []; Step 1 4 [];
   Step 1 20000000000 []; Step 0 5 []].

Lemma interop_sound_witness :
  ∃ w r rep, (lab_run demo_tmp demo_start demo_missing).1 = [w; r] ∧ pe_pc r = PcExit rep ∧ exit_code rep = 1 ∧
    rp_received rep = Some [mkReceivedSample (bytes_of_ascii "interop-1") 2] ∧
    [mkReceivedSample (bytes_of_ascii "interop-1") 2] `sublist_of` expected (demo_cli Writer).
Proof.
  destruct (lab_run demo_tmp demo_start demo_missing) as [peers fs] eqn:E.
  assert (∃ w r rep, peers = [w; r] ∧ pe_pc r = PcExit rep ∧ exit_code rep = 1 ∧
    rp_received rep = Some [mkReceivedSample (bytes_of_ascii "interop-1") 2]) as (w & r & rep & -> & Hr & Hx & Hl).
  { change peers with (peers, fs).1. rewrite <- E. eexists _, _, _. split_and!; vm_compute; reflexivity. }
  exists w, r, rep. split; [reflexivity|]. split; [exact Hr|]. split; [exact Hx|]. split; [exact Hl|].
  destruct (interop_sound demo_tmp (demo_cli Writer) (demo_cli Reader) 11 22 eq_refl eq_refl eq_refl eq_refl
    ltac:(discriminate) ltac:(by split) ltac:(by compute)
    (λ i Hi, Z.le_lt_trans _ MAX_PAYLOAD_BYTES (2 ^ 32) (demo_small i Hi) eq_refl) demo_missing [w; r] fs w r E eq_refl eq_refl)
    as (_ & _ & _ & H).
  destruct (H rep Hr) as [_ Hs]. by apply Hs.
Defined.

Lemma interop_complete_witness :
  ∃ w r fs rw rr, lab_run demo_tmp demo_start (keeping_up 0 [(1, [IoOk; IoOk; IoShort 3]); (2, [])]) = ([w; r], fs) ∧
    pe_pc w = PcExit rw ∧ exit_code rw = 0 ∧ pe_pc r = PcExit rr ∧ exit_code rr = 0 ∧
    rp_received rr = Some [mkReceivedSample (bytes_of_ascii "interop-0") 1; mkReceivedSample (bytes_of_ascii "interop-1") 2].
Proof.
  destruct (interop_complete (N:=bool * option bool) demo_tmp (demo_cli Writer) (demo_cli Reader) 11 22 eq_refl eq_refl eq_refl eq_refl
    ltac:(discriminate) ltac:(by split) ltac:(by compute) 0 [(1, [IoOk; IoOk; IoShort 3]); (2, [])]) as (w & r & fs & rw & rr & H).
  - reflexivity.
  - discriminate.
  - reflexivity.
  - reflexivity.
  - apply demo_small.
  - repeat constructor; discriminate.
  - exists w, r, fs, rw, rr. destruct H as (H1 & H2 & H3 & _ & H4 & H5 & H6). split; [exact H1|]. split; [exact H2|]. split; [exact H3|]. split; [exact H4|]. split; [exact H5|].
    rewrite H6. vm_compute. reflexivity.
Defined.
