(* ===== verification/DdsParticipant.v ===== *)
(** * DdsParticipant: the UDP participant behind the public traits
    (src/rtps/dds_participant.rs)

    Construction binds the sockets, starts the discovery services and the
    runtime of Participant and connects them by tasks and channels.  A task
    is a name on the list [tasks]; a round of its loop is a step that is
    enabled while the name is on the list, so that aborting is removing.  The
    operating system is the record [OsNet]; [{e}] of an [io::Error] is the
    argument [show_err].  A publisher or subscriber is its position in the list
    of those handed out. *)

From S2P Require Import Prelude Guid Locator Persist Types Observability SubQueue.
From S2P Require Import Reliable Message Transport Socket Spdp Sedp Participant.

(** ** Configuration *)

Record RtpsUdpParticipantConfig : Type := mkUdpConfig {
  uc_peer_locators : list SocketAddr;
  uc_no_multicast : bool;
  uc_ipv6 : bool }.

Module RtpsUdpParticipantConfig.
Definition new : RtpsUdpParticipantConfig := mkUdpConfig [] false false.

Definition with_peer_locators (addrs : list SocketAddr) (c : RtpsUdpParticipantConfig)
    : RtpsUdpParticipantConfig :=
  mkUdpConfig (uc_peer_locators c ++ addrs) (uc_no_multicast c) (uc_ipv6 c).
Definition with_no_multicast (c : RtpsUdpParticipantConfig) : RtpsUdpParticipantConfig :=
  mkUdpConfig (uc_peer_locators c) true (uc_ipv6 c).
Definition with_ipv6 (c : RtpsUdpParticipantConfig) : RtpsUdpParticipantConfig :=
  mkUdpConfig (uc_peer_locators c) (uc_no_multicast c) true.
End RtpsUdpParticipantConfig.

(** ** Sockets *)

(** What the system answers, given the sockets bound so far: [os_make] for a
    unicast socket (address family, port), whose result [os_finish] registers
    with tokio, and [os_join] for a multicast group. *)
Record OsNet (H : Type) : Type := mkOs {
  os_make : list RtpsSocket → bool → Z → H + NetError;
  os_finish : H → RtpsSocket + NetError;
  os_join : list RtpsSocket → SocketAddr → RtpsSocket + NetError }.
Arguments mkOs {H}.
Arguments os_make {H}.
Arguments os_finish {H}.
Arguments os_join {H}.

(** [bind_unicast_v4] and [bind_unicast_v6] *)
Definition bind_unicast {H} (os : OsNet H) (bound : list RtpsSocket) (ipv6 : bool) (port : Z)
    : RtpsSocket + NetError :=
  match bind_unicast_retry port (os_make os bound ipv6) with
  | inl h => os_finish os h
  | inr e => inr (default (NoFreePort port) e)
  end.

(** The two multicast groups. *)
Definition user_data_multicast_dst (ipv6 : bool) (port : Z) : SocketAddr :=
  if ipv6 then SocketAddrV6 USER_DATA_MULTICAST_ADDR_V6 port
  else SocketAddrV4 USER_DATA_MULTICAST_ADDR port.

(** ** State *)

Inductive UdpTask : Type :=
| AnnounceLoop | EvictLoop
| McastRecv | SpdpMcastLoop
| MetaRecv | FanoutLoop | SpdpMetaLoop | SedpMetaLoop
| MatchListener | PeerListener
| DataRecv | DataLoop
| UserMcastRecv | UserMcastLoop.

#[global] Instance UdpTask_eq_dec : EqDecision UdpTask.
Proof. solve_decision. Defined.

(** Where [spawn_datagram_fanout] stands: waiting for a datagram, or waiting
    for room to send one to SPDP, or then to SEDP. *)
Inductive Fanout : Type := FanIdle | FanSpdp (d : RtpsDatagram) | FanSedp (d : RtpsDatagram).

(** The datagram channels, all of capacity 64. *)
Record Channels : Type := mkChannels {
  mcast_rx : Chan RtpsDatagram;
  meta_rx : Chan RtpsDatagram;
  fanout : Fanout;
  spdp_meta_rx : Chan RtpsDatagram;
  sedp_meta_rx : Chan RtpsDatagram;
  data_rx : Chan RtpsDatagram;
  mcast_data_rx : Chan RtpsDatagram }.

Record RtpsPublisher : Type := mkRtpsPublisher {
  pb_writer : RtpsWriter;
  pb_max_sample_size : Z;
  pb_closed : bool;
  heartbeat_task : bool }.

Record RtpsSubscriber : Type := mkRtpsSubscriber {
  sb_reader : RtpsReader;
  sb_deadline_task : option Z }.

Record RtpsUdpParticipant (N : Type) : Type := mkUdp {
  u_domain : Domain;
  u_inner : RtpsParticipant N;
  u_spdp : SpdpService;
  mcast_socket : option RtpsSocket;
  user_data_mcast_socket : option RtpsSocket;
  u_subscribers : list nat;
  tasks : list UdpTask;
  u_closed : bool;
  channels : Channels;
  u_publishers : list RtpsPublisher;
  u_subscriptions : list RtpsSubscriber;
  cleanups : list RtpsReader }.
Arguments mkUdp {N}.
Arguments u_domain {N}.
Arguments u_inner {N}.
Arguments u_spdp {N}.
Arguments mcast_socket {N}.
Arguments user_data_mcast_socket {N}.
Arguments u_subscribers {N}.
Arguments tasks {N}.
Arguments u_closed {N}.
Arguments channels {N}.
Arguments u_publishers {N}.
Arguments u_subscriptions {N}.
Arguments cleanups {N}.

(** *** Field updates *)

Definition set_inner {N} x (self : RtpsUdpParticipant N) : RtpsUdpParticipant N :=
  mkUdp (u_domain self) x (u_spdp self) (mcast_socket self) (user_data_mcast_socket self)
    (u_subscribers self) (tasks self) (u_closed self) (channels self) (u_publishers self)
    (u_subscriptions self) (cleanups self).
Definition set_spdp {N} x (self : RtpsUdpParticipant N) : RtpsUdpParticipant N :=
  mkUdp (u_domain self) (u_inner self) x (mcast_socket self) (user_data_mcast_socket self)
    (u_subscribers self) (tasks self) (u_closed self) (channels self) (u_publishers self)
    (u_subscriptions self) (cleanups self).
Definition set_channels {N} x (self : RtpsUdpParticipant N) : RtpsUdpParticipant N :=
  mkUdp (u_domain self) (u_inner self) (u_spdp self) (mcast_socket self)
    (user_data_mcast_socket self) (u_subscribers self) (tasks self) (u_closed self) x
    (u_publishers self) (u_subscriptions self) (cleanups self).
(** The list [tasks] is the code's: it does not hold the heartbeat tasks that
    [new_reliable_writer] spawns, which are a flag of their publishers
    ([heartbeat_task]) and tick in [heartbeat_tick], whether or not the
    participant is closed. *)
Definition set_tasks {N} x (self : RtpsUdpParticipant N) : RtpsUdpParticipant N :=
  mkUdp (u_domain self) (u_inner self) (u_spdp self) (mcast_socket self)
    (user_data_mcast_socket self) (u_subscribers self) x (u_closed self) (channels self)
    (u_publishers self) (u_subscriptions self) (cleanups self).
Definition set_publishers {N} x (self : RtpsUdpParticipant N) : RtpsUdpParticipant N :=
  mkUdp (u_domain self) (u_inner self) (u_spdp self) (mcast_socket self)
    (user_data_mcast_socket self) (u_subscribers self) (tasks self) (u_closed self)
    (channels self) x (u_subscriptions self) (cleanups self).
Definition set_subscriptions {N} x y (self : RtpsUdpParticipant N) : RtpsUdpParticipant N :=
  mkUdp (u_domain self) (u_inner self) (u_spdp self) (mcast_socket self)
    (user_data_mcast_socket self) x (tasks self) (u_closed self) (channels self)
    (u_publishers self) y (cleanups self).
Definition set_cleanups {N} x (self : RtpsUdpParticipant N) : RtpsUdpParticipant N :=
  mkUdp (u_domain self) (u_inner self) (u_spdp self) (mcast_socket self)
    (user_data_mcast_socket self) (u_subscribers self) (tasks self) (u_closed self)
    (channels self) (u_publishers self) (u_subscriptions self) x.
Definition set_u_closed {N} (self : RtpsUdpParticipant N) : RtpsUdpParticipant N :=
  mkUdp (u_domain self) (u_inner self) (u_spdp self) (mcast_socket self)
    (user_data_mcast_socket self) (u_subscribers self) (tasks self) true (channels self)
    (u_publishers self) (u_subscriptions self) (cleanups self).

(** ** The participant *)

(** The tasks a new participant starts, in this order. *)
Definition new_tasks (mcast user_mcast : bool) : list UdpTask :=
  [AnnounceLoop; EvictLoop] ++ (if mcast then [McastRecv; SpdpMcastLoop] else [])
  ++ [MetaRecv; FanoutLoop; SpdpMetaLoop; SedpMetaLoop; MatchListener; PeerListener; DataRecv;
      DataLoop] ++ (if user_mcast then [UserMcastRecv; UserMcastLoop] else []).

Definition new_channels : Channels :=
  let c := channel 64 in mkChannels c c FanIdle c c c c.

Module RtpsUdpParticipant.
Section construction.
Context {N : Type} `{!Notify N} `{BuildProfile}.
Context {S : Type} (os : OsNet S) (show_err : NetError → str) (disk : FileSystem).
Notation udp := (RtpsUdpParticipant N).

(** [.ok_or_else(|| Error::Other(format!(..)))?] on a port of the formula *)
Definition port_or (what : str) (d : Domain) (port : panics (option Z)) : eres Z :=
  match port with
  | Ok (Some p) => Ok p
  | Ok None => Err (Other (bytes_of_ascii "rtps: domain " ++ show (domain_id d)
                           ++ bytes_of_ascii " out of range for the " ++ what
                           ++ bytes_of_ascii " port formula"))
  | _ => Panic
  end.

(** [.map_err(|e| Error::Other(format!("rtps: bind {what} socket: {e}")))?] *)
Definition socket_or (what : str) (r : RtpsSocket + NetError) : eres RtpsSocket :=
  match r with
  | inl sock => Ok sock
  | inr e => Err (Other (bytes_of_ascii "rtps: bind " ++ what ++ bytes_of_ascii " socket: "
                         ++ show_err e))
  end.

(** The discovery configurations. *)
Definition spdp_config (d : Z) (g : GuidPrefix) (meta data : RtpsSocket)
    (config : RtpsUdpParticipantConfig) : SpdpConfig :=
  let cfg := SpdpConfig.new d g (RtpsSocket.local_port meta) (RtpsSocket.local_port data) in
  let cfg := SpdpConfig.with_peer_locators (uc_peer_locators config) cfg in
  let cfg := if uc_no_multicast config then SpdpConfig.with_no_multicast cfg else cfg in
  if uc_ipv6 config then SpdpConfig.with_ipv6 cfg else cfg.

Definition sedp_config (g : GuidPrefix) (data : RtpsSocket) (config : RtpsUdpParticipantConfig)
    : SedpConfig :=
  let cfg := SedpConfig.new g (RtpsSocket.local_port data) in
  if uc_ipv6 config then SedpConfig.with_ipv6 cfg else cfg.

(** The services and the runtime over bound sockets. *)
Definition assemble (d : Domain) (g : GuidPrefix) (meta data : RtpsSocket)
    (mcast user_mcast : option RtpsSocket) (config : RtpsUdpParticipantConfig) : udp :=
  let spdp := SpdpService_new (spdp_config (as_u 32 (domain_id d)) g meta data config) in
  let sedp := SedpService_new (sedp_config g data config) in
  let inner := new_inner g VENDOR_ID_RUST_DDS data sedp meta None disk in
  let inner := listen_for_matches inner in
  let spdp := set_peer_listener unbounded_channel spdp in
  let inner := match user_mcast with
               | Some sock =>
                   set_user_data_multicast
                     (user_data_multicast_dst (uc_ipv6 config) (RtpsSocket.local_port sock)) inner
               | None => inner
               end in
  mkUdp d inner spdp mcast user_mcast []
    (new_tasks (bool_decide (is_Some mcast)) (bool_decide (is_Some user_mcast)))
    false new_channels [] [] [].

Definition new_with_config (d : Domain) (config : RtpsUdpParticipantConfig) (g : GuidPrefix)
    : eres udp :=
  _ ← validate_domain d;
  let n := as_u 32 (domain_id d) in
  meta_base_port ← port_or (bytes_of_ascii "metatraffic unicast") d (meta_unicast_port n 0);
  data_base_port ← port_or (bytes_of_ascii "user-data unicast") d (data_unicast_port n 0);
  meta ← socket_or (bytes_of_ascii "metatraffic")
           (bind_unicast os [] (uc_ipv6 config) meta_base_port);
  data ← socket_or (bytes_of_ascii "user-data")
           (bind_unicast os [meta] (uc_ipv6 config) data_base_port);
  mcast ← (if uc_no_multicast config then Ok None
           else
             port ← port_or (bytes_of_ascii "SPDP multicast") d (meta_multicast_port n);
             sock ← socket_or (bytes_of_ascii "SPDP multicast")
                      (os_join os [meta; data] (spdp_multicast_dst (uc_ipv6 config) port));
             Ok (Some sock));
  let bound := [meta; data] ++ match mcast with Some sock => [sock] | None => [] end in
  user_mcast ← (if uc_no_multicast config then Ok None
                else match user_multicast_port n with
                     | Ok (Some port) =>
                         match os_join os bound (user_data_multicast_dst (uc_ipv6 config) port) with
                         | inl sock => Ok (Some sock)
                         | inr _ => Ok None
                         end
                     | Ok None => Ok None
                     | _ => Panic
                     end);
  Ok (assemble d g meta data mcast user_mcast config).

Definition new (d : Domain) (g : GuidPrefix) : eres udp :=
  new_with_config d RtpsUdpParticipantConfig.new g.
End construction.

Section calls.
Context {N : Type} `{!Notify N} `{BuildProfile}.
Notation udp := (RtpsUdpParticipant N).
Implicit Types self : udp.

(** *** The calls of the application *)

(** [self.spdp.known_peers()], which SEDP asks for. *)
Definition peers_of self : list ParticipantProxy := known_peers (u_spdp self).

Definition new_publisher (topic : str) (qos : QoS) self : panics (eres nat * udp) :=
  if u_closed self then Ok (Err Closed, self)
  else match topic with
       | [] => Ok (Err TopicEmpty, self)
       | _ =>
           let reliable := bool_decide (reliability qos = Reliable) in
           r ← (if reliable then new_reliable_writer topic (peers_of self) (u_inner self)
                else new_writer topic (peers_of self) (u_inner self));
           let '(writer, inner) := r in
           let p := mkRtpsPublisher writer (max_sample_size qos) false reliable in
           Ok (Ok (length (u_publishers self)),
               set_publishers (u_publishers self ++ [p]) (set_inner inner self))
       end.

Definition new_subscriber (now : Z) (topic : str) (qos : QoS) (opts : SubscriberOptions) self
    : panics (eres nat * udp) :=
  if u_closed self then Ok (Err Closed, self)
  else match topic with
       | [] => Ok (Err TopicEmpty, self)
       | _ =>
           let reliable := bool_decide (reliability qos = Reliable) in
           let transient_local := bool_decide (durability qos = TransientLocal) in
           let peers := peers_of self in
           r ← (match reliable, transient_local with
                | false, false => new_reader now topic opts peers (u_inner self)
                | true, false => new_reliable_reader now topic opts peers (u_inner self)
                | false, true => new_transient_local_reader now topic opts peers (u_inner self)
                | true, true =>
                    new_reliable_transient_local_reader now topic opts peers (u_inner self)
                end);
           let '(reader, inner) := r in
           let deadline_task := match deadline_missed opts with
                                | Some _ => spawn_deadline_watcher (deadline_ns qos)
                                | None => None
                                end in
           Ok (Ok (length (u_subscriptions self)),
               set_subscriptions (u_subscribers self ++ [rr_inner reader])
                 (u_subscriptions self ++ [mkRtpsSubscriber reader deadline_task])
                 (set_inner inner self))
       end.

(** [sub.close()] of a queue, as the runtime holds it. *)
Definition with_queue (f : SubInner N → SubInner N) (id : nat) self : udp :=
  set_inner (set_inners (alter f id (inners (u_inner self))) (u_inner self)) self.

Definition close self : udp :=
  if u_closed self then self
  else
    let self := set_u_closed self in
    let self := foldl (λ self id, with_queue SubQueue.close id self) self (u_subscribers self) in
    set_tasks [] self.

Definition health self : Observability.Health :=
  if u_closed self then Observability.Health_down CLOSED_DETAILS else Observability.Health_ok.

Definition topic_metrics self : list Observability.TopicMetrics :=
  Participant.topic_metrics (u_inner self).
End calls.
End RtpsUdpParticipant.

(** ** Publishers and subscribers *)

Module RtpsPublisher.
Section publisher.
Context {N : Type} `{!Notify N} `{BuildProfile}.
Notation udp := (RtpsUdpParticipant N).
Implicit Types self : udp.

(** [write] of publisher [k].  [RtpsWriter::write] never fails, so neither
    does its [map_err]. *)
Definition write (k : nat) (now : Z) (payload : list byte) self : runs (eres unit * udp) :=
  match u_publishers self !! k with
  | None => Ok (Ok tt, self)
  | Some p =>
      if pb_closed p then Ok (Err Closed, self)
      else if (0 <? pb_max_sample_size p) && (pb_max_sample_size p <? len payload) then
        Ok (Err PayloadTooLarge, self)
      else
        inner ← Participant.write now (pb_writer p) payload (u_inner self);
        Ok (Ok tt, set_inner inner self)
  end.

Definition write_ctx (k : nat) (ctx : Context_) (now : Z) (payload : list byte) self
    : runs (eres unit * udp) :=
  if Context_done now ctx then Ok (Err Timeout, self) else write k now payload self.

Definition close (k : nat) self : udp :=
  set_publishers
    (alter (λ p, mkRtpsPublisher (pb_writer p) (pb_max_sample_size p) true false) k
       (u_publishers self)) self.
End publisher.
End RtpsPublisher.

Module RtpsSubscriber.
Section subscriber.
Context {N : Type} `{!Notify N} `{BuildProfile}.
Notation udp := (RtpsUdpParticipant N).
Implicit Types self : udp.

(** The queue is closed at once; the removal of the reader is a task. *)
Definition unsubscribe (k : nat) self : udp :=
  match u_subscriptions self !! k with
  | None => self
  | Some s =>
      let self := RtpsUdpParticipant.with_queue SubQueue.unsubscribe (rr_inner (sb_reader s)) self in
      set_cleanups (cleanups self ++ [sb_reader s]) self
  end.

Definition close (k : nat) self : udp :=
  match u_subscriptions self !! k with
  | None => self
  | Some s =>
      let self := RtpsUdpParticipant.with_queue SubQueue.close (rr_inner (sb_reader s)) self in
      let self := set_inner (Participant.unsubscribe (sb_reader s) (u_inner self)) self in
      set_subscriptions (u_subscribers self)
        (<[k := mkRtpsSubscriber (sb_reader s) None]> (u_subscriptions self)) self
  end.

(** [try_recv] of the receiver of subscriber [k]. *)
Definition try_recv (k : nat) self : udp :=
  match u_subscriptions self !! k with
  | None => self
  | Some s =>
      RtpsUdpParticipant.with_queue (λ i, (SubQueue.try_recv i).2) (rr_inner (sb_reader s)) self
  end.
End subscriber.
End RtpsSubscriber.

(** ** Tasks *)

Section tasks.
Context {N : Type} `{!Notify N} `{BuildProfile}.
Notation udp := (RtpsUdpParticipant N).
Implicit Types self : udp.

Definition running (t : UdpTask) self : bool := bool_decide (t ∈ tasks self).

(** The sockets a participant receives on, each with its task and channel. *)
Inductive Port : Type := SpdpMcastPort | MetaPort | DataPort | UserMcastPort.

Definition recv_task (p : Port) : UdpTask :=
  match p with
  | SpdpMcastPort => McastRecv | MetaPort => MetaRecv
  | DataPort => DataRecv | UserMcastPort => UserMcastRecv
  end.

Definition port_rx (p : Port) (c : Channels) : Chan RtpsDatagram :=
  match p with
  | SpdpMcastPort => mcast_rx c | MetaPort => meta_rx c
  | DataPort => data_rx c | UserMcastPort => mcast_data_rx c
  end.

Definition set_port_rx (p : Port) (x : Chan RtpsDatagram) (c : Channels) : Channels :=
  match p with
  | SpdpMcastPort =>
      mkChannels x (meta_rx c) (fanout c) (spdp_meta_rx c) (sedp_meta_rx c) (data_rx c)
        (mcast_data_rx c)
  | MetaPort =>
      mkChannels (mcast_rx c) x (fanout c) (spdp_meta_rx c) (sedp_meta_rx c) (data_rx c)
        (mcast_data_rx c)
  | DataPort =>
      mkChannels (mcast_rx c) (meta_rx c) (fanout c) (spdp_meta_rx c) (sedp_meta_rx c) x
        (mcast_data_rx c)
  | UserMcastPort =>
      mkChannels (mcast_rx c) (meta_rx c) (fanout c) (spdp_meta_rx c) (sedp_meta_rx c) (data_rx c) x
  end.

Definition set_fanout (f : Fanout) (spdp_rx sedp_rx : Chan RtpsDatagram) (c : Channels) : Channels :=
  mkChannels (mcast_rx c) (meta_rx c) f spdp_rx sedp_rx (data_rx c) (mcast_data_rx c).

(** A datagram, or a fatal error, at a socket whose receive task is running:
    one round of [spawn_receive_loop]. *)
Definition arrive (p : Port) (a : RtpsDatagram + NetError) self : udp :=
  if running (recv_task p) self then
    let '(alive, c) := receive_loop [a] (port_rx p (channels self)) in
    let self := set_channels (set_port_rx p c (channels self)) self in
    if alive then self
    else set_tasks (filter (λ t, t ≠ recv_task p) (tasks self)) self
  else self.

(** [tx.send(datagram.clone()).await], which waits for room. *)
Definition send_wait (d : RtpsDatagram) (c : Chan RtpsDatagram) : option (Chan RtpsDatagram) :=
  match try_send d c with
  | (Some Full, _) => None
  | (_, c) => Some c
  end.

Definition fanout_round (c : Channels) : Channels :=
  match fanout c with
  | FanIdle =>
      match chan_recv (meta_rx c) with
      | Some (d, rx) => set_port_rx MetaPort rx (set_fanout (FanSpdp d) (spdp_meta_rx c) (sedp_meta_rx c) c)
      | None => c
      end
  | FanSpdp d =>
      match send_wait d (spdp_meta_rx c) with
      | Some rx => set_fanout (FanSedp d) rx (sedp_meta_rx c) c
      | None => c
      end
  | FanSedp d =>
      match send_wait d (sedp_meta_rx c) with
      | Some rx => set_fanout FanIdle (spdp_meta_rx c) rx c
      | None => c
      end
  end.

(** A round of a receive loop of SPDP, SEDP and the runtime. *)
Definition spdp_round (now : Z) (rx : Chan RtpsDatagram)
    (put : Chan RtpsDatagram → Channels → Channels) self : panics udp :=
  match chan_recv rx with
  | None => Ok self
  | Some (d, rx) =>
      spdp ← Spdp.handle_packet now (dg_data d) (dg_from d) (u_spdp self);
      Ok (set_spdp spdp (set_channels (put rx (channels self)) self))
  end.

Definition sedp_round self : panics udp :=
  let c := channels self in
  match chan_recv (sedp_meta_rx c) with
  | None => Ok self
  | Some (d, rx) =>
      let inner := u_inner self in
      sv ← Sedp.handle_packet (dg_data d) (dg_from d) (sedp inner);
      Ok (set_inner (set_sedp sv (meta_socket inner) inner)
            (set_channels (set_fanout (fanout c) (spdp_meta_rx c) rx c) self))
  end.

Definition data_round (clock : Clock) (p : Port) self : runs udp :=
  match chan_recv (port_rx p (channels self)) with
  | None => Ok self
  | Some (d, rx) =>
      inner ← handle_data_packet clock (dg_data d) (dg_from d) (u_inner self);
      Ok (set_inner inner (set_channels (set_port_rx p rx (channels self)) self))
  end.

Definition announce_round self : panics udp :=
  let inner := u_inner self in
  r ← send_announcement (u_spdp self) (meta_socket inner);
  let '(_, spdp, sock) := r in
  Ok (set_spdp spdp (set_inner (set_sedp (sedp inner) sock inner) self)).

(** The peer listener takes a proxy from the channel SPDP sends it to. *)
Definition peer_round self : panics udp :=
  match r ← peer_listener (u_spdp self); chan_recv r with
  | None => Ok self
  | Some (proxy, rx) =>
      inner ← peer_listener_step proxy (u_inner self);
      Ok (set_spdp (set_peer_listener rx (u_spdp self)) (set_inner inner self))
  end.

(** One round of the loop of a task.  The receive tasks of the sockets move
    when something arrives. *)
Definition task_round (t : UdpTask) (clock : Clock) self : runs udp :=
  let c := channels self in
  match t with
  | AnnounceLoop => lift (announce_round self)
  | EvictLoop => Ok (set_spdp (evict_expired (mono clock) (u_spdp self)) self)
  | McastRecv | MetaRecv | DataRecv | UserMcastRecv => Ok self
  | SpdpMcastLoop => lift (spdp_round (mono clock) (mcast_rx c) (set_port_rx SpdpMcastPort) self)
  | FanoutLoop => Ok (set_channels (fanout_round c) self)
  | SpdpMetaLoop =>
      lift (spdp_round (mono clock) (spdp_meta_rx c) (λ rx c, set_fanout (fanout c) rx (sedp_meta_rx c) c) self)
  | SedpMetaLoop => lift (sedp_round self)
  | MatchListener => Ok (set_inner (default (u_inner self) (match_listener_step (u_inner self))) self)
  | PeerListener => lift (peer_round self)
  | DataLoop => data_round clock DataPort self
  | UserMcastLoop => data_round clock UserMcastPort self
  end.

(** A tick of the heartbeat task of publisher [k], which no list of the
    participant holds. *)
Definition heartbeat_tick (k : nat) self : runs udp :=
  match u_publishers self !! k with
  | Some p =>
      if heartbeat_task p then
        inner ← send_heartbeat (rw_eid (pb_writer p)) (u_inner self);
        Ok (set_inner inner self)
      else Ok self
  | None => Ok self
  end.

(** The task [unsubscribe] spawns. *)
Definition cleanup self : udp :=
  match cleanups self with
  | [] => self
  | r :: rs => set_cleanups rs (set_inner (Participant.unsubscribe r (u_inner self)) self)
  end.

(** ** Runs *)

Inductive UdpEvent : Type :=
| NewPublisher (topic : str) (qos : QoS)
| NewSubscriber (now : Z) (topic : str) (qos : QoS) (opts : SubscriberOptions)
| PubWrite (k : nat) (ctx : Context_) (now : Z) (payload : list byte)
| PubClose (k : nat)
| SubUnsubscribe (k : nat)
| SubClose (k : nat)
| SubRecv (k : nat)
| CloseParticipant
| Arrive (p : Port) (a : RtpsDatagram + NetError)
| Round (t : UdpTask) (clock : Clock)
| PubHeartbeat (k : nat)
| Cleanup.

Definition udp_step (e : UdpEvent) self : runs udp :=
  match e with
  | NewPublisher t qos => r ← lift (RtpsUdpParticipant.new_publisher t qos self); Ok r.2
  | NewSubscriber now t qos opts =>
      r ← lift (RtpsUdpParticipant.new_subscriber now t qos opts self); Ok r.2
  | PubWrite k ctx now payload => r ← RtpsPublisher.write_ctx k ctx now payload self; Ok r.2
  | PubClose k => Ok (RtpsPublisher.close k self)
  | SubUnsubscribe k => Ok (RtpsSubscriber.unsubscribe k self)
  | SubClose k => Ok (RtpsSubscriber.close k self)
  | SubRecv k => Ok (RtpsSubscriber.try_recv k self)
  | CloseParticipant => Ok (RtpsUdpParticipant.close self)
  | Arrive p a => Ok (arrive p a self)
  | Round t clock => if running t self then task_round t clock self else Ok self
  | PubHeartbeat k => heartbeat_tick k self
  | Cleanup => Ok (cleanup self)
  end.
End tasks.
