(* ===== verification/UdpRuns.v ===== *)
(** * UdpRuns: what holds in every run of the UDP participant
    (src/rtps/dds_participant.rs)

    Construction, the bounds of channels and queues, the fan-out of
    metatraffic, what [close] stops, and the announcements a newly discovered
    peer is sent. *)

From S2P Require Import Prelude Codec Guid Locator Message Cdr Fragment Reliable Persist Types.
From S2P Require Import Observability SubQueue Counters Transport Socket Spdp Sedp Participant Delivery DdsParticipant.

(** ** The queues of the runtime only grow by pushes *)

Section fed.
Context {N : Type} `{!Notify N} `{BuildProfile}.
Notation participant := (RtpsParticipant N).
Implicit Types self : participant.

(** Every queue of [self'] is the one of [self] after some pushes, and
    discovery is untouched. *)
Definition fed self self' : Prop :=
  sedp self' = sedp self ∧
  ∀ id, ∃ ss, inners self' !! id = (λ i, (push_all i ss).2) <$> inners self !! id.

Lemma fed_same self self' : sedp self' = sedp self → inners self' = inners self → fed self self'.
Proof using Type.
  intros Hs Hi. split; [done|]. intros id. exists []. rewrite Hi. by destruct (inners self !! id).
Qed.

Lemma push_all_app (i : SubInner N) ss ss' :
  (push_all i (ss ++ ss')).2 = (push_all (push_all i ss).2 ss').2.
Proof using Type.
  revert i. induction ss as [|s ss IH]; intros i; [done|]. cbn [app push_all].
  destruct (push i s) as [b i1]. specialize (IH i1).
  destruct (push_all i1 ss), (push_all i1 (ss ++ ss')). exact IH.
Qed.

Lemma fed_trans s1 s2 s3 : fed s1 s2 → fed s2 s3 → fed s1 s3.
Proof using Type.
  intros [E1 H1] [E2 H2]. split; [congruence|]. intros id. destruct (H1 id) as [ss Hs], (H2 id) as [ss' Hs']. exists (ss ++ ss').
  rewrite Hs', Hs, <- option_fmap_compose. apply option_fmap_ext. intros i. simpl. by rewrite push_all_app.
Qed.

Lemma fed_push id x self : fed self (push_sample id x self).2.
Proof using Type.
  unfold push_sample. destruct (inners self !! id) as [i|] eqn:Hi; [|by apply fed_same].
  destruct (push i x) as [b i'] eqn:Hp. split; [done|]. intros k. simpl. destruct (decide (id = k)) as [<-|Hne].
  - exists [x]. rewrite list_lookup_insert_eq by by eapply lookup_lt_Some. rewrite Hi. simpl. by rewrite Hp.
  - exists []. rewrite list_lookup_insert_ne by done. by destruct (inners self !! k).
Qed.

Lemma fed_dispatch g tf p ts seq self : fed self (dispatch_to_readers g tf p ts seq self).
Proof using Type.
  unfold dispatch_to_readers. generalize (map_to_list (readers self)) as ers. intros ers.
  revert self. induction ers as [|er ers IH]; intros self; [by apply fed_same|]. cbn [foldl].
  eapply fed_trans; [|apply IH]. rewrite dispatch_one_eq.
  destruct (takes _ _ _ _); [|by apply fed_same]. unfold offer.
  pose proof (fed_push (r_inner er.2) (sample_for g p ts seq er.2) self) as Hf.
  destruct (push_sample _ _ self) as [[] s]; exact Hf.
Qed.

Lemma for_each_fed {A} (f : A → participant → runs participant) l self self' :
  (∀ x s s', f x s = Ok s' → fed s s') → for_each f l self = Ok self' → fed self self'.
Proof using Type.
  intros Hf. apply for_each_inv; [|by apply fed_same]. intros x s s' Hs Hx. eapply fed_trans; [exact Hs|].
  by eapply Hf.
Qed.

Lemma fed_nack e g last tr from self self' :
  nack_missing e g last tr from self = Ok self' → fed self self'.
Proof using Type.
  unfold nack_missing, send_acknack. intros ([[b bm] need] & _ & Hs)%bind_ok_inv.
  destruct need; simpl in Hs; [|by injection Hs as <-; apply fed_same].
  apply bind_ok_inv in Hs as ([c t] & _ & [= <-]). by apply fed_same.
Qed.

Lemma fed_notify g seq from self self' : notify_reliable_readers g seq from self = Ok self' → fed self self'.
Proof using Type.
  apply for_each_fed. intros [e st] s s'. unfold notify_reader.
  destruct (_ || _); [by intros [= <-]; apply fed_same|].
  by intros (r & _ & Hs%fed_nack)%bind_ok_inv.
Qed.

Lemma fed_deliver clock g seq p from self self' :
  deliver_remote clock g seq p from self = Ok self' → fed self self'.
Proof using Type.
  unfold deliver_remote. intros (s & Hs%fed_notify & [= <-])%bind_ok_inv.
  eapply fed_trans; [exact Hs|apply fed_dispatch].
Qed.

Lemma fed_only_sent self self' : only_sent self self' → fed self self'.
Proof using Type. intros [-> _]. by apply fed_same. Qed.

Lemma fed_submessage clock from h raw self self' :
  Participant.handle_submessage clock from h raw self = Ok self' → fed self self'.
Proof using Type.
  unfold Participant.handle_submessage. cbv zeta. repeat case_bool_decide.
  - intros (ods & _ & Hr)%bind_ok_inv. destruct ods as [ds|]; [|by injection Hr as <-; apply fed_same].
    destruct (payload ds); [|by injection Hr as <-; apply fed_same].
    apply bind_ok_inv in Hr as (op & _ & Hr). destruct op; [|by injection Hr as <-; apply fed_same].
    by apply fed_deliver in Hr.
  - intros (ofr & _ & Hr)%bind_ok_inv. destruct ofr as [f|]; [|by injection Hr as <-; apply fed_same].
    apply bind_ok_inv in Hr as ([out asm] & _ & Hr). destruct out; [|by injection Hr as <-; apply fed_same].
    apply bind_ok_inv in Hr as (op & _ & Hr). destruct op; [|by injection Hr as <-; apply fed_same].
    apply fed_deliver in Hr. eapply fed_trans; [|exact Hr]. by apply fed_same.
  - intros (ohb & _ & Hr)%bind_ok_inv. destruct ohb as [hb|]; [|by injection Hr as <-; apply fed_same].
    revert Hr. apply for_each_fed. intros [e st] s s'. unfold heartbeat_reader.
    destruct (_ || _); [by intros [= <-]; apply fed_same|]. by intros Hs%fed_nack.
  - intros (oan & _ & Hr)%bind_ok_inv. destruct oan as [an|]; [|by injection Hr as <-; apply fed_same].
    by apply fed_only_sent, (acknack_sent an from).
  - intros [= <-]. by apply fed_same.
Qed.

Lemma fed_packet clock data from self self' :
  handle_data_packet clock data from self = Ok self' → fed self self'.
Proof using Type.
  unfold handle_data_packet.
  destruct (receive_message_cases (rp_guid_prefix self) (Participant.handle_submessage clock from) data self)
    as [[-> _]|(h & rs & e & _ & _ & _ & ->)]; [by intros [= <-]; apply fed_same|].
  apply for_each_fed. intros. by eapply fed_submessage.
Qed.

Lemma fed_send_heartbeat e self self' : send_heartbeat e self = Ok self' → fed self self'.
Proof using Type. intros Hs%send_heartbeat_sent. by apply fed_only_sent. Qed.

Lemma fed_send_remote t msgs self : fed self (send_remote t msgs self).
Proof using Type. apply fed_only_sent, send_remote_sent. Qed.

Lemma udp_fed_write now w p self self' : Participant.write now w p self = Ok self' → fed self self'.
Proof using Type.
  unfold Participant.write. destruct (writers self !! rw_eid w) as [ws|]; [|by intros [= <-]; apply fed_same].
  intros (n & _ & (msgs & _ & (ws' & _ & Hr)%bind_ok_inv)%bind_ok_inv)%bind_ok_inv. cbv zeta in Hr.
  match type of Hr with context [send_remote _ _ ?x] => set (s1 := x) in Hr end.
  assert (fed self s1) as H1.
  { unfold s1. match goal with |- fed _ (dispatch_to_readers _ _ _ _ _ ?x) => set (s0 := x) end.
    eapply (fed_trans _ s0); [|apply fed_dispatch]. apply fed_same; unfold s0; by destruct (persist_dir _). }
  eapply fed_trans; [exact H1|]. eapply fed_trans; [apply (fed_send_remote (rw_topic w) msgs)|].
  destruct (w_reliable ws').
  - by apply fed_send_heartbeat in Hr.
  - injection Hr as <-. by apply fed_same.
Qed.

Lemma new_writer_inners t rel ps self w self' : new_writer_impl t rel ps self = Ok (w, self') →
  inners self' = inners self.
Proof using Type.
  unfold new_writer_impl. intros ([n s1] & Hn%next_entity_num_eq & Hr)%bind_ok_inv.
  cbv beta zeta iota in Hr. apply bind_ok_inv in Hr as (st & _ & [= <- <-]). simpl. by rewrite Hn.
Qed.

Lemma fed_transient_local now t id self self' :
  deliver_transient_local now t id self = Ok self' → fed self self'.
Proof using Type.
  unfold deliver_transient_local. destruct (last_sample self !! t); [intros [= <-]; apply fed_push|].
  destruct (persist_dir self); [|by intros [= <-]; apply fed_same].
  intros (o & _ & Hr)%bind_ok_inv. destruct o as [[pl|]|]; injection Hr as <-; [|by apply fed_same..].
  eapply fed_trans; [|apply fed_push]. by apply fed_same.
Qed.

(** A new reader gets the next queue, fresh but for what is replayed. *)
Lemma new_reader_fed now t opts rel tl ps self r self' :
  new_reader_impl now t opts rel tl ps self = Ok (r, self') →
  rr_inner r = length (inners self) ∧
  fed (set_inners (inners self ++ [SubInner_new (chan_depth opts 64) (back_pressure opts)])
         (set_sedp (sedp self') (meta_socket self) self)) self'.
Proof using Type.
  unfold new_reader_impl. intros ([n s1] & Hn%next_entity_num_eq & Hr)%bind_ok_inv.
  cbv beta zeta iota in Hr. apply bind_ok_inv in Hr as ([[m sv] sock] & _ & Hr).
  apply bind_ok_inv in Hr as (s2 & Htl & [= <- <-]). cbn [rr_inner].
  rewrite Hn in *. split; [done|].
  match type of Htl with (if tl then deliver_transient_local _ _ _ ?x else _) = _ => set (s0 := x) in * end.
  assert (fed s0 s2) as Hf.
  { destruct tl; [by eapply fed_transient_local|injection Htl as <-; by apply fed_same]. }
  eapply (fed_trans _ s0); [apply fed_same; [by rewrite (proj1 Hf)|done]|exact Hf].
Qed.

Lemma peer_step_inners proxy self self' : peer_listener_step proxy self = Ok self' →
  inners self' = inners self.
Proof using Type. unfold peer_listener_step. by intros (st & _ & [= <-])%bind_ok_inv. Qed.

Lemma match_step_inners self : inners (default self (match_listener_step self)) = inners self.
Proof using Type.
  unfold match_listener_step. destruct (match_listener (sedp self)) as [tx|]; [|done]. simpl.
  by destruct (chan_recv tx) as [[]|].
Qed.

(** *** What pushes keep *)

(** A queue within its capacity, which is at least one. *)
Definition queue_ok (i : SubInner N) : Prop := 1 <= capacity i ∧ len (queue i) <= capacity i.

Lemma push_queue_ok i s : queue_ok i → queue_ok (push i s).2.
Proof using Type.
  intros [Hc Hq]. destruct (decide (is_open i)) as [Ho|Ho]; [|by rewrite push_closed].
  rewrite push_open by done. unfold queue_ok. simpl. unfold push_locked.
  destruct (policy i); destruct (Z.leb_spec (capacity i) (len (queue i)));
    simpl; rewrite ?len_app, ?len_cons, ?len_nil; try (split; lia).
  destruct (queue i); simpl in *; rewrite ?len_cons, ?len_nil in *; split; lia.
Qed.

Lemma push_all_ok i ss : queue_ok i → queue_ok (push_all i ss).2.
Proof using Type.
  revert i. induction ss as [|s ss IH]; intros i Hi; [done|]. cbn [push_all].
  pose proof (push_queue_ok i s Hi) as Hi'. destruct (push i s) as [b i']. specialize (IH i' Hi').
  by destruct (push_all i' ss).
Qed.

Lemma push_all_closed i ss : closed i = true → (push_all i ss).2 = i.
Proof using Type.
  intros Hc. induction ss as [|s ss IH]; [done|]. cbn [push_all].
  rewrite push_closed by (intros [_ ?]; congruence). by destruct (push_all i ss).
Qed.

Lemma fed_queues self self' : fed self self' → Forall queue_ok (inners self) →
  Forall queue_ok (inners self').
Proof using Type.
  intros [_ Hf] Hq. apply Forall_lookup. intros id i Hi. destruct (Hf id) as [ss Hs]. rewrite Hi in Hs.
  symmetry in Hs. apply fmap_Some in Hs as (i0 & Hi0 & ->). apply push_all_ok.
  by eapply Forall_lookup_1 in Hq.
Qed.

Lemma fed_length self self' : fed self self' → length (inners self') = length (inners self).
Proof using Type.
  intros [_ Hf]. assert (∀ id, is_Some (inners self' !! id) ↔ is_Some (inners self !! id)) as Hs.
  { intros id. destruct (Hf id) as [ss ->]. apply fmap_is_Some. }
  apply Nat.le_antisymm; apply Nat.le_ngt; intros Hlt.
  - apply lookup_lt_is_Some in Hlt. apply Hs, lookup_lt_is_Some in Hlt. lia.
  - apply lookup_lt_is_Some in Hlt. apply Hs, lookup_lt_is_Some in Hlt. lia.
Qed.

Lemma fed_closed self self' : fed self self' → Forall (λ i, closed i = true) (inners self) →
  inners self' = inners self.
Proof using Type.
  intros [_ Hf] Hc. apply list_eq. intros id. destruct (Hf id) as [ss ->].
  destruct (inners self !! id) as [i|] eqn:Hi; [|done]. simpl. f_equal. apply push_all_closed.
  by eapply Forall_lookup_1 in Hc.
Qed.
End fed.

(** ** The invariant *)

Section runs.
Context {N : Type} `{!Notify N} `{BuildProfile}.
Notation udp := (RtpsUdpParticipant N).
Implicit Types self : udp.

(** A datagram channel: 64 places, its receiver alive. *)
Definition chan_ok (c : Chan RtpsDatagram) : Prop :=
  chan_cap c = Some 64%nat ∧ chan_open c = true ∧ (length (chan_queue c) <= 64)%nat.

Record channels_ok (c : Channels) : Prop := {
  co_port p : chan_ok (port_rx p c);
  co_spdp : chan_ok (spdp_meta_rx c);
  co_sedp : chan_ok (sedp_meta_rx c) }.

(** The sender of an unbounded channel whose receiver is alive. *)
Definition unbounded {A} (o : option (Chan A)) : Prop := ∃ q, o = Some (mkChan None true q).

Record udp_wf self : Prop := {
  uw_inner : participant_wf (u_inner self);
  uw_queues : Forall queue_ok (inners (u_inner self));
  uw_subscribers : u_subscribers self = List.seq 0%nat (length (inners (u_inner self)));
  uw_subscriptions : (λ s, rr_inner (sb_reader s)) <$> u_subscriptions self = u_subscribers self;
  uw_channels : channels_ok (channels self);
  uw_matches : unbounded (match_listener (sedp (u_inner self)));
  uw_peers : unbounded (peer_listener (u_spdp self));
  uw_closed : u_closed self = true →
    tasks self = [] ∧ Forall (λ i, closed i = true) (inners (u_inner self)) }.

(** *** What keeps it *)

Lemma wf_fed self inner : udp_wf self → participant_wf inner → fed (u_inner self) inner →
  udp_wf (set_inner inner self).
Proof using Type.
  intros [Hi Hq Hs Hu Hc Hm Hp Hcl] Hwf Hf. split; simpl; try done.
  - by eapply fed_queues.
  - by rewrite (fed_length _ _ Hf).
  - by rewrite (proj1 Hf).
  - intros [? Hd]%Hcl. split; [done|]. by rewrite (fed_closed _ _ Hf).
Qed.

Lemma wf_same_queues self inner : udp_wf self → participant_wf inner →
  inners inner = inners (u_inner self) → unbounded (match_listener (sedp inner)) →
  udp_wf (set_inner inner self).
Proof using Type.
  intros [Hi Hq Hs Hu Hc Hm Hp Hcl] Hwf He Hm'. split; simpl; rewrite ?He; done.
Qed.

Lemma wf_with_queue f id self : (∀ i : SubInner N, queue_ok i → queue_ok (f i)) →
  (∀ i, closed i = true → closed (f i) = true) →
  udp_wf self → udp_wf (RtpsUdpParticipant.with_queue f id self).
Proof using Type.
  intros Hf Hf' [Hi Hq Hs Hu Hc Hm Hp Hcl].
  assert (∀ P : SubInner N → Prop, (∀ i, P i → P (f i)) → Forall P (inners (u_inner self)) →
    Forall P (alter f id (inners (u_inner self)))) as Halter.
  { intros P HP HF. apply Forall_lookup. intros k i. rewrite list_lookup_alter.
    intros Hk. destruct (decide (id = k)) as [<-|Hne].
    - apply fmap_Some in Hk as (i0 & Hi0 & ->). apply HP. by eapply Forall_lookup_1 in HF.
    - by eapply Forall_lookup_1 in HF. }
  split; simpl; rewrite ?length_alter; try done; [|by apply Halter|].
  - apply wf_inners; [done|apply length_alter].
  - intros [? Hd]%Hcl. split; [done|]. by apply Halter.
Qed.

Lemma wf_set_channels c self : udp_wf self → channels_ok c → udp_wf (set_channels c self).
Proof using Type. intros [? ? ? ? ? ? ? ?] ?. by split. Qed.

Lemma wf_set_spdp sp self : udp_wf self → unbounded (peer_listener sp) → udp_wf (set_spdp sp self).
Proof using Type. intros [? ? ? ? ? ? ? ?] ?. by split. Qed.

Lemma wf_set_publishers ps self : udp_wf self → udp_wf (set_publishers ps self).
Proof using Type. intros [? ? ? ? ? ? ? ?]. by split. Qed.

Lemma wf_set_cleanups rs self : udp_wf self → udp_wf (set_cleanups rs self).
Proof using Type. intros [? ? ? ? ? ? ? ?]. by split. Qed.

Lemma wf_set_tasks f self : udp_wf self → f [] = [] → udp_wf (set_tasks (f (tasks self)) self).
Proof using Type.
  intros [? ? ? ? ? ? ? Hcl] Hf. split; try done. simpl. intros [-> ?]%Hcl. by rewrite Hf.
Qed.

Lemma close_queue_ok (i : SubInner N) : queue_ok i → queue_ok (SubQueue.close i).
Proof using Type. done. Qed.

Lemma pop_queue_ok (i : SubInner N) : queue_ok i → queue_ok (SubQueue.try_recv i).2.
Proof using Type.
  unfold queue_ok, SubQueue.try_recv, pop. intros [Hc Hq]. destruct (queue i) as [|x q] eqn:E; simpl.
  - by rewrite E.
  - rewrite len_cons in Hq. split; [done|]. simpl. lia.
Qed.

Lemma pop_closed (i : SubInner N) : closed (SubQueue.try_recv i).2 = closed i.
Proof using Type. unfold SubQueue.try_recv, pop. by destruct (queue i). Qed.

(** *** Channels *)

Lemma recv_chan_ok c d rx : chan_ok c → chan_recv c = Some (d, rx) → chan_ok rx.
Proof using Type.
  unfold chan_ok, chan_recv. intros (? & ? & Hl). destruct (chan_queue c) as [|x q]; [done|].
  intros [= <- <-]. simpl in *. split_and!; [done|done|lia].
Qed.

Lemma try_send_ok d c : chan_ok c → chan_ok (try_send d c).2.
Proof using Type.
  unfold chan_ok, try_send. intros (Hc & Ho & Hl). rewrite Hc, Ho. cbn [negb].
  destruct (Nat.leb_spec 64 (length (chan_queue c))); simpl; [done|].
  rewrite length_app. simpl. split_and!; [done|done|lia].
Qed.

Lemma receive_one_ok a c : chan_ok c → chan_ok (receive_loop [a] c).2.
Proof using Type.
  intros Hc. destruct a as [d|e]; [|done]. cbn [receive_loop].
  pose proof (try_send_ok (mkRtpsDatagram (take (Z.to_nat MAX_UDP_DATAGRAM) (dg_data d)) (dg_from d)) c Hc) as Ht.
  destruct (try_send _ c) as [[[]|] c']; exact Ht.
Qed.

Lemma send_wait_ok d c c' : chan_ok c → send_wait d c = Some c' → chan_ok c'.
Proof using Type.
  intros Hc. unfold send_wait. pose proof (try_send_ok d c Hc) as Ht.
  destruct (try_send d c) as [[[]|] c1]; [done|by intros [= <-]..].
Qed.

Lemma set_port_ok p rx c : chan_ok rx → channels_ok c → channels_ok (set_port_rx p rx c).
Proof using Type. intros Hr [Hp Hs He]. split; [|by destruct p..]. intros q. destruct p, q; try done; first [apply (Hp SpdpMcastPort)|apply (Hp MetaPort)|apply (Hp DataPort)|apply (Hp UserMcastPort)]. Qed.

Lemma set_fanout_ok f s e c : chan_ok s → chan_ok e → channels_ok c → channels_ok (set_fanout f s e c).
Proof using Type. intros Hs He [Hp _ _]. split; [|done|done]. intros q. specialize (Hp q). by destruct q. Qed.

Lemma fanout_ok c : channels_ok c → channels_ok (fanout_round c).
Proof using Type.
  intros Hc. pose proof Hc as [Hp Hs He]. unfold fanout_round. destruct (fanout c) as [|d|d].
  - destruct (chan_recv (meta_rx c)) as [[d rx]|] eqn:Hr; [|done].
    apply set_port_ok; [|by apply set_fanout_ok]. exact (recv_chan_ok _ _ _ (Hp MetaPort) Hr).
  - destruct (send_wait d (spdp_meta_rx c)) as [rx|] eqn:Hr; [|done].
    apply set_fanout_ok; [exact (send_wait_ok _ _ _ Hs Hr)|done|done].
  - destruct (send_wait d (sedp_meta_rx c)) as [rx|] eqn:Hr; [|done].
    apply set_fanout_ok; [done|exact (send_wait_ok _ _ _ He Hr)|done].
Qed.

(** *** Closing *)

Lemma close_each ids self : NoDup ids →
  let self' := foldl (λ self id, RtpsUdpParticipant.with_queue SubQueue.close id self) self ids in
  self' = set_inner (set_inners (inners (u_inner self')) (u_inner self)) self ∧
  ∀ id, inners (u_inner self') !! id
        = (λ i, if decide (id ∈ ids) then SubQueue.close i else i) <$> inners (u_inner self) !! id.
Proof using Type.
  cbv zeta. revert self. induction ids as [|k ids IH]; intros self Hnd.
  { split; [by destruct self as [? []]|]. intros id. simpl. by destruct (inners (u_inner self) !! id). }
  apply NoDup_cons in Hnd as [Hni Hnd]. cbn [foldl].
  destruct (IH (RtpsUdpParticipant.with_queue SubQueue.close k self) Hnd) as [He Hl]. split; [exact He|].
  intros id. rewrite Hl. simpl. rewrite list_lookup_alter. destruct (decide (k = id)) as [<-|Hne].
  - rewrite <- option_fmap_compose. apply option_fmap_ext. intros i. simpl.
    rewrite decide_False by done. rewrite decide_True; [done|by left].
  - apply option_fmap_ext. intros i. destruct (decide (id ∈ ids)) as [Hin|Hin].
    + rewrite decide_True; [done|by right].
    + rewrite decide_False; [done|]. intros [?|?]%elem_of_cons; congruence.
Qed.

(** What [close] makes of an open participant. *)
Lemma close_eq self : udp_wf self → u_closed self = false →
  RtpsUdpParticipant.close self =
  set_tasks [] (set_u_closed (set_inner (set_inners (SubQueue.close <$> inners (u_inner self)) (u_inner self)) self)).
Proof using Type.
  intros Hw Ho. unfold RtpsUdpParticipant.close. rewrite Ho.
  destruct (close_each (u_subscribers self) (set_u_closed self)) as [He Hl].
  { rewrite (uw_subscribers _ Hw). apply NoDup_ListNoDup, seq_NoDup. }
  cbv zeta in *. change (u_subscribers (set_u_closed self)) with (u_subscribers self) in *.
  set (s := foldl _ _ _) in *.
  assert (inners (u_inner s) = SubQueue.close <$> inners (u_inner self)) as Hi.
  { apply list_eq. intros id. rewrite Hl, list_lookup_fmap. simpl.
    destruct (inners (u_inner self) !! id) as [i|] eqn:Hid; [|done]. simpl. rewrite decide_True; [done|].
    rewrite (uw_subscribers _ Hw). apply lookup_lt_Some in Hid. apply elem_of_seq. lia. }
  rewrite He, Hi. done.
Qed.

Lemma wf_close self : udp_wf self → udp_wf (RtpsUdpParticipant.close self).
Proof using Type.
  intros Hw. destruct (u_closed self) eqn:Ho; [by unfold RtpsUdpParticipant.close; rewrite Ho|].
  rewrite close_eq by done. destruct Hw as [Hi Hq Hs Hu Hc Hm Hp Hcl].
  split; simpl; rewrite ?length_fmap; try done.
  - apply wf_inners; [done|apply length_fmap].
  - by apply Forall_fmap.
  - intros _. split; [done|]. apply Forall_fmap. by apply Forall_true.
Qed.

(** *** Listeners *)

Lemma unbounded_send {A} (x : A) o : unbounded o →
  unbounded (match o with Some tx => Some (send_event x tx) | None => None end).
Proof using Type. intros [q ->]. by eexists. Qed.

Lemma unbounded_recv {A} (o : option (Chan A)) tx x rx : unbounded o → o = Some tx →
  chan_recv tx = Some (x, rx) → unbounded (Some rx).
Proof using Type.
  intros [q ->] [= <-]. unfold chan_recv. simpl. destruct q; [done|]. intros [= <- <-]. by eexists.
Qed.

Lemma unbounded_store now ps sp : unbounded (peer_listener sp) →
  unbounded (peer_listener (store_all now ps sp)).
Proof using Type.
  unfold store_all. revert sp. induction ps as [|p ps IH]; intros sp Hp; [done|]. cbn [foldl].
  apply IH. unfold store_peer. cbn [snd peer_listener]. by apply unbounded_send.
Qed.

Lemma unbounded_endpoints es s : unbounded (match_listener s) →
  unbounded (match_listener (foldl (λ s il, on_endpoint il.1 il.2 s) s es)).
Proof using Type.
  revert s. induction es as [|[i l] es IH]; intros s Hs; [done|]. cbn [foldl]. apply IH.
  destruct Hs as [q Hq]. unfold on_endpoint, on_remote_writer, on_remote_reader. cbn [fst snd].
  destruct (is_writer i); [|by exists q].
  destruct (readers_on_topic _ _) as [|e es']; [by exists q|].
  pose proof (notify_queue (ei_guid i) (e :: es') (mkChan None true q) eq_refl eq_refl) as Hn.
  rewrite <- Hq in Hn. cbn [snd].
  match goal with |- context [notify_matches _ _ ?l] => change l with (match_listener s) end.
  rewrite Hn. by eexists.
Qed.

Lemma same_tables_listening s s' : same_tables s s' → unbounded (match_listener s) →
  unbounded (match_listener s').
Proof using Type. by intros (_&_&_&_&_&_&_&->). Qed.

(** *** The calls *)

Lemma wf_new_publisher t qos self r self' : udp_wf self →
  RtpsUdpParticipant.new_publisher t qos self = Ok (r, self') → udp_wf self'.
Proof using Type.
  intros Hw. unfold RtpsUdpParticipant.new_publisher.
  destruct (u_closed self); [by intros [= <- <-]|]. destruct t; [by intros [= <- <-]|].
  unfold new_reliable_writer, new_writer. intros ([w inner] & Hr & [= <- <-])%bind_ok_inv.
  apply wf_set_publishers.
  assert (∃ rel, new_writer_impl (b :: t) rel (RtpsUdpParticipant.peers_of self) (u_inner self) = Ok (w, inner))
    as [rel Hn] by (case_bool_decide; eauto). clear Hr.
  pose proof (new_writer_inners _ _ _ _ _ _ Hn) as Hi. apply wf_same_queues; [done| |done|].
  - eapply new_writer_wf; [apply Hw|exact Hn].
  - unfold new_writer_impl in Hn. apply bind_ok_inv in Hn as ([n s1] & Hn%next_entity_num_eq & Hr).
    cbv beta zeta iota in Hr. apply bind_ok_inv in Hr as (st & Hst%register_writer_frame & [= <- <-]).
    simpl. eapply same_tables_listening; [exact Hst|]. simpl. rewrite Hn. apply Hw.
Qed.

Lemma new_reader_listening now t opts rel tl ps (inner : RtpsParticipant N) r inner' :
  new_reader_impl now t opts rel tl ps inner = Ok (r, inner') →
  unbounded (match_listener (sedp inner)) → unbounded (match_listener (sedp inner')).
Proof using Type.
  unfold new_reader_impl. intros ([n s1] & Hn%next_entity_num_eq & Hr)%bind_ok_inv Hu.
  cbv beta zeta iota in Hr. apply bind_ok_inv in Hr as ([[m sv] sock] & [_ Hst]%register_reader_frame & Hr).
  apply bind_ok_inv in Hr as (s2 & Htl & [= <- <-]).
  apply (same_tables_listening _ sv) in Hst; [|simpl; by rewrite Hn].
  destruct tl; [|by injection Htl as <-]. apply fed_transient_local in Htl as [-> _]. done.
Qed.

Lemma wf_new_subscriber now t qos opts self r self' : udp_wf self →
  RtpsUdpParticipant.new_subscriber now t qos opts self = Ok (r, self') → udp_wf self'.
Proof using Type.
  intros Hw. unfold RtpsUdpParticipant.new_subscriber.
  destruct (u_closed self) eqn:Hopen; [by intros [= <- <-]|]. destruct t as [|c t]; [by intros [= <- <-]|].
  intros ([rd inner] & Hr & [= <- <-])%bind_ok_inv.
  assert (∃ rel tl, new_reader_impl now (c :: t) opts rel tl (RtpsUdpParticipant.peers_of self) (u_inner self)
    = Ok (rd, inner)) as (rel & tl & Hn).
  { unfold new_reader, new_reliable_reader, new_transient_local_reader,
      new_reliable_transient_local_reader in Hr. destruct (bool_decide _), (bool_decide _); eauto. }
  clear Hr. destruct (new_reader_fed _ _ _ _ _ _ _ _ _ Hn) as [Hrd Hf].
  pose proof (fed_length _ _ Hf) as Hl. simpl in Hl. rewrite length_app in Hl. simpl in Hl.
  destruct Hw as [Hi Hq Hs Hu Hc Hm Hp Hcl]. split; simpl; try done.
  - by eapply new_reader_wf.
  - eapply fed_queues; [exact Hf|]. simpl. apply Forall_app. split; [done|].
    apply Forall_singleton. split; simpl; [apply Delivery.chan_depth_pos|].
    pose proof (Delivery.chan_depth_pos opts). rewrite len_nil. lia.
  - rewrite Hl, Nat.add_1_r, List.seq_S, Hs, Hrd. done.
  - by rewrite fmap_app, Hu.
  - by eapply new_reader_listening.
  - congruence.
Qed.

Lemma wf_pub_write k ctx now p self r self' : udp_wf self →
  RtpsPublisher.write_ctx k ctx now p self = Ok (r, self') → udp_wf self'.
Proof using Type.
  intros Hw. unfold RtpsPublisher.write_ctx, RtpsPublisher.write.
  destruct (Context_done _ _); [by intros [= <- <-]|].
  destruct (u_publishers self !! k) as [pb|]; [|by intros [= <- <-]].
  destruct (pb_closed pb); [by intros [= <- <-]|]. destruct (_ && _); [by intros [= <- <-]|].
  intros (inner & Hr & [= <- <-])%bind_ok_inv. apply wf_fed; [done| |by eapply udp_fed_write].
  eapply participant_write_wf; [apply Hw|exact Hr].
Qed.

Lemma wf_unsubscribe_reader r (inner : RtpsParticipant N) self : udp_wf self → inner = u_inner self →
  udp_wf (set_inner (Participant.unsubscribe r inner) self).
Proof.
  intros Hw ->. apply wf_same_queues; [done| |done|apply Hw]. eapply (step_wf (Unsubscribe r)); [apply Hw|done].
Qed.

(** *** The tasks *)

Lemma wf_arrive p a self : udp_wf self → udp_wf (arrive p a self).
Proof.
  intros Hw. unfold arrive. destruct (running _ _); [|done].
  pose proof (receive_one_ok a _ (co_port _ (uw_channels _ Hw) p)) as Hc.
  destruct (receive_loop [a] _) as [alive c]. simpl in Hc.
  assert (udp_wf (set_channels (set_port_rx p c (channels self)) self)) as Hw'
    by (apply wf_set_channels; [done|apply set_port_ok; [done|apply Hw]]).
  destruct alive; [done|]. by apply (wf_set_tasks (filter (λ t, t ≠ recv_task p))).
Qed.

Lemma wf_spdp_round now rx put self self' : udp_wf self → chan_ok rx →
  (∀ rx, chan_ok rx → channels_ok (put rx (channels self))) →
  spdp_round now rx put self = Ok self' → udp_wf self'.
Proof.
  intros Hw Hrx Hput. unfold spdp_round. destruct (chan_recv rx) as [[d rx']|] eqn:Hr; [|by intros [= <-]].
  rewrite spdp_packet_eq, bind_ok. intros [= <-]. apply wf_set_spdp; [apply wf_set_channels; [done|]|].
  - apply Hput. by eapply recv_chan_ok.
  - apply unbounded_store, Hw.
Qed.

Lemma wf_sedp_round self self' : udp_wf self → sedp_round self = Ok self' → udp_wf self'.
Proof.
  intros Hw. unfold sedp_round. destruct (chan_recv _) as [[d rx]|] eqn:Hr; [|by intros [= <-]].
  intros (sv & Hs & [= <-])%bind_ok_inv. pose proof (uw_channels _ Hw) as Hc.
  apply wf_same_queues; [apply wf_set_channels; [done|]| |done|].
  - apply set_fanout_ok; [apply Hc|exact (recv_chan_ok _ _ _ (co_sedp _ Hc) Hr)|done].
  - eapply (step_wf (MetaPacket (dg_data d) (dg_from d)) (u_inner self)); [apply Hw|].
    cbn [step]. by rewrite Hs.
  - destruct (sedp_packet_eq (dg_data d) (dg_from d) (sedp (u_inner self))) as (es & He & _).
    rewrite He in Hs. injection Hs as <-. simpl. apply unbounded_endpoints, Hw.
Qed.

Lemma wf_data_round clock p self self' : udp_wf self → data_round clock p self = Ok self' → udp_wf self'.
Proof.
  intros Hw. unfold data_round. destruct (chan_recv _) as [[d rx]|] eqn:Hr; [|by intros [= <-]].
  intros (inner & Hi & [= <-])%bind_ok_inv. pose proof (uw_channels _ Hw) as Hc. apply wf_fed.
  - apply wf_set_channels; [done|]. apply set_port_ok; [|done]. exact (recv_chan_ok _ _ _ (co_port _ Hc p) Hr).
  - eapply data_packet_wf; [apply Hw|exact Hi].
  - by eapply fed_packet.
Qed.

Lemma wf_announce_round self self' : udp_wf self → announce_round self = Ok self' → udp_wf self'.
Proof.
  intros Hw. unfold announce_round. intros ([[e sp] sock] & Hr & [= <-])%bind_ok_inv.
  apply wf_set_spdp; [apply wf_same_queues; [done| |done|apply Hw]|].
  - apply wf_sedp; [apply Hw|]. reflexivity.
  - pose proof (uw_peers _ Hw) as Hp. revert Hp Hr.
    unfold send_announcement, Spdp.next_seq_num. generalize (u_spdp self) as s. intros s Hp.
    intros ([n s1] & (m & _ & [= <- <-])%bind_ok_inv & Hr)%bind_ok_inv.
    cbv beta zeta iota in Hr. apply bind_ok_inv in Hr as ([e1 k1] & _ & Hr).
    destruct (send_each _ _ _ _) in Hr. by injection Hr as <- <- <-.
Qed.

Lemma wf_peer_round self self' : udp_wf self → peer_round self = Ok self' → udp_wf self'.
Proof.
  intros Hw. unfold peer_round. pose proof (uw_peers _ Hw) as Hp.
  destruct (peer_listener (u_spdp self)) as [tx|] eqn:Htx; [|by intros [= <-]]. simpl.
  destruct (chan_recv tx) as [[proxy rx]|] eqn:Hr; [|by intros [= <-]].
  intros (inner & Hi & [= <-])%bind_ok_inv. apply wf_set_spdp; [apply wf_same_queues; [done| | |]|].
  - eapply (step_wf (Peer proxy)); [apply Hw|]. cbn [step]. by rewrite Hi.
  - by eapply peer_step_inners.
  - revert Hi. unfold peer_listener_step. intros (st & Hst%on_new_peer_frame & [= <-])%bind_ok_inv.
    simpl. eapply same_tables_listening; [exact Hst|apply Hw].
  - by eapply unbounded_recv.
Qed.

Lemma wf_match_round self : udp_wf self →
  udp_wf (set_inner (default (u_inner self) (match_listener_step (u_inner self))) self).
Proof.
  intros Hw. apply wf_same_queues; [done| |apply match_step_inners|].
  - eapply (step_wf MatchRound (u_inner self)); [apply Hw|done].
  - pose proof (uw_matches _ Hw) as Hm. unfold match_listener_step.
    destruct (match_listener (sedp (u_inner self))) as [tx|] eqn:Htx; [|by simpl; rewrite Htx]. simpl.
    destruct (chan_recv tx) as [[ev rx]|] eqn:Hr; [|by simpl; rewrite Htx]. simpl. by eapply unbounded_recv.
Qed.

Lemma wf_task_round t clock self self' : udp_wf self → task_round t clock self = Ok self' → udp_wf self'.
Proof.
  intros Hw. pose proof (uw_channels _ Hw) as Hc. destruct t; cbn [task_round];
    try (by intros [= <-]).
  - intros Hr%lift_inv. by eapply wf_announce_round.
  - intros [= <-]. apply wf_set_spdp; [done|apply Hw].
  - intros Hr%lift_inv. eapply wf_spdp_round; [done|apply (co_port _ Hc SpdpMcastPort)| |exact Hr].
    intros rx Hrx. by apply set_port_ok.
  - intros [= <-]. apply wf_set_channels; [done|by apply fanout_ok].
  - intros Hr%lift_inv. eapply wf_spdp_round; [done|exact (co_spdp _ Hc)| |exact Hr].
    intros rx Hrx. apply set_fanout_ok; [done|apply Hc|done].
  - intros Hr%lift_inv. by eapply wf_sedp_round.
  - intros [= <-]. by apply wf_match_round.
  - intros Hr%lift_inv. by eapply wf_peer_round.
  - by apply wf_data_round.
  - by apply wf_data_round.
Qed.

Lemma udp_step_wf e self self' : udp_wf self → udp_step e self = Ok self' → udp_wf self'.
Proof.
  intros Hw. destruct e as [t qos|now t qos opts|k ctx now p|k|k|k|k| |p a|t clock|k|]; cbn [udp_step].
  - intros ([r s] & Hr%lift_inv & [= <-])%bind_ok_inv. by eapply wf_new_publisher.
  - intros ([r s] & Hr%lift_inv & [= <-])%bind_ok_inv. by eapply wf_new_subscriber.
  - intros ([r s] & Hr & [= <-])%bind_ok_inv. by eapply wf_pub_write.
  - intros [= <-]. by apply wf_set_publishers.
  - intros [= <-]. unfold RtpsSubscriber.unsubscribe. destruct (u_subscriptions self !! k); [|done].
    apply wf_set_cleanups. by apply wf_with_queue.
  - intros [= <-]. unfold RtpsSubscriber.close. destruct (u_subscriptions self !! k) as [sb|] eqn:Hk; [|done].
    set (self1 := RtpsUdpParticipant.with_queue _ _ self).
    assert (udp_wf self1) as Hw1 by by apply wf_with_queue.
    pose proof (wf_unsubscribe_reader (sb_reader sb) _ self1 Hw1 eq_refl) as [Hi Hq Hs Hu Hc Hm Hp Hcl].
    split; simpl in *; try done. rewrite <- Hu. rewrite list_fmap_insert. simpl.
    apply list_insert_id. by rewrite list_lookup_fmap, Hk.
  - intros [= <-]. unfold RtpsSubscriber.try_recv. destruct (u_subscriptions self !! k); [|done].
    apply wf_with_queue; [apply pop_queue_ok| |done]. intros i. by rewrite pop_closed.
  - intros [= <-]. by apply wf_close.
  - intros [= <-]. by apply wf_arrive.
  - destruct (running t self); [by apply wf_task_round|by intros [= <-]].
  - unfold heartbeat_tick. destruct (u_publishers self !! k) as [pb|]; [|by intros [= <-]].
    destruct (heartbeat_task pb); [|by intros [= <-]]. intros (inner & Hr & [= <-])%bind_ok_inv.
    apply wf_fed; [done| |by eapply fed_send_heartbeat].
    eapply wf_only_sent; [by eapply send_heartbeat_sent|apply Hw].
  - intros [= <-]. unfold cleanup. destruct (cleanups self) as [|r rs]; [done|].
    apply wf_set_cleanups. by apply wf_unsubscribe_reader.
Qed.

(** *** Construction *)

Lemma wf_user_multicast a (inner : RtpsParticipant N) :
  participant_wf inner → participant_wf (set_user_data_multicast a inner).
Proof using Type. intros [? ? ? ? ? ? ? ? ?]. by split. Qed.

Lemma assemble_wf disk d g meta data mcast user_mcast config :
  udp_wf (RtpsUdpParticipant.assemble disk d g meta data mcast user_mcast config).
Proof.
  assert (∀ p, chan_ok (port_rx p new_channels)) as Hp by (intros []; split_and!; simpl; (done || lia)).
  set (sv := SedpService_new (RtpsUdpParticipant.sedp_config g data config)).
  assert (ec_guid_prefix (e_config sv) = g) as Hg
    by (unfold sv, RtpsUdpParticipant.sedp_config; simpl; by destruct (uc_ipv6 config)).
  assert (sedp_wf sv) as Hsv.
  { split; simpl; try done; by intros ?? ?%lookup_empty_Some. }
  pose proof (wf_listener unbounded_channel meta _
    (new_inner_wf (N:=N) g VENDOR_ID_RUST_DDS data sv meta None disk Hsv Hg)) as Hw.
  unfold RtpsUdpParticipant.assemble. fold sv.
  split; simpl; [|try (destruct user_mcast; done)..].
  - destruct user_mcast; [by apply wf_user_multicast|exact Hw].
  - split; [exact Hp|exact (Hp MetaPort)..].
  - destruct user_mcast; by exists [].
  - by exists [].
Qed.
End runs.

(** ** Closing *)

Section closing.
Context {N : Type} `{!Notify N} `{BuildProfile}.
Notation udp := (RtpsUdpParticipant N).
Implicit Types self : udp.

(** Queues of which nothing but a prefix is gone. *)
Definition shrunk (l l' : list (SubInner N)) : Prop :=
  length l' = length l ∧
  ∀ id i', l' !! id = Some i' → ∃ i n, l !! id = Some i ∧ queue i' = drop n (queue i).

#[global] Instance shrunk_preorder : PreOrder shrunk.
Proof.
  split.
  - intros l. split; [done|]. intros id i Hi. by exists i, 0%nat.
  - intros l1 l2 l3 [E1 H1] [E2 H2]. split; [congruence|]. intros id i3 Hi3.
    destruct (H2 id i3 Hi3) as (i2 & n2 & Hi2 & Hq2), (H1 id i2 Hi2) as (i1 & n1 & Hi1 & Hq1).
    exists i1, (n1 + n2)%nat. split; [done|]. by rewrite Hq2, Hq1, drop_drop.
Qed.

Lemma shrunk_alter f id (l : list (SubInner N)) :
  (∀ i, ∃ n, queue (f i) = drop n (queue i)) → shrunk l (alter f id l).
Proof using Type.
  intros Hf. split; [apply length_alter|]. intros k i'. rewrite list_lookup_alter.
  destruct (decide (id = k)) as [<-|Hne].
  - intros (i & Hi & ->)%fmap_Some. destruct (Hf i) as [n Hn]. by exists i, n.
  - intros Hi. by exists i', 0%nat.
Qed.

Lemma shrunk_pop id (l : list (SubInner N)) : shrunk l (alter (λ i, (SubQueue.try_recv i).2) id l).
Proof using Type.
  apply shrunk_alter. intros i. exists 1%nat. unfold SubQueue.try_recv, pop. by destruct (queue i) eqn:E.
Qed.

Lemma shrunk_close id (l : list (SubInner N)) f : (∀ i, queue (f i) = queue i) → shrunk l (alter f id l).
Proof using Type. intros Hf. apply shrunk_alter. intros i. exists 0%nat. apply Hf. Qed.

(** A step of a closed participant leaves it closed, and takes samples out
    of its queues at most. *)
Lemma closed_step e self self' : udp_wf self → u_closed self = true → udp_step e self = Ok self' →
  u_closed self' = true ∧ shrunk (inners (u_inner self)) (inners (u_inner self')).
Proof.
  intros Hw Hc. destruct (uw_closed _ Hw Hc) as [Ht Hi].
  assert (∀ t, running t self = false) as Hrun
    by (intros t; unfold running; rewrite Ht; by destruct t).
  destruct e as [t qos|now t qos opts|k ctx now p|k|k|k|k| |p a|t clock|k|]; cbn [udp_step].
  - unfold RtpsUdpParticipant.new_publisher. rewrite Hc. by intros [= <-].
  - unfold RtpsUdpParticipant.new_subscriber. rewrite Hc. by intros [= <-].
  - intros ([r s] & Hr & [= <-])%bind_ok_inv. revert Hr. unfold RtpsPublisher.write_ctx, RtpsPublisher.write.
    destruct (Context_done _ _); [by intros [= <- <-]|].
    destruct (u_publishers self !! k) as [pb|]; [|by intros [= <- <-]].
    destruct (pb_closed pb); [by intros [= <- <-]|]. destruct (_ && _); [by intros [= <- <-]|].
    intros (inner & Hr%udp_fed_write & [= <- <-])%bind_ok_inv. split; [done|]. simpl. by rewrite (fed_closed _ _ Hr).
  - by intros [= <-].
  - intros [= <-]. unfold RtpsSubscriber.unsubscribe. destruct (u_subscriptions self !! k); [|done].
    split; [done|]. by apply shrunk_close.
  - intros [= <-]. unfold RtpsSubscriber.close. destruct (u_subscriptions self !! k); [|done].
    split; [done|]. by apply shrunk_close.
  - intros [= <-]. unfold RtpsSubscriber.try_recv. destruct (u_subscriptions self !! k); [|done].
    split; [done|]. apply shrunk_pop.
  - intros [= <-]. unfold RtpsUdpParticipant.close. by rewrite Hc.
  - intros [= <-]. unfold arrive. by rewrite Hrun.
  - rewrite Hrun. by intros [= <-].
  - unfold heartbeat_tick. destruct (u_publishers self !! k) as [pb|]; [|by intros [= <-]].
    destruct (heartbeat_task pb); [|by intros [= <-]]. intros (inner & Hr%fed_send_heartbeat & [= <-])%bind_ok_inv.
    split; [done|]. simpl. by rewrite (fed_closed _ _ Hr).
  - intros [= <-]. unfold cleanup. by destruct (cleanups self).
Qed.
End closing.

Section construction.
Context {N : Type} `{!Notify N} `{BuildProfile}.
Notation udp := (RtpsUdpParticipant N).
Context {S : Type} (os : OsNet S) (show_err : NetError → str) (disk : FileSystem).
Notation new_with_config := (RtpsUdpParticipant.new_with_config (N:=N) os show_err disk).

Lemma udp_new_wf d config g self : new_with_config d config g = Ok self → udp_wf self.
Proof.
  unfold RtpsUdpParticipant.new_with_config. intros Hr. repeat (apply bind_ok_inv in Hr as (? & _ & Hr)).
  injection Hr as <-. apply assemble_wf.
Qed.

Lemma runs_wf d config g evs self0 self : new_with_config d config g = Ok self0 →
  for_each udp_step evs self0 = Ok self → udp_wf self.
Proof.
  intros Hn. apply for_each_inv; [intros e s s'; apply udp_step_wf|]. by eapply udp_new_wf.
Qed.

(** C16. Bounded memory on the receive side: in every run of a participant,
    however many datagrams arrive and however slow its tasks and subscribers
    are, each datagram channel holds at most 64 datagrams and each
    subscriber's queue at most its depth; the queues of the participant are
    exactly those of its subscribers, in order of creation. *)
Theorem udp_bounded d config g evs self0 self : new_with_config d config g = Ok self0 →
  for_each udp_step evs self0 = Ok self →
  (∀ p, (length (chan_queue (port_rx p (channels self))) <= 64)%nat) ∧
  (length (chan_queue (spdp_meta_rx (channels self))) <= 64)%nat ∧
  (length (chan_queue (sedp_meta_rx (channels self))) <= 64)%nat ∧
  (∀ id i, inners (u_inner self) !! id = Some i → 1 <= capacity i ∧ len (queue i) <= capacity i) ∧
  (λ s, rr_inner (sb_reader s)) <$> u_subscriptions self = List.seq 0%nat (length (inners (u_inner self))).
Proof.
  intros Hn Hr. destruct (runs_wf _ _ _ _ _ _ Hn Hr) as [_ Hq Hs Hu [Hp (_ & _ & H1) (_ & _ & H2)] _ _ _].
  split_and!; [intros p; apply Hp|done|done| |congruence].
  intros id i Hi. by eapply Forall_lookup_1 in Hq.
Qed.

(** The sockets a participant of domain [n] asks for, in this order; the last
    one may be refused. *)
Definition multicasts (n : Z) (ipv6 : bool) (meta data : RtpsSocket) : (RtpsSocket * option RtpsSocket) + NetError :=
  match os_join os [meta; data] (spdp_multicast_dst ipv6 (7400 + 250 * n)) with
  | inr e => inr e
  | inl mcast =>
      inl (mcast, match os_join os [meta; data; mcast] (user_data_multicast_dst ipv6 (7401 + 250 * n)) with
                  | inl sock => Some sock
                  | inr _ => None
                  end)
  end.

(** C28. Construction is total and fails in exactly four ways: a domain outside
    0..=232, before any socket is asked for; no metatraffic port from
    7410 + 250 n on; no user-data port from 7411 + 250 n on; no membership of
    the SPDP group at 7400 + 250 n, unless multicast is disabled.  The port
    formulas are never out of range for a valid domain, no addition overflows,
    and a refused user-data group is not an error. *)
Theorem construction_spec d config g :
  let n := domain_id d in
  let v6 := uc_ipv6 config in
  let fail what e := Err (Other (bytes_of_ascii "rtps: bind " ++ what ++ bytes_of_ascii " socket: " ++ show_err e)) in
  new_with_config d config g =
  if negb (bool_decide (0 <= n <= 232)) then Err DomainOutOfRange else
  match bind_unicast os [] v6 (7410 + 250 * n) with
  | inr e => fail (bytes_of_ascii "metatraffic") e
  | inl meta =>
      match bind_unicast os [meta] v6 (7411 + 250 * n) with
      | inr e => fail (bytes_of_ascii "user-data") e
      | inl data =>
          let made := RtpsUdpParticipant.assemble disk d g meta data in
          if uc_no_multicast config then Ok (made None None config)
          else match multicasts n v6 meta data with
               | inr e => fail (bytes_of_ascii "SPDP multicast") e
               | inl (mcast, user_mcast) => Ok (made (Some mcast) user_mcast config)
               end
      end
  end.
Proof.
  cbv zeta. unfold RtpsUdpParticipant.new_with_config. rewrite validate_domain_spec.
  case_bool_decide as Hd; [|done]. rewrite bind_ok. cbn [negb].
  assert (as_u 32 (domain_id d) = domain_id d) as -> by (apply as_u_small; lia).
  destruct (port_values (domain_id d) 0 Hd ltac:(by split)) as (Hm & Hu & Hmu & Hdu).
  unfold to_u16 in Hmu, Hdu. revert Hmu Hdu. ltb_true lia. ltb_true lia. intros Hmu Hdu.
  rewrite Hmu, Hdu. unfold RtpsUdpParticipant.port_or. rewrite !bind_ok.
  replace (7400 + 250 * domain_id d + 10 + 2 * 0) with (7410 + 250 * domain_id d) by lia.
  replace (7400 + 250 * domain_id d + 11 + 2 * 0) with (7411 + 250 * domain_id d) by lia.
  destruct (bind_unicast os [] _ _) as [meta|e]; [|done]. unfold RtpsUdpParticipant.socket_or. rewrite bind_ok.
  destruct (bind_unicast os [meta] _ _) as [data|e]; [|done]. rewrite bind_ok.
  destruct (uc_no_multicast config); [done|]. unfold multicasts. rewrite Hm, Hu, bind_ok.
  replace (7400 + 250 * domain_id d + 1) with (7401 + 250 * domain_id d) by lia.
  destruct (os_join os [meta; data] _) as [mcast|e]; [|done]. rewrite !bind_ok. simpl.
  by destruct (os_join os [meta; data; mcast] _).
Qed.

(** C22. [close] is final for what the participant receives.  In every run of a
    participant, closing stops the tasks on its list - the receive loops, the
    fan-out, SPDP, SEDP and the peer listener - so that no datagram that
    arrives and no round of these tasks changes anything any more; it closes
    every subscriber's queue, keeping what the queue holds; it reports down,
    refuses new publishers and subscribers with [Closed], and closing again
    does nothing.  Whatever happens afterwards, writes and the ticks of the
    heartbeat tasks included, the participant stays closed and no sample is
    ever added to a queue: queues only lose the samples that are received.
    It is not final for what is sent: the heartbeat tasks of the reliable
    publishers are not on the list and go on ([heartbeats_survive_close]). *)
Theorem close_is_final d config g evs self0 self : new_with_config d config g = Ok self0 →
  for_each udp_step evs self0 = Ok self →
  let c := RtpsUdpParticipant.close self in
  (∀ p a, arrive p a c = c) ∧ (∀ t clock, udp_step (Round t clock) c = Ok c) ∧
  (λ i, (queue i, closed i)) <$> inners (u_inner c) = (λ i, (queue i, true)) <$> inners (u_inner self) ∧
  RtpsUdpParticipant.health c = Observability.Health_down Observability.CLOSED_DETAILS ∧
  (∀ t qos, RtpsUdpParticipant.new_publisher t qos c = Ok (Err Closed, c)) ∧
  (∀ now t qos opts, RtpsUdpParticipant.new_subscriber now t qos opts c = Ok (Err Closed, c)) ∧
  RtpsUdpParticipant.close c = c ∧
  (∀ evs' self', for_each udp_step evs' c = Ok self' →
     u_closed self' = true ∧ tasks self' = [] ∧ shrunk (inners (u_inner c)) (inners (u_inner self'))).
Proof.
  intros Hn Hr. pose proof (runs_wf _ _ _ _ _ _ Hn Hr) as Hw. cbv zeta.
  assert (u_closed (RtpsUdpParticipant.close self) = true) as Hc.
  { destruct (u_closed self) eqn:Ho; [by unfold RtpsUdpParticipant.close; rewrite Ho|]. by rewrite close_eq. }
  pose proof (wf_close _ Hw) as Hwc. set (c := RtpsUdpParticipant.close self) in *.
  destruct (uw_closed _ Hwc Hc) as [Ht Hi].
  assert (∀ t, running t c = false) as Hrun by (intros t; unfold running; rewrite Ht; by destruct t).
  split_and!.
  - intros p a. unfold arrive. by rewrite Hrun.
  - intros t clock. cbn [udp_step]. by rewrite Hrun.
  - unfold c. destruct (u_closed self) eqn:Ho.
    + unfold RtpsUdpParticipant.close. rewrite Ho. destruct (uw_closed _ Hw Ho) as [_ Hi'].
      apply list_fmap_ext. intros id i Hid. by rewrite (Forall_lookup_1 _ _ _ _ Hi' Hid).
    + rewrite close_eq by done. simpl. by rewrite <- list_fmap_compose.
  - unfold RtpsUdpParticipant.health. by rewrite Hc.
  - intros. unfold RtpsUdpParticipant.new_publisher. by rewrite Hc.
  - intros. unfold RtpsUdpParticipant.new_subscriber. by rewrite Hc.
  - unfold RtpsUdpParticipant.close at 1. by rewrite Hc.
  - intros evs' self' Hr'.
    assert (udp_wf self' ∧ u_closed self' = true ∧ shrunk (inners (u_inner c)) (inners (u_inner self')))
      as (Hw' & Hc' & Hs).
    { revert Hr'. apply (for_each_inv (λ s, udp_wf s ∧ u_closed s = true
        ∧ shrunk (inners (u_inner c)) (inners (u_inner s)))); [|by split_and!; [..|reflexivity]].
      intros e s s' (Hws & Hcs & Hss) Hstep. destruct (closed_step _ _ _ Hws Hcs Hstep) as [Hc' Hs'].
      split_and!; [by eapply udp_step_wf|done|by transitivity (inners (u_inner s))]. }
    split_and!; [done|by destruct (uw_closed _ Hw' Hc')|done].
Qed.

(** What [close] does not stop: the heartbeat task of a reliable publisher
    that the application has not closed.  Its next tick sends the same
    HEARTBEAT to every matched reader as it would have before. *)
Theorem heartbeats_survive_close d config g evs self0 self k pb ws ms :
  new_with_config d config g = Ok self0 → for_each udp_step evs self0 = Ok self →
  u_publishers self !! k = Some pb → heartbeat_task pb = true →
  writers (u_inner self) !! rw_eid (pb_writer pb) = Some ws → w_reliable ws = true →
  wrote ws ms → ms ≠ [] → heartbeats ws + 1 < 2 ^ 31 →
  ∃ self', heartbeat_tick k (RtpsUdpParticipant.close self) = Ok self' ∧
    sent (data_socket (u_inner self')) = sent (data_socket (u_inner self)) ++
      to_all (reader_addrs (w_topic ws) (u_inner self))
        (heartbeat_message (u_inner self) (rw_eid (pb_writer pb)) ms (heartbeats ws + 1)).
Proof.
  intros Hn Hr Hk Hhb He Hrel Hwr Hne Hcnt. pose proof (runs_wf _ _ _ _ _ _ Hn Hr) as Hw.
  assert (∃ l, u_inner (RtpsUdpParticipant.close self) = set_inners l (u_inner self)
    ∧ u_publishers (RtpsUdpParticipant.close self) = u_publishers self) as (l & Hl & Hp).
  { destruct (u_closed self) eqn:Ho.
    - unfold RtpsUdpParticipant.close. rewrite Ho. exists (inners (u_inner self)). by destruct (u_inner self).
    - rewrite close_eq by done. by eexists. }
  unfold heartbeat_tick. rewrite Hp, Hk, Hhb, Hl.
  destruct (send_heartbeat_eq _ (set_inners l (u_inner self)) ws ms He Hrel Hwr Hne Hcnt)
    as (ws' & Heq & _). rewrite Heq, bind_ok. by eexists.
Qed.
End construction.

(** ** Instances *)

#[local] Instance demo_profile : BuildProfile := true.
#[local] Notation demo := (RtpsUdpParticipant (bool * option bool)).

(** A system with every port free, and a participant of domain 0. *)
Definition demo_bound (port : Z) : RtpsSocket := mkRtpsSocket port [] (λ _, None).
Definition demo_os : OsNet RtpsSocket :=
  mkOs (λ _ _ port, inl (demo_bound port)) inl
    (λ _ dst, inl (demo_bound (match dst with SocketAddrV4 _ p | SocketAddrV6 _ p => p end))).
Definition demo_udp0 : demo :=
  RtpsUdpParticipant.assemble demo_disk (mkDomain 0) (ec_guid_prefix demo_config) (demo_bound 7410)
    (demo_bound 7411) (Some (demo_bound 7400)) (Some (demo_bound 7401)) RtpsUdpParticipantConfig.new.

Lemma demo_udp0_new : RtpsUdpParticipant.new_with_config demo_os (λ _, []) demo_disk (mkDomain 0)
  RtpsUdpParticipantConfig.new (ec_guid_prefix demo_config) = Ok demo_udp0.
Proof. vm_compute. reflexivity. Qed.

Definition demo_udp (evs : list UdpEvent) : demo := or_else demo_udp0 (for_each udp_step evs demo_udp0).

(** A subscriber, a reliable publisher, the announcement of a remote reader,
    a write. *)
Definition demo_far_reader : EndpointInfo :=
  mkEndpointInfo (mkGuid (ec_guid_prefix far_config) (entity_id_for_reader 1)) demo_words false.
Definition demo_udp_events : list UdpEvent :=
  let c := mkClock 5 6 in
  [NewSubscriber 0 demo_words RELIABLE_QOS demo_reader_opts; NewPublisher demo_words RELIABLE_QOS;
   Arrive MetaPort (inl (mkRtpsDatagram (endpoint_message far_config demo_far_reader 1) far_from));
   Round FanoutLoop c; Round FanoutLoop c; Round FanoutLoop c; Round SedpMetaLoop c;
   PubWrite 0 Context_background 5 [x07]].

Lemma demo_udp_ok : for_each udp_step demo_udp_events demo_udp0 = Ok (demo_udp demo_udp_events).
Proof. apply returned_ok. vm_compute. reflexivity. Qed.

Lemma udp_bounded_witness :
  let self := demo_udp demo_udp_events in
  (∀ p, (length (chan_queue (port_rx p (channels self))) <= 64)%nat) ∧
  (λ i, s_payload <$> queue i) <$> inners (u_inner self) = [[[x07]]].
Proof.
  intros self. split; [|vm_compute; reflexivity].
  apply (udp_bounded demo_os (λ _, []) demo_disk (mkDomain 0) RtpsUdpParticipantConfig.new
    (ec_guid_prefix demo_config) demo_udp_events demo_udp0 self demo_udp0_new demo_udp_ok).
Defined.

(** Closed, the participant keeps the one sample it has. *)
Lemma close_is_final_witness :
  let c := RtpsUdpParticipant.close (demo_udp demo_udp_events) in
  (∀ p a, arrive p a c = c) ∧
  (λ i, (s_payload <$> queue i, closed i)) <$> inners (u_inner c) = [([[x07]], true)].
Proof.
  intros c.
  destruct (close_is_final demo_os (λ _, []) demo_disk (mkDomain 0) RtpsUdpParticipantConfig.new
    (ec_guid_prefix demo_config) demo_udp_events demo_udp0 _ demo_udp0_new demo_udp_ok) as (H1 & _).
  split; [exact H1|vm_compute; reflexivity].
Defined.

(** The heartbeat of the publisher of that sample goes to the remote reader. *)

(** What that publisher has written: one sample, one heartbeat. *)
Definition demo_written : list byte :=
  match sent (data_socket (u_inner (demo_udp demo_udp_events))) with (_, m) :: _ => m | [] => [] end.
Definition demo_written_history : SendHistory :=
  match SendHistory_store 1 demo_written SendHistory_new with Ok h => h | _ => SendHistory_new end.
Definition demo_counted : SendHistory :=
  let h := demo_written_history in
  mkSendHistory (sh_msg h) (sh_sn h) (highest h) (lowest h) (any h) 1.
Definition demo_writer_state : WriterState := mkWriterState demo_words 1 true (Some demo_counted) 0.

Lemma demo_counted_ok : history_of [demo_written] demo_counted.
Proof.
  apply (history_count [demo_written] demo_written_history 1); [|done]. unfold demo_written_history.
  destruct (store_first 1 demo_written) as (h & -> & Hh); [lia|]. exact Hh.
Qed.

Lemma demo_written_ok : wrote demo_writer_state [demo_written].
Proof.
  split; [reflexivity|split; [by eauto|reflexivity]| |vm_compute; congruence].
  intros h Hh. change (Some demo_counted = Some h) in Hh. assert (h = demo_counted) as -> by congruence. exact demo_counted_ok.
Qed.

(** The heartbeat of that publisher goes to the remote reader, after [close]. *)
Lemma heartbeats_survive_close_witness :
  let self := demo_udp demo_udp_events in
  ∃ self', heartbeat_tick 0 (RtpsUdpParticipant.close self) = Ok self' ∧
    fst <$> drop 2 (sent (data_socket (u_inner self'))) = [far_from].
Proof.
  intros self.
  destruct (heartbeats_survive_close demo_os (λ _, []) demo_disk (mkDomain 0) RtpsUdpParticipantConfig.new
    (ec_guid_prefix demo_config) demo_udp_events demo_udp0 self 0
    (mkRtpsPublisher (mkRtpsWriter (entity_id_for_writer 2) demo_words) 0 false true)
    demo_writer_state [demo_written] demo_udp0_new demo_udp_ok) as (self' & H1 & H2).
  - vm_compute. reflexivity.
  - reflexivity.
  - vm_compute. reflexivity.
  - reflexivity.
  - apply demo_written_ok.
  - done.
  - vm_compute. reflexivity.
  - exists self'. split; [exact H1|]. rewrite H2. vm_compute. reflexivity.
Defined.
