(* ===== verification/UdpMetatraffic.v ===== *)
(** * UdpMetatraffic: what becomes of the datagrams of the metatraffic socket
    (src/rtps/dds_participant.rs, [spawn_datagram_fanout] and the receive loops
    of SPDP and SEDP)

    One socket serves two discovery services.  The fan-out loses, repeats and
    reorders nothing that the socket's channel accepted, and a participant that
    has discovered a peer tells it of each of its endpoints. *)

From S2P Require Import Prelude Codec Guid Locator Message Cdr Fragment Reliable Persist Types.
From S2P Require Import Observability SubQueue Counters Transport Socket Spdp Sedp Participant Delivery.
From S2P Require Import DdsParticipant UdpRuns.

Section fanout.
Context {N : Type} `{!Notify N} `{BuildProfile}.
Notation udp := (RtpsUdpParticipant N).
Implicit Types self : udp.

(** ** What passes through the pipeline *)

Inductive Service : Type := ToSpdp | ToSedp.

#[global] Instance Service_eq_dec : EqDecision Service.
Proof. solve_decision. Defined.

Definition service_task (v : Service) : UdpTask :=
  match v with ToSpdp => SpdpMetaLoop | ToSedp => SedpMetaLoop end.
Definition service_rx (v : Service) (c : Channels) : Chan RtpsDatagram :=
  match v with ToSpdp => spdp_meta_rx c | ToSedp => sedp_meta_rx c end.

(** The datagram an event puts into the channel of the metatraffic socket:
    what arrives while the task reads and the channel has room, cut to the
    length of the read buffer. *)
Definition accepted (e : UdpEvent) self : list RtpsDatagram :=
  match e with
  | Arrive MetaPort (inl d) =>
      if running MetaRecv self && (length (chan_queue (meta_rx (channels self))) <? 64)%nat
      then [mkRtpsDatagram (take (Z.to_nat MAX_UDP_DATAGRAM) (dg_data d)) (dg_from d)] else []
  | _ => []
  end.

(** The datagram an event hands to a service. *)
Definition seen (v : Service) (e : UdpEvent) self : list RtpsDatagram :=
  match e with
  | Round t _ =>
      if bool_decide (t = service_task v) && running t self then
        match chan_recv (service_rx v (channels self)) with Some (d, _) => [d] | None => [] end
      else []
  | _ => []
  end.

(** What [f] observes along a run. *)
Fixpoint along (f : UdpEvent → udp → list RtpsDatagram) (evs : list UdpEvent) self : list RtpsDatagram :=
  match evs with
  | [] => []
  | e :: evs => f e self ++ match udp_step e self with Ok self' => along f evs self' | _ => [] end
  end.

(** Accepted, and not yet with the service. *)
Definition held_by_fanout (v : Service) (f : Fanout) : list RtpsDatagram :=
  match v, f with
  | _, FanSpdp d | ToSedp, FanSedp d => [d]
  | _, _ => []
  end.
Definition in_flight (v : Service) (c : Channels) : list RtpsDatagram :=
  chan_queue (service_rx v c) ++ held_by_fanout v (fanout c) ++ chan_queue (meta_rx c).

(** ** One step *)

Definition pipe (c : Channels) : Chan RtpsDatagram * Fanout * Chan RtpsDatagram * Chan RtpsDatagram :=
  (meta_rx c, fanout c, spdp_meta_rx c, sedp_meta_rx c).

Lemma in_flight_pipe v c c' : pipe c' = pipe c → in_flight v c' = in_flight v c.
Proof using Type. unfold in_flight. intros [= H1 H2 H3 H4]. by destruct v; simpl; rewrite H1, H2, ?H3, ?H4. Qed.

Lemma try_send_queue d c : chan_ok c → chan_queue (try_send d c).2 =
  chan_queue c ++ (if (length (chan_queue c) <? 64)%nat then [d] else []).
Proof using Type.
  unfold try_send. intros (-> & -> & _). cbn [negb].
  destruct (Nat.leb_spec 64 (length (chan_queue c))), (Nat.ltb_spec (length (chan_queue c)) 64);
    simpl; (lia || by rewrite ?app_nil_r).
Qed.

Lemma send_wait_queue d c c' : chan_ok c → send_wait d c = Some c' → chan_queue c' = chan_queue c ++ [d].
Proof using Type.
  unfold send_wait, try_send. intros (-> & -> & _). cbn [negb].
  destruct (Nat.leb_spec 64 (length (chan_queue c))); [done|]. by intros [= <-].
Qed.

Lemma recv_queue (c rx : Chan RtpsDatagram) d : chan_recv c = Some (d, rx) → chan_queue c = d :: chan_queue rx.
Proof using Type. unfold chan_recv. destruct (chan_queue c) as [|x q]; [done|]. by intros [= <- <-]. Qed.

Lemma fanout_keeps v c : channels_ok c → in_flight v (fanout_round c) = in_flight v c.
Proof using Type.
  intros [_ Hs He]. unfold fanout_round. destruct (fanout c) as [|d|d] eqn:Hf.
  - destruct (chan_recv (meta_rx c)) as [[d rx]|] eqn:Hr; [|done]. apply recv_queue in Hr.
    unfold in_flight. rewrite Hf, Hr. by destruct v.
  - destruct (send_wait d (spdp_meta_rx c)) as [rx|] eqn:Hr; [|done]. apply send_wait_queue in Hr; [|done].
    unfold in_flight. rewrite Hf. destruct v; simpl; [by rewrite Hr, <- app_assoc|done].
  - destruct (send_wait d (sedp_meta_rx c)) as [rx|] eqn:Hr; [|done]. apply send_wait_queue in Hr; [|done].
    unfold in_flight. rewrite Hf. destruct v; simpl; [done|by rewrite Hr, <- app_assoc].
Qed.

(** A receive loop of a service takes the head of its channel. *)
Lemma service_keeps v t d rx (c c' : Channels) : chan_recv (service_rx v c) = Some (d, rx) →
  pipe c' = pipe (match v with
                  | ToSpdp => set_fanout (fanout c) rx (sedp_meta_rx c) c
                  | ToSedp => set_fanout (fanout c) (spdp_meta_rx c) rx c
                  end) →
  in_flight t c = (if bool_decide (t = v) then [d] else []) ++ in_flight t c'.
Proof using Type.
  intros Hr%recv_queue Hc. rewrite (in_flight_pipe t _ _ Hc). unfold in_flight.
  destruct v, t; simpl in *; by rewrite ?Hr.
Qed.

Lemma round_tasks t clock self self' : task_round t clock self = Ok self' →
  tasks self' = tasks self ∧ u_closed self' = u_closed self.
Proof.
  destruct t; cbn [task_round]; try (by intros [= <-]);
    try (intros Hr%lift_inv; revert Hr);
    unfold announce_round, spdp_round, sedp_round, peer_round, data_round;
    repeat case_match; try (by intros [= <-]).
  all: intros Hr; apply bind_ok_inv in Hr as (x & _ & Hr); repeat case_match; by injection Hr as <-.
Qed.

(** The rounds of the other tasks. *)
Lemma other_round t clock self self' : t ∉ [FanoutLoop; SpdpMetaLoop; SedpMetaLoop] →
  task_round t clock self = Ok self' → pipe (channels self') = pipe (channels self).
Proof.
  intros Ht. destruct t; try (exfalso; apply Ht; set_solver); cbn [task_round];
    try (by intros [= <-]);
    try (intros Hr%lift_inv; revert Hr);
    unfold announce_round, spdp_round, sedp_round, peer_round, data_round;
    repeat case_match; try (by intros [= <-]).
  all: intros Hr; apply bind_ok_inv in Hr as (x & _ & Hr); repeat case_match; by injection Hr as <-.
Qed.

(** Calls of the application and the tasks outside the list leave the
    pipeline alone. *)
Lemma other_step e self self' : udp_wf self → udp_step e self = Ok self' →
  match e with
  | Arrive _ _ | Round _ _ => True
  | _ => pipe (channels self') = pipe (channels self)
         ∧ (e = CloseParticipant ∨ (tasks self' = tasks self ∧ u_closed self' = u_closed self))
  end.
Proof.
  intros Hw. destruct e as [t qos|now t qos opts|k ctx now p|k|k|k|k| |p a|t clock|k|]; cbn [udp_step]; try done.
  - intros ([r s] & Hr%lift_inv & [= <-])%bind_ok_inv. revert Hr.
    unfold RtpsUdpParticipant.new_publisher. destruct (u_closed self) eqn:Hcl; [intros [= <- <-]; auto|].
    destruct t; [intros [= <- <-]; auto|]. intros ([w inner] & _ & [= <- <-])%bind_ok_inv. auto.
  - intros ([r s] & Hr%lift_inv & [= <-])%bind_ok_inv. revert Hr.
    unfold RtpsUdpParticipant.new_subscriber. destruct (u_closed self) eqn:Hcl; [intros [= <- <-]; auto|].
    destruct t; [intros [= <- <-]; auto|]. intros ([w inner] & _ & [= <- <-])%bind_ok_inv. auto.
  - intros ([r s] & Hr & [= <-])%bind_ok_inv. revert Hr.
    unfold RtpsPublisher.write_ctx, RtpsPublisher.write. repeat case_match; try (by intros [= <- <-]; auto).
    intros (inner & _ & [= <- <-])%bind_ok_inv. auto.
  - intros [= <-]. auto.
  - intros [= <-]. unfold RtpsSubscriber.unsubscribe. case_match; auto.
  - intros [= <-]. unfold RtpsSubscriber.close. case_match; auto.
  - intros [= <-]. unfold RtpsSubscriber.try_recv. case_match; auto.
  - intros [= <-]. split; [|by left]. destruct (u_closed self) eqn:Ho; [|by rewrite close_eq].
    unfold RtpsUdpParticipant.close. by rewrite Ho.
  - unfold heartbeat_tick. repeat case_match; try (by intros [= <-]; auto).
    intros (inner & _ & [= <-])%bind_ok_inv. auto.
  - intros [= <-]. unfold cleanup. case_match; auto.
Qed.

Lemma arrive_keeps v p a self : udp_wf self →
  in_flight v (channels self) ++ accepted (Arrive p a) self = in_flight v (channels (arrive p a self)).
Proof.
  intros Hw. pose proof (co_port _ (uw_channels _ Hw) MetaPort) as Hc. unfold arrive.
  destruct p; cbn [accepted recv_task];
    try (destruct (running _ self); [destruct (receive_loop [a] _) as [[] c]|]; by rewrite app_nil_r).
  destruct (running MetaRecv self); [|by destruct a; rewrite app_nil_r]. cbn [andb].
  destruct a as [d|e]; [|by rewrite app_nil_r]. cbn [receive_loop port_rx] in *.
  pose proof (try_send_queue (mkRtpsDatagram (take (Z.to_nat MAX_UDP_DATAGRAM) (dg_data d)) (dg_from d)) _ Hc) as Hq.
  unfold in_flight. destruct (try_send _ _) as [[[]|] c']; simpl in Hq; destruct v; simpl;
    by rewrite Hq, <- !app_assoc.
Qed.

Lemma round_keeps v t clock self self' : udp_wf self → running t self = true →
  task_round t clock self = Ok self' →
  in_flight v (channels self) = seen v (Round t clock) self ++ in_flight v (channels self').
Proof.
  intros Hw Hrun Hr. cbn [seen]. rewrite Hrun, andb_true_r.
  destruct (decide (t ∈ [FanoutLoop; SpdpMetaLoop; SedpMetaLoop])) as [Hin|Hout].
  2: { rewrite bool_decide_false by (intros ->; destruct v; set_solver).
       symmetry. apply in_flight_pipe. by eapply other_round. }
  assert (t = FanoutLoop ∨ t = SpdpMetaLoop ∨ t = SedpMetaLoop) as [->|[->| ->]] by set_solver.
  - injection Hr as <-. rewrite bool_decide_false by by destruct v. symmetry. by apply fanout_keeps, Hw.
  - apply lift_inv in Hr. unfold spdp_round in Hr.
    destruct (chan_recv (spdp_meta_rx (channels self))) as [[d rx]|] eqn:Hrx.
    + rewrite spdp_packet_eq, bind_ok in Hr. injection Hr as <-.
      rewrite (service_keeps ToSpdp v d rx _ (set_fanout (fanout (channels self)) rx (sedp_meta_rx (channels self))
        (channels self)) Hrx eq_refl). by destruct v; cbn [service_rx]; rewrite ?Hrx.
    + injection Hr as <-. by destruct v; cbn [service_rx]; rewrite ?Hrx; case_bool_decide.
  - apply lift_inv in Hr. unfold sedp_round in Hr.
    destruct (chan_recv (sedp_meta_rx (channels self))) as [[d rx]|] eqn:Hrx.
    + apply bind_ok_inv in Hr as (sv & _ & [= <-]).
      rewrite (service_keeps ToSedp v d rx _ (set_fanout (fanout (channels self)) (spdp_meta_rx (channels self)) rx
        (channels self)) Hrx eq_refl). by destruct v; cbn [service_rx]; rewrite ?Hrx.
    + injection Hr as <-. by destruct v; cbn [service_rx]; rewrite ?Hrx; case_bool_decide.
Qed.

Lemma step_keeps v e self self' : udp_wf self → udp_step e self = Ok self' →
  in_flight v (channels self) ++ accepted e self = seen v e self ++ in_flight v (channels self').
Proof.
  intros Hw Hstep. pose proof (other_step e _ _ Hw Hstep) as Hsame.
  destruct e as [t qos|now t qos opts|k ctx now p|k|k|k|k| |p a|t clock|k|];
    try (cbn [accepted seen app]; by rewrite app_nil_r, (in_flight_pipe v _ _ (proj1 Hsame))).
  all: clear Hsame; cbn [udp_step] in Hstep.
  - injection Hstep as <-. by apply arrive_keeps.
  - cbn [accepted]. rewrite app_nil_r. destruct (running t self) eqn:Hrun; [by apply round_keeps|].
    injection Hstep as <-. cbn [seen]. by rewrite Hrun, andb_false_r.
Qed.

Lemma run_keeps v evs self self' : udp_wf self → for_each udp_step evs self = Ok self' →
  in_flight v (channels self) ++ along accepted evs self
  = along (seen v) evs self ++ in_flight v (channels self').
Proof.
  revert self. induction evs as [|e evs IH]; intros self Hw; cbn [for_each along].
  { intros [= <-]. by rewrite app_nil_r. }
  intros (s1 & Hs & Hr)%bind_ok_inv. rewrite Hs. pose proof (step_keeps v _ _ _ Hw Hs) as Hk.
  rewrite app_assoc, Hk, <- !app_assoc. f_equal. apply IH; [by eapply udp_step_wf|done].
Qed.

Lemma along_app f evs evs' self self' : for_each udp_step evs self = Ok self' →
  along f (evs ++ evs') self = along f evs self ++ along f evs' self'.
Proof.
  revert self. induction evs as [|e evs IH]; intros self; cbn [for_each along app]; [by intros [= <-]|].
  intros (s1 & Hs & Hr)%bind_ok_inv. rewrite Hs, <- app_assoc. f_equal. by apply IH.
Qed.

(** ** While the participant is open *)

(** The tasks a participant has until it is closed: an error of a socket ends
    a receive task only. *)
Definition loops : list UdpTask :=
  [AnnounceLoop; EvictLoop; FanoutLoop; SpdpMetaLoop; SedpMetaLoop; MatchListener; PeerListener; DataLoop].

Definition loops_run self : Prop := u_closed self = false → ∀ t, t ∈ loops → running t self = true.

Lemma running_elem t self : running t self = true ↔ t ∈ tasks self.
Proof using Type. unfold running. by rewrite bool_decide_eq_true. Qed.

Lemma assemble_loops disk d g meta data mcast user_mcast config :
  loops_run (RtpsUdpParticipant.assemble (N:=N) disk d g meta data mcast user_mcast config).
Proof using Type.
  intros _ t Ht. apply running_elem. unfold loops in Ht. simpl.
  repeat rewrite elem_of_cons in Ht. repeat case_bool_decide; set_solver.
Qed.

Lemma loops_step e self self' : udp_wf self → udp_step e self = Ok self' → loops_run self → loops_run self'.
Proof.
  intros Hw Hs Hl Hc t Ht. pose proof (other_step e _ _ Hw Hs) as Ho.
  assert (u_closed self' = u_closed self → (t ∈ tasks self → t ∈ tasks self') → running t self' = true) as Hkeep.
  { intros Hcl Htt. apply running_elem, Htt, running_elem, Hl; [congruence|done]. }
  destruct e as [?|?|?|?|?|?|?| |p a|t' clock|?|];
    try (apply proj2 in Ho; destruct Ho as [?|[Htt Hcl]]; [done|]; apply Hkeep; [done|by rewrite Htt]).
  - cbn [udp_step] in Hs. injection Hs as <-. destruct (u_closed self) eqn:Hcl.
    + unfold RtpsUdpParticipant.close in Hc. rewrite Hcl in Hc. congruence.
    + by rewrite close_eq in Hc.
  - cbn [udp_step] in Hs. injection Hs as <-. unfold arrive in *.
    destruct (running (recv_task p) self); [|by apply Hkeep].
    destruct (receive_loop [a] _) as [[] c]; [by apply Hkeep|]. apply Hkeep; [done|]. simpl.
    intros Hin. apply list_elem_of_filter. split; [|done].
    intros ->. unfold loops in Ht. destruct p; set_solver.
  - cbn [udp_step] in Hs. destruct (running t' self); [|injection Hs as <-; by apply Hkeep].
    apply round_tasks in Hs as [Htt Hcl]. apply Hkeep; [done|by rewrite Htt].
Qed.

(** ** Draining *)

Definition weight (c : Channels) : nat :=
  5 * length (chan_queue (meta_rx c)) + (match fanout c with FanIdle => 0 | FanSpdp _ => 4 | FanSedp _ => 2 end)
  + length (chan_queue (spdp_meta_rx c)) + length (chan_queue (sedp_meta_rx c)).

Lemma weight_zero v c : weight c = 0%nat → in_flight v c = [].
Proof using Type.
  unfold weight, in_flight. destruct (fanout c), (chan_queue (meta_rx c)) eqn:Hm,
    (chan_queue (spdp_meta_rx c)) eqn:Hs, (chan_queue (sedp_meta_rx c)) eqn:He; simpl; try lia.
  intros _. by destruct v; simpl; rewrite ?Hs, ?He.
Qed.

Lemma send_wait_room d c : chan_ok c → chan_queue c = [] → ∃ c', send_wait d c = Some c'.
Proof using Type. unfold send_wait, try_send. intros (-> & -> & _) ->. simpl. eauto. Qed.

(** A round that brings something closer to its service. *)
Lemma drain_step clock self : udp_wf self → loops_run self → u_closed self = false →
  weight (channels self) ≠ 0%nat → ∃ t self', t ∈ [FanoutLoop; SpdpMetaLoop; SedpMetaLoop] ∧
    udp_step (Round t clock) self = Ok self' ∧ (weight (channels self') < weight (channels self))%nat.
Proof.
  intros Hw Hl Ho Hz.
  assert (∀ t, t ∈ [FanoutLoop; SpdpMetaLoop; SedpMetaLoop] → udp_step (Round t clock) self = task_round t clock self)
    as Hrun.
  { intros t Ht. cbn [udp_step]. rewrite (Hl Ho); [done|]. unfold loops. set_solver. }
  pose proof (uw_channels _ Hw) as [_ Hcs Hce].
  destruct (chan_queue (spdp_meta_rx (channels self))) as [|d q] eqn:Hs.
  2: { exists SpdpMetaLoop. rewrite Hrun by set_solver. cbn [task_round]. unfold spdp_round, chan_recv.
       rewrite Hs, spdp_packet_eq, bind_ok. eexists. split_and!; [set_solver|done|].
       unfold weight. simpl. rewrite Hs. simpl. lia. }
  destruct (chan_queue (sedp_meta_rx (channels self))) as [|d q] eqn:He.
  2: { exists SedpMetaLoop. rewrite Hrun by set_solver. cbn [task_round]. unfold sedp_round, chan_recv.
       rewrite He. destruct (sedp_packet_eq (dg_data d) (dg_from d) (sedp (u_inner self))) as (es & -> & _).
       rewrite bind_ok. eexists. split_and!; [set_solver|done|].
       unfold weight. simpl. rewrite He. simpl. lia. }
  exists FanoutLoop. rewrite Hrun by set_solver. cbn [task_round]. eexists. split_and!; [set_solver|done|].
  revert Hz. unfold weight, fanout_round. simpl. rewrite Hs, He. destruct (fanout (channels self)) as [|d|d] eqn:Hf; simpl.
  - unfold chan_recv. destruct (chan_queue (meta_rx (channels self))) as [|d q] eqn:Hm; simpl; [lia|].
    rewrite Hs, He. simpl. lia.
  - intros _. destruct (send_wait_room d _ Hcs Hs) as [c' Hc']. rewrite Hc'. simpl.
    rewrite (send_wait_queue _ _ _ Hcs Hc'), Hs, He. simpl. lia.
  - intros _. destruct (send_wait_room d _ Hce He) as [c' Hc']. rewrite Hc'. simpl.
    rewrite (send_wait_queue _ _ _ Hce Hc'), Hs, He. simpl. lia.
Qed.

Definition drain_round (e : UdpEvent) : Prop :=
  ∃ t clock, e = Round t clock ∧ t ∈ [FanoutLoop; SpdpMetaLoop; SedpMetaLoop].

Lemma drain n self : (weight (channels self) <= n)%nat → udp_wf self → loops_run self → u_closed self = false →
  ∃ evs self', Forall drain_round evs ∧ (length evs <= n)%nat ∧ for_each udp_step evs self = Ok self' ∧
    weight (channels self') = 0%nat ∧ along accepted evs self = [] .
Proof.
  revert self. induction n as [|n IH]; intros self Hn Hw Hl Ho.
  { exists [], self. split_and!; [done..|lia|done]. }
  destruct (decide (weight (channels self) = 0%nat)) as [Hz|Hz].
  { exists [], self. split_and!; [done|simpl; lia|done..]. }
  destruct (drain_step (mkClock 0 0) self Hw Hl Ho Hz) as (t & s1 & Ht & Hs & Hlt).
  assert (u_closed s1 = false) as Ho1.
  { cbn [udp_step] in Hs. destruct (running t self); [|by injection Hs as <-].
    apply round_tasks in Hs as [_ ->]. done. }
  destruct (IH s1 ltac:(lia) (udp_step_wf _ _ _ Hw Hs) (loops_step _ _ _ Hw Hs Hl) Ho1)
    as (evs & s' & Hev & Hlen & Hr & Hz' & Ha).
  exists (Round t (mkClock 0 0) :: evs), s'. split_and!; [|simpl; lia| |done|].
  - constructor; [|done]. by exists t, (mkClock 0 0).
  - cbn [for_each]. by rewrite Hs, bind_ok.
  - cbn [along accepted app]. by rewrite Hs.
Qed.

Lemma runs_loops {S} (os : OsNet S) show_err disk d config g evs self0 self :
  RtpsUdpParticipant.new_with_config os show_err disk d config g = Ok self0 →
  for_each udp_step evs self0 = Ok self → loops_run self.
Proof.
  intros Hn Hr. pose proof (udp_new_wf _ _ _ _ _ _ _ Hn) as Hw0.
  assert (udp_wf self ∧ loops_run self) as [_ ?]; [|done]. revert Hr.
  apply (for_each_inv (λ s, udp_wf s ∧ loops_run s)).
  - intros e s s' [Hws Hls] Hs. split; [by eapply udp_step_wf|by eapply loops_step].
  - split; [done|]. revert Hn. unfold RtpsUdpParticipant.new_with_config. intros Hn.
    repeat (apply bind_ok_inv in Hn as (? & _ & Hn)). injection Hn as <-. apply assemble_loops.
Qed.

(** C17. One socket, two services, nothing lost between.  In every run, what the
    channel of the metatraffic socket has accepted is, for SPDP and for SEDP
    alike, what the service has been handed, then what is still on its way,
    in the order of arrival and each datagram once.  And unless the
    participant is closed, at most 5 * 64 + 4 + 64 + 64 rounds of the fan-out
    and the two services hand over all of it. *)
Theorem metatraffic_reaches_both {S} (os : OsNet S) show_err disk d config g evs self0 self :
  RtpsUdpParticipant.new_with_config os show_err disk d config g = Ok self0 →
  for_each udp_step evs self0 = Ok self →
  (∀ v, along accepted evs self0 = along (seen v) evs self0 ++ in_flight v (channels self)) ∧
  (u_closed self = false → ∃ rounds self', Forall drain_round rounds ∧ (length rounds <= 452)%nat ∧
     for_each udp_step (evs ++ rounds) self0 = Ok self' ∧
     ∀ v, along (seen v) (evs ++ rounds) self0 = along accepted evs self0).
Proof.
  intros Hn Hr. pose proof (udp_new_wf _ _ _ _ _ _ _ Hn) as Hw0.
  assert (∀ v, in_flight v (channels self0) = []) as H0.
  { revert Hn. unfold RtpsUdpParticipant.new_with_config. intros Hn.
    repeat (apply bind_ok_inv in Hn as (? & _ & Hn)). injection Hn as <-. by intros []. }
  assert (∀ evs self, for_each udp_step evs self0 = Ok self → ∀ v,
    along accepted evs self0 = along (seen v) evs self0 ++ in_flight v (channels self)) as Hall.
  { intros evs' s' Hr' v. pose proof (run_keeps v _ _ _ Hw0 Hr') as Hk. by rewrite H0 in Hk. }
  split; [by apply Hall|]. intros Ho. pose proof (runs_wf _ _ _ _ _ _ _ _ _ Hn Hr) as Hw.
  pose proof (runs_loops _ _ _ _ _ _ _ _ _ Hn Hr) as Hl.
  assert ((weight (channels self) <= 452)%nat) as Hweight.
  { pose proof (uw_channels _ Hw) as [Hp (_ & _ & Hs) (_ & _ & He)].
    destruct (Hp MetaPort) as (_ & _ & Hm). unfold weight. simpl in Hm. destruct (fanout (channels self)); lia. }
  destruct (drain 452 self Hweight Hw Hl Ho) as (rounds & self' & Hev & Hlen & Hr' & Hz & Ha).
  assert (for_each udp_step (evs ++ rounds) self0 = Ok self') as Happ by (by rewrite for_each_app, Hr, bind_ok).
  exists rounds, self'. split_and!; [done..|]. intros v.
  pose proof (Hall _ _ Happ v) as Hk. rewrite (along_app accepted _ _ _ _ Hr), Ha, app_nil_r in Hk.
  by rewrite Hk, (weight_zero v _ Hz), app_nil_r.
Qed.
End fanout.

(** ** Introducing a new peer *)

(** The announcements of [l], numbered from [c + 1] on. *)
Definition numbered (cfg : SedpConfig) (c : Z) (l : list EndpointInfo) : list (list byte) :=
  imap (λ k i, endpoint_message cfg i (c + 1 + Z.of_nat k)) l.

(** The endpoints of a service, in the order it announces them to a new peer. *)
Definition local_endpoints (s : SedpService) : list EndpointInfo :=
  (map_to_list (local_writers s)).*2 ++ (map_to_list (local_readers s)).*2.

Section peers.
Context `{BuildProfile}.

Lemma numbered_cons cfg c i l :
  numbered cfg c (i :: l) = endpoint_message cfg i (c + 1) :: numbered cfg (c + 1) l.
Proof.
  unfold numbered. cbn [imap]. f_equal; [f_equal; lia|].
  apply imap_ext. intros k x _. unfold compose. replace (c + 1 + Z.of_nat (S k)) with (c + 1 + 1 + Z.of_nat k) by lia. done.
Qed.

Lemma numbered_app cfg c l k : numbered cfg c (l ++ k) = numbered cfg c l ++ numbered cfg (c + len l) k.
Proof.
  unfold numbered. rewrite imap_app. f_equal. apply imap_ext. intros j x _. unfold compose, len.
  by replace (c + 1 + Z.of_nat (length l + j)) with (c + Z.of_nat (length l) + 1 + Z.of_nat j) by lia.
Qed.

Lemma send_to_one msg peer s sock dst : Locator.udp_addr (metatraffic_unicast peer) = Some dst →
  ∃ s' sock', send_to msg peer (s, sock) = (s', sock') ∧ same_tables s s' ∧
    e_seq_counter s' = e_seq_counter s ∧ sent sock' = sent sock ++ [(dst, msg)].
Proof.
  intros Hd. unfold send_to. rewrite Hd. unfold RtpsSocket.send_to.
  destruct (verdict sock _); eexists _, _; split_and!; try done; by split_and!.
Qed.

(** One announcement loop of [on_new_peer]. *)
Lemma announce_to_peer b peer dst l s sock : Locator.udp_addr (metatraffic_unicast peer) = Some dst →
  0 <= e_seq_counter s → e_seq_counter s + len l < 2 ^ 32 → Forall (λ i, is_writer i = b) l →
  ∃ s' sock', for_each (λ i, (if b then announce_writer else announce_reader) i (Some peer) []) l (s, sock)
      = Ok (s', sock') ∧
    same_tables s s' ∧ e_seq_counter s' = e_seq_counter s + len l ∧
    sent sock' = sent sock ++ ((λ m, (dst, m)) <$> numbered (e_config s) (e_seq_counter s) l).
Proof.
  intros Hd Hc0. revert s sock Hc0. induction l as [|i l IH]; intros s sock Hc0 Hc Hl.
  { exists s, sock. rewrite len_nil, app_nil_r, Z.add_0_r. by split_and!. }
  apply Forall_cons in Hl as [Hi Hl]. rewrite len_cons in Hc. pose proof (len_nonneg l) as Hl0.
  assert (∃ s1 sock1, (if b then announce_writer else announce_reader) i (Some peer) [] (s, sock) = Ok (s1, sock1) ∧
    same_tables s s1 ∧ e_seq_counter s1 = e_seq_counter s + 1 ∧
    sent sock1 = sent sock ++ [(dst, endpoint_message (e_config s) i (e_seq_counter s + 1))])
    as (s1 & sock1 & Hs1 & Ht1 & Hq1 & He1).
  { destruct (send_to_one (endpoint_message (e_config s) i (e_seq_counter s + 1)) peer
      (Sedp.set_seq (e_seq_counter s + 1) s) sock dst Hd) as (s1 & sock1 & Hs1 & Ht1 & Hq1 & He1).
    exists s1, sock1. split_and!; [|etrans; [|exact Ht1]; by split_and!|done|done].
    destruct b; unfold announce_writer, announce_reader, next_seq_num, wrapping_add;
      cbn [fst snd]; rewrite uadd_ok by lia; rewrite !bind_ok; rewrite as_u_small by lia;
      unfold endpoint_message in Hs1; rewrite Hi in Hs1; cbn [fst snd] in Hs1; unfold broadcast; cbn [fst snd e_config Sedp.set_seq];
      by rewrite Hs1. }
  cbn [for_each]. rewrite Hs1, bind_ok.
  destruct (IH s1 sock1) as (s2 & sock2 & -> & Ht2 & Hq2 & He2); [lia|lia|done|].
  exists s2, sock2. split_and!; [done|by etrans|rewrite Hq2, len_cons; lia|].
  rewrite He2, He1, numbered_cons, fmap_cons, <- app_assoc. do 3 f_equal. rewrite Hq1. f_equal. apply Ht1.
Qed.

Lemma on_new_peer_sends peer dst s sock : sedp_wf s → Locator.udp_addr (metatraffic_unicast peer) = Some dst →
  0 <= e_seq_counter s → e_seq_counter s + len (local_endpoints s) < 2 ^ 32 →
  ∃ s' sock', on_new_peer peer s sock = Ok (s', sock') ∧ same_tables s s' ∧
    sent sock' = sent sock ++ ((λ m, (dst, m)) <$> numbered (e_config s) (e_seq_counter s) (local_endpoints s)).
Proof.
  intros Hw Hd Hc0 Hc. unfold local_endpoints in *. rewrite len_app in Hc.
  pose proof (len_nonneg (map_to_list (local_readers s)).*2) as Hr0.
  pose proof (len_nonneg (map_to_list (local_writers s)).*2) as Hw0.
  assert (∀ b (m : gmap EntityId EndpointInfo), (∀ e i, m !! e = Some i → is_writer i = b) →
    Forall (λ i, is_writer i = b) (map_to_list m).*2) as Hkind.
  { intros b m Hm. apply Forall_forall. intros i ([e j] & -> & Hj)%list_elem_of_fmap.
    apply elem_of_map_to_list in Hj. by eapply Hm. }
  unfold on_new_peer.
  destruct (announce_to_peer true peer dst (map_to_list (local_writers s)).*2 s sock)
    as (s1 & k1 & Hs1 & Ht1 & Hq1 & He1); [done..|lia| |].
  { apply Hkind. intros e i Hi. by destruct (sw_local_writer s Hw e i Hi). }
  rewrite Hs1, bind_ok.
  destruct (announce_to_peer false peer dst (map_to_list (local_readers s)).*2 s1 k1)
    as (s2 & k2 & Hs2 & Ht2 & Hq2 & He2); [done|lia..| |].
  { apply Hkind. intros e i Hi. by destruct (sw_local_reader s Hw e i Hi). }
  exists s2, k2. split_and!; [exact Hs2|by etrans|].
  rewrite He2, He1, numbered_app, fmap_app, <- app_assoc, Hq1. do 4 f_equal. apply Ht1.
Qed.

(** *** At the peer *)

(** [r] knows endpoint [i], a reader with its address. *)
Definition knows (dst : SocketAddr) (i : EndpointInfo) (r : SedpService) : Prop :=
  if is_writer i then remote_writers r !! ei_guid i = Some i
  else remote_readers r !! ei_guid i = Some i ∧
       ∃ l, remote_reader_locators r !! ei_guid i = Some l ∧ Locator.udp_addr l = Some dst.

Lemma on_endpoint_tables info loc r :
  remote_writers (on_endpoint info loc r) =
    (if is_writer info then <[ei_guid info := info]> (remote_writers r) else remote_writers r) ∧
  remote_readers (on_endpoint info loc r) =
    (if is_writer info then remote_readers r else <[ei_guid info := info]> (remote_readers r)) ∧
  remote_reader_locators (on_endpoint info loc r) =
    (if is_writer info then remote_reader_locators r else <[ei_guid info := loc]> (remote_reader_locators r)).
Proof. unfold on_endpoint, on_remote_writer, on_remote_reader. repeat case_match; done. Qed.

Lemma known_after dst loc l r : Locator.udp_addr loc = Some dst →
  (∀ i j, i ∈ l → j ∈ l → ei_guid i = ei_guid j → is_writer i = is_writer j → i = j) →
  ∀ i, i ∈ l → knows dst i (foldl (λ r i, on_endpoint i loc r) r l).
Proof.
  intros Hd. induction l as [|j l IH] using rev_ind; intros Hinj i; [by intros ?%elem_of_nil|].
  rewrite foldl_snoc. set (r1 := foldl _ r l) in *. intros Hi. unfold knows.
  destruct (on_endpoint_tables j loc r1) as (-> & -> & ->).
  destruct (decide (i = j)) as [->|Hne].
  { destruct (is_writer j); [apply lookup_insert_eq|]. rewrite !lookup_insert_eq. eauto. }
  assert (i ∈ l) as Hil by set_solver.
  assert (knows dst i r1) as Hk by (apply IH; [set_solver|done]). unfold knows in Hk.
  assert (is_writer j = is_writer i → ei_guid j ≠ ei_guid i) as Hg.
  { intros Hw Hg. apply Hne. apply Hinj; [set_solver..|done|done]. }
  destruct (is_writer i), (is_writer j); try done; rewrite !lookup_insert_ne by auto; done.
Qed.

Lemma endpoints_learned cfg c l from r : Forall (endpoint_ok cfg) l → 0 <= c → c + len l < 2 ^ 32 →
  ec_guid_prefix cfg ≠ ec_guid_prefix (e_config r) →
  for_each (λ m, Sedp.handle_packet m from) (numbered cfg c l) r =
  Ok (foldl (λ r i, on_endpoint i
        (fill_in_zero_address (zero_locator (ec_ipv6 cfg) (ec_data_unicast_port cfg)) from) r) r l).
Proof.
  intros Hl. revert c r. induction Hl as [|i l Hi _ IH]; intros c r Hc0 Hc Hg; [done|].
  rewrite len_cons in Hc. pose proof (len_nonneg l). rewrite numbered_cons. cbn [for_each foldl].
  rewrite handle_endpoint_message by (done || unfold is_u32; lia). rewrite bind_ok.
  apply IH; [lia|lia|]. by destruct (on_endpoint_local i (fill_in_zero_address
    (zero_locator (ec_ipv6 cfg) (ec_data_unicast_port cfg)) from) r) as (-> & _).
Qed.

Lemma local_endpoints_distinct s i j : sedp_wf s → i ∈ local_endpoints s → j ∈ local_endpoints s →
  ei_guid i = ei_guid j → is_writer i = is_writer j → i = j.
Proof.
  intros Hw.
  assert (∀ i, i ∈ local_endpoints s → ∃ e, ei_guid i = mkGuid (ec_guid_prefix (e_config s)) e ∧
    (if is_writer i then local_writers s else local_readers s) !! e = Some i) as Hin.
  { clear i j. intros i. unfold local_endpoints. rewrite elem_of_app, !list_elem_of_fmap.
    intros [([e k] & -> & Hk)|([e k] & -> & Hk)]; apply elem_of_map_to_list in Hk; exists e; simpl.
    - destruct (sw_local_writer s Hw e k Hk) as [? ->]. done.
    - destruct (sw_local_reader s Hw e k Hk) as [? ->]. done. }
  intros (e & Hi & Hie)%Hin (e' & Hj & Hje)%Hin Hg Hk. rewrite Hi, Hj in Hg. injection Hg as ->.
  rewrite Hk in Hie. congruence.
Qed.
End peers.

(** ** From the announcement of a peer to its knowing every endpoint *)

Section introduction.
Context {N : Type} `{!Notify N} `{BuildProfile}.
Notation udp := (RtpsUdpParticipant N).
Implicit Types self : udp.

(** The way of one SPDP announcement through an idle participant. *)
Definition announce_path (clock : Clock) (data : list byte) (from : SocketAddr) : list UdpEvent :=
  [Arrive MetaPort (inl (mkRtpsDatagram data from));
   Round FanoutLoop clock; Round FanoutLoop clock; Round SpdpMetaLoop clock; Round PeerListener clock].

Lemma idle_chan (c : Chan RtpsDatagram) : chan_ok c → chan_queue c = [] → c = mkChan (Some 64%nat) true [].
Proof using Type. destruct c. simpl. intros (? & ? & _) ?. simpl in *. by subst. Qed.

Lemma idle_channels c : channels_ok c → weight c = 0%nat →
  meta_rx c = mkChan (Some 64%nat) true [] ∧ spdp_meta_rx c = mkChan (Some 64%nat) true [] ∧ fanout c = FanIdle.
Proof using Type.
  intros [Hp Hs He] Hz. pose proof (Hp MetaPort) as Hm. simpl in Hm. unfold weight in Hz.
  destruct (fanout c); [|lia..]. split_and!; [| |done].
  - apply idle_chan; [exact Hm|apply nil_length_inv; lia].
  - apply idle_chan; [exact Hs|apply nil_length_inv; lia].
Qed.

(** An idle participant passes the announcement on to SPDP. *)
Lemma announcement_arrives clock data from self : udp_wf self → loops_run self → u_closed self = false →
  running MetaRecv self = true → weight (channels self) = 0%nat → len data <= MAX_UDP_DATAGRAM →
  ∃ c, for_each udp_step (take 4 (announce_path clock data from)) self =
    Ok (set_spdp (store_all (mono clock) (accepted_proxies (config (u_spdp self)) data from) (u_spdp self))
          (set_channels c self)).
Proof.
  intros Hw Hl Ho Hrun Hz Hlen. destruct (idle_channels _ (uw_channels _ Hw) Hz) as (Hm & Hs & Hf).
  assert (∀ t, t ∈ loops → running t self = true) as Hrt by by apply Hl.
  cbn [announce_path take for_each udp_step]. unfold arrive. cbn [recv_task]. rewrite Hrun. cbn [receive_loop port_rx].
  rewrite Hm, take_ge by (unfold len in Hlen; simpl; lia). simpl.
  repeat (match goal with |- context [running ?t ?s] => change (running t s) with (running t self) end;
    rewrite Hrt by (unfold loops; set_solver); rewrite ?bind_ok; cbn [task_round];
    unfold fanout_round, spdp_round; simpl; rewrite ?Hf; simpl; rewrite ?Hs; simpl).
  rewrite spdp_packet_eq. simpl. by eexists.
Qed.

(** C12. A peer learns every endpoint.  When the announcement of a new participant
    arrives at an open, idle participant, the fan-out, SPDP and the peer
    listener pass it on, and the participant sends the announcement of each
    of its writers and readers, numbered consecutively, to the metatraffic
    port the peer announced, at the address its datagram came from.  Any SEDP
    service of another participant that receives these messages then knows
    all those writers, and all those readers with the address to send
    samples to. *)
Theorem new_peer_learns_endpoints {S} (os : OsNet S) show_err disk d config g evs self0 self clock rcfg seq from :
  RtpsUdpParticipant.new_with_config os show_err disk d config g = Ok self0 →
  for_each udp_step evs self0 = Ok self →
  u_closed self = false → running MetaRecv self = true →
  weight (channels self) = 0%nat → peer_listener (u_spdp self) = Some unbounded_channel →
  announceable rcfg → is_u32 seq → len (announcement rcfg seq) <= MAX_UDP_DATAGRAM →
  same_family (sc_ipv6 rcfg) from = true → sc_guid_prefix rcfg ≠ sc_guid_prefix (Spdp.config (u_spdp self)) →
  accepts_token (Spdp.config (u_spdp self)) rcfg = true →
  let s := sedp (u_inner self) in
  let cfg := e_config s in
  0 <= e_seq_counter s → e_seq_counter s + len (local_endpoints s) < 2 ^ 32 →
  Forall (endpoint_ok cfg) (local_endpoints s) →
  let msgs := numbered cfg (e_seq_counter s) (local_endpoints s) in
  ∃ self', for_each udp_step (announce_path clock (announcement rcfg seq) from) self = Ok self' ∧
    is_Some (peers (u_spdp self') !! sc_guid_prefix rcfg) ∧
    sent (meta_socket (u_inner self')) = sent (meta_socket (u_inner self)) ++
      ((λ m, (with_port from (sc_meta_unicast_port rcfg), m)) <$> msgs) ∧
    ∀ r from', ec_guid_prefix cfg ≠ ec_guid_prefix (e_config r) → same_family (ec_ipv6 cfg) from' = true →
      ∃ r', for_each (λ m, Sedp.handle_packet m from') msgs r = Ok r' ∧
        ∀ i, i ∈ local_endpoints s → knows (with_port from' (ec_data_unicast_port cfg)) i r'.
Proof.
  intros Hn Hr Ho Hrun Hz Hpl Ha Hseq Hlen Hfam Hg Htok s cfg Hc0 Hc Hok msgs.
  pose proof (runs_wf _ _ _ _ _ _ _ _ _ Hn Hr) as Hw. pose proof (runs_loops _ _ _ _ _ _ _ _ _ Hn Hr) as Hl.
  destruct (announcement_arrives clock _ from self Hw Hl Ho Hrun Hz Hlen) as [c Hc4].
  rewrite accepted_announcement, Htok in Hc4 by done. unfold store_all in Hc4. cbn [foldl] in Hc4.
  set (proxy := stamped (mono clock) (proxy_of rcfg from)).
  assert (Locator.udp_addr (metatraffic_unicast proxy) = Some (with_port from (sc_meta_unicast_port rcfg))) as Hdst
    by (apply filled_addr; [done|apply Ha]).
  pose proof (pw_sedp _ (uw_inner _ Hw)) as Hsw.
  destruct (on_new_peer_sends proxy _ s (meta_socket (u_inner self)) Hsw Hdst Hc0 Hc) as (s' & sock' & Hnp & _ & Hsent).
  rewrite <- (firstn_skipn 4 (announce_path _ _ _)), for_each_app, Hc4, bind_ok. cbn [announce_path drop for_each udp_step].
  match goal with |- context [running PeerListener ?x] =>
    change (running PeerListener x) with (running PeerListener self) end.
  rewrite (Hl Ho) by (unfold loops; set_solver). cbn [task_round]. unfold peer_round.
  cbn [u_spdp set_spdp set_channels]. unfold store_peer. cbn [snd peer_listener]. rewrite Hpl.
  cbn [send_event try_send unbounded_channel chan_open chan_cap chan_queue negb app snd mbind option_bind chan_recv].
  unfold peer_listener_step. change (u_inner (set_spdp _ _)) with (u_inner self).
  match goal with |- context [on_new_peer ?p _ _] => change p with proxy end. fold s. rewrite Hnp, !bind_ok. cbn [lift].
  rewrite bind_ok. eexists. split_and!; [done| |exact Hsent|].
  - simpl. rewrite lookup_insert_eq. eauto.
  - intros r from' Hgr Hf'. eexists. split; [by apply endpoints_learned|].
    intros i Hi. apply known_after; [|intros; by eapply local_endpoints_distinct|done].
    apply filled_addr; [done|]. by apply (proj1 (Forall_forall _ _) Hok i Hi).
Qed.
End introduction.

(** ** Instances *)

#[local] Instance demo_profile : BuildProfile := true.

(** Two endpoints, and a datagram that has just arrived. *)
Definition demo_two : list UdpEvent :=
  [NewSubscriber 0 demo_words RELIABLE_QOS demo_reader_opts; NewPublisher demo_words RELIABLE_QOS].
Definition demo_arrived : list UdpEvent :=
  demo_two ++ [Arrive MetaPort (inl (mkRtpsDatagram [x01] far_from))].

Lemma metatraffic_reaches_both_witness :
  ∃ rounds, Forall drain_round rounds ∧
    ∀ v, along (seen v) (demo_arrived ++ rounds) demo_udp0 = [mkRtpsDatagram [x01] far_from].
Proof.
  destruct (metatraffic_reaches_both demo_os (λ _, []) demo_disk (mkDomain 0) RtpsUdpParticipantConfig.new
    (ec_guid_prefix demo_config) demo_arrived demo_udp0 (demo_udp demo_arrived) demo_udp0_new)
    as [_ H]; [apply returned_ok; vm_compute; reflexivity|].
  destruct (H ltac:(vm_compute; reflexivity)) as (rounds & self' & H1 & _ & _ & H2).
  exists rounds. split; [exact H1|]. intros v. rewrite H2. vm_compute. reflexivity.
Defined.

(** The announcement of a participant with prefix 2. *)
Definition demo_newcomer : SpdpConfig := SpdpConfig.new 0 (mkGuidPrefix (vreplicate 12 x02)) 7420 7421.

Lemma demo_newcomer_ok : announceable demo_newcomer ∧ len (announcement demo_newcomer 1) <= MAX_UDP_DATAGRAM.
Proof. split; [repeat split; vm_compute; congruence|vm_compute; congruence]. Qed.

Lemma demo_two_ok :
  Forall (endpoint_ok (e_config (sedp (u_inner (demo_udp demo_two)))))
    (local_endpoints (sedp (u_inner (demo_udp demo_two)))).
Proof.
  assert (local_endpoints (sedp (u_inner (demo_udp demo_two))) =
    [mkEndpointInfo (mkGuid (ec_guid_prefix demo_config) (entity_id_for_writer 2)) demo_words true;
     mkEndpointInfo (mkGuid (ec_guid_prefix demo_config) (entity_id_for_reader 1)) demo_words false]) as ->
    by (vm_compute; reflexivity).
  assert (e_config (sedp (u_inner (demo_udp demo_two))) = demo_config) as -> by (vm_compute; reflexivity).
  apply Forall_cons_2; [|apply Forall_cons_2; [|apply Forall_nil_2]];
    (split_and!; try done; by apply (bool_decide_unpack _)).
Qed.

Lemma new_peer_learns_endpoints_witness :
  let self := demo_udp demo_two in
  ∃ self', for_each udp_step (announce_path (mkClock 5 6) (announcement demo_newcomer 1) far_from) self = Ok self' ∧
    fst <$> sent (meta_socket (u_inner self'))
    = [SocketAddrV4 (vreplicate 4 x0a) 7420; SocketAddrV4 (vreplicate 4 x0a) 7420].
Proof.
  intros self. destruct demo_newcomer_ok as [Ha Hl].
  destruct (new_peer_learns_endpoints demo_os (λ _, []) demo_disk (mkDomain 0) RtpsUdpParticipantConfig.new
    (ec_guid_prefix demo_config) demo_two demo_udp0 self (mkClock 5 6) demo_newcomer 1 far_from demo_udp0_new)
    as (self' & H1 & _ & H2 & _);
    [apply returned_ok; vm_compute; reflexivity|vm_compute; reflexivity|vm_compute; reflexivity|vm_compute; reflexivity
    |vm_compute; reflexivity|exact Ha|split; vm_compute; congruence|exact Hl|reflexivity
    |vm_compute; congruence|reflexivity|vm_compute; congruence|vm_compute; reflexivity|apply demo_two_ok|].
  exists self'. split; [exact H1|]. rewrite H2. vm_compute. reflexivity.
Defined.
