(* ===== verification/InteropRtps.v ===== *)
(** * InteropRtps: the RTPS interop peer (src/bin/rtps_interop_peer.rs)

    A program that wires the discovery services and the runtime over its own
    sockets, plays a writer or a reader and reports what happened; a reader
    can discard one datagram to simulate a loss.  What is wired is the state
    of DdsParticipant, with the tasks this program starts, and moves by the
    rounds of those tasks; what the program does between two waits is a step.
    Parsing, logging and printing are other crates'; [show_err] is the text of
    an I/O error, [debug] and [debug_secs] the [Debug] text of a string and of
    a duration, [hex_encode] the hex crate's. *)

From stdpp Require Import pretty.
From S2P Require Import Prelude Utf8 Codec Guid Locator Message Transport Socket Types SubQueue Persist Spdp Sedp Participant DdsParticipant.

Inductive Role : Type := Writer | Reader.

Record Cli : Type := mkCli {
  cl_role : Role;
  cl_topic : str;
  cl_domain : Z;
  cl_prefix_seed : byte;
  cl_reliable : bool;
  cl_count : nat;
  cl_payload : str;
  cl_interval_ms : Z;
  cl_linger_secs : Z;
  cl_discovery_timeout_secs : Z;
  cl_recv_timeout_secs : Z;
  cl_settle_ms : Z;
  cl_drop_seq : option Z;
  cl_meta_port : Z;
  cl_no_multicast : bool;
  cl_peer : list SocketAddr;
  cl_ipv6 : bool }.

Record ReceivedSample : Type := mkReceivedSample {
  payload_utf8 : str;
  rs_sequence_number : Z;
  writer_guid_hex : str }.

Record Report : Type := mkReport {
  rp_role : Role;
  rp_ok : bool;
  guid_prefix_hex : str;
  spdp_peers_known : nat;
  spdp_announces_sent : Z;
  spdp_announces_received : Z;
  sedp_endpoint_matches : Z;
  rp_sent : option nat;
  rp_received : option (list ReceivedSample);
  dropped_applied : option bool;
  rp_error : option str }.

(** [print_report_and_exit_code] *)
Definition exit_code (r : Report) : Z := if rp_ok r then 0 else 1.

Definition prefix_of (seed : byte) : GuidPrefix := mkGuidPrefix (vreplicate 12 seed).

(** [format!("{}-{i}", cli.payload)] *)
Definition message (cli : Cli) (i : nat) : list byte :=
  cl_payload cli ++ bytes_of_ascii "-" ++ show (Z.of_nat i).

(** Where the program stands: in a discovery loop until a deadline, settling,
    at the head of the writer's loop, lingering, collecting until a deadline
    what it has [received], or gone. *)
Inductive Pc : Type :=
| PwDiscover (deadline : Z)
| PwSettle
| PwWrite (i : nat)
| PwLinger
| PrDiscover (deadline : Z)
| PrCollect (deadline : Z) (received : list ReceivedSample)
| PcExit (r : Report).

Section peer.
Context {N : Type} `{!Notify N} `{!BuildProfile}.
Context {S : Type} (os : OsNet S) (disk : FileSystem).
Context (show_err : NetError → str) (debug : str → str) (debug_secs : Z → str) (hex_encode : list byte → str).
Notation udp := (RtpsUdpParticipant N).
Implicit Types (cli : Cli) (net : udp).

(** The peer: [pe_handle] is its reader, a writer being the first publisher
    of [pe_net]; [pe_dropped] is [dropped_once] and [dropped_applied], which
    are set together. *)
Record Peer : Type := mkPeer {
  pe_cli : Cli;
  pe_pc : Pc;
  pe_net : udp;
  pe_reader : option RtpsReader;
  pe_dropped : bool }.

(** ** Reports *)

Definition base_report cli net : Report :=
  mkReport (cl_role cli) false (hex_encode (vec_to_list (prefix_bytes (prefix_of (cl_prefix_seed cli))))) 0
    (sp_announces_sent (u_spdp net)) (sp_announces_received (u_spdp net)) (endpoint_matches (sedp (u_inner net)))
    None None None None.

Definition fail_report cli (error : str) : Report :=
  mkReport (cl_role cli) false (hex_encode (vec_to_list (prefix_bytes (prefix_of (cl_prefix_seed cli))))) 0 0 0 0
    None None None (Some error).

Definition with_error (error : str) (peers : nat) (r : Report) : Report :=
  mkReport (rp_role r) (rp_ok r) (guid_prefix_hex r) peers (spdp_announces_sent r) (spdp_announces_received r)
    (sedp_endpoint_matches r) (rp_sent r) (rp_received r) (dropped_applied r) (Some error).

(** ** [run]: sockets and services *)

Definition bind_or (what : string) (r : RtpsSocket + NetError) : res str RtpsSocket :=
  match r with
  | inl sock => Ok sock
  | inr e => Err (bytes_of_ascii what ++ bytes_of_ascii ": " ++ show_err e)
  end.

(** The tasks it starts before it turns to its role. *)
Definition peer_tasks (mcast : bool) : list UdpTask :=
  [AnnounceLoop; EvictLoop] ++ (if mcast then [McastRecv; SpdpMcastLoop] else [])
  ++ [MetaRecv; FanoutLoop; SpdpMetaLoop; SedpMetaLoop; MatchListener; PeerListener].

Definition wire cli (meta data : RtpsSocket) (mcast : option RtpsSocket) : udp :=
  let prefix := prefix_of (cl_prefix_seed cli) in
  let cfg := SpdpConfig.new (cl_domain cli) prefix (RtpsSocket.local_port meta) (RtpsSocket.local_port data) in
  let cfg := SpdpConfig.with_announce_period 200000000 cfg in
  let cfg := SpdpConfig.with_peer_locators (cl_peer cli) cfg in
  let cfg := if cl_no_multicast cli then SpdpConfig.with_no_multicast cfg else cfg in
  let cfg := if cl_ipv6 cli then SpdpConfig.with_ipv6 cfg else cfg in
  let spdp := SpdpService_new cfg in
  let sedp_cfg := SedpConfig.new prefix (RtpsSocket.local_port data) in
  let sedp_cfg := if cl_ipv6 cli then SedpConfig.with_ipv6 sedp_cfg else sedp_cfg in
  let inner := new_inner prefix VENDOR_ID_RUST_DDS data (SedpService_new sedp_cfg) meta None disk in
  let inner := listen_for_matches inner in
  let spdp := set_peer_listener unbounded_channel spdp in
  mkUdp (mkDomain (cl_domain cli)) inner spdp mcast None [] (peer_tasks (bool_decide (is_Some mcast)))
    false new_channels [] [] [].

(** The sockets, or the text of the failure that is reported. *)
Definition run_sockets cli : res str udp :=
  meta ← bind_or "bind meta socket" (bind_unicast os [] (cl_ipv6 cli) (cl_meta_port cli));
  data ← bind_or "bind data socket" (bind_unicast os [meta] (cl_ipv6 cli) 0);
  mcast ← (if cl_no_multicast cli then Ok None
           else match meta_multicast_port (cl_domain cli) with
                | Ok (Some port) =>
                    sock ← bind_or "bind multicast socket"
                             (os_join os [meta; data] (spdp_multicast_dst (cl_ipv6 cli) port));
                    Ok (Some sock)
                | Ok None =>
                    Err (bytes_of_ascii "domain " ++ show (cl_domain cli) ++ bytes_of_ascii " out of range")
                | _ => Panic
                end);
  Ok (wire cli meta data mcast).

(** [run_writer] and [run_reader] up to their discovery loops: the data
    socket is received from, and dispatched by the runtime unless the reader
    has a sequence number to drop. *)
Definition start_writer cli (now : Z) net : panics Peer :=
  let net := set_tasks (tasks net ++ [DataRecv; DataLoop]) net in
  let peers := known_peers (u_spdp net) in
  r ← (if cl_reliable cli then new_reliable_writer (cl_topic cli) peers (u_inner net)
       else new_writer (cl_topic cli) peers (u_inner net));
  let '(writer, inner) := r in
  let net := DdsParticipant.set_publishers [mkRtpsPublisher writer 0 false (cl_reliable cli)] (set_inner inner net) in
  Ok (mkPeer cli (PwDiscover (now + cl_discovery_timeout_secs cli * 1000000000)) net None false).

Definition start_reader cli (now utc : Z) net : panics Peer :=
  let dispatch := match cl_drop_seq cli with Some _ => [] | None => [DataLoop] end in
  let net := set_tasks (tasks net ++ [DataRecv] ++ dispatch) net in
  let peers := known_peers (u_spdp net) in
  r ← (if cl_reliable cli then new_reliable_reader utc (cl_topic cli) SubscriberOptions_default peers (u_inner net)
       else new_reader utc (cl_topic cli) SubscriberOptions_default peers (u_inner net));
  let '(reader, inner) := r in
  Ok (mkPeer cli (PrDiscover (now + cl_discovery_timeout_secs cli * 1000000000)) (set_inner inner net) (Some reader) false).

(** [run]: a report of a failed start, or a peer. *)
Definition run cli (now utc : Z) : panics (Report + Peer) :=
  match run_sockets cli with
  | Ok net =>
      pe ← match cl_role cli with Writer => start_writer cli now net | Reader => start_reader cli now utc net end;
      Ok (inr pe)
  | Err e => Ok (inl (fail_report cli e))
  | Panic => Panic
  end.

(** ** The roles *)

Definition goto (pc : Pc) (pe : Peer) : Peer := mkPeer (pe_cli pe) pc (pe_net pe) (pe_reader pe) (pe_dropped pe).
Definition set_net net (pe : Peer) : Peer := mkPeer (pe_cli pe) (pe_pc pe) net (pe_reader pe) (pe_dropped pe).

Definition peers_known (pe : Peer) : nat := length (known_peers (u_spdp (pe_net pe))).

(** The report of [run_writer] when no reader was matched in time, and at
    its end. *)
Definition undiscovered (pe : Peer) : Report :=
  with_error
    (bytes_of_ascii "SEDP never matched a remote reader for topic " ++ debug (cl_topic (pe_cli pe))
     ++ bytes_of_ascii " within " ++ debug_secs (cl_discovery_timeout_secs (pe_cli pe)))
    (peers_known pe) (base_report (pe_cli pe) (pe_net pe)).

Definition writer_report (pe : Peer) : Report :=
  let r := base_report (pe_cli pe) (pe_net pe) in
  mkReport (rp_role r) true (guid_prefix_hex r) (peers_known pe) (spdp_announces_sent r) (spdp_announces_received r)
    (sedp_endpoint_matches r) (Some (cl_count (pe_cli pe))) None None None.

(** The reports of [run_reader]. *)
Definition alone (pe : Peer) : Report :=
  with_error (bytes_of_ascii "SPDP never discovered a peer within " ++ debug_secs (cl_discovery_timeout_secs (pe_cli pe)))
    0 (base_report (pe_cli pe) (pe_net pe)).

Definition reader_report (received : list ReceivedSample) (pe : Peer) : Report :=
  let cli := pe_cli pe in
  let r := base_report cli (pe_net pe) in
  let ok := (length received =? cl_count cli)%nat in
  mkReport (rp_role r) ok (guid_prefix_hex r) (peers_known pe) (spdp_announces_sent r) (spdp_announces_received r)
    (sedp_endpoint_matches r) None (Some received)
    (match cl_drop_seq cli with Some _ => Some (pe_dropped pe) | None => None end)
    (if ok then None
     else Some (bytes_of_ascii "received " ++ show (len received) ++ bytes_of_ascii " of "
                ++ show (Z.of_nat (cl_count cli)) ++ bytes_of_ascii " expected samples within "
                ++ show (cl_recv_timeout_secs cli) ++ bytes_of_ascii "s")).

Definition as_reported (x : Sample) : ReceivedSample :=
  mkReceivedSample (from_utf8_lossy (s_payload x)) (sequence_number x) (hex_encode (vec_to_list (Types.writer_guid x))).

(** The collecting loop, in [timeout(recv_timeout, ..)]. *)
Definition collect (now deadline : Z) (received : list ReceivedSample) (pe : Peer) : Peer :=
  let done := goto (PcExit (reader_report received pe)) pe in
  if (length received <? cl_count (pe_cli pe))%nat then
    match r ← pe_reader pe; i ← inners (u_inner (pe_net pe)) !! rr_inner r; Some (rr_inner r, i) with
    | None => done
    | Some (id, i) =>
        match SubQueue.try_recv i with
        | (Some x, i) =>
            let inner := set_inners (<[id := i]> (inners (u_inner (pe_net pe)))) (u_inner (pe_net pe)) in
            goto (PrCollect deadline (received ++ [as_reported x])) (set_net (set_inner inner (pe_net pe)) pe)
        | (None, _) => if closed i then done else if deadline <=? now then done else pe
        end
    end
  else done.

(** What the program does at time [now] ([utc] for the samples); a sleep
    ([cl_interval_ms], [cl_settle_ms], [cl_linger_secs]) is a wait of any
    length between two steps. *)
Definition peer_step (now utc : Z) (pe : Peer) : runs Peer :=
  let cli := pe_cli pe in
  let net := pe_net pe in
  match pe_pc pe with
  | PwDiscover deadline =>
      match matched_reader_locators (cl_topic cli) (sedp (u_inner net)) with
      | _ :: _ => Ok (goto PwSettle pe)
      | [] => Ok (if deadline <=? now then goto (PcExit (undiscovered pe)) pe else pe)
      end
  | PwSettle => Ok (goto (PwWrite 0) pe)
  | PwWrite i =>
      if (i <? cl_count cli)%nat then
        match u_publishers net with
        | p :: _ =>
            inner ← Participant.write utc (pb_writer p) (message cli i) (u_inner net);
            Ok (goto (PwWrite (Datatypes.S i)) (set_net (set_inner inner net) pe))
        | [] => Ok pe
        end
      else Ok (goto PwLinger pe)
  | PwLinger => Ok (goto (PcExit (writer_report pe)) pe)
  | PrDiscover deadline =>
      match known_peers (u_spdp net) with
      | _ :: _ => Ok (goto (PrCollect (now + cl_recv_timeout_secs cli * 1000000000) []) pe)
      | [] => Ok (if deadline <=? now then goto (PcExit (alone pe)) pe else pe)
      end
  | PrCollect deadline received => Ok (collect now deadline received pe)
  | PcExit _ => Ok pe
  end.

(** ** The loss hook *)

(** Whether a datagram is the one to drop: the scan of its submessages. *)
Definition drop_this (drop_seq : Z) (dropped_once : bool) (data : list byte) : runs bool :=
  header ← ok (Header.decode data);
  match header with
  | None => Ok false
  | Some _ =>
      body ← slice_from data Header.LEN;
      items ← lift (SubmessageIter.items body);
      for_submessages (λ raw drop_this,
        if bool_decide (raw_id raw = SUBMSG_DATA) then
          ds ← ok (decode_data_submessage (raw_flags raw) (raw_body raw));
          match ds with
          | Some ds =>
              Ok (if (SequenceNumber.to_u64 (seq_num ds) =? drop_seq) && negb dropped_once then true else drop_this)
          | None => Ok drop_this
          end
        else Ok drop_this) items false
  end.

(** A round of the dispatch task of a reader that drops [drop_seq]. *)
Definition drop_round (drop_seq : Z) (clock : Clock) (pe : Peer) : runs Peer :=
  let net := pe_net pe in
  match chan_recv (data_rx (channels net)) with
  | None => Ok pe
  | Some (datagram, rx) =>
      drop ← drop_this drop_seq (pe_dropped pe) (dg_data datagram);
      let net := set_channels (set_port_rx DataPort rx (channels net)) net in
      if drop : bool then Ok (mkPeer (pe_cli pe) (pe_pc pe) net (pe_reader pe) true)
      else
        inner ← handle_data_packet clock (dg_data datagram) (dg_from datagram) (u_inner net);
        Ok (set_net (set_inner inner net) pe)
  end.

(** ** Runs *)

Inductive PeerEvent : Type :=
| Program (now utc : Z)
| Arrival (p : Port) (a : RtpsDatagram + NetError)
| TaskRound (t : UdpTask) (clock : Clock)
| DropRound (clock : Clock)
| HeartbeatTick.

Definition peer_event (e : PeerEvent) (pe : Peer) : runs Peer :=
  let moved (m : runs udp) := net ← m; Ok (set_net net pe) in
  match e with
  | Program now utc => peer_step now utc pe
  | Arrival p a => moved (udp_step (Arrive p a) (pe_net pe))
  | TaskRound t clock => moved (udp_step (Round t clock) (pe_net pe))
  | DropRound clock =>
      match cl_role (pe_cli pe), cl_drop_seq (pe_cli pe) with
      | Reader, Some drop_seq => drop_round drop_seq clock pe
      | _, _ => Ok pe
      end
  | HeartbeatTick => moved (udp_step (PubHeartbeat 0) (pe_net pe))
  end.

Definition peer_run (evs : list PeerEvent) (pe : Peer) : runs Peer := for_each peer_event evs pe.
End peer.
Arguments Peer : clear implicits.
Arguments mkPeer {N}.
Arguments pe_cli {N}.
Arguments pe_pc {N}.
Arguments pe_net {N}.
Arguments pe_reader {N}.
Arguments pe_dropped {N}.

(** ** The loss hook discards one datagram *)

(** The submessages before the first malformed one, and the number of a DATA. *)
Fixpoint leading (items : list Item) : list RawSubmessage :=
  match items with inl raw :: items => raw :: leading items | _ => [] end.

Definition data_seq (raw : RawSubmessage) : option Z :=
  if bool_decide (raw_id raw = SUBMSG_DATA) then
    match decode_data_submessage (raw_flags raw) (raw_body raw) with
    | Ok ds => Some (SequenceNumber.to_u64 (seq_num ds))
    | _ => None
    end
  else None.

(** A valid RTPS message with a DATA submessage numbered [seq]. *)
Definition carries (seq : Z) (data : list byte) : bool :=
  match Header.decode data, SubmessageIter.items (drop 20 data) with
  | Ok _, Ok items => existsb (λ raw, bool_decide (data_seq raw = Some seq)) (leading items)
  | _, _ => false
  end.

Fixpoint without_first {A} (p : A → bool) (l : list A) : list A :=
  match l with [] => [] | x :: l => if p x then l else x :: without_first p l end.

Lemma without_none {A} (p : A → bool) l : (∀ x, p x = false) → without_first p l = l.
Proof. intros Hp. induction l as [|x l IH]; simpl; [done|]. by rewrite Hp, IH. Qed.

Lemma scan_one seq once raw (b : bool) :
  (if bool_decide (raw_id raw = SUBMSG_DATA) then
     ds ← ok (F:=OutOfFuel) (decode_data_submessage (raw_flags raw) (raw_body raw));
     match ds with
     | Some ds => Ok (if (SequenceNumber.to_u64 (seq_num ds) =? seq) && negb once then true else b)
     | None => Ok b
     end
   else Ok b) = Ok (b || (negb once && bool_decide (data_seq raw = Some seq))).
Proof.
  unfold data_seq. case_bool_decide; [|by destruct b, once].
  pose proof (decode_data_no_panic (raw_flags raw) (raw_body raw)) as Hn.
  destruct (decode_data_submessage _ _) as [ds|e|]; [|by destruct b, once|done]. cbn [ok]. rewrite bind_ok.
  destruct (Z.eqb_spec (SequenceNumber.to_u64 (seq_num ds)) seq) as [->|Hne].
  - rewrite bool_decide_true by done. by destruct b, once.
  - rewrite bool_decide_false by congruence. by destruct b, once.
Qed.

Lemma drop_this_spec seq once data : drop_this seq once data = Ok (negb once && carries seq data).
Proof.
  unfold drop_this, carries.
  destruct (Header_decode_cases data) as [[_ ->]|[(_ & _ & ->)|(h & Hl & _ & ->)]]; [by destruct once..|].
  cbn [ok]. rewrite bind_ok, slice_from_ok by (unfold Header.LEN; lia). rewrite bind_ok.
  change (Z.to_nat Header.LEN) with 20%nat. destruct (submessage_iter_total (drop 20 data)) as (rs & e & -> & _).
  cbn [lift]. rewrite bind_ok. generalize (item_list rs e). intros items.
  replace (negb once && existsb _ (leading items))
    with (false || (negb once && existsb (λ raw, bool_decide (data_seq raw = Some seq)) (leading items))) by done.
  generalize false. induction items as [|[raw|e'] items IH]; intros b; cbn [for_submessages leading existsb].
  - by rewrite andb_false_r, orb_false_r.
  - rewrite scan_one, bind_ok, IH, <- orb_assoc. by rewrite andb_orb_distrib_r.
  - by rewrite andb_false_r, orb_false_r.
Qed.

Section hook.
Context {N : Type} `{!Notify N} `{!BuildProfile}.
Implicit Types pe : Peer N.

(** The datagrams waiting at the data socket. *)
Definition waiting pe : list RtpsDatagram := chan_queue (data_rx (channels (pe_net pe))).

(** [pe] once they are taken, the runtime being [inner]. *)
Definition drained (inner : RtpsParticipant N) (dropped : bool) pe : Peer N :=
  let net := pe_net pe in
  let rx := data_rx (channels net) in
  mkPeer (pe_cli pe) (pe_pc pe)
    (set_inner inner (set_channels (set_port_rx DataPort (mkChan (chan_cap rx) (chan_open rx) []) (channels net)) net))
    (pe_reader pe) dropped.

Definition dispatch (x : Clock * RtpsDatagram) (inner : RtpsParticipant N) : runs (RtpsParticipant N) :=
  handle_data_packet x.1 (dg_data x.2) (dg_from x.2) inner.

(** The simulated loss.  The dispatch task of a reader that drops [seq],
    taking the datagrams that wait at its data socket, does to the runtime
    exactly what the ordinary one does with the same datagrams less the first
    one that carries a DATA numbered [seq], if there is one and none was
    dropped before; and it tells whether it has dropped one.  This holds for
    any datagrams, malformed ones included, and for every way the runtime can
    answer. *)
Theorem drop_hook_spec seq clocks pe : length clocks = length (waiting pe) →
  for_each (drop_round seq) clocks pe =
  (let ds := zip clocks (waiting pe) in
   let drops x := negb (pe_dropped pe) && carries seq (dg_data x) in
   inner ← for_each dispatch (without_first (λ x, drops x.2) ds) (u_inner (pe_net pe));
   Ok (drained inner (pe_dropped pe || existsb drops (waiting pe)) pe)).
Proof.
  cbv zeta. revert pe. induction clocks as [|clock clocks IH]; intros pe; cbn [length].
  - intros Hl. destruct (waiting pe) as [|? ?] eqn:Hw; [|done]. cbn [zip zip_with existsb without_first for_each]. rewrite bind_ok, orb_false_r.
    unfold waiting in Hw. f_equal. destruct pe as [cli pc net rd b]. unfold drained. cbn [pe_cli pe_pc pe_net pe_reader pe_dropped] in *.
    f_equal. rewrite <- Hw. destruct net as [? ? ? ? ? ? ? ? ch]. destruct ch as [? ? ? ? ? rx]. by destruct rx.
  - destruct (waiting pe) as [|x xs] eqn:Hw; [done|]. intros Hl. injection Hl as Hl. cbn [for_each].
    unfold drop_round, chan_recv. fold (waiting pe). rewrite Hw, drop_this_spec, bind_ok.
    cbn [zip zip_with without_first existsb]. destruct (negb (pe_dropped pe) && carries seq (dg_data x)) eqn:Hd.
    + rewrite bind_ok, IH by done. cbn [pe_dropped pe_net negb andb orb]. rewrite without_none by done.
      cbn [snd]. rewrite Hd. apply andb_prop in Hd as [Hd _]. apply negb_true_iff in Hd. by rewrite Hd.
    + cbn [snd]. rewrite Hd. cbn [for_each]. unfold dispatch at 2. cbn [fst snd u_inner set_channels].
      destruct (handle_data_packet _ _ _ _) as [inner|[]|]; [|done..]. rewrite !bind_ok, IH by done. done.
Qed.
End hook.

(** ** Setting up *)

Section setup.
Context {N : Type} `{!Notify N} `{Hbuild : !BuildProfile}.
Context {S : Type} (os : OsNet S) (disk : FileSystem) (show_err : NetError → str).

Lemma multicast_port_cases d : 0 <= d < 2 ^ 32 →
  meta_multicast_port d =
  if d <=? 232 then Ok (Some (7400 + 250 * d))
  else if 7400 + 250 * d <? 2 ^ 32 then Ok None
  else if overflow_checks then Panic
  else Ok (to_u16 ((7400 + 250 * d) mod 2 ^ 32)).
Proof.
  intros Hd. unfold meta_multicast_port, PORT_BASE, DOMAIN_GAIN, umul, uadd, to_u16, as_u.
  destruct (Z.ltb_spec (250 * d) (2 ^ 32)) as [H1|H1].
  - rewrite bind_ok. destruct (Z.ltb_spec (7400 + 250 * d) (2 ^ 32)) as [H2|H2].
    + rewrite bind_ok. destruct (Z.leb_spec d 232), (Z.ltb_spec (7400 + 250 * d) 65536); done || lia.
    + destruct (Z.leb_spec d 232); [lia|]. by destruct overflow_checks.
  - destruct (Z.leb_spec d 232); [lia|]. destruct (Z.ltb_spec (7400 + 250 * d) (2 ^ 32)); [lia|].
    destruct overflow_checks; [done|]. rewrite bind_ok.
    assert ((7400 + 250 * d) mod 2 ^ 32 = (7400 + (250 * d) mod 2 ^ 32) mod 2 ^ 32) as -> by by rewrite Z.add_mod_idemp_r.
    destruct (Z.ltb_spec (7400 + (250 * d) mod 2 ^ 32) (2 ^ 32)) as [H2|H2]; rewrite bind_ok; [|done].
    pose proof (Z.mod_pos_bound (250 * d) (2 ^ 32) ltac:(lia)). by rewrite (Z.mod_small (7400 + _)) by lia.
Qed.

(** The peer's start.  It reports, in this order: no metatraffic port from the
    one asked for on, no data port, and unless multicast is disabled a domain
    above 232 and no membership of the SPDP group.  But the domain is not
    checked before it is multiplied: from 17179840 on, a checked build panics,
    and a release build goes on, on the port that is left of the product
    when it happens to be one. *)
Theorem run_sockets_spec cli : 0 <= cl_domain cli < 2 ^ 32 →
  let v6 := cl_ipv6 cli in
  let fail what e := Err (bytes_of_ascii what ++ bytes_of_ascii ": " ++ show_err e) in
  let p := 7400 + 250 * cl_domain cli in
  let join meta data port :=
    match os_join os [meta; data] (spdp_multicast_dst v6 port) with
    | inr e => fail "bind multicast socket" e
    | inl sock => Ok (wire disk cli meta data (Some sock))
    end in
  let out_of_range := Err (bytes_of_ascii "domain " ++ show (cl_domain cli) ++ bytes_of_ascii " out of range") in
  run_sockets (N:=N) os disk show_err cli =
  match bind_unicast os [] v6 (cl_meta_port cli) with
  | inr e => fail "bind meta socket" e
  | inl meta =>
      match bind_unicast os [meta] v6 0 with
      | inr e => fail "bind data socket" e
      | inl data =>
          if cl_no_multicast cli then Ok (wire disk cli meta data None)
          else if cl_domain cli <=? 232 then join meta data p
          else if p <? 2 ^ 32 then out_of_range
          else if overflow_checks then Panic
          else if p mod 2 ^ 32 <? 65536 then join meta data (p mod 2 ^ 32) else out_of_range
      end
  end.
Proof.
  intros Hd v6 fail p join out. unfold run_sockets. fold v6.
  destruct (bind_unicast os [] v6 _) as [meta|e]; [|done]. cbn [bind_or]. rewrite bind_ok.
  destruct (bind_unicast os [meta] v6 0) as [data|e]; [|done]. cbn [bind_or]. rewrite bind_ok.
  destruct (cl_no_multicast cli); [by rewrite bind_ok|]. rewrite multicast_port_cases by done. fold p.
  assert (∀ port, ((sock ← bind_or show_err "bind multicast socket" (os_join os [meta; data] (spdp_multicast_dst v6 port));
    Ok (Some sock)) ≫= λ mcast, Ok (wire (N:=N) disk cli meta data mcast)) = join meta data port) as Hjoin.
  { intros port. unfold join. by destruct (os_join os _ _). }
  destruct (_ <=? 232); [apply Hjoin|]. destruct (p <? 2 ^ 32); [done|]. destruct overflow_checks; [done|].
  unfold to_u16. destruct (_ <? 65536); [apply Hjoin|done].
Qed.
End setup.

(** ** Two peers on one host

    A reliable writer and a reliable reader that simulates the loss of the
    second sample, with unicast discovery, each naming the other's metatraffic
    port.  The network carries what each has sent since it was last asked. *)

#[local] Instance demo_profile : BuildProfile := true.
#[local] Notation demo := (Peer (bool * option bool)).

Definition demo_os : OsNet RtpsSocket :=
  mkOs (λ bound _ port,
          inl (mkRtpsSocket (if port =? 0 then match bound with m :: _ => sock_port m + 1 | [] => 1 end else port) []
                 (λ _, None))) inl
    (λ _ dst, match dst with
              | SocketAddrV4 _ port => inl (mkRtpsSocket port [] (λ _, None))
              | _ => inr (Os 97)
              end).

Definition localhost (port : Z) : SocketAddr := SocketAddrV4 [# x7f; x00; x00; x01] port.

Definition demo_cli (role : Role) : Cli :=
  mkCli role (bytes_of_ascii "interop/topic") 0 (match role with Writer => x01 | Reader => x02 end) true 3
    (bytes_of_ascii "interop") 20 3 15 20 500 (match role with Writer => None | Reader => Some 2 end)
    (match role with Writer => 7410 | Reader => 7420 end) true
    [localhost (match role with Writer => 7420 | Reader => 7410 end)] false.

Definition demo_run (role : Role) : res Empty_set (Report + demo) :=
  run demo_os demo_disk (λ _, []) (λ _, []) (demo_cli role) 0 0.

Record Link : Type := mkLink { l_writer : demo; l_reader : demo; l_seen : (nat * nat) * (nat * nat) }.

Definition demo_clock : Clock := mkClock 9 9.
Definition demo_event (e : PeerEvent) (pe : demo) : runs demo :=
  peer_event (λ _, []) (λ _, []) (λ l, l) e pe.

(** What arrives at [dst] of what the socket of [src] has sent from the [i]-th
    send on, each datagram followed by the rounds of the tasks it passes. *)
Definition arrivals (sock : RtpsSocket) (i : nat) (dst : demo) : list PeerEvent :=
  let inner := u_inner (pe_net dst) in
  let rounds := [TaskRound FanoutLoop demo_clock; TaskRound FanoutLoop demo_clock; TaskRound FanoutLoop demo_clock;
    TaskRound SpdpMetaLoop demo_clock; TaskRound SedpMetaLoop demo_clock; TaskRound PeerListener demo_clock;
    TaskRound MatchListener demo_clock; TaskRound DataLoop demo_clock; DropRound demo_clock] in
  drop i (sent sock) ≫= λ '(addr, bytes),
    let d := inl (mkRtpsDatagram bytes (localhost (sock_port sock))) in
    if bool_decide (addr = localhost (sock_port (meta_socket inner))) then Arrival MetaPort d :: rounds
    else if bool_decide (addr = localhost (sock_port (data_socket inner))) then Arrival DataPort d :: rounds
    else [].

Definition transfer (src dst : demo) (seen : nat * nat) : runs (demo * (nat * nat)) :=
  let inner := u_inner (pe_net src) in
  dst ← for_each demo_event (arrivals (meta_socket inner) seen.1 dst ++ arrivals (data_socket inner) seen.2 dst) dst;
  Ok (dst, (length (sent (meta_socket inner)), length (sent (data_socket inner)))).

(** The writer's messages, then the reader's. *)
Definition exchange (l : Link) : runs Link :=
  r ← transfer (l_writer l) (l_reader l) (l_seen l).1;
  w ← transfer r.1 (l_writer l) (l_seen l).2;
  Ok (mkLink w.1 r.1 (r.2, w.2)).

Inductive LinkEvent : Type := OfWriter (e : PeerEvent) | OfReader (e : PeerEvent) | Exchange.

Definition link_step (e : LinkEvent) (l : Link) : runs Link :=
  match e with
  | OfWriter e => w ← demo_event e (l_writer l); Ok (mkLink w (l_reader l) (l_seen l))
  | OfReader e => r ← demo_event e (l_reader l); Ok (mkLink (l_writer l) r (l_seen l))
  | Exchange => exchange l
  end.

(** Discovery; three samples, of which the second is lost; a heartbeat; the
    reader collects. *)
Definition demo_script : list LinkEvent :=
  [OfWriter (TaskRound AnnounceLoop demo_clock); OfReader (TaskRound AnnounceLoop demo_clock); Exchange; Exchange;
   OfWriter (Program 1 1); OfWriter (Program 2 2); OfReader (Program 1 1);
   OfWriter (Program 3 3); Exchange; OfWriter (Program 4 4); Exchange; OfWriter (Program 5 5); Exchange;
   OfWriter HeartbeatTick; Exchange; Exchange;
   OfReader (Program 6 6); OfReader (Program 6 6); OfReader (Program 6 6); OfReader (Program 6 6);
   OfWriter (Program 6 6); OfWriter (Program 7 7)].

Definition demo_link : runs Link :=
  match demo_run Writer, demo_run Reader with
  | Ok (inr w), Ok (inr r) => for_each link_step demo_script (mkLink w r ((0, 0), (0, 0))%nat)
  | _, _ => Panic
  end.

(** Both peers exit with 0: the reader lost one datagram, and reports the
    three samples in order, the second of them resent. *)
Example a_lost_sample_is_recovered :
  match demo_link with
  | Ok l =>
      match pe_pc (l_writer l), pe_pc (l_reader l) with
      | PcExit w, PcExit r =>
          exit_code w = 0 ∧ rp_sent w = Some 3%nat ∧ exit_code r = 0 ∧ dropped_applied r = Some true ∧
          (λ x, (payload_utf8 x, rs_sequence_number x)) <$> default [] (rp_received r)
          = [(bytes_of_ascii "interop-0", 1); (bytes_of_ascii "interop-1", 2); (bytes_of_ascii "interop-2", 3)]
      | _, _ => False
      end
  | _ => False
  end.
Proof. vm_compute. repeat split. Qed.

(** ** Instances *)

(** The reader after discovery, what the writer has sent from its data socket
    waiting at its own. *)
Definition demo_waiting : runs demo :=
  match demo_run Writer, demo_run Reader with
  | Ok (inr w), Ok (inr r) =>
      l ← for_each link_step (take 7 demo_script ++ [OfWriter (Program 3 3); OfWriter (Program 4 4); OfWriter (Program 5 5)])
            (mkLink w r ((0, 0), (0, 0))%nat);
      for_each demo_event
        ((λ x, Arrival DataPort (inl (mkRtpsDatagram x.2 (localhost 7411)))) <$> sent (data_socket (u_inner (pe_net (l_writer l)))))
        (l_reader l)
  | _, _ => Panic
  end.

(** Each sample is followed by a heartbeat: the third datagram is dropped. *)
Definition demo_drop (pe : demo) : Prop :=
  let clocks := replicate 6 demo_clock in
  length clocks = length (waiting pe) ∧
  without_first (λ x, negb (pe_dropped pe) && carries 2 (dg_data x.2)) (zip clocks (waiting pe))
  = zip clocks (delete 2%nat (waiting pe)) ∧
  pe_dropped pe || existsb (λ x, negb (pe_dropped pe) && carries 2 (dg_data x)) (waiting pe) = true.

Lemma demo_waiting_drop : match demo_waiting with Ok pe => demo_drop pe | _ => False end.
Proof. vm_compute. by repeat split. Qed.

Lemma drop_hook_spec_witness :
  ∃ pe, demo_waiting = Ok pe ∧ length (waiting pe) = 6%nat ∧
    for_each (drop_round 2) (replicate 6 demo_clock) pe =
    (inner ← for_each dispatch (zip (replicate 6 demo_clock) (delete 2%nat (waiting pe))) (u_inner (pe_net pe));
     Ok (drained inner true pe)).
Proof.
  pose proof demo_waiting_drop as H. destruct demo_waiting as [pe|e|]; [|destruct H|destruct H].
  unfold demo_drop in H. cbv zeta in H. destruct H as (Hl & Hw & Hd). exists pe. split; [reflexivity|]. split; [symmetry; exact Hl|].
  rewrite (drop_hook_spec 2 (replicate 6 demo_clock) pe Hl). cbv zeta beta. rewrite Hw, Hd. reflexivity.
Defined.

(** On the largest domain a command line can name, a checked build panics; on
    17179840, an unchecked one joins the group on the wrapped port 104. *)
Definition demo_on (d : Z) : Cli :=
  mkCli Writer (bytes_of_ascii "a/b") d x01 true 1 (bytes_of_ascii "x") 20 3 15 20 500 None 7410 false [] false.

Lemma run_sockets_spec_witness :
  run_sockets (N:=bool * option bool) (H:=true) demo_os demo_disk (λ _, []) (demo_on (2 ^ 32 - 1)) = Panic ∧
  ∃ net, run_sockets (N:=bool * option bool) (H:=false) demo_os demo_disk (λ _, []) (demo_on 17179840) = Ok net.
Proof.
  split.
  - rewrite run_sockets_spec; [reflexivity|split; [discriminate|reflexivity]].
  - rewrite run_sockets_spec; [|split; [discriminate|reflexivity]]. eexists. reflexivity.
Defined.
