(* ===== verification/Adapt.v ===== *)
(** * Adapt: a participant as a RELAY node (src/adapt.rs)

    [DdsNode] sends through one publisher per topic and forwards every
    subscription, by a task, into a channel the caller reads.  The participant
    is a trait object, so it is an interface here, [DynParticipant], with the
    contract the node relies on, [DynParticipantLaws]; the in-process
    participant is proved to satisfy it.  A round of a forwarding task is a
    step, so that rounds, sends and the caller's reads interleave. *)

From S2P Require Import Prelude Types SubQueue Broadcast Mock Socket.

(** ** [dyn Participant] *)

(** A publisher or a subscription is its number; [dyn_queue] is the queue of
    the receiver of a subscription, [dyn_set_queue] what a receiver does to it. *)
Class DynParticipant (N P : Type) : Type := {
  dyn_new_publisher : str → QoS → P → eres nat * P;
  dyn_new_subscriber : str → QoS → SubscriberOptions → P → eres nat * P;
  dyn_write : nat → Z → list byte → P → eres unit * P;
  dyn_close : P → eres unit * P;
  dyn_queue : P → nat → option (SubInner N);
  dyn_set_queue : nat → SubInner N → P → P }.

(** The contract.  [dyn_ok] is the participant's own invariant, [pub_topic]
    the topic of a publisher and [on_topic] whether a subscription is served
    by a topic.  A write pushes one sample into the queues of its topic and
    touches no other; nothing else touches the queues there are, except
    [close], which keeps what they hold. *)
Class DynParticipantLaws {N : Type} `{!Notify N} (P : Type) `{!DynParticipant N P} : Type := {
  dyn_ok : P → Prop;
  pub_topic : P → nat → option str;
  on_topic : P → nat → str → Prop;
  on_topic_unique p j t t' : dyn_ok p → on_topic p j t → on_topic p j t' → t = t';
  law_new_publisher t q p r p' : dyn_ok p → dyn_new_publisher t q p = (r, p') →
    dyn_ok p' ∧ (∀ j, dyn_queue p' j = dyn_queue p j) ∧ (∀ j t', on_topic p' j t' ↔ on_topic p j t') ∧
    (∀ k t', pub_topic p k = Some t' → pub_topic p' k = Some t') ∧
    match r with Ok k => pub_topic p' k = Some t | Err _ => p' = p | Panic => False end;
  law_new_subscriber t q o p r p' : dyn_ok p → durability q = Volatile → dyn_new_subscriber t q o p = (r, p') →
    match r with
    | Ok k => dyn_ok p' ∧ dyn_queue p k = None ∧
        dyn_queue p' k = Some (SubInner_new (chan_depth o 64) (back_pressure o)) ∧
        (∀ j, j ≠ k → dyn_queue p' j = dyn_queue p j) ∧ on_topic p' k t ∧
        (∀ j t', j ≠ k → on_topic p' j t' ↔ on_topic p j t') ∧
        (∀ k t', pub_topic p k = Some t' → pub_topic p' k = Some t')
    | Err _ => p' = p
    | Panic => False
    end;
  law_write k now x t p r p' : dyn_ok p → pub_topic p k = Some t → dyn_write k now x p = (r, p') →
    dyn_ok p' ∧ (∀ k t', pub_topic p k = Some t' → pub_topic p' k = Some t') ∧
    (∀ j t', on_topic p' j t' → on_topic p j t') ∧
    (∀ j t' i', on_topic p j t' → dyn_queue p' j = Some i' → closed i' = false → on_topic p' j t') ∧
    match r with
    | Ok _ => ∃ s, topic s = t ∧ s_payload s = x ∧ ∀ j i, dyn_queue p j = Some i →
        ∃ i', dyn_queue p' j = Some i' ∧ (on_topic p j t ∧ i' = (push i s).2 ∨ ¬ on_topic p j t ∧ i' = i)
    | _ => ∀ j, dyn_queue p' j = dyn_queue p j
    end;
  law_close p r p' : dyn_ok p → dyn_close p = (r, p') →
    dyn_ok p' ∧ (∀ k t', pub_topic p k = Some t' → pub_topic p' k = Some t') ∧
    (∀ j t', on_topic p' j t' ↔ on_topic p j t') ∧
    (∀ j i, dyn_queue p j = Some i → ∃ i', dyn_queue p' j = Some i' ∧ queue i' = queue i ∧
       capacity i' = capacity i ∧ policy i' = policy i ∧ unsubscribed i' = unsubscribed i ∧
       (closed i = true → closed i' = true));
  law_set_queue p k i i' : dyn_ok p → dyn_queue p k = Some i → closed i' = closed i →
    let p' := dyn_set_queue k i' p in
    dyn_ok p' ∧ (∀ j, dyn_queue p' j = if bool_decide (j = k) then Some i' else dyn_queue p j) ∧
    (∀ j t', on_topic p' j t' ↔ on_topic p j t') ∧ ∀ j, pub_topic p' j = pub_topic p j }.

Notation rres := (res RelayError).

(** [.map_err(|e| e.as_relay().unwrap_or(or))] *)
Definition relay_err {A : Type} (or : RelayError) (r : eres A) : rres A :=
  match r with Ok a => Ok a | Err e => Err (default or (as_relay e)) | Panic => Panic end.

(** ** The forwarding task *)

(** The task of [subscribe]: its handoff channel, the backlog it keeps under
    [DropOldest], the message a blocked [send] holds under [Block]. *)
Record Forwarder : Type := mkForwarder {
  fw_policy : BackPressurePolicy;
  fw_depth : nat;
  fw_tx : Chan Message;
  fw_backlog : list Message;
  fw_held : option Message;
  fw_running : bool }.

Definition set_tx (c : Chan Message) (f : Forwarder) : Forwarder :=
  mkForwarder (fw_policy f) (fw_depth f) c (fw_backlog f) (fw_held f) (fw_running f).
Definition set_backlog (b : list Message) (f : Forwarder) : Forwarder :=
  mkForwarder (fw_policy f) (fw_depth f) (fw_tx f) b (fw_held f) (fw_running f).
Definition set_held (h : option Message) (f : Forwarder) : Forwarder :=
  mkForwarder (fw_policy f) (fw_depth f) (fw_tx f) (fw_backlog f) h (fw_running f).

(** The task ends and drops what it owns; the channel keeps what was sent. *)
Definition stop (f : Forwarder) : Forwarder :=
  mkForwarder (fw_policy f) (fw_depth f) (fw_tx f) [] None false.

(** [depth.max(1)] *)
Definition at_least_one (depth : Z) : nat := Z.to_nat (Z.max depth 1).

Definition new_forwarder (policy : BackPressurePolicy) (depth : Z) : Forwarder :=
  let n := at_least_one depth in
  mkForwarder policy n (channel (match policy with DropOldest => 1%nat | _ => n end)) [] None true.

(** What the task does with a message it received. *)
Definition forward (msg : Message) (f : Forwarder) : Forwarder :=
  match fw_policy f with
  | DropOldest =>
      let backlog := if (fw_depth f <=? length (fw_backlog f))%nat then tl (fw_backlog f) else fw_backlog f in
      set_backlog (backlog ++ [msg]) f
  | DropNewest =>
      match try_send msg (fw_tx f) with
      | (Some ClosedChan, _) => stop f
      | (_, tx) => set_tx tx f
      end
  | Block =>
      match try_send msg (fw_tx f) with
      | (Some ClosedChan, _) => stop f
      | (Some Full, _) => set_held (Some msg) f
      | (None, tx) => set_tx tx f
      end
  end.

(** The [reserve] arm of the [select!], or the blocked [send]. *)
Definition hand_over (f : Forwarder) : Forwarder :=
  if negb (fw_running f) then f
  else match fw_policy f, fw_backlog f, fw_held f with
       | DropOldest, msg :: backlog, _ =>
           match try_send msg (fw_tx f) with
           | (Some ClosedChan, _) => stop f
           | (Some Full, _) => f
           | (None, tx) => set_backlog backlog (set_tx tx f)
           end
       | Block, _, Some msg =>
           match try_send msg (fw_tx f) with
           | (Some ClosedChan, _) => stop f
           | (Some Full, _) => f
           | (None, tx) => set_held None (set_tx tx f)
           end
       | _, _, _ => f
       end.

(** What the caller does with the receiver: [recv] and dropping it. *)
Definition take_one (f : Forwarder) : option Message * Forwarder :=
  match chan_recv (fw_tx f) with
  | Some (m, tx) => (Some m, set_tx tx f)
  | None => (None, f)
  end.
Definition drop_receiver (f : Forwarder) : Forwarder :=
  set_tx (mkChan (chan_cap (fw_tx f)) false []) f.

Section forwarding.
Context {N : Type} `{!Notify N} (hex_encode : list byte → str).
Notation inner := (SubInner N).

(** The [rx.recv()] arm: a sample, the end of a closed queue, or pending. *)
Definition receive (f : Forwarder) (i : inner) : Forwarder * inner :=
  if negb (fw_running f) || bool_decide (is_Some (fw_held f)) then (f, i)
  else match try_recv i with
       | (Some sample, i) => (forward (Sample_to_message hex_encode sample) f, i)
       | (None, i) => (if closed i then stop f else f, i)
       end.
End forwarding.

(** ** The node *)

(** A subscription of the node: its topic, the participant's subscription,
    the task, and what the caller has read from its channel. *)
Record Subscription : Type := mkSubscription {
  sn_topic : str;
  sn_sub : nat;
  sn_task : Forwarder;
  sn_got : list Message }.

Record DdsNode (P : Type) : Type := mkDdsNode {
  dn_participant : P;
  dn_publishers : gmap str nat;
  dn_closed : bool;
  dn_subscriptions : list Subscription }.
Arguments mkDdsNode {P}.
Arguments dn_participant {P}.
Arguments dn_publishers {P}.
Arguments dn_closed {P}.
Arguments dn_subscriptions {P}.

Definition adapt {P : Type} (participant : P) : DdsNode P := mkDdsNode participant ∅ false [].

Section node.
Context {N P : Type} `{!Notify N} `{!DynParticipant N P} (hex_encode : list byte → str).
Notation node := (DdsNode P).
Implicit Types n : node.

Definition DdsNode_protocol n : Protocol := Dds.

Definition set_participant (p : P) n : node :=
  mkDdsNode p (dn_publishers n) (dn_closed n) (dn_subscriptions n).

(** The publisher of a topic, created on its first use. *)
Definition publisher_for (t : str) n : rres nat * node :=
  match dn_publishers n !! t with
  | Some k => (Ok k, n)
  | None =>
      let '(r, p) := dyn_new_publisher t QoS_default (dn_participant n) in
      match relay_err RelayNotConnected r with
      | Ok k => (Ok k, mkDdsNode p (<[t := k]> (dn_publishers n)) (dn_closed n) (dn_subscriptions n))
      | Err e => (Err e, set_participant p n)
      | Panic => (Panic, set_participant p n)
      end
  end.

Definition DdsNode_send (now : Z) (ctx : Context_) (msg : Message) n : rres unit * node :=
  if dn_closed n then (Err RelayClosed, n)
  else if Context_done now ctx then (Err RelayTimeout, n)
  else match publisher_for (id msg) n with
       | (Ok k, n) =>
           let '(r, p) := dyn_write k now (m_payload msg) (dn_participant n) in
           (relay_err RelayNotConnected r, set_participant p n)
       | (Err e, n) => (Err e, n)
       | (Panic, n) => (Panic, n)
       end.

(** The result is the position of the subscription. *)
Definition DdsNode_subscribe (opts : SubscriberOptions) n : rres nat * node :=
  if dn_closed n then (Err RelayClosed, n)
  else
    let depth := chan_depth opts 64 in
    let policy := back_pressure opts in
    match opt_topic opts with
    | None => (Err RelayNotConnected, n)
    | Some t =>
        let '(r, p) := dyn_new_subscriber t QoS_default (mkSubscriberOptions depth policy None None)
                         (dn_participant n) in
        match relay_err RelayNotConnected r with
        | Ok k => (Ok (length (dn_subscriptions n)),
                   mkDdsNode p (dn_publishers n) (dn_closed n)
                     (dn_subscriptions n ++ [mkSubscription t k (new_forwarder policy depth) []]))
        | Err e => (Err e, set_participant p n)
        | Panic => (Panic, set_participant p n)
        end
    end.

Definition DdsNode_close n : rres unit * node :=
  if dn_closed n then (Ok tt, n)
  else
    let '(r, p) := dyn_close (dn_participant n) in
    (relay_err RelayClosed r, mkDdsNode p (dn_publishers n) true (dn_subscriptions n)).

(** ** Runs *)

Inductive NodeEvent : Type :=
| NodeSend (now : Z) (ctx : Context_) (msg : Message)
| NodeSubscribe (opts : SubscriberOptions)
| NodeClose
| TaskReceive (j : nat)
| TaskHandOver (j : nat)
| CallerTake (j : nat)
| CallerDrop (j : nat).

Definition with_task (g : Forwarder → Forwarder) (j : nat) n : node :=
  mkDdsNode (dn_participant n) (dn_publishers n) (dn_closed n)
    (alter (λ s, mkSubscription (sn_topic s) (sn_sub s) (g (sn_task s)) (sn_got s)) j (dn_subscriptions n)).

Definition task_receive (j : nat) n : node :=
  match dn_subscriptions n !! j with
  | None => n
  | Some s =>
      match dyn_queue (dn_participant n) (sn_sub s) with
      | None => n
      | Some i =>
          let '(f, i) := receive hex_encode (sn_task s) i in
          set_participant (dyn_set_queue (sn_sub s) i (dn_participant n)) (with_task (λ _, f) j n)
      end
  end.

Definition caller_take (j : nat) n : node :=
  mkDdsNode (dn_participant n) (dn_publishers n) (dn_closed n)
    (alter (λ s, let '(o, f) := take_one (sn_task s) in
                 mkSubscription (sn_topic s) (sn_sub s) f (sn_got s ++ option_list o)) j (dn_subscriptions n)).

Definition node_step (e : NodeEvent) n : node :=
  match e with
  | NodeSend now ctx msg => (DdsNode_send now ctx msg n).2
  | NodeSubscribe opts => (DdsNode_subscribe opts n).2
  | NodeClose => (DdsNode_close n).2
  | TaskReceive j => task_receive j n
  | TaskHandOver j => with_task hand_over j n
  | CallerTake j => caller_take j n
  | CallerDrop j => with_task drop_receiver j n
  end.

Definition node_run (evs : list NodeEvent) n : node := foldl (λ n e, node_step e n) n evs.

(** The messages [send] accepted, in order. *)
Fixpoint sent_messages (evs : list NodeEvent) n : list Message :=
  match evs with
  | [] => []
  | e :: evs =>
      match e with
      | NodeSend now ctx msg => match (DdsNode_send now ctx msg n).1 with Ok _ => [msg] | _ => [] end
      | _ => []
      end ++ sent_messages evs (node_step e n)
  end.
End node.

(** ** The in-process participant is one *)

Section mock.
Context {N : Type} `{!Notify N} `{!BuildProfile}.
Notation mock := (MockParticipant N).
Implicit Types w : mock.

Definition mock_queue w (k : nat) : option (SubInner N) :=
  s ← subscriptions w !! k; store (broker w) !! ms_inner s.

Definition mock_set_queue (k : nat) (i : SubInner N) w : mock :=
  match subscriptions w !! k with
  | Some s => set_store (<[ms_inner s := i]> (store (broker w))) w
  | None => w
  end.

#[global] Instance mock_dyn : DynParticipant N mock := {|
  dyn_new_publisher := new_publisher;
  dyn_new_subscriber := new_subscriber;
  dyn_write := RecordingPublisher_write;
  dyn_close w := (Ok tt, MockParticipant_close w);
  dyn_queue := mock_queue;
  dyn_set_queue := mock_set_queue |}.

Record mock_ok w : Prop := {
  mo_broker : broker_wf (broker w);
  mo_apart : NoDup (ms_inner <$> subscriptions w);
  mo_stored : Forall (λ s, ms_inner s < length (store (broker w)))%nat (subscriptions w) }.

Definition mock_pub_topic w (k : nat) : option str := mp_topic <$> publishers w !! k.

Definition mock_on_topic w (j : nat) (t : str) : Prop :=
  ∃ s st, subscriptions w !! j = Some s ∧ topics (broker w) !! t = Some st ∧ ms_inner s ∈ subscribers st.

Lemma mock_apart w j k s s' : mock_ok w → subscriptions w !! j = Some s → subscriptions w !! k = Some s' →
  ms_inner s = ms_inner s' → j = k.
Proof using Type.
  intros Hw Hj Hk He. eapply NoDup_lookup; [exact (mo_apart _ Hw)| |]; rewrite list_lookup_fmap.
  - by rewrite Hj.
  - by rewrite Hk, He.
Qed.

Lemma mock_on_topic_entry w j t qos s : subscriptions w !! j = Some s →
  ms_inner s ∈ subscribers (topic_entry (broker w) t qos) ↔ mock_on_topic w j t.
Proof using Type.
  intros Hj. unfold mock_on_topic, topic_entry. destruct (topics (broker w) !! t) as [st|] eqn:Ht.
  - split; [by exists s, st|]. intros (s' & st' & Hs' & [= ->] & Hin). rewrite Hj in Hs'. by injection Hs' as ->.
  - split; [by intros ?%elem_of_nil|]. by intros (? & ? & _ & [=] & _).
Qed.

Lemma mock_law_set_queue w k i i' : mock_ok w → mock_queue w k = Some i → closed i' = closed i →
  let w' := mock_set_queue k i' w in
  mock_ok w' ∧ (∀ j, mock_queue w' j = if bool_decide (j = k) then Some i' else mock_queue w j) ∧
  (∀ j t', mock_on_topic w' j t' ↔ mock_on_topic w j t') ∧ ∀ j, mock_pub_topic w' j = mock_pub_topic w j.
Proof using Type.
  intros Hw Hq Hc. unfold mock_set_queue. unfold mock_queue in Hq. destruct (subscriptions w !! k) as [s|] eqn:Hs; [|done].
  simpl in Hq. split_and!; [|intros j|done|done].
  - destruct Hw as [H1 H2 H3]. split; simpl; [|done|by rewrite length_insert].
    apply store_change_wf; [done|apply length_insert|]. intros id j Hj Ho.
    apply list_lookup_insert_Some in Hj as [(<- & <- & _)|[_ Hj]]; [exists i; by rewrite <- Hc|by exists j].
  - unfold mock_queue. simpl. destruct (bool_decide_reflect (j = k)) as [->|Hne].
    + rewrite Hs. simpl. apply list_lookup_insert_eq. by eapply lookup_lt_Some.
    + destruct (subscriptions w !! j) as [s'|] eqn:Hs'; [|done]. simpl. apply list_lookup_insert_ne.
      intros He. by apply Hne, (mock_apart w j k s' s).
Qed.

Lemma mock_law_new_publisher t q w r w' : mock_ok w → new_publisher t q w = (r, w') →
  mock_ok w' ∧ (∀ j, mock_queue w' j = mock_queue w j) ∧ (∀ j t', mock_on_topic w' j t' ↔ mock_on_topic w j t') ∧
  (∀ k t', mock_pub_topic w k = Some t' → mock_pub_topic w' k = Some t') ∧
  match r with Ok k => mock_pub_topic w' k = Some t | Err _ => w' = w | Panic => False end.
Proof using Type.
  intros Hw. unfold new_publisher. destruct (p_closed w); [intros [= <- <-]; by split_and!|].
  destruct t as [|b t]; intros [= <- <-]; [by split_and!|].
  split_and!; [destruct Hw; by split|done|done| |].
  - intros k t' Hk. unfold mock_pub_topic in *. simpl. destruct (publishers w !! k) eqn:E; [|done].
    by rewrite (lookup_app_l_Some _ _ _ _ E).
  - unfold mock_pub_topic. simpl. by rewrite list_lookup_middle.
Qed.

Lemma mock_law_new_subscriber t q o w r w' : mock_ok w → durability q = Volatile → new_subscriber t q o w = (r, w') →
  match r with
  | Ok k => mock_ok w' ∧ mock_queue w k = None ∧
      mock_queue w' k = Some (SubInner_new (chan_depth o 64) (back_pressure o)) ∧
      (∀ j, j ≠ k → mock_queue w' j = mock_queue w j) ∧ mock_on_topic w' k t ∧
      (∀ j t', j ≠ k → mock_on_topic w' j t' ↔ mock_on_topic w j t') ∧
      (∀ k t', mock_pub_topic w k = Some t' → mock_pub_topic w' k = Some t')
  | Err _ => w' = w
  | Panic => False
  end.
Proof using Type.
  intros Hw Hv. unfold new_subscriber. destruct (p_closed w); [by intros [= <- <-]|].
  destruct t as [|b0 t]; [by intros [= <- <-]|]. set (tt' := b0 :: t).
  pose proof (subscribe_wf (broker w) tt' q o (mo_broker _ Hw)) as Hwf. unfold subscribe in *.
  rewrite Hv in *. rewrite decide_False in * by done. simpl in Hwf.
  set (i := SubInner_new (chan_depth o 64) (back_pressure o)) in *. set (id := length (store (broker w))) in *.
  intros [= <- <-]. set (dl := match deadline_missed o with Some _ => _ | None => _ end).
  set (s := mkMockSubscriber id dl).
  assert (∀ j sj, subscriptions w !! j = Some sj → (ms_inner sj < id)%nat) as Hlt.
  { intros j sj Hj. exact (Forall_lookup_1 _ _ _ _ (mo_stored _ Hw) Hj). }
  assert (∀ j, j ≠ length (subscriptions w) → (subscriptions w ++ [s]) !! j = subscriptions w !! j) as Hold.
  { intros j Hj. destruct (subscriptions w !! j) as [sj|] eqn:E; [by apply lookup_app_l_Some|].
    apply lookup_ge_None in E. apply lookup_ge_None. rewrite length_app. simpl. lia. }
  split_and!.
  - split; simpl; [exact Hwf| |].
    + rewrite fmap_app. apply NoDup_app. split_and!; [exact (mo_apart _ Hw)| |apply NoDup_singleton].
      intros n (sj & -> & Hj)%list_elem_of_fmap Heq%list_elem_of_singleton.
      apply list_elem_of_lookup_1 in Hj as [j Hj]. apply Hlt in Hj. simpl in Heq. lia.
    + rewrite length_app. simpl. apply Forall_app. split; [|constructor; [simpl; lia|constructor]].
      eapply Forall_impl; [exact (mo_stored _ Hw)|]. simpl. intros; lia.
  - unfold mock_queue. by rewrite lookup_ge_None_2 by done.
  - unfold mock_queue. simpl. rewrite list_lookup_middle by done. simpl. by rewrite list_lookup_middle.
  - intros j Hj. unfold mock_queue. simpl. rewrite Hold by done. destruct (subscriptions w !! j) as [sj|] eqn:E; [|done].
    simpl. apply lookup_app_l. by eapply Hlt.
  - exists s. eexists. simpl. rewrite list_lookup_middle by done. rewrite lookup_insert_eq. split_and!; [done..|].
    simpl. set_solver.
  - intros j t' Hj. unfold mock_on_topic. simpl. rewrite Hold by done. split.
    + intros (sj & st & Hsj & [(<- & <-)|[_ Hst]]%lookup_insert_Some & Hin); [|by exists sj, st].
      simpl in Hin. apply elem_of_app in Hin as [Hin|Hin%list_elem_of_singleton].
      * exact (proj1 (mock_on_topic_entry w j tt' q sj Hsj) Hin).
      * apply Hlt in Hsj. lia.
    + intros (sj & st & Hsj & Hst & Hin). exists sj. destruct (decide (tt' = t')) as [<-|Hne].
      * eexists. rewrite lookup_insert_eq. split_and!; [done..|]. simpl. apply elem_of_app. left.
        unfold topic_entry. by rewrite Hst.
      * exists st. by rewrite lookup_insert_ne.
  - done.
Qed.

Lemma mock_law_close w : mock_ok w → let w' := MockParticipant_close w in
  mock_ok w' ∧ (∀ k t', mock_pub_topic w k = Some t' → mock_pub_topic w' k = Some t') ∧
  (∀ j t', mock_on_topic w' j t' ↔ mock_on_topic w j t') ∧
  (∀ j i, mock_queue w j = Some i → ∃ i', mock_queue w' j = Some i' ∧ queue i' = queue i ∧
     capacity i' = capacity i ∧ policy i' = policy i ∧ unsubscribed i' = unsubscribed i ∧
     (closed i = true → closed i' = true)).
Proof using Type.
  intros Hw. pose proof (close_wf w (mo_broker _ Hw)) as Hwf. destruct Hw as [H1 H2 H3].
  unfold MockParticipant_close in *. destruct (p_closed w).
  { split_and!; [by split|done|done|]. intros j i Hi. by exists i. }
  split_and!; [split; simpl; [exact Hwf|done|by rewrite close_all_length]|done|done|].
  intros j i. unfold mock_queue. simpl. destruct (subscriptions w !! j) as [s|]; [|done]. simpl. intros Hi.
  destruct (close_all_lookup (all_subscribers (broker w)) (store (broker w)) (ms_inner s)) as (n & Hn & _).
  exists (Nat.iter n close i). rewrite Hn, Hi. split; [done|]. clear.
  induction n as [|n (IH1 & IH2 & IH3 & IH4 & IH5)]; [done|]. simpl. by split_and!.
Qed.

Lemma mock_law_write k now x t w r w' : mock_ok w → mock_pub_topic w k = Some t →
  RecordingPublisher_write k now x w = (r, w') →
  mock_ok w' ∧ (∀ k t', mock_pub_topic w k = Some t' → mock_pub_topic w' k = Some t') ∧
  (∀ j t', mock_on_topic w' j t' → mock_on_topic w j t') ∧
  (∀ j t' i', mock_on_topic w j t' → mock_queue w' j = Some i' → closed i' = false → mock_on_topic w' j t') ∧
  match r with
  | Ok _ => ∃ s, topic s = t ∧ s_payload s = x ∧ ∀ j i, mock_queue w j = Some i →
      ∃ i', mock_queue w' j = Some i' ∧ (mock_on_topic w j t ∧ i' = (push i s).2 ∨ ¬ mock_on_topic w j t ∧ i' = i)
  | _ => ∀ j, mock_queue w' j = mock_queue w j
  end.
Proof using Type.
  intros Hw Hk. unfold RecordingPublisher_write, mock_pub_topic in *. destruct (publishers w !! k) as [p|] eqn:Hp; [|done].
  simpl in Hk. injection Hk as Ht. unfold MockPublisher_write.
  assert (mp_topic (MockPublisher_prepare p now x).2 = t ∧ match (MockPublisher_prepare p now x).1 with
    | Ok s => topic s = t ∧ s_payload s = x | _ => True end) as [Hpt Hps].
  { unfold MockPublisher_prepare. destruct (mp_closed p); [done|]. destruct ((0 <? _) && _); [done|]. cbn [fst snd].
    split; [done|]. by destruct (uadd 64 (mp_seq p) 1). }
  destruct (MockPublisher_prepare p now x) as [rs p']. simpl in Hpt, Hps.
  assert (∀ j t', mp_topic <$> publishers w !! j = Some t' → mp_topic <$> <[k := p']> (publishers w) !! j = Some t') as Hpubs.
  { intros j t' Hj. destruct (decide (k = j)) as [<-|Hne]; [|by rewrite list_lookup_insert_ne].
    rewrite list_lookup_insert_eq by by eapply lookup_lt_Some. rewrite Hp in Hj. simpl in *. congruence. }
  destruct rs as [s|e|]; intros [= <- <-]; simpl;
    [|by (split_and!; [destruct Hw; by split|done..])|by (split_and!; [destruct Hw; by split|done..])].
  destruct Hps as [Hst Hsp]. rewrite Hpt.
  destruct (publish_spec (broker w) t s (mp_qos p') (mo_broker _ Hw)) as (Htop & Hlen & Hlk).
  pose proof (publish_wf (broker w) t s (mp_qos p') (mo_broker _ Hw)) as Hwf.
  set (b' := publish t s (mp_qos p') (broker w)) in *.
  assert (∀ j sj t', subscriptions w !! j = Some sj → mock_on_topic w j t' →
    (t' ≠ t ∨ live (store (broker w)) (ms_inner sj) = true) →
    ∃ st, topics b' !! t' = Some st ∧ ms_inner sj ∈ subscribers st) as Hkeep.
  { intros j sj t' Hj (s' & st & Hs' & Hst' & Hin) Hor. rewrite Hj in Hs'. injection Hs' as <-. rewrite Htop.
    destruct (decide (t = t')) as [<-|Hne]; [|exists st; by rewrite lookup_insert_ne].
    destruct Hor as [?|Hlive]; [done|]. eexists. rewrite lookup_insert_eq. split; [done|]. simpl.
    apply elem_of_live. unfold topic_entry. rewrite Hst'. split; [done|]. unfold live in Hlive.
    destruct (store (broker w) !! ms_inner sj) as [i|]; [|done]. exists i. split; [done|]. by apply negb_true_iff in Hlive. }
  split_and!.
  - destruct Hw as [H1 H2 H3]. split; simpl; [exact Hwf|done|by rewrite Hlen].
  - exact Hpubs.
  - intros j t' (sj & st & Hj & Hst' & Hin). simpl in *. rewrite Htop in Hst'.
    apply lookup_insert_Some in Hst' as [(<- & <-)|[_ Hst']]; [|by exists sj, st].
    simpl in Hin. apply elem_of_live in Hin as [Hin _]. exact (proj1 (mock_on_topic_entry w j t _ sj Hj) Hin).
  - intros j t' i' Hon Hi' Hc. pose proof Hon as (sj & st0 & Hj & _). unfold mock_queue in Hi'. simpl in Hi'. rewrite Hj in Hi'. simpl in Hi'.
    destruct (Hkeep j sj t' Hj Hon) as (st & Hst' & Hin); [|by exists sj, st].
    right. unfold live. rewrite Hlk in Hi'. destruct (store (broker w) !! ms_inner sj) as [i|]; [|by destruct (decide _)].
    destruct (decide _) in Hi'; simpl in Hi'; injection Hi' as <-; [by rewrite (proj1 (push_open_iff _ _)) in Hc; rewrite Hc|by rewrite Hc].
  - exists s. split_and!; [done..|]. intros j i. unfold mock_queue. simpl. destruct (subscriptions w !! j) as [sj|] eqn:Hj; [|done].
    simpl. intros Hi. rewrite Hlk, Hi. pose proof (mock_on_topic_entry w j t (mp_qos p') sj Hj) as Hiff.
    destruct (decide _) as [Hin|Hin]; eexists; (split; [done|]); [left|right]; (split; [tauto|done]).
Qed.

#[global] Instance mock_dyn_laws : DynParticipantLaws (N:=N) mock.
Proof.
  refine {| dyn_ok := mock_ok; pub_topic := mock_pub_topic; on_topic := mock_on_topic;
    law_new_publisher := mock_law_new_publisher; law_new_subscriber := mock_law_new_subscriber;
    law_write := mock_law_write; law_set_queue := mock_law_set_queue |}.
  - intros w j t t' Hw (s & st & Hs & Ht & Hin) (s' & st' & Hs' & Ht' & Hin'). rewrite Hs in Hs'. injection Hs' as <-.
    exact (bw_disjoint _ (mo_broker _ Hw) _ _ _ _ _ Ht Ht' Hin Hin').
  - intros w r w' Hw [= <- <-]. by apply mock_law_close.
Defined.

Lemma mock_new_ok d w : MockParticipant_new d = Ok w → mock_ok w.
Proof using Type.
  unfold MockParticipant_new. destruct (validate_domain d); [|done..]. rewrite bind_ok. intros [= <-].
  split; simpl; [apply broker_new_wf|constructor|constructor].
Qed.
End mock.

(** ** The forwarding task keeps order *)

Section pipe.
Context {N : Type} `{!Notify N} (hex_encode : list byte → str).
Notation inner := (SubInner N).
Notation to_msg := (Sample_to_message hex_encode).
Implicit Types (f : Forwarder) (i : inner).

(** What the task has or will get, oldest first. *)
Definition in_flight f i : list Message :=
  chan_queue (fw_tx f) ++ option_list (fw_held f) ++ fw_backlog f ++ (to_msg <$> queue i).

Record forwarder_wf f : Prop := {
  fo_stopped : fw_running f = false → fw_backlog f = [] ∧ fw_held f = None;
  fo_backlog : fw_policy f ≠ DropOldest → fw_backlog f = [];
  fo_held : fw_policy f ≠ Block → fw_held f = None;
  fo_depth : (1 <= fw_depth f)%nat;
  fo_cap : ∃ c, chan_cap (fw_tx f) = Some c ∧ (1 <= c)%nat ∧ (c <= fw_depth f)%nat ∧
    (length (chan_queue (fw_tx f)) <= c)%nat ∧ (fw_policy f = DropOldest → c = 1%nat);
  fo_bound : (length (fw_backlog f) <= fw_depth f)%nat;
  fo_dropped : chan_open (fw_tx f) = false → chan_queue (fw_tx f) = [] }.

Lemma new_forwarder_wf pol depth : forwarder_wf (new_forwarder pol depth).
Proof using Type.
  assert (1 <= at_least_one depth)%nat by (unfold at_least_one; lia).
  split; try done; simpl; [|lia]. eexists. split; [done|]. simpl. destruct pol; split_and!; (done || lia).
Qed.

Lemma try_send_cases (m : Message) (c : Chan Message) :
  (chan_open c = false ∧ try_send m c = (Some ClosedChan, c)) ∨
  (chan_open c = true ∧ (∃ cap, chan_cap c = Some cap ∧ (cap <= length (chan_queue c))%nat) ∧ try_send m c = (Some Full, c)) ∨
  (chan_open c = true ∧ (∀ cap, chan_cap c = Some cap → (length (chan_queue c) < cap)%nat) ∧
   try_send m c = (None, mkChan (chan_cap c) true (chan_queue c ++ [m]))).
Proof using Type.
  unfold try_send. destruct (chan_open c); [|by left]. right. simpl. destruct (chan_cap c) as [cap|].
  - destruct (Nat.leb_spec cap (length (chan_queue c))); [left; by eauto|right]. split_and!; [done| |done]. by intros ? [= <-].
  - right. by split_and!.
Qed.

(** [forward] appends the message, or discards an older one or this one. *)
Lemma forward_spec m f : forwarder_wf f → fw_running f = true → fw_held f = None →
  let f' := forward m f in
  forwarder_wf f' ∧ fw_policy f' = fw_policy f ∧ fw_depth f' = fw_depth f ∧ chan_open (fw_tx f') = chan_open (fw_tx f) ∧
  (chan_open (fw_tx f) = true → fw_running f' = true) ∧
  chan_queue (fw_tx f') ++ option_list (fw_held f') ++ fw_backlog f' `sublist_of`
    (chan_queue (fw_tx f) ++ fw_backlog f) ++ [m] ∧
  (chan_open (fw_tx f) = true → fw_policy f = Block ∨
     (fw_policy f = DropNewest ∧ ∀ cap, chan_cap (fw_tx f) = Some cap → (length (chan_queue (fw_tx f)) < cap)%nat) ∨
     (length (fw_backlog f) < fw_depth f)%nat ∧ fw_policy f = DropOldest →
   chan_queue (fw_tx f') ++ option_list (fw_held f') ++ fw_backlog f' =
     (chan_queue (fw_tx f) ++ fw_backlog f) ++ [m]).
Proof using Type.
  intros Hw Hrun Hheld. pose proof Hw as [H1 H2 H3 H4 (c & Hc1 & Hc2 & Hc3 & Hc4 & Hc5) H6 H7].
  assert (forwarder_wf (stop f)) as Hstop.
  { split; simpl; try done; [|lia]. by exists c. }
  assert (∀ q, chan_open (fw_tx f) = true → (length q <= c)%nat →
    forwarder_wf (set_tx (mkChan (chan_cap (fw_tx f)) true q) f)) as Htx.
  { intros q Ho Hq. split; simpl; try done. by exists c. }
  unfold forward. destruct (fw_policy f) eqn:Hpol.
  - rewrite (H2 ltac:(done)) in *. rewrite app_nil_r.
    destruct (try_send_cases m (fw_tx f)) as [[Ho ->]|[(Ho & Hfull & ->)|(Ho & Hroom & ->)]]; cbv zeta.
    + split_and!; try done; simpl; [by rewrite Ho|rewrite H7, !app_nil_r by done; apply sublist_nil_l|by rewrite Ho].
    + split_and!; try done; simpl; [destruct f; simpl in *; by subst|rewrite H2, Hheld, !app_nil_r by done|].
      * apply sublist_inserts_r. reflexivity.
      * intros _ [?|[[_ Hroom]|[_ ?]]]; [done| |done]. destruct Hfull as (cap & Hcap & Hle). specialize (Hroom _ Hcap). lia.
    + split_and!; try done; simpl; [|by rewrite H2, Hheld, !app_nil_r|by rewrite H2, Hheld, !app_nil_r].
      apply Htx; [done|]. rewrite length_app. simpl. specialize (Hroom c Hc1). lia.
  - cbv zeta.
    set (b := if (fw_depth f <=? _)%nat then _ else _). assert (b `sublist_of` fw_backlog f ∧ (length b < fw_depth f)%nat) as [Hb1 Hb2].
    { unfold b. destruct (Nat.leb_spec (fw_depth f) (length (fw_backlog f))); [|done].
      destruct (fw_backlog f) as [|y l]; simpl in *; [lia|]. split; [by apply sublist_cons|lia]. }
    split_and!; try done; simpl.
    + split; simpl; rewrite ?Hpol; try done; [by rewrite Hrun|by exists c|]. rewrite length_app. simpl. lia.
    + rewrite Hheld. simpl. rewrite <- app_assoc. apply sublist_app; [done|]. by apply sublist_app.
    + intros _ [?|[[? _]|[Hlt _]]]; [done..|]. rewrite Hheld. simpl. unfold b.
      rewrite (proj2 (Nat.leb_gt _ _)) by done. by rewrite app_assoc.
  - rewrite (H2 ltac:(done)) in *. rewrite app_nil_r.
    destruct (try_send_cases m (fw_tx f)) as [[Ho ->]|[(Ho & Hfull & ->)|(Ho & Hroom & ->)]]; cbv zeta.
    + split_and!; try done; simpl; [by rewrite Ho|rewrite H7, !app_nil_r by done; apply sublist_nil_l|by rewrite Ho].
    + split_and!; try done; simpl; [|by rewrite H2|by rewrite H2].
      split; simpl; rewrite ?Hpol; try done; [by rewrite Hrun|by exists c|by rewrite H2].
    + split_and!; try done; simpl; [|by rewrite H2, Hheld, !app_nil_r|by rewrite H2, Hheld, !app_nil_r].
      apply Htx; [done|]. rewrite length_app. simpl. specialize (Hroom c Hc1). lia.
Qed.

(** A task that ended while the caller listens has drained a closed queue. *)
Record pipe_wf f i : Prop := {
  pi_task : forwarder_wf f;
  pi_policy : policy i = fw_policy f;
  pi_ended : fw_running f = false → chan_open (fw_tx f) = true → queue i = [] ∧ closed i = true }.

(** No message is dropped by the next round: there is room, and the queue
    has not ended before the backlog. *)
Definition roomy f i : Prop :=
  chan_open (fw_tx f) = true ∧
  match fw_policy f with
  | Block => True
  | DropNewest => ∀ cap, chan_cap (fw_tx f) = Some cap → (length (chan_queue (fw_tx f)) < cap)%nat
  | DropOldest => (length (fw_backlog f) < fw_depth f)%nat ∧ closed i = false
  end.

Lemma stop_wf f : forwarder_wf f → forwarder_wf (stop f).
Proof using Type. intros [H1 H2 H3 H4 H5 H6 H7]. split; simpl; try done. lia. Qed.

(** A round that does nothing. *)
Ltac same_pipe := split_and!; first [done | reflexivity | by split].

Lemma receive_spec f i : pipe_wf f i → let '(f', i') := receive hex_encode f i in
  pipe_wf f' i' ∧ closed i' = closed i ∧ fw_policy f' = fw_policy f ∧ fw_depth f' = fw_depth f ∧
  chan_open (fw_tx f') = chan_open (fw_tx f) ∧ in_flight f' i' `sublist_of` in_flight f i ∧
  (roomy f i → in_flight f' i' = in_flight f i).
Proof using Type.
  intros Hpipe. pose proof Hpipe as [Hw Hp He]. unfold receive. destruct (negb (fw_running f) || _) eqn:Hidle.
  { same_pipe. }
  apply orb_false_elim in Hidle as [Hrun%negb_false_iff Hheld%bool_decide_eq_false].
  apply eq_None_not_Some in Hheld. unfold try_recv, pop. destruct (queue i) as [|x q] eqn:Hq.
  - destruct (closed i) eqn:Hc; [|same_pipe].
    assert (in_flight (stop f) i = chan_queue (fw_tx f)) as Hs.
    { unfold in_flight. simpl. by rewrite Hq, !app_nil_r. }
    split_and!; try done; [split; simpl; [by apply stop_wf|done|by rewrite Hq]| |].
    + rewrite Hs. unfold in_flight. by apply sublist_inserts_r.
    + intros [_ Hr]. rewrite Hs. unfold in_flight. rewrite Hheld, Hq. simpl.
      destruct (fw_policy f) eqn:E; [rewrite (fo_backlog _ Hw) by (by rewrite E)|by destruct Hr; congruence|rewrite (fo_backlog _ Hw) by (by rewrite E)];
        by rewrite !app_nil_r.
  - destruct (forward_spec (to_msg x) f Hw Hrun Hheld) as (Hw' & Hp' & Hd' & Ho' & Hr' & Hsub & Heq).
    assert (∀ f0 i0, in_flight f0 i0 = (chan_queue (fw_tx f0) ++ option_list (fw_held f0) ++ fw_backlog f0) ++ (to_msg <$> queue i0)) as Hfl.
    { intros. unfold in_flight. by rewrite <- !app_assoc. }
    assert (in_flight f i = ((chan_queue (fw_tx f) ++ fw_backlog f) ++ [to_msg x]) ++ (to_msg <$> q)) as Hf.
    { rewrite Hfl, Hheld, Hq. simpl. by rewrite <- !app_assoc. }
    rewrite Hf, Hfl. simpl. split_and!; try done.
    + split; simpl; [done|congruence|]. intros Hstop Hopen. rewrite Ho' in Hopen. by rewrite Hr' in Hstop.
    + by apply sublist_app.
    + intros [Hopen Hroom]. rewrite Heq; [done|done|]. destruct (fw_policy f); [right; left; by split|right; right; tauto|by left].
Qed.

Lemma hand_over_spec f i : pipe_wf f i → let f' := hand_over f in
  pipe_wf f' i ∧ fw_policy f' = fw_policy f ∧ fw_depth f' = fw_depth f ∧ chan_open (fw_tx f') = chan_open (fw_tx f) ∧
  in_flight f' i `sublist_of` in_flight f i ∧
  (chan_open (fw_tx f) = true → in_flight f' i = in_flight f i).
Proof using Type.
  intros Hpipe. pose proof Hpipe as [Hw Hp He]. unfold hand_over. destruct (fw_running f) eqn:Hrun; [|same_pipe].
  pose proof Hw as [H1 H2 H3 H4 (c & Hc1 & Hc2 & Hc3 & Hc4 & Hc5) H6 H7]. cbn [negb].
  assert (chan_open (fw_tx f) = false → in_flight (stop f) i `sublist_of` in_flight f i) as Hstop.
  { intros Ho. unfold in_flight. simpl. rewrite H7 by done. simpl. by apply sublist_inserts_l, sublist_inserts_l. }
  destruct (fw_policy f) eqn:Hpol; [same_pipe| |].
  - destruct (fw_backlog f) as [|m b] eqn:Hb; [same_pipe|].
    assert (fw_held f = None) as Hh by by apply H3.
    destruct (try_send_cases m (fw_tx f)) as [[Ho ->]|[(Ho & Hfull & ->)|(Ho & Hroom & ->)]]; cbv zeta; [..|].
    + split_and!; try done; [split; simpl; [by apply stop_wf|congruence|by rewrite Ho]|by apply Hstop|by rewrite Ho].
    + same_pipe.
    + assert (in_flight (set_backlog b (set_tx (mkChan (chan_cap (fw_tx f)) true (chan_queue (fw_tx f) ++ [m])) f)) i = in_flight f i) as Heq.
      { unfold in_flight. simpl. rewrite Hh, Hb. simpl. by rewrite <- !app_assoc. }
      rewrite Heq. split_and!; try done. split; simpl; [|congruence|by rewrite Hrun].
      specialize (Hroom c Hc1). split; simpl; rewrite ?Hpol; try done; [by rewrite Hrun| |simpl in H6; lia].
      exists c. split_and!; try done. rewrite length_app. simpl. lia.
  - destruct (fw_held f) as [m|] eqn:Hh; [|by destruct (fw_backlog f); same_pipe].
    assert (fw_backlog f = []) as Hb by by apply H2.
    destruct (try_send_cases m (fw_tx f)) as [[Ho ->]|[(Ho & Hfull & ->)|(Ho & Hroom & ->)]]; cbv zeta; [..|].
    + split_and!; try done; [split; simpl; [by apply stop_wf|congruence|by rewrite Ho]|by apply Hstop|by rewrite Ho].
    + same_pipe.
    + assert (in_flight (set_held None (set_tx (mkChan (chan_cap (fw_tx f)) true (chan_queue (fw_tx f) ++ [m])) f)) i = in_flight f i) as Heq.
      { unfold in_flight. simpl. rewrite Hh, Hb. simpl. by rewrite <- !app_assoc. }
      rewrite Heq. split_and!; try done. split; simpl; [|congruence|by rewrite Hrun].
      specialize (Hroom c Hc1). split; simpl; rewrite ?Hpol; try done.
      exists c. split_and!; try done. rewrite length_app. simpl. lia.
Qed.

Lemma take_one_spec f i : pipe_wf f i → let '(o, f') := take_one f in
  pipe_wf f' i ∧ fw_policy f' = fw_policy f ∧ fw_depth f' = fw_depth f ∧ chan_open (fw_tx f') = chan_open (fw_tx f) ∧
  option_list o ++ in_flight f' i = in_flight f i.
Proof using Type.
  intros Hpipe. pose proof Hpipe as [Hw Hp He]. unfold take_one, chan_recv. destruct (chan_queue (fw_tx f)) as [|m q] eqn:Hq.
  { same_pipe. }
  split_and!; try done; [|unfold in_flight; by rewrite Hq].
  split; simpl; try done. destruct Hw as [H1 H2 H3 H4 (c & Hc1 & Hc2 & Hc3 & Hc4 & Hc5) H6 H7].
  rewrite Hq in *. split; simpl; try done; [exists c; simpl in Hc4; split_and!; (done || lia)|]. intros Ho. by specialize (H7 Ho).
Qed.

Lemma drop_receiver_spec f i : pipe_wf f i → let f' := drop_receiver f in
  pipe_wf f' i ∧ in_flight f' i `sublist_of` in_flight f i.
Proof using Type.
  intros Hpipe. pose proof Hpipe as [Hw Hp He]. split; [|unfold in_flight; simpl; by apply sublist_inserts_l].
  split; simpl; try done. destruct Hw as [H1 H2 H3 H4 (c & Hc1 & Hc2 & Hc3 & Hc4 & Hc5) H6 H7].
  split; simpl; try done. exists c. split_and!; (done || lia).
Qed.

(** *** Draining *)

(** The caller reads, then the task hands over and receives. *)
Definition round (st : Forwarder * inner * list Message) : Forwarder * inner * list Message :=
  let '(f, i, got) := st in
  let '(o, f) := take_one f in
  let '(f, i) := receive hex_encode (hand_over f) i in
  (f, i, got ++ option_list o).

Definition patience f i : nat :=
  (3 * length (in_flight f i) +
   match chan_queue (fw_tx f), option_list (fw_held f) ++ fw_backlog f with
   | _ :: _, _ => 0 | [], _ :: _ => 1 | [], [] => 2
   end)%nat.

Lemma patience_bound f i : (3 * length (in_flight f i) <= patience f i <= 3 * length (in_flight f i) + 2)%nat.
Proof using Type. unfold patience. repeat case_match; lia. Qed.

Lemma receive_keeps_chan f i : chan_open (fw_tx f) = true → chan_queue (fw_tx f) ≠ [] →
  chan_queue (fw_tx (receive hex_encode f i).1) ≠ [].
Proof using Type.
  intros Ho Hc. unfold receive. destruct (_ || _); [done|]. destruct (try_recv i) as [[x|] i']; simpl; [|by destruct (closed i')].
  unfold forward. destruct (try_send_cases (to_msg x) (fw_tx f)) as [[? _]|[(_ & _ & ->)|(_ & _ & ->)]]; [congruence|..];
    destruct (fw_policy f); simpl; try done; by intros [? ?]%app_nil.
Qed.

Lemma round_spec f i got : pipe_wf f i → chan_open (fw_tx f) = true → (closed i = false ∨ fw_policy f ≠ DropOldest) →
  let '(f', i', got') := round (f, i, got) in
  pipe_wf f' i' ∧ chan_open (fw_tx f') = true ∧ closed i' = closed i ∧ fw_policy f' = fw_policy f ∧
  got' ++ in_flight f' i' = got ++ in_flight f i ∧ (length got <= length got')%nat ∧ (in_flight f i ≠ [] → (patience f' i' < patience f i)%nat).
Proof using Type.
  intros Hpipe Hopen Hcl. unfold round. pose proof (take_one_spec f i Hpipe) as Ht. unfold take_one in *.
  destruct (fo_cap _ (pi_task _ _ Hpipe)) as (c & Hc1 & Hc2 & Hc3 & Hc4 & Hc5).
  set (tk := match chan_recv (fw_tx f) with Some (m, tx) => (Some m, set_tx tx f) | None => (None, f) end) in *.
  assert (fw_backlog tk.2 = fw_backlog f ∧ fw_held tk.2 = fw_held f ∧ chan_cap (fw_tx tk.2) = Some c ∧
    fw_running tk.2 = fw_running f ∧ chan_queue (fw_tx tk.2) = tl (chan_queue (fw_tx f)) ∧
    (chan_queue (fw_tx f) ≠ [] → is_Some tk.1) ∧ (chan_queue (fw_tx f) = [] → tk = (None, f)))
    as (Hb1 & Hh1 & Hcap1 & Hr1 & Hq1 & Hsome & Hnone).
  { unfold tk, chan_recv. destruct (chan_queue (fw_tx f)) eqn:E; simpl; rewrite ?E; by split_and!. }
  destruct tk as [o f1]. cbn [fst snd] in *. destruct Ht as (Hp1 & Hpol1 & Hd1 & Ho1 & Hfl1).
  pose proof (hand_over_spec f1 i Hp1) as (Hp2 & Hpol2 & Hd2 & Ho2 & _ & Hfl2). specialize (Hfl2 ltac:(congruence)).
  assert (length (chan_queue (fw_tx f1)) < c)%nat as Hroom1.
  { rewrite Hq1. destruct (chan_queue (fw_tx f)); simpl in *; lia. }
  assert (roomy (hand_over f1) i ∧ (chan_queue (fw_tx f1) = [] → option_list (fw_held f1) ++ fw_backlog f1 ≠ [] →
    chan_queue (fw_tx (hand_over f1)) ≠ [])) as [Hroomy Hmoved].
  { clear Hfl1 Hfl2 Hsome. split.
    - split; [congruence|]. rewrite Hpol2, Hpol1. destruct (fw_policy f) eqn:Hpol; [| |done].
      + intros cap. unfold hand_over. rewrite Hpol1. destruct (negb _); rewrite Hcap1; intros [= <-]; done.
      + split; [|by destruct Hcl]. specialize (Hc5 eq_refl). subst c.
        pose proof (fo_bound _ (pi_task _ _ Hp1)). pose proof (fo_depth _ (pi_task _ _ Hp1)). rewrite Hd2.
        unfold hand_over. rewrite Hpol1. destruct (fw_running f1) eqn:Hr.
        * simpl. destruct (fw_backlog f1) as [|m b] eqn:Hb; [rewrite Hb; simpl; lia|].
          destruct (try_send_cases m (fw_tx f1)) as [[? _]|[(_ & (cap & Hcap & Hle) & _)|(_ & _ & ->)]]; [congruence| |].
          -- rewrite Hcap1 in Hcap. injection Hcap as <-. lia.
          -- simpl in *. lia.
        * simpl. rewrite (proj1 (fo_stopped _ (pi_task _ _ Hp1) Hr)). simpl. lia.
    - intros He Hne. unfold hand_over. destruct (fw_running f1) eqn:Hr.
      2: { destruct (fo_stopped _ (pi_task _ _ Hp1) Hr) as [Hx Hy]. by rewrite Hx, Hy in Hne. }
      cbn [negb]. pose proof (fo_backlog _ (pi_task _ _ Hp1)) as Hbk. pose proof (fo_held _ (pi_task _ _ Hp1)) as Hhd.
      assert (∀ m, try_send m (fw_tx f1) = (None, mkChan (chan_cap (fw_tx f1)) true (chan_queue (fw_tx f1) ++ [m]))) as Hsend.
      { intros m. destruct (try_send_cases m (fw_tx f1)) as [[? _]|[(_ & (cap & Hcap & Hle) & _)|(_ & _ & ->)]]; [congruence| |done].
        rewrite Hcap1 in Hcap. injection Hcap as <-. lia. }
      destruct (fw_policy f1) eqn:Hpol.
      + by rewrite Hbk, Hhd in Hne.
      + rewrite Hhd in Hne by done. simpl in Hne. destruct (fw_backlog f1) as [|m b]; [done|]. rewrite Hsend. simpl. by rewrite He.
      + rewrite Hbk, app_nil_r in Hne by done. destruct (fw_held f1) as [m|]; [|done]. rewrite Hsend. simpl. by rewrite He. }
  pose proof (receive_spec _ _ Hp2) as Hr. pose proof (receive_keeps_chan (hand_over f1) i ltac:(congruence)) as Hkeep.
  destruct (receive hex_encode (hand_over f1) i) as [f3 i3] eqn:Hrec. cbn [fst] in Hkeep.
  destruct Hr as (Hp3 & Hcl3 & Hpol3 & _ & Ho3 & _ & Hfl3). specialize (Hfl3 Hroomy).
  split_and!; [done|congruence|done|congruence|by rewrite <- app_assoc, Hfl3, Hfl2, Hfl1|rewrite length_app; lia|].
  intros Hne. pose proof (patience_bound f3 i3) as Hb3. pose proof (patience_bound f i) as Hb.
  rewrite Hfl3, Hfl2 in Hb3. rewrite <- Hfl1, length_app in Hb.
  destruct (chan_queue (fw_tx f)) as [|m q] eqn:Hq; [|destruct (Hsome ltac:(done)) as [? ->]; simpl in Hb; lia].
  injection (Hnone eq_refl) as -> ->. clear Hsome Hnone Hb Hb3.
  unfold patience. rewrite Hfl3, Hfl2, Hq.
  destruct (option_list (fw_held f) ++ fw_backlog f) as [|m l] eqn:Hmid.
  2: { destruct (chan_queue (fw_tx f3)); [by destruct (Hkeep ltac:(by apply Hmoved))|lia]. }
  assert (hand_over f = f) as Hsame.
  { unfold hand_over. destruct (negb _); [done|]. destruct (fw_held f); [done|]. simpl in Hmid. rewrite Hmid. by destruct (fw_policy f). }
  apply app_nil in Hmid as [Hheld Hback]. rewrite Hsame in *.
  assert (queue i ≠ []) as Hqi.
  { intros Hqi. apply Hne. unfold in_flight. by rewrite Hq, Hheld, Hback, Hqi. }
  assert (queue i3 = tl (queue i)) as Hpop.
  { destruct (fw_running f) eqn:Hr; [|by destruct (pi_ended _ _ Hpipe Hr Hopen)].
    unfold receive in Hrec. rewrite Hr in Hrec. destruct (fw_held f); [done|]. simpl in Hrec.
    unfold try_recv, pop in Hrec. destruct (queue i) as [|x q]; [done|]. by injection Hrec as _ <-. }
  pose proof (f_equal length Hfl3) as Hlen. unfold in_flight in Hlen.
  rewrite Hq, Hheld, Hback, Hpop in Hlen. destruct (queue i) as [|x q]; [done|].
  destruct (chan_queue (fw_tx f3)); [|lia]. destruct (option_list (fw_held f3) ++ fw_backlog f3) eqn:E; [|lia].
  apply app_nil in E as [E1 E2]. rewrite E1, E2 in Hlen. simpl in Hlen. rewrite !length_fmap in Hlen. lia.
Qed.

(** A push adds the sample at the end, or discards one. *)
Lemma push_in_flight f i s : pipe_wf f i →
  pipe_wf f (push i s).2 ∧ in_flight f (push i s).2 `sublist_of` in_flight f i ++ [to_msg s].
Proof using Type.
  intros Hpipe. pose proof Hpipe as [Hw Hp He]. assert (queue (push i s).2 `sublist_of` queue i ++ [s]) as Hq.
  { unfold push. destruct (unsubscribed i || closed i); [by apply sublist_inserts_r|]. unfold push_locked.
    destruct (policy i); repeat case_match; simplify_eq; simpl; try done; try by apply sublist_inserts_r.
    apply sublist_app; [|done]. destruct (queue i); [done|]. by apply sublist_cons. }
  assert (policy (push i s).2 = policy i ∧ closed (push i s).2 = closed i) as [Hpp Hpc].
  { destruct (push i s) as [b i'] eqn:E. by destruct (push_frame _ _ _ _ E) as (_ & ? & ? & _). }
  split.
  - split; [done|congruence|]. intros Hr Ho. destruct (He Hr Ho) as [Hqi Hc].
    rewrite push_closed; [done|]. intros [_ Hc']. congruence.
  - unfold in_flight. rewrite <- !app_assoc. do 3 (apply sublist_app; [done|]).
    change [to_msg s] with (to_msg <$> [s]). rewrite <- fmap_app. by apply fmap_sublist.
Qed.
End pipe.

(** ** Runs of a node *)

Section node_runs.
Context {N P : Type} `{!Notify N} `{!DynParticipant N P} `{!DynParticipantLaws (N:=N) P}.
Context (hex_encode : list byte → str).
Notation node := (DdsNode P).
Implicit Types (n : node) (p : P) (s : Subscription).
Notation node_step := (node_step (N:=N) (P:=P) hex_encode).
Notation node_run := (node_run (N:=N) (P:=P) hex_encode).
Notation sent_messages := (sent_messages (N:=N) (P:=P) hex_encode).
Notation in_flight := (in_flight hex_encode).

(** The topic and the payload of a message. *)
Definition body (m : Message) : str * list byte := (id m, m_payload m).

Definition on (t : str) (l : list Message) : list Message := filter (λ m, id m = t) l.

Record sub_ok p (sent : list Message) s (i : SubInner N) : Prop := {
  sk_queue : dyn_queue p (sn_sub s) = Some i;
  sk_pipe : pipe_wf (sn_task s) i;
  sk_only t : on_topic p (sn_sub s) t → t = sn_topic s;
  sk_open : closed i = false → on_topic p (sn_sub s) (sn_topic s);
  sk_order : body <$> (sn_got s ++ in_flight (sn_task s) i) `sublist_of` body <$> on (sn_topic s) sent }.

Record node_inv (sent : list Message) n : Prop := {
  ni_ok : dyn_ok (dn_participant n);
  ni_pub t k : dn_publishers n !! t = Some k → pub_topic (dn_participant n) k = Some t;
  ni_apart : NoDup (sn_sub <$> dn_subscriptions n);
  ni_subs : Forall (λ s, ∃ i, sub_ok (dn_participant n) sent s i) (dn_subscriptions n) }.

Lemma adapt_inv p : dyn_ok p → node_inv [] (adapt p).
Proof using Type. intros Hp. split; simpl; [done|done|constructor|constructor]. Qed.

Lemma on_app t l l' : on t (l ++ l') = on t l ++ on t l'.
Proof using Type. apply filter_app. Qed.

Lemma sub_ok_more p sent m s i : sub_ok p sent s i → sub_ok p (sent ++ [m]) s i.
Proof using Type.
  intros [H1 H2 H3 H4 H5]. split; try done. etransitivity; [exact H5|].
  apply fmap_sublist. rewrite on_app. by apply sublist_inserts_r.
Qed.

(** The participant changed without this subscription noticing. *)
Lemma sub_ok_frame p p' sent s i : dyn_queue p' (sn_sub s) = dyn_queue p (sn_sub s) →
  (∀ t, on_topic p' (sn_sub s) t ↔ on_topic p (sn_sub s) t) → sub_ok p sent s i → sub_ok p' sent s i.
Proof using Type.
  intros Hq Ht [H1 H2 H3 H4 H5]. split; try done; [by rewrite Hq|by intros t ?%Ht%H3|by intros ?%H4%Ht].
Qed.

(** The task of one subscription moved. *)
Lemma sub_ok_task p sent s i f got : sub_ok p sent s i → pipe_wf f i →
  got ++ in_flight f i `sublist_of` sn_got s ++ in_flight (sn_task s) i →
  sub_ok p sent (mkSubscription (sn_topic s) (sn_sub s) f got) i.
Proof using Type.
  intros [H1 H2 H3 H4 H5] Hf Hsub. split; simpl; try done.
  etransitivity; [|exact H5]. by apply fmap_sublist.
Qed.

Lemma set_participant_id n : set_participant (dn_participant n) n = n.
Proof using Type. by destruct n. Qed.

Lemma publisher_for_inv sent t n r n' : node_inv sent n → publisher_for (N:=N) t n = (r, n') →
  node_inv sent n' ∧ dn_subscriptions n' = dn_subscriptions n ∧ dn_closed n' = dn_closed n ∧
  match r with Ok k => pub_topic (dn_participant n') k = Some t | Err _ => n' = n | Panic => False end.
Proof using Type.
  intros Hn. unfold publisher_for. destruct (dn_publishers n !! t) as [k|] eqn:Hk.
  { intros [= <- <-]. split_and!; [done..|by eapply ni_pub]. }
  destruct (dyn_new_publisher t QoS_default (dn_participant n)) as [r0 p] eqn:Hnew.
  destruct (law_new_publisher _ _ _ _ _ (ni_ok _ _ Hn) Hnew) as (Hok & Hq & Ht & Hpub & Hr).
  destruct r0 as [k|e|]; simpl; intros [= <- <-]; [|subst p; rewrite set_participant_id; by split_and!|done].
  split_and!; try done. destruct Hn as [H1 H2 H3 H4]. split; simpl; [done| |done|].
  - intros t' k' [[<- <-]|[_ Hk']]%lookup_insert_Some; [done|by eapply Hpub, H2].
  - eapply Forall_impl; [exact H4|]. intros s [i Hs]. exists i. by apply (sub_ok_frame (dn_participant n)).
Qed.

Lemma push_closed_flag (i : SubInner N) x : closed (push i x).2 = closed i.
Proof using Type. destruct (push i x) as [b i'] eqn:E. by destruct (push_frame _ _ _ _ E) as (_ & _ & ? & _). Qed.

Lemma send_inv sent now ctx msg n : node_inv sent n →
  node_inv (sent ++ sent_messages [NodeSend now ctx msg] n) (node_step (NodeSend now ctx msg) n).
Proof using Type.
  intros Hn. cbn [Adapt.node_step Adapt.sent_messages]. unfold DdsNode_send.
  destruct (dn_closed n); [by rewrite !app_nil_r|]. destruct (Context_done now ctx); [by rewrite !app_nil_r|].
  destruct (publisher_for (id msg) n) as [r n1] eqn:Hpub.
  destruct (publisher_for_inv _ _ _ _ _ Hn Hpub) as (Hn1 & _ & _ & Hr).
  destruct r as [k|e|]; [|by subst n1; rewrite !app_nil_r|done].
  destruct (dyn_write k now (m_payload msg) (dn_participant n1)) as [r p] eqn:Hw.
  destruct (law_write _ _ _ _ _ _ _ (ni_ok _ _ Hn1) Hr Hw) as (Hok & Hkeep & Hshrink & Hstay & Hres).
  destruct Hn1 as [H1 H2 H3 H4].
  assert (∀ sent', Forall (λ s, ∃ i, sub_ok p sent' s i) (dn_subscriptions n1) → node_inv sent' (set_participant p n1)) as Hinv.
  { intros sent' Hs. split; simpl; [done| |done|done]. intros t k' Hk'. by apply Hkeep, H2. }
  destruct r as [[]|e|]; cbn [fst snd relay_err app]; rewrite ?app_nil_r; apply Hinv.
  2,3: (eapply Forall_impl; [exact H4|]; intros s [i Hs]; exists i; pose proof Hs as [Hq Hp Ho Hop Hor]; split; try done;
    [by rewrite Hres|by intros t ?%Hshrink%Ho|intros Hc; apply (Hstay _ _ i); [by apply Hop|by rewrite Hres|done]]).
  destruct Hres as (x & Hx1 & Hx2 & Hx). eapply Forall_impl; [exact H4|].
  intros s [i Hs]. pose proof Hs as [Hq Hp Ho Hop Hor]. destruct (Hx _ _ Hq) as (i' & Hi' & [[Hon ->]|[Hoff ->]]).
  - exists (push i x).2. destruct (push_in_flight hex_encode _ _ x Hp) as [Hp' Hfl]. split; try done.
    + by intros t ?%Hshrink%Ho.
    + intros Hc. eapply Hstay; [|exact Hi'|exact Hc]. by rewrite <- (Ho _ Hon).
    + pose proof (Ho _ Hon) as He. rewrite <- He in *. rewrite on_app, !fmap_app.
      assert (body <$> on (id msg) [msg] = body <$> [Sample_to_message hex_encode x]) as ->.
      { unfold on. rewrite filter_cons, decide_True by done. simpl. unfold body. simpl. by rewrite Hx1, Hx2. }
      etransitivity; [apply sublist_app; [reflexivity|apply fmap_sublist, Hfl]|].
      rewrite fmap_app, app_assoc, <- fmap_app. by apply sublist_app.
  - exists i. apply sub_ok_more. split; try done; [by intros t ?%Hshrink%Ho|].
    intros Hc. apply (Hstay _ _ i); [by apply Hop|done|done].
Qed.

Lemma subscribe_inv sent opts n : node_inv sent n → node_inv sent (DdsNode_subscribe (N:=N) opts n).2.
Proof using Type.
  intros Hn. pose proof Hn as [H1 H2 H3 H4]. unfold DdsNode_subscribe. destruct (dn_closed n); [done|].
  destruct (opt_topic opts) as [t|]; [|done]. cbv zeta.
  destruct (dyn_new_subscriber _ _ _ _) as [r p] eqn:Hnew.
  pose proof (law_new_subscriber _ QoS_default _ _ _ _ H1 eq_refl Hnew) as Hl.
  destruct r as [k|e|]; simpl; [|subst p; by rewrite set_participant_id|done].
  destruct Hl as (Hok & Hfresh & Hq & Hqs & Hon & Hons & Hpub).
  assert (∀ s i, sub_ok (dn_participant n) sent s i → sn_sub s ≠ k) as Hne.
  { intros s i Hs Heq. pose proof (sk_queue _ _ _ _ Hs) as Hsq. rewrite Heq in Hsq. congruence. }
  split; simpl; [done|by intros t' k' ?%H2%Hpub| |].
  - rewrite fmap_app. apply NoDup_app. split_and!; [done| |apply NoDup_singleton].
    intros j (s & -> & Hs)%list_elem_of_fmap Hj%list_elem_of_singleton.
    destruct (proj1 (Forall_forall _ _) H4 s Hs) as [i Hi]. simpl in Hj. by apply (Hne s i).
  - apply Forall_app. split.
    + eapply Forall_impl; [exact H4|]. intros s [i Hs]. exists i. pose proof (Hne s i Hs).
      apply (sub_ok_frame (dn_participant n)); [by apply Hqs|intros t'; by apply Hons|done].
    + apply Forall_singleton. eexists. split; simpl; [exact Hq| | |done|].
      * split; simpl; [apply new_forwarder_wf|done|done].
      * intros t' Ht'. by eapply on_topic_unique.
      * unfold in_flight. simpl. apply sublist_nil_l.
Qed.

Lemma close_inv sent n : node_inv sent n → node_inv sent (DdsNode_close (N:=N) n).2.
Proof using Type.
  intros Hn. pose proof Hn as [H1 H2 H3 H4]. unfold DdsNode_close. destruct (dn_closed n); [done|].
  destruct (dyn_close (dn_participant n)) as [r p] eqn:Hc.
  destruct (law_close _ _ _ H1 Hc) as (Hok & Hpub & Hon & Hq).
  split; simpl; [done|by intros t k ?%H2%Hpub|done|]. eapply Forall_impl; [exact H4|].
  intros s [i Hs]. pose proof Hs as [Hsq Hp Ho Hop Hor]. destruct (Hq _ _ Hsq) as (i' & Hi' & Hqq & _ & Hpol & _ & Hcl).
  exists i'. split; [done| |by intros t ?%Hon%Ho| |].
  - destruct Hp as [Hw Hpp He]. split; [done|congruence|]. intros Hr Hopen. destruct (He Hr Hopen) as [? ?].
    split; [congruence|by apply Hcl].
  - intros Hc'. apply Hon, Hop. destruct (closed i) eqn:E; [by rewrite Hcl in Hc'|done].
  - unfold in_flight. rewrite Hqq. exact Hor.
Qed.

(** A step of subscription [j] that leaves the others alone. *)
Lemma subs_inv sent j g n p : node_inv sent n → dyn_ok p →
  (∀ t k, dn_publishers n !! t = Some k → pub_topic p k = Some t) →
  (∀ s, sn_sub (g s) = sn_sub s) →
  (∀ s i, dn_subscriptions n !! j = Some s → sub_ok (dn_participant n) sent s i → ∃ i', sub_ok p sent (g s) i') →
  (∀ s i, (∀ sj, dn_subscriptions n !! j = Some sj → sn_sub s ≠ sn_sub sj) → sub_ok (dn_participant n) sent s i → sub_ok p sent s i) →
  node_inv sent (mkDdsNode p (dn_publishers n) (dn_closed n) (alter g j (dn_subscriptions n))).
Proof using Type.
  intros [H1 H2 H3 H4] Hok Hpub Hsub Hj Hother. split; simpl; [done|done| |].
  - assert (sn_sub <$> alter g j (dn_subscriptions n) = sn_sub <$> dn_subscriptions n) as ->; [|done].
    apply list_eq. intros k. rewrite !list_lookup_fmap, list_lookup_alter. case_decide; [|done].
    subst. destruct (_ !! _); simpl; [by rewrite Hsub|done].
  - apply Forall_lookup_2. intros k s. rewrite list_lookup_alter. case_decide as Hk.
    + subst. intros (s0 & Hs0 & ->)%fmap_Some. destruct (Forall_lookup_1 _ _ _ _ H4 Hs0) as [i Hi]. by eapply Hj.
    + intros Hs. destruct (Forall_lookup_1 _ _ _ _ H4 Hs) as [i Hi]. exists i. apply Hother; [|done].
      intros sj Hsj He. apply Hk. symmetry. eapply NoDup_lookup; [exact H3| |]; rewrite list_lookup_fmap.
      * by rewrite Hs.
      * by rewrite Hsj, He.
Qed.

Lemma with_task_inv sent g j n :
  (∀ f (i : SubInner N), pipe_wf f i → pipe_wf (g f) i ∧ in_flight (g f) i `sublist_of` in_flight f i) →
  node_inv sent n → node_inv sent (with_task g j n).
Proof using Type.
  intros Hg Hn. apply subs_inv; try done; [exact (ni_ok _ _ Hn)|intros t k; exact (ni_pub _ _ Hn t k)|].
  intros s i _ Hs. exists i. destruct (Hg _ _ (sk_pipe _ _ _ _ Hs)).
  eapply sub_ok_task; [exact Hs|done|by apply sublist_app].
Qed.

Lemma task_receive_inv sent j n : node_inv sent n → node_inv sent (task_receive (N:=N) hex_encode j n).
Proof using Type.
  intros Hn. unfold task_receive. destruct (dn_subscriptions n !! j) as [s|] eqn:Hs; [|done].
  destruct (dyn_queue (dn_participant n) (sn_sub s)) as [i|] eqn:Hi; [|done].
  destruct (Forall_lookup_1 _ _ _ _ (ni_subs _ _ Hn) Hs) as [i0 Hs0].
  assert (i0 = i) as -> by (pose proof (sk_queue _ _ _ _ Hs0); congruence).
  pose proof (receive_spec hex_encode _ _ (sk_pipe _ _ _ _ Hs0)) as Hr.
  destruct (receive hex_encode (sn_task s) i) as [f i']. destruct Hr as (Hp & Hc & _ & _ & _ & Hsub & _).
  destruct (law_set_queue _ _ _ i' (ni_ok _ _ Hn) Hi Hc) as (Hok & Hq & Hon & Hpub).
  apply (subs_inv sent j (λ s, mkSubscription (sn_topic s) (sn_sub s) f (sn_got s)) n); try done.
  - intros t k Hk. rewrite Hpub. by eapply ni_pub.
  - intros s' i1 Hs' [Hsq Hsp Hso Hsop Hsor]. rewrite Hs in Hs'. injection Hs' as <-. rewrite Hi in Hsq. injection Hsq as <-.
    exists i'. split; simpl; [by rewrite Hq, bool_decide_true|done|by intros t ?%Hon%Hso|by intros Hc'; apply Hon, Hsop; congruence|].
    etransitivity; [|exact Hsor]. by apply fmap_sublist, sublist_app.
  - intros s' i1 Hne Hs'. apply (sub_ok_frame (dn_participant n)); [|by intros t; apply Hon|done].
    rewrite Hq, bool_decide_false; [done|]. by apply Hne.
Qed.

Lemma caller_take_inv sent j n : node_inv sent n → node_inv sent (caller_take j n).
Proof using Type.
  intros Hn. apply subs_inv; try done; [exact (ni_ok _ _ Hn)|intros t k; exact (ni_pub _ _ Hn t k)|..].
  - intros s. by destruct (take_one (sn_task s)).
  - intros s i _ Hs. exists i. pose proof (take_one_spec hex_encode _ _ (sk_pipe _ _ _ _ Hs)) as Ht.
    destruct (take_one (sn_task s)) as [o f]. destruct Ht as (Hp & _ & _ & _ & Heq).
    eapply sub_ok_task; [exact Hs|done|]. by rewrite <- app_assoc, Heq.
Qed.

Lemma node_step_inv sent e n : node_inv sent n → node_inv (sent ++ sent_messages [e] n) (node_step e n).
Proof using Type.
  intros Hn. destruct e as [now ctx msg|opts| |j|j|j|j]; [by apply send_inv|..]; simpl; rewrite app_nil_r.
  - by apply subscribe_inv.
  - by apply close_inv.
  - by apply task_receive_inv.
  - apply with_task_inv; [|done]. intros f i Hp. by destruct (hand_over_spec hex_encode f i Hp) as (? & _ & _ & _ & ? & _).
  - by apply caller_take_inv.
  - apply with_task_inv; [|done]. intros f i Hp. by apply drop_receiver_spec.
Qed.

Lemma node_run_inv_from sent evs n : node_inv sent n → node_inv (sent ++ sent_messages evs n) (node_run evs n).
Proof using Type.
  revert sent n. induction evs as [|e evs IH]; intros sent n Hn; cbn [Adapt.sent_messages Adapt.node_run]; [by rewrite app_nil_r|].
  rewrite app_assoc. apply IH. pose proof (node_step_inv sent e n Hn) as Hs. cbn [Adapt.sent_messages] in Hs.
  by rewrite app_nil_r in Hs.
Qed.

Lemma node_run_inv p evs : dyn_ok p → node_inv (sent_messages evs (adapt p)) (node_run evs (adapt p)).
Proof using Type. intros Hp. exact (node_run_inv_from [] evs _ (adapt_inv p Hp)). Qed.

(** C6. The order of a subscription.  Whatever a node over any participant of
    the contract is asked to do, and however its forwarding tasks, its
    senders and the readers of its channels interleave, what a caller has
    read from a subscription, followed by what is still on its way, carries
    topics and payloads of the messages accepted by [send] for that topic, in
    the order of the sends and none twice; and at most [depth] messages wait
    in the channel and [depth] in the backlog. *)
Theorem node_in_order p evs j s : dyn_ok p →
  dn_subscriptions (node_run evs (adapt p)) !! j = Some s →
  ∃ i, dyn_queue (dn_participant (node_run evs (adapt p))) (sn_sub s) = Some i ∧
    body <$> (sn_got s ++ in_flight (sn_task s) i) `sublist_of` body <$> on (sn_topic s) (sent_messages evs (adapt p)) ∧
    (length (chan_queue (fw_tx (sn_task s))) <= fw_depth (sn_task s))%nat ∧
    (length (fw_backlog (sn_task s)) <= fw_depth (sn_task s))%nat.
Proof.
  intros Hp Hs. destruct (Forall_lookup_1 _ _ _ _ (ni_subs _ _ (node_run_inv p evs Hp)) Hs) as [i [H1 [H2 _ _] _ _ H5]].
  exists i. destruct H2 as [_ _ _ _ (c & _ & _ & ? & ? & _) ? _]. split_and!; [done..|lia|done].
Qed.

Definition round_events (j : nat) : list NodeEvent := [CallerTake j; TaskHandOver j; TaskReceive j].

Lemma round_node sent n j s i : node_inv sent n → dn_subscriptions n !! j = Some s →
  dyn_queue (dn_participant n) (sn_sub s) = Some i →
  let '(f', i', got') := round hex_encode (sn_task s, i, sn_got s) in
  let n' := node_run (round_events j) n in
  dn_subscriptions n' !! j = Some (mkSubscription (sn_topic s) (sn_sub s) f' got') ∧
  dyn_queue (dn_participant n') (sn_sub s) = Some i'.
Proof using Type.
  intros Hn Hs Hi. destruct (Forall_lookup_1 _ _ _ _ (ni_subs _ _ Hn) Hs) as [i0 Hs0].
  assert (i0 = i) as -> by (pose proof (sk_queue _ _ _ _ Hs0); congruence).
  pose proof (sk_pipe _ _ _ _ Hs0) as Hp. pose proof (take_one_spec hex_encode _ _ Hp) as Ht. unfold round.
  destruct (take_one (sn_task s)) as [o f1] eqn:E1. destruct Ht as (Hp1 & _).
  pose proof (hand_over_spec hex_encode f1 i Hp1) as (Hp2 & _). pose proof (receive_spec hex_encode _ _ Hp2) as Hr.
  destruct (receive hex_encode (hand_over f1) i) as [f3 i3] eqn:E3. destruct Hr as (_ & Hc & _).
  unfold Adapt.node_run, round_events. cbn [foldl Adapt.node_step]. unfold task_receive, caller_take, with_task. simpl.
  rewrite !list_lookup_alter, !decide_True, Hs by done. simpl. rewrite E1. simpl. rewrite Hi, E3. simpl.
  rewrite !list_lookup_alter, !decide_True, Hs by done. simpl. rewrite E1. simpl.
  destruct (law_set_queue _ _ _ i3 (ni_ok _ _ Hn) Hi Hc) as (_ & Hq & _). split; [done|].
  by rewrite Hq, bool_decide_true.
Qed.

Lemma node_run_app evs1 evs2 n : node_run (evs1 ++ evs2) n = node_run evs2 (node_run evs1 n).
Proof using Type. apply foldl_app. Qed.

Lemma rounds_drain m sent n j s i : node_inv sent n → dn_subscriptions n !! j = Some s →
  dyn_queue (dn_participant n) (sn_sub s) = Some i → chan_open (fw_tx (sn_task s)) = true →
  (closed i = false ∨ fw_policy (sn_task s) ≠ DropOldest) → (patience hex_encode (sn_task s) i <= m + 2)%nat →
  ∃ s', dn_subscriptions (node_run (concat (replicate m (round_events j))) n) !! j = Some s' ∧
    sn_got s' = sn_got s ++ in_flight (sn_task s) i.
Proof using Type.
  revert sent n s i. induction m as [|m IH]; intros sent n s i Hn Hs Hi Hopen Hcl Hm.
  all: destruct (Forall_lookup_1 _ _ _ _ (ni_subs _ _ Hn) Hs) as [i0 Hs0];
    assert (i0 = i) as -> by (pose proof (sk_queue _ _ _ _ Hs0); congruence);
    pose proof (patience_bound hex_encode (sn_task s) i) as Hb.
  { exists s. split; [done|]. destruct (in_flight (sn_task s) i); [by rewrite app_nil_r|simpl in Hb; lia]. }
  pose proof (round_spec hex_encode _ _ (sn_got s) (sk_pipe _ _ _ _ Hs0) Hopen Hcl) as Hr.
  pose proof (round_node sent n j s i Hn Hs Hi) as Hnode.
  destruct (round hex_encode (sn_task s, i, sn_got s)) as [[f' i'] got'].
  destruct Hr as (Hp' & Ho' & Hc' & Hpol' & Heq & Hlen & Hless). destruct Hnode as [Hs' Hi'].
  cbn [replicate concat]. rewrite node_run_app.
  destruct (IH (sent ++ sent_messages (round_events j) n) (node_run (round_events j) n)
    (mkSubscription (sn_topic s) (sn_sub s) f' got') i') as (s' & Hs'' & Hgot);
    [by apply node_run_inv_from|done|done|done|simpl; by rewrite Hc', Hpol'| |].
  - simpl. destruct (decide (in_flight (sn_task s) i = [])) as [Hnil|Hne]; [|specialize (Hless Hne); lia].
    pose proof (patience_bound hex_encode f' i'). pose proof (f_equal length Heq) as Hl.
    rewrite !length_app, Hnil in Hl. simpl in Hl. lia.
  - exists s'. split; [done|]. by rewrite Hgot.
Qed.

(** C23. Nothing that is on its way is lost while the caller listens.  From any
    state of a node, when the caller of a subscription reads and its task
    runs, enough rounds of them deliver everything that was in its queue, its
    backlog and its channel, in order.  This needs the queue to be open, or
    the policy to be another than [DropOldest]. *)
Theorem node_drains p evs j s i m : dyn_ok p →
  dn_subscriptions (node_run evs (adapt p)) !! j = Some s →
  dyn_queue (dn_participant (node_run evs (adapt p))) (sn_sub s) = Some i →
  chan_open (fw_tx (sn_task s)) = true → closed i = false ∨ fw_policy (sn_task s) ≠ DropOldest →
  (3 * length (in_flight (sn_task s) i) <= m)%nat →
  ∃ s', dn_subscriptions (node_run (evs ++ concat (replicate m (round_events j))) (adapt p)) !! j = Some s' ∧
    sn_got s' = sn_got s ++ in_flight (sn_task s) i.
Proof.
  intros Hp Hs Hi Ho Hc Hm. rewrite node_run_app. pose proof (patience_bound hex_encode (sn_task s) i).
  eapply rounds_drain; [by apply node_run_inv|done..|lia].
Qed.

(** *** A task that ended *)

Lemma stopped_step e n j s : dn_subscriptions n !! j = Some s → fw_running (sn_task s) = false →
  ∃ s', dn_subscriptions (node_step e n) !! j = Some s' ∧ fw_running (sn_task s') = false ∧
    sn_got s' ++ chan_queue (fw_tx (sn_task s')) `prefix_of` sn_got s ++ chan_queue (fw_tx (sn_task s)).
Proof using Type.
  intros Hs Hr. assert (∀ k g, (∀ f, fw_running f = false → fw_running (g f) = false ∧
      chan_queue (fw_tx (g f)) `prefix_of` chan_queue (fw_tx f)) →
    ∃ s', alter (λ s, mkSubscription (sn_topic s) (sn_sub s) (g (sn_task s)) (sn_got s)) k (dn_subscriptions n) !! j = Some s' ∧
      fw_running (sn_task s') = false ∧
      sn_got s' ++ chan_queue (fw_tx (sn_task s')) `prefix_of` sn_got s ++ chan_queue (fw_tx (sn_task s))) as Halter.
  { intros k g Hg. rewrite list_lookup_alter. destruct (decide (k = j)) as [->|_]; [|by exists s].
    rewrite Hs. simpl. eexists. split; [done|]. simpl. destruct (Hg _ Hr). split; [done|]. by apply prefix_app. }
  destruct e as [now ctx msg|opts| |k|k|k|k]; simpl.
  - exists s. split; [|done]. unfold DdsNode_send, publisher_for. repeat case_match; simplify_eq/=; done.
  - exists s. split; [|done]. unfold DdsNode_subscribe. repeat case_match; simplify_eq/=; try done. by apply lookup_app_l_Some.
  - exists s. split; [|done]. unfold DdsNode_close. repeat case_match; simplify_eq/=; done.
  - unfold task_receive. destruct (dn_subscriptions n !! k) as [sk|] eqn:Hk; [|by exists s].
    destruct (dyn_queue _ _) as [i|]; [|by exists s]. destruct (receive hex_encode (sn_task sk) i) as [f i'] eqn:E. simpl.
    rewrite list_lookup_alter. destruct (decide (k = j)) as [->|_]; [|by exists s]. rewrite Hs. simpl. eexists. split; [done|].
    rewrite Hs in Hk. injection Hk as <-. unfold receive in E. rewrite Hr in E. injection E as <- _. by simpl.
  - apply Halter. intros f Hf. unfold hand_over. by rewrite Hf.
  - rewrite list_lookup_alter. destruct (decide (k = j)) as [->|_]; [|by exists s]. rewrite Hs. simpl. eexists. split; [done|].
    unfold take_one, chan_recv. destruct (chan_queue (fw_tx (sn_task s))) as [|m q] eqn:E; simpl; rewrite ?E, ?app_nil_r; [done|].
    by rewrite <- app_assoc.
  - apply Halter. intros f Hf. split; [done|]. apply prefix_nil.
Qed.

(** What closing loses.  When the queue of a subscription has been closed and
    drained, the next time its task looks at the queue the task ends, and no
    call of anybody delivers any more than what was already in the channel,
    one message at most under [DropOldest]: the backlog, messages that were
    accepted and not evicted, is lost.  Had the caller read first, it would
    have been delivered. *)
Theorem node_close_loses_backlog n j s i evs :
  dn_subscriptions n !! j = Some s → dyn_queue (dn_participant n) (sn_sub s) = Some i →
  fw_running (sn_task s) = true → fw_held (sn_task s) = None → queue i = [] → closed i = true →
  ∃ s', dn_subscriptions (node_run (TaskReceive j :: evs) n) !! j = Some s' ∧
    sn_got s' `prefix_of` sn_got s ++ chan_queue (fw_tx (sn_task s)) ∧
    in_flight (sn_task s) i = chan_queue (fw_tx (sn_task s)) ++ fw_backlog (sn_task s).
Proof.
  intros Hs Hi Hr Hh Hq Hc.
  assert (∃ s1, dn_subscriptions (node_step (TaskReceive j) n) !! j = Some s1 ∧ fw_running (sn_task s1) = false ∧
    sn_got s1 ++ chan_queue (fw_tx (sn_task s1)) = sn_got s ++ chan_queue (fw_tx (sn_task s))) as (s1 & Hs1 & Hr1 & Hgot1).
  { simpl. unfold task_receive. rewrite Hs, Hi. unfold receive. rewrite Hr, Hh. simpl. unfold try_recv, pop. rewrite Hq, Hc. simpl.
    rewrite list_lookup_alter, decide_True, Hs by done. simpl. by eexists. }
  unfold Adapt.node_run. cbn [foldl]. generalize dependent (node_step (TaskReceive j) n). intros n1 Hs1.
  assert (∃ s', dn_subscriptions (node_run evs n1) !! j = Some s' ∧
    sn_got s' ++ chan_queue (fw_tx (sn_task s')) `prefix_of` sn_got s1 ++ chan_queue (fw_tx (sn_task s1))) as (s' & Hs' & Hp).
  { clear Hgot1. revert n1 s1 Hs1 Hr1. induction evs as [|e evs IH]; intros n1 s1 Hs1 Hr1; [by exists s1|].
    destruct (stopped_step e n1 j s1 Hs1 Hr1) as (s2 & Hs2 & Hr2 & Hp2).
    destruct (IH _ s2 Hs2 Hr2) as (s' & Hs' & Hp'). exists s'. split; [done|]. by etransitivity. }
  exists s'. split; [done|]. split; [|unfold Adapt.in_flight; by rewrite Hh, Hq, app_nil_r].
  rewrite <- Hgot1. etransitivity; [|exact Hp]. by apply prefix_app_r.
Qed.

(** *** The calls *)

(** What a call of the node returns for a call of the participant, as the
    documentation of the errors has it: the sentinel that the error belongs
    to, and the fallback of the call for an error that belongs to none. *)
Definition errors_of (s : RelayError) : list Error :=
  match s with
  | RelayClosed => [Closed; LoanBuffer]
  | RelayNotConnected => [NotConnected; DomainOutOfRange; TopicEmpty; QosMismatch; AccessDenied]
  | RelayTimeout => [Timeout; DeadlineMissed]
  | RelayPayloadTooLarge => [PayloadTooLarge; SampleRejected; ResourceLimits]
  end.
Inductive reports {A B : Type} (fallback : RelayError) : eres A → rres B → Prop :=
| reports_ok a b : reports fallback (Ok a) (Ok b)
| reports_sentinel (e : Error) (r : RelayError) : e ∈ errors_of r → reports fallback (Err e) (Err r)
| reports_other m : reports fallback (Err (Other m)) (Err fallback)
| reports_panic : reports fallback Panic Panic.

Lemma relay_err_reports {A} or (r : eres A) : reports (B:=A) or r (relay_err or r).
Proof.
  destruct r as [a|e|]; [constructor| |constructor]. simpl.
  destruct e; simpl; constructor; set_solver.
Qed.

Lemma send_reports now ctx msg n : dn_closed n = false → Context_done now ctx = false →
  let '(publisher, p1) := match dn_publishers n !! id msg with
    | Some k => (Ok k, dn_participant n)
    | None => dyn_new_publisher (id msg) QoS_default (dn_participant n) end in
  reports RelayNotConnected (k ← publisher; (dyn_write k now (m_payload msg) p1).1)
    (DdsNode_send (N:=N) now ctx msg n).1.
Proof.
  intros Hc Hctx. unfold DdsNode_send. rewrite Hc, Hctx. unfold publisher_for.
  destruct (dn_publishers n !! id msg) as [k|].
  { simpl. destruct (dyn_write _ _ _ _) as [r p1]. apply relay_err_reports. }
  destruct (dyn_new_publisher _ _ _) as [[k|e|] p1]; simpl; [|apply (relay_err_reports _ (Err e))|constructor].
  destruct (dyn_write _ _ _ _) as [r p2]. apply relay_err_reports.
Qed.

Lemma send_pushes sent n now ctx msg : node_inv sent n → dn_closed n = false → Context_done now ctx = false →
  let '(r, n') := DdsNode_send (N:=N) now ctx msg n in
    dn_closed n' = false ∧ dn_subscriptions n' = dn_subscriptions n ∧
    match r with
    | Ok _ => ∃ k x, dn_publishers n' !! id msg = Some k ∧ pub_topic (dn_participant n') k = Some (id msg) ∧
        topic x = id msg ∧ s_payload x = m_payload msg ∧
        ∀ j s i, dn_subscriptions n !! j = Some s → dyn_queue (dn_participant n) (sn_sub s) = Some i →
          closed i = false → dyn_queue (dn_participant n') (sn_sub s) =
            Some (if decide (sn_topic s = id msg) then (push i x).2 else i)
    | _ => ∀ j s, dn_subscriptions n !! j = Some s →
        dyn_queue (dn_participant n') (sn_sub s) = dyn_queue (dn_participant n) (sn_sub s)
    end.
Proof.
  intros Hn Hc Hctx. unfold DdsNode_send. rewrite Hc, Hctx.
  destruct (publisher_for (id msg) n) as [r n1] eqn:Hpub.
  assert (∀ j, dyn_queue (dn_participant n1) j = dyn_queue (dn_participant n) j) as Hsame.
  { unfold publisher_for in Hpub. destruct (dn_publishers n !! id msg); [by injection Hpub as _ <-|].
    destruct (dyn_new_publisher _ _ _) as [r0 p0] eqn:Hnew.
    destruct (law_new_publisher _ _ _ _ _ (ni_ok _ _ Hn) Hnew) as (_ & Hq & _). intros j.
    destruct (relay_err _ r0); injection Hpub as _ <-; apply Hq. }
  assert (∀ k, r = Ok k → dn_publishers n1 !! id msg = Some k) as Hk.
  { intros k Hrk. unfold publisher_for in Hpub. destruct (dn_publishers n !! id msg) eqn:E; [by simplify_eq|].
    destruct (dyn_new_publisher _ _ _) as [r0 p0]. destruct (relay_err _ r0); simplify_eq. simpl. apply lookup_insert_eq. }
  destruct (publisher_for_inv _ _ _ _ _ Hn Hpub) as (Hn1 & Hsubs & Hcl & Hr).
  destruct r as [k|e|]; [|by split_and!; [congruence|done|intros; by rewrite Hsame]|done].
  destruct (dyn_write k now (m_payload msg) (dn_participant n1)) as [r p1] eqn:Hw.
  destruct (law_write _ _ _ _ _ _ _ (ni_ok _ _ Hn1) Hr Hw) as (_ & Hkeep & _ & _ & Hres).
  cbn [dn_closed dn_subscriptions set_participant dn_participant dn_publishers]. split_and!; [congruence|done|].
  destruct r as [[]|e|]; cbn [relay_err]; [|by intros; rewrite Hres, Hsame..].
  destruct Hres as (x & Hx1 & Hx2 & Hx). exists k, x. split_and!; [by apply Hk|by apply Hkeep|done..|].
  intros j s i Hs Hi Ho. destruct (Forall_lookup_1 _ _ _ _ (ni_subs _ _ Hn1) (eq_trans (f_equal (.!! j) Hsubs) Hs)) as [i0 Hs0].
  rewrite <- Hsame in Hi. assert (i0 = i) as -> by (pose proof (sk_queue _ _ _ _ Hs0); congruence).
  destruct (Hx _ _ Hi) as (i' & Hi' & [[Hon ->]|[Hoff ->]]); rewrite Hi'.
  + by rewrite decide_True by (symmetry; by apply (sk_only _ _ _ _ Hs0)).
  + rewrite decide_False; [done|]. intros He. apply Hoff. rewrite <- He. by apply (sk_open _ _ _ _ Hs0).
Qed.

(** C27. Every branch of [send], [subscribe] and [close], in any reachable state.
    A closed node refuses both with [Closed] and an expired context with
    [Timeout], changing nothing.  Otherwise a send fails iff creating the
    publisher of its topic, on the first message of the topic, or its write
    fails, and then with the sentinel that error belongs to, or
    [NotConnected] if it belongs to none.  An accepted message is written by
    the one publisher of its topic, and each subscription of the node with
    that topic whose queue is open is pushed exactly one sample with its
    payload, the others none; a refused one reaches nobody.  A subscription
    without a topic is refused with [NotConnected], and with one it fails as
    the participant's does; it starts with an empty queue of the asked depth
    and policy.  The first close fails iff the participant's does, with
    [Closed] as the fallback, and closes the node all the same. *)
Theorem node_calls p evs : dyn_ok p → let n := node_run evs (adapt p) in
  (∀ now ctx msg, dn_closed n = true → DdsNode_send (N:=N) now ctx msg n = (Err RelayClosed, n)) ∧
  (∀ opts, dn_closed n = true → DdsNode_subscribe (N:=N) opts n = (Err RelayClosed, n)) ∧
  (if dn_closed n then DdsNode_close (N:=N) n = (Ok tt, n)
   else reports RelayClosed (dyn_close (dn_participant n)).1 (DdsNode_close (N:=N) n).1) ∧
  dn_closed (DdsNode_close (N:=N) n).2 = true ∧
  (∀ now ctx msg, dn_closed n = false →
     if Context_done now ctx then DdsNode_send (N:=N) now ctx msg n = (Err RelayTimeout, n)
     else let '(r, n') := DdsNode_send (N:=N) now ctx msg n in
       let '(publisher, p1) := match dn_publishers n !! id msg with
         | Some k => (Ok k, dn_participant n)
         | None => dyn_new_publisher (id msg) QoS_default (dn_participant n)
         end in
       reports RelayNotConnected (k ← publisher; (dyn_write k now (m_payload msg) p1).1) r ∧
       dn_closed n' = false ∧ dn_subscriptions n' = dn_subscriptions n ∧
       match r with
       | Ok _ => ∃ k x, dn_publishers n' !! id msg = Some k ∧ pub_topic (dn_participant n') k = Some (id msg) ∧
           topic x = id msg ∧ s_payload x = m_payload msg ∧
           ∀ j s i, dn_subscriptions n !! j = Some s → dyn_queue (dn_participant n) (sn_sub s) = Some i →
             closed i = false → dyn_queue (dn_participant n') (sn_sub s) =
               Some (if decide (sn_topic s = id msg) then (push i x).2 else i)
       | _ => ∀ j s, dn_subscriptions n !! j = Some s →
           dyn_queue (dn_participant n') (sn_sub s) = dyn_queue (dn_participant n) (sn_sub s)
       end) ∧
  (∀ opts, dn_closed n = false →
     let '(r, n') := DdsNode_subscribe (N:=N) opts n in
     match opt_topic opts with
     | None => r = Err RelayNotConnected
     | Some t => reports RelayNotConnected (dyn_new_subscriber t QoS_default
         (mkSubscriberOptions (chan_depth opts 64) (back_pressure opts) None None) (dn_participant n)).1 r
     end ∧
     match r with
     | Ok j => ∃ s, opt_topic opts = Some (sn_topic s) ∧ dn_subscriptions n' !! j = Some s ∧ sn_got s = [] ∧
         fw_policy (sn_task s) = back_pressure opts ∧ fw_running (sn_task s) = true ∧
         dyn_queue (dn_participant n') (sn_sub s) = Some (SubInner_new (chan_depth opts 64) (back_pressure opts))
     | Err _ => n' = n
     | Panic => False
     end).
Proof.
  intros Hp n. pose proof (node_run_inv p evs Hp) as Hn. fold n in Hn. split_and!.
  - intros now ctx msg Hc. unfold DdsNode_send. by rewrite Hc.
  - intros opts Hc. unfold DdsNode_subscribe. by rewrite Hc.
  - unfold DdsNode_close. destruct (dn_closed n); [done|]. destruct (dyn_close _) as [r p']. apply relay_err_reports.
  - unfold DdsNode_close. destruct (dn_closed n) eqn:E; [done|]. by destruct (dyn_close _).
  - intros now ctx msg Hc. destruct (Context_done now ctx) eqn:Hctx; [unfold DdsNode_send; by rewrite Hc, Hctx|].
    pose proof (send_reports now ctx msg n Hc Hctx) as Hrep. pose proof (send_pushes _ n now ctx msg Hn Hc Hctx) as Heff.
    destruct (match dn_publishers n !! id msg with Some _ => _ | None => _ end) as [publisher q].
    by destruct (DdsNode_send now ctx msg n) as [r n'].
  - intros opts Hc. unfold DdsNode_subscribe. rewrite Hc. destruct (opt_topic opts) as [t|]; [|done]. cbv zeta.
    destruct (dyn_new_subscriber _ _ _ _) as [r p1] eqn:Hnew.
    pose proof (law_new_subscriber _ QoS_default _ _ _ _ (ni_ok _ _ Hn) eq_refl Hnew) as Hl.
    destruct r as [k|e|]; (split; [cbn [fst]; first [apply reports_ok|apply reports_panic|apply (relay_err_reports _ (Err e))]|]); simpl; [|subst p1; by rewrite set_participant_id|done].
    destruct Hl as (_ & _ & Hq & _). eexists. split_and!; [|by apply list_lookup_middle|done..|].
    + done.
    + simpl. rewrite Hq. do 2 f_equal. unfold chan_depth at 1. simpl. unfold chan_depth.
      destruct (Z.ltb_spec 0 (channel_depth opts)) as [Hlt|]; [by rewrite (proj2 (Z.ltb_lt _ _) Hlt)|done].
Qed.
End node_runs.

(** ** Instances *)

#[local] Instance demo_profile : BuildProfile := true.
#[local] Notation demo := (MockParticipant (bool * option bool)).

Definition demo_base : demo := match MockParticipant_new (mkDomain 0) with Ok w => w | _ => demo_participant end.
Lemma demo_base_ok : dyn_ok (N:=bool * option bool) demo_base.
Proof. apply (mock_new_ok (mkDomain 0)). reflexivity. Qed.

Definition demo_hex (b : list byte) : str := b.
Definition demo_send (b : byte) : NodeEvent :=
  NodeSend 5 Context_background (Message_new 0 Dds (bytes_of_ascii "a") [b]).
Definition demo_subscribe (pol : BackPressurePolicy) : NodeEvent :=
  NodeSubscribe (mkSubscriberOptions 2 pol (Some (bytes_of_ascii "a")) None).
Definition demo_node (evs : list NodeEvent) : DdsNode demo := node_run demo_hex evs (adapt demo_base).
Definition demo_sub (n : DdsNode demo) : Subscription :=
  default (mkSubscription [] 0 (new_forwarder DropNewest 1) []) (dn_subscriptions n !! 0%nat).
Definition demo_inner (n : DdsNode demo) : SubInner (bool * option bool) :=
  default (SubInner_new 0 DropNewest) (dyn_queue (dn_participant n) (sn_sub (demo_sub n))).

(** Three messages, one in the channel and two in the backlog. *)
Definition demo_waiting : list NodeEvent :=
  [demo_subscribe DropOldest; demo_send x01; TaskReceive 0; TaskHandOver 0; demo_send x02; TaskReceive 0;
   demo_send x03; TaskReceive 0].

Lemma node_in_order_witness :
  let n := demo_node (demo_waiting ++ [CallerTake 0]) in
  m_payload <$> sn_got (demo_sub n) = [[x01]] ∧
  body <$> (sn_got (demo_sub n) ++ in_flight demo_hex (sn_task (demo_sub n)) (demo_inner n)) `sublist_of`
  body <$> on (bytes_of_ascii "a") (sent_messages demo_hex (demo_waiting ++ [CallerTake 0]) (adapt demo_base)).
Proof.
  split; [vm_compute; reflexivity|].
  destruct (node_in_order demo_hex demo_base (demo_waiting ++ [CallerTake 0]) 0
    (demo_sub (demo_node (demo_waiting ++ [CallerTake 0]))) demo_base_ok) as (i & Hi & Hs & _); [vm_compute; reflexivity|].
  assert (i = demo_inner (demo_node (demo_waiting ++ [CallerTake 0]))) as -> by (revert Hi; vm_compute; by intros [= <-]).
  exact Hs.
Defined.

Lemma node_drains_witness : ∃ s',
  dn_subscriptions (demo_node (demo_waiting ++ concat (replicate 9 (round_events 0)))) !! 0%nat = Some s' ∧
  m_payload <$> sn_got s' = [[x01]; [x02]; [x03]].
Proof.
  destruct (node_drains demo_hex demo_base demo_waiting 0 (demo_sub (demo_node demo_waiting))
    (demo_inner (demo_node demo_waiting)) 9 demo_base_ok) as (s' & Hs & Hg);
    [vm_compute; reflexivity..|left; vm_compute; reflexivity|vm_compute; lia|].
  exists s'. split; [exact Hs|]. rewrite Hg. vm_compute. reflexivity.
Defined.

Lemma node_close_loses_backlog_witness : ∃ s',
  dn_subscriptions (node_run demo_hex (TaskReceive 0 :: concat (replicate 9 (round_events 0)))
    (demo_node (demo_waiting ++ [NodeClose]))) !! 0%nat = Some s' ∧
  m_payload <$> sn_got s' `prefix_of` [[x01]].
Proof.
  destruct (node_close_loses_backlog demo_hex (demo_node (demo_waiting ++ [NodeClose])) 0
    (demo_sub (demo_node (demo_waiting ++ [NodeClose]))) (demo_inner (demo_node (demo_waiting ++ [NodeClose])))
    (concat (replicate 9 (round_events 0)))) as (s' & Hs & Hp & _); [vm_compute; reflexivity..|].
  exists s'. split; [exact Hs|]. destruct Hp as [l Hl].
  exists (m_payload <$> l). rewrite <- fmap_app, <- Hl. vm_compute. reflexivity.
Defined.

Lemma node_calls_witness :
  let n := demo_node demo_waiting in
  (DdsNode_send (N:=bool * option bool) 5 (mkContext (Some 5)) (Message_new 0 Dds (bytes_of_ascii "a") []) n).1 = Err RelayTimeout ∧
  (DdsNode_send (N:=bool * option bool) 5 Context_background (Message_new 0 Dds (bytes_of_ascii "a") [])
    (DdsNode_close (N:=bool * option bool) n).2).1 = Err RelayClosed.
Proof.
  destruct (node_calls (N:=bool * option bool) demo_hex demo_base demo_waiting demo_base_ok) as (_ & _ & _ & _ & H & _).
  split; [|vm_compute; reflexivity].
  specialize (H 5 (mkContext (Some 5)) (Message_new 0 Dds (bytes_of_ascii "a") []) ltac:(vm_compute; reflexivity)).
  change (Context_done 5 (mkContext (Some 5))) with true in H. cbv iota in H.
  change (demo_node demo_waiting) with (node_run (N:=bool * option bool) demo_hex demo_waiting (adapt demo_base)). by rewrite H.
Defined.
