(* ===== verification/Acl.v ===== *)
(** * Acl: the topic access policy and its glob matcher (src/security/acl.rs)

    Patterns and topic names are bytes.  A slice or index that could be out
    of range panics in the model as it does in the source, and so does a loop
    that runs out of fuel, so that "never panics" says that the guards of the
    source are enough and that its loops end. *)

From S2P Require Import Prelude Utf8.

(** ** Permissions *)

Record Permission : Type := mkPermission { perm_bits : Z }.

Definition READ : Permission := mkPermission (Z.shiftl 1 0).
Definition WRITE : Permission := mkPermission (Z.shiftl 1 1).
Definition READ_WRITE : Permission := mkPermission (Z.lor (perm_bits READ) (perm_bits WRITE)).

Definition Permission_contains (self other : Permission) : bool :=
  negb (Z.land (perm_bits self) (perm_bits other) =? 0).

Definition Permission_bitor (self rhs : Permission) : Permission :=
  mkPermission (Z.lor (perm_bits self) (perm_bits rhs)).

(** ** Glob matching *)

Inductive GlobError : Type := BadPattern.

Notation gres := (res GlobError).

Definition STAR : byte := x2a.
Definition QUESTION : byte := x3f.
Definition LBRACKET : byte := x5b.
Definition RBRACKET : byte := x5d.
Definition BACKSLASH : byte := x5c.
Definition CARET : byte := x5e.
Definition DASH : byte := x2d.
Definition SEP : byte := x2f.

(** [U+FFFD] *)
Definition REPLACEMENT_CHARACTER : Z := 65533.

Definition rune_len (first : Z) : Z :=
  if first <? 128 then 1
  else if Z.land first 224 =? 192 then 2
  else if Z.land first 240 =? 224 then 3
  else if Z.land first 248 =? 240 then 4
  else 0.

(** The scalar value of a well-formed sequence. *)
Definition scalar (l : list byte) : Z :=
  match byte.unsigned <$> l with
  | [a] => a
  | [a; b] => (a - 192) * 64 + (b - 128)
  | [a; b; c] => (a - 224) * 4096 + (b - 128) * 64 + (c - 128)
  | [a; b; c; d] => (a - 240) * 262144 + (b - 128) * 4096 + (c - 128) * 64 + (d - 128)
  | _ => 0
  end.

Definition decode_rune (s : list byte) : Z * Z :=
  match s with
  | [] => (REPLACEMENT_CHARACTER, 0)
  | first :: _ =>
      let want_len := rune_len (byte.unsigned first) in
      if (want_len =? 0) || (len s <? want_len) then (REPLACEMENT_CHARACTER, 1)
      else
        let t := sub s 0 want_len in
        if utf8_valid t then (scalar t, want_len) else (REPLACEMENT_CHARACTER, 1)
  end.

(** The end of [get_esc], after the escape. *)
Definition esc_rune (chunk : list byte) : gres (Z * list byte) :=
  let '(r, n) := decode_rune chunk in
  if (r =? REPLACEMENT_CHARACTER) && (n =? 1) then Err BadPattern
  else
    nchunk ← slice_from chunk n;
    match nchunk with
    | [] => Err BadPattern
    | _ => Ok (r, nchunk)
    end.

Definition get_esc (chunk : list byte) : gres (Z * list byte) :=
  match chunk with
  | [] => Err BadPattern
  | c :: tail =>
      if bool_decide (c = DASH ∨ c = RBRACKET) then Err BadPattern
      else
        chunk ← (if bool_decide (c = BACKSLASH) then
                   match tail with [] => Err BadPattern | _ => Ok tail end
                 else Ok chunk);
        esc_rune chunk
  end.

(** The loop over the ranges of a class; [nrange] counts them. *)
Fixpoint class_loop (fuel : nat) (r : Z) (chunk : list byte) (range_matched : bool) (nrange : Z)
    : gres (list byte * bool) :=
  match fuel with
  | O => Panic
  | S fuel =>
      let closed := match chunk with
                    | c :: _ => bool_decide (c = RBRACKET) && (0 <? nrange)
                    | [] => false
                    end in
      if closed then Ok (tl chunk, range_matched)
      else
        x ← get_esc chunk;
        let '(lo, chunk) := x in
        y ← match chunk with
            | d :: tail => if bool_decide (d = DASH) then get_esc tail else Ok (lo, chunk)
            | [] => Ok (lo, chunk)
            end;
        let '(hi, chunk) := y in
        class_loop fuel r chunk (range_matched || ((lo <=? r) && (r <=? hi))) (nrange + 1)
  end.

(** One round of the loop of [match_chunk] on the non-empty [c :: chunk]:
    what is left of the chunk and of the name, and whether the match failed. *)
Definition match_term (c : byte) (chunk s : list byte) (failed : bool)
    : gres (list byte * list byte * bool) :=
  if bool_decide (c = LBRACKET) then
    rs ← (if failed then Ok (0, s)
          else let '(r, n) := decode_rune s in s ← slice_from s n; Ok (r, s));
    let '(r, s) := rs in
    let '(negated, chunk) :=
      match chunk with
      | d :: tail => if bool_decide (d = CARET) then (true, tail) else (false, chunk)
      | [] => (false, chunk)
      end in
    x ← class_loop (S (length chunk)) r chunk false 0;
    let '(chunk, range_matched) := x in
    Ok (chunk, s, failed || Bool.eqb range_matched negated)
  else if bool_decide (c = QUESTION) then
    if failed then Ok (chunk, s, failed)
    else
      b ← idx s 0;
      let '(_, n) := decode_rune s in
      s ← slice_from s n;
      Ok (chunk, s, bool_decide (b = SEP))
  else if bool_decide (c = BACKSLASH) then
    match chunk with
    | [] => Err BadPattern
    | d :: chunk =>
        if failed then Ok (chunk, s, failed)
        else b ← idx s 0; s ← slice_from s 1; Ok (chunk, s, negb (bool_decide (d = b)))
    end
  else
    if failed then Ok (chunk, s, failed)
    else b ← idx s 0; s ← slice_from s 1; Ok (chunk, s, negb (bool_decide (c = b))).

Fixpoint match_chunk_loop (fuel : nat) (chunk s : list byte) (failed : bool)
    : gres (list byte * bool) :=
  match chunk with
  | [] => Ok (if failed then ([], false) else (s, true))
  | c :: tail =>
      match fuel with
      | O => Panic
      | S fuel =>
          let failed := match s with [] => true | _ => failed end in
          x ← match_term c tail s failed;
          let '(chunk, s, failed) := x in
          match_chunk_loop fuel chunk s failed
      end
  end.

Definition match_chunk (chunk s : list byte) : gres (list byte * bool) :=
  match_chunk_loop (length chunk) chunk s false.

(** [scan_chunk] after the leading stars: the chunk and the rest. *)
Fixpoint scan_body (inrange : bool) (pattern : list byte) : list byte * list byte :=
  match pattern with
  | [] => ([], [])
  | c :: tail =>
      if bool_decide (c = BACKSLASH) then
        match tail with
        | [] => ([c], [])
        | d :: tail => let '(chunk, rest) := scan_body inrange tail in (c :: d :: chunk, rest)
        end
      else if bool_decide (c = STAR) && negb inrange then ([], pattern)
      else
        let inrange := if bool_decide (c = LBRACKET) then true
                       else if bool_decide (c = RBRACKET) then false else inrange in
        let '(chunk, rest) := scan_body inrange tail in (c :: chunk, rest)
  end.

Fixpoint skip_stars (pattern : list byte) : bool * list byte :=
  match pattern with
  | c :: tail => if bool_decide (c = STAR) then (true, (skip_stars tail).2) else (false, pattern)
  | [] => (false, [])
  end.

Definition scan_chunk (pattern : list byte) : bool * list byte * list byte :=
  let '(star, pattern) := skip_stars pattern in
  let '(chunk, rest) := scan_body false pattern in
  (star, chunk, rest).

(** The [while] loop that skips bytes of [name]: [Some t] continues the outer
    loop with the name [t], [None] ends without a match. *)
Fixpoint skip_loop (last : bool) (chunk name : list byte) : gres (option (list byte)) :=
  match name with
  | [] => Ok None
  | b :: tail =>
      if bool_decide (b = SEP) then Ok None
      else
        x ← match_chunk chunk tail;
        let '(t, matched) := x in
        if matched && negb (last && negb (bool_decide (t = []))) then Ok (Some t)
        else skip_loop last chunk tail
  end.

(** The check of the rest of the pattern before [Ok(false)]. *)
Fixpoint check_rest (fuel : nat) (pattern : list byte) : gres unit :=
  match pattern with
  | [] => Ok tt
  | _ =>
      match fuel with
      | O => Panic
      | S fuel =>
          let '(_, chunk, rest) := scan_chunk pattern in
          _ ← match_chunk chunk [];
          check_rest fuel rest
      end
  end.

Fixpoint glob_loop (fuel : nat) (pattern name : list byte) : gres bool :=
  match pattern with
  | [] => Ok (bool_decide (name = []))
  | _ =>
      match fuel with
      | O => Panic
      | S fuel =>
          let '(star, chunk, rest) := scan_chunk pattern in
          if star && bool_decide (chunk = []) then Ok (bool_decide (SEP ∉ name))
          else
            x ← match_chunk chunk name;
            let '(t, matched) := x in
            if matched && (bool_decide (t = []) || negb (bool_decide (rest = []))) then
              glob_loop fuel rest t
            else
              o ← (if star then skip_loop (bool_decide (rest = [])) chunk name else Ok None);
              match o with
              | Some t => glob_loop fuel rest t
              | None => _ ← check_rest (length rest) rest; Ok false
              end
      end
  end.

Definition glob_match (pattern name : list byte) : gres bool :=
  glob_loop (length pattern) pattern name.

(** ** The policy *)

Record Rule : Type := mkRule { pattern : list byte; allow : Permission }.

Record AccessPolicy : Type := mkAccessPolicy { rules : list Rule }.

Fixpoint allows_loop (rules : list Rule) (topic : list byte) (perm : Permission) : res Empty_set bool :=
  match rules with
  | [] => Ok false
  | rule :: rules =>
      match glob_match (pattern rule) topic with
      | Ok true => Ok (Permission_contains (allow rule) perm)
      | Ok false => allows_loop rules topic perm
      | Err BadPattern => allows_loop rules topic perm
      | Panic => Panic
      end
  end.

Definition allows (self : AccessPolicy) (topic : list byte) (perm : Permission) : res Empty_set bool :=
  allows_loop (rules self) topic perm.

Definition can_read (self : AccessPolicy) (topic : list byte) : res Empty_set bool :=
  allows self topic READ.
Definition can_write (self : AccessPolicy) (topic : list byte) : res Empty_set bool :=
  allows self topic WRITE.

(** ** No panic, and the fuel is enough *)

Lemma decode_rune_len s : s ≠ [] → 1 <= (decode_rune s).2 <= len s.
Proof.
  destruct s as [|b s]; [done|]. intros _. unfold decode_rune. rewrite len_cons. len_atoms.
  destruct (_ || _) eqn:Hc; simpl; [lia|]. apply orb_false_iff in Hc as [H1 H2].
  apply Z.eqb_neq in H1. apply Z.ltb_ge in H2.
  destruct (utf8_valid _); simpl; [|lia]. split; [|lia].
  unfold rune_len in *. repeat case_match; lia.
Qed.

Lemma drop_rune s : s ≠ [] → ∃ s', slice_from (E:=GlobError) s (decode_rune s).2 = Ok s' ∧
  s' = drop (Z.to_nat (decode_rune s).2) s ∧ (length s' < length s)%nat.
Proof.
  intros Hs. pose proof (decode_rune_len s Hs). eexists. split; [apply slice_from_ok; lia|].
  split; [done|]. rewrite length_drop. unfold len in *. lia.
Qed.

Lemma esc_rune_outcome chunk : chunk ≠ [] → esc_rune chunk = Err BadPattern ∨
  ∃ r rest, esc_rune chunk = Ok (r, rest) ∧ rest ≠ [] ∧ (length rest < length chunk)%nat.
Proof.
  intros Hl. unfold esc_rune. destruct (drop_rune chunk Hl) as (s' & Hs & _ & Hlt).
  destruct (decode_rune chunk) as [r n]. simpl in *. destruct (_ && _); [by left|].
  rewrite Hs, bind_ok. destruct s' as [|x s']; [by left|]. right. by exists r, (x :: s').
Qed.

Lemma get_esc_outcome chunk : get_esc chunk = Err BadPattern ∨
  ∃ r rest, get_esc chunk = Ok (r, rest) ∧ rest ≠ [] ∧ (length rest < length chunk)%nat.
Proof.
  destruct chunk as [|c tail]; [by left|]. unfold get_esc. case_bool_decide; [by left|].
  case_bool_decide; [|by apply esc_rune_outcome].
  destruct tail as [|d tail]; [by left|]. rewrite bind_ok.
  destruct (esc_rune_outcome (d :: tail)) as [?|(r & rest & ? & ? & ?)]; [done|by left|].
  right. exists r, rest. split_and!; [done|done|]. simpl in *. lia.
Qed.

Lemma class_loop_outcome fuel r chunk m n : (length chunk < fuel)%nat → 0 <= n →
  class_loop fuel r chunk m n = Err BadPattern ∨
  ∃ rest m', class_loop fuel r chunk m n = Ok (rest, m') ∧ (length rest <= length chunk)%nat.
Proof.
  revert chunk m n. induction fuel as [|fuel IH]; intros chunk m n Hf Hn; [lia|]. cbn [class_loop].
  destruct (match chunk with c :: _ => _ | [] => _ end) eqn:Hc.
  { destruct chunk as [|c chunk]; [done|]. right. do 2 eexists. split; [done|]. simpl. lia. }
  destruct (get_esc_outcome chunk) as [->|(lo & c1 & -> & Hne & Hlt)]; [by left|]. rewrite bind_ok.
  destruct c1 as [|d tail]; [done|].
  case_bool_decide.
  - destruct (get_esc_outcome tail) as [->|(hi & c2 & -> & _ & Hlt2)]; [by left|]. rewrite bind_ok.
    destruct (IH c2 (m || (lo <=? r) && (r <=? hi)) (n + 1)) as [->|(rest & m' & -> & Hl)];
      [simpl in *; lia|lia|by left|].
    right. do 2 eexists. split; [done|]. simpl in *. lia.
  - rewrite bind_ok.
    destruct (IH (d :: tail) (m || (lo <=? r) && (r <=? lo)) (n + 1)) as [->|(rest & m' & -> & Hl)];
      [simpl in *; lia|lia|by left|].
    right. do 2 eexists. split; [done|]. simpl in *. lia.
Qed.

(** A failed match stays failed; a chunk only shrinks. *)
Lemma match_term_outcome c tail s failed : (failed = false → s ≠ []) →
  match_term c tail s failed = Err BadPattern ∨
  ∃ rest s' f, match_term c tail s failed = Ok (rest, s', f) ∧ (length rest <= length tail)%nat ∧
    (failed = true → f = true).
Proof.
  intros Hs. unfold match_term.
  assert (failed = true ∨ failed = false ∧ ∃ b s', s = b :: s') as Hcase.
  { destruct failed; [by left|]. right. split; [done|]. destruct s; [by destruct Hs|eauto]. }
  case_bool_decide.
  - assert (∃ r s', (if failed then Ok (0, s)
        else let '(r, n) := decode_rune s in s ← slice_from s n; Ok (r, s)) = (Ok (r, s') : gres _)) as (r & s' & ->).
    { destruct failed; [eauto|]. destruct (drop_rune s (Hs eq_refl)) as (s' & Hd & _).
      destruct (decode_rune s) as [r n]. simpl in Hd. rewrite Hd, bind_ok. eauto. }
    rewrite bind_ok.
    assert (∃ neg q, match tail with
       | d :: tail0 => if bool_decide (d = CARET) then (true, tail0) else (false, tail)
       | [] => (false, tail) end = (neg, q) ∧ (length q <= length tail)%nat) as (neg & q & -> & Hq).
    { destruct tail as [|d tail]; [by eauto|]. case_bool_decide; do 2 eexists; (split; [done|]); simpl; lia. }
    destruct (class_loop_outcome (S (length q)) r q false 0) as [->|(rest & m' & -> & Hl)];
      [lia|lia|by left|]. rewrite bind_ok. right. do 3 eexists. split; [done|]. split; [lia|].
    by intros ->.
  - case_bool_decide.
    + right. destruct failed; [by do 3 eexists|].
      destruct (drop_rune s (Hs eq_refl)) as (s' & Hd & _). destruct Hcase as [|(_ & b & s0 & ->)]; [done|].
      rewrite idx_cons_0, bind_ok. destruct (decode_rune (b :: s0)) as [r n]. simpl in Hd.
      rewrite Hd, bind_ok. by do 3 eexists.
    + case_bool_decide.
      * destruct tail as [|d tail]; [by left|]. right.
        destruct Hcase as [->|(-> & b & s0 & ->)]; [do 3 eexists; split_and!; try done; simpl; lia|].
        rewrite idx_cons_0, bind_ok, slice_from_ok, bind_ok by len_tac.
        do 3 eexists. split_and!; try done. simpl. lia.
      * right. destruct Hcase as [->|(-> & b & s0 & ->)]; [by do 3 eexists|].
        rewrite idx_cons_0, bind_ok, slice_from_ok, bind_ok by len_tac. by do 3 eexists.
Qed.

Lemma match_chunk_loop_outcome fuel chunk s failed : (length chunk <= fuel)%nat →
  match_chunk_loop fuel chunk s failed = Err BadPattern ∨
  ∃ t m, match_chunk_loop fuel chunk s failed = Ok (t, m).
Proof.
  revert chunk s failed. induction fuel as [|fuel IH]; intros [|c tail] s failed Hf;
    try (right; simpl; destruct failed; by eauto); [simpl in Hf; lia|].
  cbn [match_chunk_loop]. set (f := match s with [] => true | _ => failed end).
  destruct (match_term_outcome c tail s f) as [->|(rest & s' & f' & -> & Hl & _)];
    [by destruct s|by left|].
  rewrite bind_ok. apply IH. simpl in Hf. lia.
Qed.

Lemma match_chunk_outcome chunk s :
  match_chunk chunk s = Err BadPattern ∨ ∃ t m, match_chunk chunk s = Ok (t, m).
Proof. by apply match_chunk_loop_outcome. Qed.

(** The chunk and the rest make up the pattern after its stars, and the rest
    starts at a star. *)
Lemma scan_body_spec inr p : let '(chunk, rest) := scan_body inr p in
  p = chunk ++ rest ∧ (rest = [] ∨ ∃ rest', rest = STAR :: rest').
Proof.
  remember (length p) as n eqn:Hn. assert (length p <= n)%nat as Hle by lia. clear Hn.
  revert inr p Hle. induction n as [|n IH]; intros inr [|c tail] Hle; simpl in *; try lia;
    [by auto|by auto|].
  case_bool_decide as Hb.
  - destruct tail as [|d tail]; [by auto|]. simpl in Hle. specialize (IH inr tail ltac:(lia)).
    destruct (scan_body inr tail) as [chunk rest]. destruct IH as [-> ?]. by split.
  - case_bool_decide as Hs; simpl.
    + destruct inr; simpl.
      * specialize (IH (if bool_decide (c = LBRACKET) then true
          else if bool_decide (c = RBRACKET) then false else true) tail ltac:(lia)).
        destruct (scan_body _ tail) as [chunk rest]. destruct IH as [-> ?]. by split.
      * split; [done|]. right. eexists. by rewrite Hs.
    + specialize (IH (if bool_decide (c = LBRACKET) then true
          else if bool_decide (c = RBRACKET) then false else inr) tail ltac:(lia)).
      destruct (scan_body _ tail) as [chunk rest]. destruct IH as [-> ?]. by split.
Qed.

Lemma skip_stars_spec p : let '(star, q) := skip_stars p in
  ∃ n, p = replicate n STAR ++ q ∧ (star = true ↔ n ≠ 0%nat) ∧ hd_error q ≠ Some STAR.
Proof.
  induction p as [|c p IH]; simpl; [by exists 0%nat|]. case_bool_decide as Hc.
  - subst c. destruct (skip_stars p) as [star q]. simpl. destruct IH as (n & -> & _ & Hq).
    by exists (S n).
  - exists 0%nat. split_and!; [done|done|]. simpl. congruence.
Qed.

Lemma scan_chunk_spec p : let '(star, chunk, rest) := scan_chunk p in
  (∃ n, p = replicate n STAR ++ chunk ++ rest ∧ (star = true ↔ n ≠ 0%nat)) ∧
  (rest = [] ∨ ∃ rest', rest = STAR :: rest') ∧ (chunk = [] → rest = []).
Proof.
  unfold scan_chunk. pose proof (skip_stars_spec p) as H1. destruct (skip_stars p) as [star q].
  pose proof (scan_body_spec false q) as H2. destruct (scan_body false q) as [chunk rest].
  destruct H1 as (n & -> & Hn & Hq), H2 as [-> Hr]. split_and!; [eauto|done|].
  intros ->. destruct Hr as [->|(rest' & ->)]; [done|]. by destruct Hq.
Qed.

Lemma scan_chunk_shrinks p star chunk rest : scan_chunk p = (star, chunk, rest) → p ≠ [] →
  (length rest < length p)%nat.
Proof.
  intros Hs Hp. pose proof (scan_chunk_spec p) as H. rewrite Hs in H.
  destruct H as ((n & -> & _) & _ & Hc). rewrite !length_app, length_replicate.
  destruct chunk as [|c chunk]; simpl; [|lia]. rewrite Hc in Hp by done. rewrite Hc by done.
  destruct n; simpl in *; [done|lia].
Qed.

Lemma check_rest_no_panic fuel p : (length p <= fuel)%nat → no_panic (check_rest fuel p).
Proof.
  revert p. induction fuel as [|fuel IH]; intros [|c p] Hf; try done; [simpl in Hf; lia|].
  cbn [check_rest]. destruct (scan_chunk (c :: p)) as [[star chunk] rest] eqn:Hs.
  apply scan_chunk_shrinks in Hs; [|done].
  destruct (match_chunk_outcome chunk []) as [->|(t & m & ->)]; [done|]. rewrite bind_ok.
  apply IH. lia.
Qed.

Lemma skip_loop_outcome last chunk name : skip_loop last chunk name = Err BadPattern ∨
  ∃ o, skip_loop last chunk name = Ok o.
Proof.
  induction name as [|b name IH]; simpl; [by eauto|]. case_bool_decide; [by eauto|].
  destruct (match_chunk_outcome chunk name) as [->|(t & m & ->)]; [by left|]. rewrite bind_ok.
  destruct (_ && _); [by eauto|done].
Qed.

Lemma glob_loop_no_panic fuel p name : (length p <= fuel)%nat → no_panic (glob_loop fuel p name).
Proof.
  revert p name. induction fuel as [|fuel IH]; intros [|c p] name Hf; try done; [simpl in Hf; lia|].
  cbn [glob_loop]. destruct (scan_chunk (c :: p)) as [[star chunk] rest] eqn:Hs.
  apply scan_chunk_shrinks in Hs; [|done]. destruct (_ && _); [done|].
  destruct (match_chunk_outcome chunk name) as [->|(t & m & ->)]; [done|]. rewrite bind_ok.
  destruct (_ && _); [apply IH; lia|].
  destruct (skip_loop_outcome (bool_decide (rest = [])) chunk name) as [Ho|[o Ho]];
    destruct star; rewrite ?Ho, ?bind_ok; try done.
  2: destruct o as [t'|]; [apply IH; lia|].
  all: pose proof (check_rest_no_panic (length rest) rest ltac:(lia)) as Hc;
       by destruct (check_rest (length rest) rest).
Qed.

(** ** What a pattern means *)

(** *** Runes *)

(** The character at the front of [l], and what follows it; a byte that no
    character starts with counts as U+FFFD. *)
Inductive rune : list byte → Z → list byte → Prop :=
| rune_char r l : is_char r → rune (utf8 r ++ l) r l
| rune_bad b l : (∀ r l', is_char r → b :: l ≠ utf8 r ++ l') → rune (b :: l) REPLACEMENT_CHARACTER l.

Lemma rune_len_spec b : rune_len (byte.unsigned b) =
  if between 0 127 b then 1 else if between 192 223 b then 2 else if between 224 239 b then 3
  else if between 240 247 b then 4 else 0.
Proof. by destruct b. Qed.

Lemma len_utf8 r b t : is_char r → utf8 r = b :: t →
  rune_len (byte.unsigned b) = len (utf8 r) ∧ scalar (utf8 r) = r.
Proof.
  intros Hr. unfold is_char in Hr. unfold utf8, scalar. rewrite <- list_fmap_compose.
  destruct (Z.ltb_spec r 128); [|destruct (Z.ltb_spec r 2048); [|destruct (Z.ltb_spec r 65536)]];
    intros [= <- <-]; rewrite rune_len_spec; cbn [fmap list_fmap compose len];
    rewrite !between_iff, ?unsigned_small by euclid.
  - rewrite bool_decide_true by lia. done.
  - rewrite bool_decide_false, bool_decide_true by euclid. split; [done|]. euclid.
  - rewrite bool_decide_false, bool_decide_false, bool_decide_true by euclid. split; [done|]. euclid.
  - rewrite bool_decide_false, bool_decide_false, bool_decide_false, bool_decide_true by euclid.
    split; [done|]. euclid.
Qed.

Lemma of_Z_eq b z : z = byte.unsigned b → byte.of_Z z = b.
Proof. intros ->. apply byte.of_Z_unsigned. Qed.

#[local] Notation u := byte.unsigned.

Lemma scalar_2 b c : 194 <= u b <= 223 → 128 <= u c <= 191 →
  is_char (scalar [b; c]) ∧ utf8 (scalar [b; c]) = [b; c].
Proof.
  intros Hb Hc. unfold scalar. cbn [fmap list_fmap]. set (r := _ + _). assert (128 <= r < 2048) as Hr by (unfold r; lia).
  split; [left; lia|]. unfold utf8. ltb_false lia. ltb_true lia. cbn [fmap list_fmap].
  f_equal; [|f_equal]; apply of_Z_eq; unfold r; euclid.
Qed.

Lemma scalar_3 b c d :
  ((224 <= u b <= 224 ∧ 160 <= u c <= 191 ∨ 225 <= u b <= 236 ∧ 128 <= u c <= 191)
   ∨ 237 <= u b <= 237 ∧ 128 <= u c <= 159) ∨ 238 <= u b <= 239 ∧ 128 <= u c <= 191 → 128 <= u d <= 191 →
  is_char (scalar [b; c; d]) ∧ utf8 (scalar [b; c; d]) = [b; c; d].
Proof.
  intros Hb Hd. unfold scalar. cbn [fmap list_fmap]. set (r := _ + _).
  assert (2048 <= r < 55296 ∨ 57344 <= r < 65536) as Hr by (unfold r; lia).
  split; [unfold is_char; lia|]. unfold utf8. ltb_false lia. ltb_false lia. ltb_true lia. cbn [fmap list_fmap].
  f_equal; [|f_equal; [|f_equal]]; apply of_Z_eq; unfold r; euclid.
Qed.

Lemma scalar_4 b c d e :
  (240 <= u b <= 240 ∧ 144 <= u c <= 191 ∨ 241 <= u b <= 243 ∧ 128 <= u c <= 191)
   ∨ 244 <= u b <= 244 ∧ 128 <= u c <= 143 → 128 <= u d <= 191 → 128 <= u e <= 191 →
  is_char (scalar [b; c; d; e]) ∧ utf8 (scalar [b; c; d; e]) = [b; c; d; e].
Proof.
  intros Hb Hd He. unfold scalar. cbn [fmap list_fmap]. set (r := _ + _).
  assert (65536 <= r <= 1114111) as Hr by (unfold r; lia).
  split; [unfold is_char; lia|]. unfold utf8. ltb_false lia. ltb_false lia. ltb_false lia. cbn [fmap list_fmap].
  f_equal; [|f_equal; [|f_equal; [|f_equal]]]; apply of_Z_eq; unfold r; euclid.
Qed.

(** A sequence of one character is that character's bytes. *)
Lemma utf8_scalar b t : rune_len (byte.unsigned b) = len (b :: t) → utf8_valid (b :: t) = true →
  is_char (scalar (b :: t)) ∧ utf8 (scalar (b :: t)) = b :: t.
Proof.
  rewrite rune_len_spec, len_cons. unfold utf8_valid. cbn [length valid]. unfold utf8_chunk, is_cont, second3, second4.
  rewrite !between_iff. pose proof (byte.unsigned_range b) as Hb. unfold len.
  case_bool_decide as H1; [intros Hl _|case_bool_decide as H2; [|case_bool_decide as H3; [|case_bool_decide as H4]]].
  - destruct t; [|simpl in Hl; lia]. unfold scalar. cbn [fmap list_fmap]. split; [left; lia|].
    unfold utf8. ltb_true lia. cbn [fmap list_fmap]. by rewrite byte.of_Z_unsigned.
  - intros Hl. destruct t as [|c [|]]; [simpl in Hl; lia| |simpl in Hl; lia]. unfold safe_get. cbn [nth].
    rewrite ?between_iff. case_bool_decide as Hb2; [|rewrite bool_decide_false by lia; rewrite bool_decide_false by lia; done].
    case_bool_decide as Hc; [|done]. intros _. apply scalar_2; done.
  - intros Hl. destruct t as [|c [|d [|]]]; try (simpl in Hl; lia). unfold safe_get. cbn [nth].
    rewrite ?between_iff. rewrite (bool_decide_false (194 <= _ <= _)) by lia.
    destruct (negb _) eqn:Hs; [done|]. apply negb_false_iff in Hs.
    destruct (bool_decide (128 <= u d <= 191)) eqn:Hd; [apply bool_decide_eq_true in Hd|done].
    intros _. apply scalar_3; [|done]. unfold is_cont in Hs. rewrite ?between_iff in Hs.
    rewrite !orb_true_iff, !andb_true_iff, !bool_decide_eq_true in Hs. exact Hs.
  - intros Hl. destruct t as [|c [|d [|e [|]]]]; try (simpl in Hl; lia). unfold safe_get. cbn [nth].
    rewrite ?between_iff. rewrite (bool_decide_false (194 <= _ <= _)) by lia.
    destruct (bool_decide (240 <= _ <= 244)); [|done].
    destruct (negb _) eqn:Hs; [done|]. apply negb_false_iff in Hs.
    destruct (bool_decide (128 <= u d <= 191)) eqn:Hd; [apply bool_decide_eq_true in Hd|done]. cbn [negb].
    destruct (bool_decide (128 <= u e <= 191)) eqn:He; [apply bool_decide_eq_true in He|done].
    intros _. apply scalar_4; [|done..]. unfold is_cont in Hs. rewrite ?between_iff in Hs.
    rewrite !orb_true_iff, !andb_true_iff, !bool_decide_eq_true in Hs. exact Hs.
  - intros Hl. lia.
Qed.

Lemma decode_rune_utf8 r l : is_char r → decode_rune (utf8 r ++ l) = (r, len (utf8 r)).
Proof.
  intros Hr. destruct (utf8_chunk_char r [] Hr) as (b & t & Hu & Hc). rewrite app_nil_r in Hc.
  destruct (len_utf8 r b t Hr Hu) as [Hl Hs]. rewrite Hu in *. cbn [app decode_rune].
  rewrite Hl. rewrite (proj2 (Z.eqb_neq _ _)), (proj2 (Z.ltb_ge _ _)) by len_tac. cbn [orb].
  change (b :: t ++ l) with ((b :: t) ++ l). rewrite sub_app_here by done.
  assert (utf8_valid (b :: t) = true) as ->; [|by rewrite Hs].
  unfold utf8_valid. cbn [length valid]. rewrite Hc, drop_all. by destruct (length t).
Qed.

Lemma decode_rune_cases b l : (∃ r l', is_char r ∧ b :: l = utf8 r ++ l') ∨
  decode_rune (b :: l) = (REPLACEMENT_CHARACTER, 1).
Proof.
  unfold decode_rune. destruct (_ || _) eqn:Hc; [by right|]. apply orb_false_iff in Hc as [H1 H2].
    apply Z.eqb_neq in H1. apply Z.ltb_ge in H2. set (n := rune_len (byte.unsigned b)) in *.
    destruct (utf8_valid _) eqn:Hv; [left|by right].
    assert (0 <= n) as Hn by (unfold n; rewrite rune_len_spec; repeat case_match; lia).
    assert (sub (b :: l) 0 n = b :: take (Z.to_nat n - 1) l) as Ht.
    { unfold sub. change (drop (Z.to_nat 0) (b :: l)) with (b :: l). by destruct (Z.to_nat n) eqn:?; [lia|]; simpl; rewrite Nat.sub_0_r. }
    rewrite Ht in Hv. destruct (utf8_scalar b (take (Z.to_nat n - 1) l)) as [Hr Hu]; [|done|].
    { rewrite len_cons. unfold len in *. rewrite length_take. simpl in H2. fold n. lia. }
    exists (scalar (b :: take (Z.to_nat n - 1) l)), (drop (Z.to_nat n - 1) l). split; [done|]. rewrite Hu. simpl.
    by rewrite take_drop.
Qed.

Lemma decode_rune_spec l : l ≠ [] → rune l (decode_rune l).1 (drop (Z.to_nat (decode_rune l).2) l).
Proof.
  destruct l as [|b l]; [done|]. intros _. destruct (decode_rune_cases b l) as [(r & l' & Hr & ->)|He].
  - rewrite decode_rune_utf8 by done. simpl. unfold len. rewrite Nat2Z.id, drop_app_length. by constructor.
  - rewrite He. simpl. rewrite drop_0. apply rune_bad. intros r l' Hr Heq. rewrite Heq, decode_rune_utf8 in He by done.
    injection He as -> Hl. done.
Qed.

(** *** Classes *)

(** A character of a class, plain or escaped. *)
Inductive class_char : list byte → Z → list byte → Prop :=
| class_plain b t r q : b ≠ DASH → b ≠ RBRACKET → b ≠ BACKSLASH → is_char r → b :: t = utf8 r ++ q →
    class_char (b :: t) r q
| class_escaped r q : is_char r → class_char (BACKSLASH :: utf8 r ++ q) r q.

(** A character, or the range between two of them. *)
Inductive class_item : list byte → Z * Z → list byte → Prop :=
| item_one p c b q : class_char p c (b :: q) → b ≠ DASH → class_item p (c, c) (b :: q)
| item_range p lo q hi q' : class_char p lo (DASH :: q) → class_char q hi q' → class_item p (lo, hi) q'.

(** One item or more, up to the closing bracket. *)
Inductive class_items : list byte → list (Z * Z) → list byte → Prop :=
| items_end p i q : class_item p i (RBRACKET :: q) → class_items p [i] q
| items_next p i b q l q' : class_item p i (b :: q) → b ≠ RBRACKET → class_items (b :: q) l q' →
    class_items p (i :: l) q'.

Definition in_class (r : Z) (l : list (Z * Z)) : Prop := ∃ i, i ∈ l ∧ i.1 <= r <= i.2.

Lemma in_class_cons r i l : in_class r (i :: l) ↔ in_class r [i] ∨ in_class r l.
Proof.
  unfold in_class. split.
  - intros (j & [->|Hj]%elem_of_cons & Hr); [left|right; eauto]. exists i. split; [by left|done].
  - intros [(j & ->%list_elem_of_singleton & Hr)|(j & Hj & Hr)]; [exists i|exists j];
      (split; [|done]); [by left|by right].
Qed.

Lemma class_char_app p r q k : class_char p r q → class_char (p ++ k) r (q ++ k).
Proof.
  destruct 1 as [b t r q H1 H2 H3 Hr He|r q Hr]; cbn [app].
  - apply class_plain; try done. change (b :: t ++ k) with ((b :: t) ++ k). by rewrite He, <- app_assoc.
  - rewrite <- app_assoc. by apply class_escaped.
Qed.

Lemma class_item_app p i q k : class_item p i q → class_item (p ++ k) i (q ++ k).
Proof.
  destruct 1 as [p c b q H Hb|p lo q hi q' H1 H2].
  - apply item_one; [by apply (class_char_app _ _ (b :: q))|done].
  - eapply item_range; [by apply (class_char_app _ _ (DASH :: q))|by apply class_char_app].
Qed.

Lemma class_items_app p l q k : class_items p l q → class_items (p ++ k) l (q ++ k).
Proof.
  induction 1 as [p i q H|p i b q l q' H Hb _ IH].
  - apply items_end. by apply (class_item_app _ _ (RBRACKET :: q)).
  - eapply items_next; [by apply (class_item_app _ _ (b :: q))|done|exact IH].
Qed.

Lemma class_items_head p l q : class_items p l q → p ≠ [].
Proof. destruct 1 as [??? [???? []|????? []]|?????? [???? []|????? []]]; done. Qed.

Lemma esc_rune_sound b t r q : esc_rune (b :: t) = Ok (r, q) → is_char r ∧ b :: t = utf8 r ++ q ∧ q ≠ [].
Proof.
  unfold esc_rune. destruct (decode_rune_cases b t) as [(r0 & l' & Hr & He)|He]; rewrite He; [|done].
  rewrite decode_rune_utf8 by done. destruct (_ && _); [done|].
  rewrite slice_from_ok, bind_ok by len_tac. unfold len. rewrite Nat2Z.id, drop_app_length.
  destruct l' as [|c l']; [done|]. intros [= <- <-]. done.
Qed.

Lemma get_esc_sound chunk r q : get_esc chunk = Ok (r, q) → class_char chunk r q ∧ q ≠ [].
Proof.
  destruct chunk as [|c tail]; [done|]. unfold get_esc. case_bool_decide as H1; [done|].
  case_bool_decide as H2.
  - destruct tail as [|d tail]; [done|]. rewrite bind_ok. intros (Hr & -> & Hq)%esc_rune_sound.
    split; [|done]. subst c. by apply class_escaped.
  - rewrite bind_ok. intros (Hr & He & Hq)%esc_rune_sound. split; [|done]. apply class_plain; (done || tauto).
Qed.

(** The loop over the ranges reads the items of the class, and decides
    whether the character is in one of them. *)
Lemma class_loop_sound fuel r chunk m n q m' : 0 <= n → class_loop fuel r chunk m n = Ok (q, m') →
  (0 < n ∧ chunk = RBRACKET :: q ∧ m' = m) ∨
  ((0 < n → ∀ t, chunk ≠ RBRACKET :: t) ∧
   ∃ l, class_items chunk l q ∧ (m' = true ↔ m = true ∨ in_class r l)).
Proof.
  revert chunk m n. induction fuel as [|fuel IH]; intros chunk m n Hn; [done|]. cbn [class_loop].
  destruct (match chunk with c :: _ => _ | [] => _ end) eqn:Hc.
  { destruct chunk as [|c chunk]; [done|]. apply andb_true_iff in Hc as [->%bool_decide_eq_true H0%Z.ltb_lt].
    intros [= <- <-]. by left. }
  intros ([lo c1] & Hlo & Hr)%bind_ok_inv. cbv beta iota in Hr. apply get_esc_sound in Hlo as [Hlo Hne].
  apply bind_ok_inv in Hr as ([hi c2] & Hhi & Hr). cbv beta iota in Hr.
  assert (class_item chunk (lo, hi) c2 ∧ c2 ≠ []) as [Hi Hne2].
  { destruct c1 as [|d t]; [done|]. destruct (decide (d = DASH)) as [->|Hd].
    - rewrite bool_decide_true in Hhi by done. apply get_esc_sound in Hhi as [Hhi ?]. split; [|done].
      by eapply item_range.
    - rewrite bool_decide_false in Hhi by done. injection Hhi as <- <-. split; [|done]. by apply item_one. }
  right. split.
  { intros H0 t ->. rewrite bool_decide_true, (proj2 (Z.ltb_lt _ _)) in Hc by done. done. }
  assert (in_class r [(lo, hi)] ↔ (lo <=? r) && (r <=? hi) = true) as Hin.
  { rewrite andb_true_iff, !Z.leb_le. unfold in_class. split.
    - by intros (i & ->%list_elem_of_singleton & ?).
    - intros ?. exists (lo, hi). split; [by left|done]. }
  apply IH in Hr as [(_ & -> & ->)|(Hnot & l & Hl & Hm)]; [..|lia].
  - exists [(lo, hi)]. split; [by apply items_end|]. rewrite orb_true_iff, Hin. done.
  - destruct c2 as [|b c2]; [done|]. exists ((lo, hi) :: l). split.
    + eapply items_next; [exact Hi| |exact Hl]. intros ->. by apply (Hnot ltac:(lia) c2).
    + rewrite Hm, orb_true_iff, <- Hin, (in_class_cons r (lo, hi) l). tauto.
Qed.

(** *** Patterns *)

(** One term of a pattern against the front of a name: [term p s p' s'] takes
    [p] and [s] to what is left of them.  [?] and a class stand for one
    character of the name, as in the code; the documentation of the module
    says one byte. *)
Inductive term : list byte → list byte → list byte → list byte → Prop :=
| term_lit c p s :
    c ≠ LBRACKET → c ≠ QUESTION → c ≠ BACKSLASH → term (c :: p) (c :: s) p s
| term_esc c p s : term (BACKSLASH :: c :: p) (c :: s) p s
| term_any b p s r s' : b ≠ SEP → rune (b :: s) r s' → term (QUESTION :: p) (b :: s) p s'
| term_class p q negated l p' s r s' :
    (p = CARET :: q ∧ negated = true) ∨ (hd_error p ≠ Some CARET ∧ p = q ∧ negated = false) →
    class_items q l p' → rune s r s' → (in_class r l ↔ negated = false) →
    term (LBRACKET :: p) s p' s'.

(** [*] stands for any bytes without a separator, every other term for one
    character. *)
Inductive matches : list byte → list byte → Prop :=
| matches_nil : matches [] []
| matches_star p pre s : SEP ∉ pre → matches p s → matches (STAR :: p) (pre ++ s)
| matches_term p s p' s' : term p s p' s' → matches p' s' → matches p s.

Lemma term_app p s p' s' k : term p s p' s' → term (p ++ k) s (p' ++ k) s'.
Proof.
  destruct 1 as [c p s ? ? ?|c p s|b p s r s' ? ?|p q neg l p' s r s' Hq Hl Hr Hc]; simpl; try by constructor.
  - by eapply term_any.
  - eapply (term_class _ (q ++ k)); [|by apply class_items_app|done|done].
    pose proof (class_items_head _ _ _ Hl). destruct Hq as [[-> ->]|(Hh & -> & ->)]; [by left|right].
    by destruct q.
Qed.

Lemma slice_1 {E} (b : byte) s : slice_from (E:=E) (b :: s) 1 = Ok s.
Proof. by rewrite slice_from_ok by len_tac. Qed.

Lemma match_term_sound c tail s p' s' : s ≠ [] →
  match_term c tail s false = Ok (p', s', false) → term (c :: tail) s p' s'.
Proof.
  intros Hs. destruct s as [|b s]; [done|]. clear Hs. unfold match_term.
  destruct (drop_rune (b :: s)) as (s1 & Hd & Hs1 & _); [done|].
  pose proof (decode_rune_spec (b :: s) ltac:(done)) as Hrune. rewrite <- Hs1 in Hrune. clear Hs1.
  case_bool_decide as H1.
  - subst c. destruct (decode_rune (b :: s)) as [r n]. simpl in Hd, Hrune. rewrite Hd, bind_ok, bind_ok.
    set (nq := match tail with d :: _ => _ | [] => _ end). destruct nq as [neg q] eqn:Hq.
    destruct (class_loop _ _ _ _ _) as [[p1 m]| |] eqn:Hc; try done. rewrite bind_ok.
    intros [= -> <- Hm]. apply class_loop_sound in Hc as [(? & _)|(_ & l & Hl & Hin)]; [lia| |lia].
    eapply (term_class _ q neg l); [|done|done|].
    + unfold nq in Hq. destruct tail as [|d tail]; [right; by simplify_eq|].
      case_bool_decide; simplify_eq; [by left|]. right. split_and!; [|done..]. simpl. congruence.
    + destruct m, neg; try done; naive_solver.
  - case_bool_decide as H2.
    + subst c. rewrite idx_cons_0, bind_ok. destruct (decode_rune (b :: s)) as [r n].
      simpl in Hd, Hrune. rewrite Hd, bind_ok. intros [= <- <- Hb]. apply bool_decide_eq_false in Hb.
      by eapply term_any.
    + case_bool_decide as H3.
      * subst c. destruct tail as [|d tail]; [done|]. rewrite idx_cons_0, bind_ok, slice_1, bind_ok.
        intros [= <- <- Hb]. apply negb_false_iff, bool_decide_eq_true in Hb as ->. constructor.
      * rewrite idx_cons_0, bind_ok, slice_1, bind_ok. intros [= <- <- Hb].
        apply negb_false_iff, bool_decide_eq_true in Hb as ->. by constructor.
Qed.

Lemma match_chunk_loop_sound fuel chunk s failed t :
  match_chunk_loop fuel chunk s failed = Ok (t, true) →
  failed = false ∧ ∀ k, matches k t → matches (chunk ++ k) s.
Proof.
  revert chunk s failed. induction fuel as [|fuel IH]; intros [|c tail] s failed; try done.
  1, 2: destruct failed; [done|]; by intros [= <-].
  cbn [match_chunk_loop]. set (f := match s with [] => true | _ => failed end).
  destruct (match_term_outcome c tail s f) as [->|(rest & s' & f' & He & _ & Hf)]; [by destruct s|done|].
  rewrite He, bind_ok. intros Hl. apply IH in Hl as [-> Hm].
  assert (f = false) as Hff. { destruct f; [|done]. by specialize (Hf eq_refl). }
  assert (s ≠ []) as Hs by by destruct s.
  split; [by destruct s|]. intros k Hk. rewrite Hff in He.
  apply match_term_sound in He; [|done]. eapply matches_term; [apply (term_app _ _ _ _ k He)|]. auto.
Qed.

Lemma skip_loop_sound last chunk name t : skip_loop last chunk name = Ok (Some t) →
  ∃ pre s, name = pre ++ s ∧ (SEP ∉ pre) ∧ match_chunk chunk s = Ok (t, true).
Proof.
  induction name as [|b name IH]; simpl; [done|]. case_bool_decide as Hb; [done|].
  destruct (match_chunk chunk name) as [[t' m]| |] eqn:Hm; try done. rewrite bind_ok.
  destruct (_ && _) eqn:Hc.
  - intros [= ->]. apply andb_true_iff in Hc as [-> _]. exists [b], name. split_and!; try done.
    intros Hin%list_elem_of_singleton. by destruct Hb.
  - intros Hl. destruct (IH Hl) as (pre & s & -> & Hp & Hs). exists (b :: pre), s.
    split_and!; try done. intros [Hin|?]%elem_of_cons; [by destruct Hb|done].
Qed.

Lemma matches_stars n p pre s : SEP ∉ pre → matches p s → n ≠ 0%nat →
  matches (replicate n STAR ++ p) (pre ++ s).
Proof.
  intros Hp Hm Hn. destruct n as [|n]; [done|]. simpl. apply matches_star; [done|].
  clear Hn. induction n as [|n IH]; [done|]. simpl. apply (matches_star _ []); [apply not_elem_of_nil|done].
Qed.

Lemma glob_loop_sound fuel p name : glob_loop fuel p name = Ok true → matches p name.
Proof.
  revert p name. induction fuel as [|fuel IH]; intros [|c p] name; try done.
  1, 2: simpl; intros [= ->%bool_decide_eq_true]; constructor.
  cbn [glob_loop]. pose proof (scan_chunk_spec (c :: p)) as Hs.
  destruct (scan_chunk (c :: p)) as [[star chunk] rest].
  destruct Hs as ((n & -> & Hstar) & _ & Hrest).
  destruct (star && bool_decide (chunk = [])) eqn:Hc.
  { apply andb_true_iff in Hc as [-> ->%bool_decide_eq_true].
    intros [= Hn%bool_decide_eq_true]. rewrite Hrest by done. rewrite app_nil_r.
    rewrite <- (app_nil_r name), <- (app_nil_r (replicate _ _)).
    apply matches_stars; [done|constructor|]. by apply Hstar. }
  clear Hc. destruct (match_chunk chunk name) as [[t m]| |] eqn:Hm; try done. rewrite bind_ok.
  destruct (m && _) eqn:Hc.
  { apply andb_true_iff in Hc as [-> _]. intros Hg. apply IH in Hg.
    apply match_chunk_loop_sound in Hm as [_ Hm]. specialize (Hm rest Hg).
    destruct n as [|n]; [done|].
    apply (matches_stars (S n) _ [] name); [apply not_elem_of_nil|done|done]. }
  destruct star.
  - destruct (skip_loop _ chunk name) as [[t'|]| |] eqn:Hk; try done; rewrite bind_ok.
    + intros Hg. apply IH in Hg. apply skip_loop_sound in Hk as (pre & s & -> & Hp & Hm').
      apply match_chunk_loop_sound in Hm' as [_ Hm']. apply matches_stars; [done|auto|].
      by apply Hstar.
    + by destruct (check_rest _ _).
  - rewrite bind_ok. by destruct (check_rest _ _).
Qed.

(** ** Completeness for patterns without classes *)

(** No class, and no escape at the end. *)
Fixpoint simple (p : list byte) : bool :=
  match p with
  | [] => true
  | c :: p =>
      if bool_decide (c = BACKSLASH) then match p with [] => false | _ :: p => simple p end
      else negb (bool_decide (c = LBRACKET)) && simple p
  end.

Definition ascii (s : list byte) : Prop := Forall (λ b, byte.unsigned b < 128) s.

(** The terms of a chunk without stars and classes. *)
Inductive tok : Type := TLit (b : byte) | TAny.

Definition tok_match (t : tok) (b : byte) : Prop :=
  match t with TLit c => c = b | TAny => b ≠ SEP end.

#[global] Instance tok_match_dec t b : Decision (tok_match t b).
Proof. destruct t; simpl; apply _. Defined.

Fixpoint toks (p : list byte) : option (list tok) :=
  match p with
  | [] => Some []
  | c :: p =>
      if bool_decide (c = BACKSLASH) then
        match p with [] => None | d :: p => cons (TLit d) <$> toks p end
      else if bool_decide (c = LBRACKET ∨ c = STAR) then None
      else if bool_decide (c = QUESTION) then cons TAny <$> toks p
      else cons (TLit c) <$> toks p
  end.

Fixpoint tmatch (ts : list tok) (s : list byte) : list byte * bool :=
  match ts, s with
  | [], _ => (s, true)
  | t :: ts, b :: s => if bool_decide (tok_match t b) then tmatch ts s else ([], false)
  | _ :: _, [] => ([], false)
  end.

Lemma tmatch_true ts s t : tmatch ts s = (t, true) ↔ ∃ a, s = a ++ t ∧ Forall2 tok_match ts a.
Proof.
  revert s. induction ts as [|x ts IH]; intros s; simpl.
  - split; [intros [= ->]; by exists []|]. by intros (a & -> & ->%Forall2_nil_inv_l).
  - destruct s as [|b s].
    { split; [done|]. intros (a & Ha & H2). by inversion H2; subst. }
    case_bool_decide as Hb.
    + rewrite IH. split.
      * intros (a & -> & H2). exists (b :: a). split; [done|]. by constructor.
      * intros (a & Ha & H2). inversion H2; simplify_eq/=. eauto.
    + split; [done|]. intros (a & Ha & H2). by inversion H2; simplify_eq/=.
Qed.

Lemma decode_rune_ascii b s : byte.unsigned b < 128 → (decode_rune (b :: s)).2 = 1.
Proof.
  intros Hb. unfold decode_rune, rune_len. rewrite (proj2 (Z.ltb_lt _ _)) by done.
  destruct (_ || _); [done|]. by destruct (utf8_valid _).
Qed.

Lemma rune_ascii b s r s' : byte.unsigned b < 128 → rune (b :: s) r s' → s' = s.
Proof.
  intros Hb. inversion 1 as [r' l Hr He|]; subst; [|done]. unfold utf8, is_char in *.
  destruct (Z.ltb_spec r 128); [by injection He|exfalso].
  assert (128 <= byte.unsigned b); [|lia].
  destruct (Z.ltb_spec r 2048); [|destruct (Z.ltb_spec r 65536)]; injection He as <- _;
    rewrite unsigned_small by euclid; euclid.
Qed.

Lemma negb_bool_decide_not (P : Prop) `{!Decision P} `{!Decision (¬ P)} :
  negb (bool_decide (¬ P)) = bool_decide P.
Proof. repeat case_bool_decide; simpl; tauto. Qed.

Lemma match_term_esc d tail s failed : match_term BACKSLASH (d :: tail) s failed =
  if failed then Ok (tail, s, true)
  else b ← idx s 0; s ← slice_from s 1; Ok (tail, s, negb (bool_decide (d = b))).
Proof. by destruct failed. Qed.

Lemma match_term_any tail s failed : match_term QUESTION tail s failed =
  if failed then Ok (tail, s, true)
  else b ← idx s 0; s ← slice_from s (decode_rune s).2; Ok (tail, s, bool_decide (b = SEP)).
Proof.
  destruct failed; [done|]. unfold match_term.
  rewrite bool_decide_eq_false_2, bool_decide_eq_true_2 by done. by destruct (decode_rune s).
Qed.

Lemma match_term_lit c tail s failed : c ≠ LBRACKET → c ≠ QUESTION → c ≠ BACKSLASH →
  match_term c tail s failed =
  if failed then Ok (tail, s, true)
  else b ← idx s 0; s ← slice_from s 1; Ok (tail, s, negb (bool_decide (c = b))).
Proof. intros. unfold match_term. rewrite !bool_decide_eq_false_2 by done. by destruct failed. Qed.

(** [match_chunk] on such a chunk. *)
Lemma match_chunk_loop_toks fuel chunk ts s failed : toks chunk = Some ts → ascii s →
  (length chunk <= fuel)%nat →
  match_chunk_loop fuel chunk s failed = Ok (if failed then ([], false) else tmatch ts s).
Proof.
  revert chunk ts s failed. induction fuel as [|fuel IH]; intros [|c tail] ts s failed Ht Hs Hf;
    try (injection Ht as <-; by destruct failed); [simpl in Hf; lia|].
  simpl in Ht, Hf. cbn [match_chunk_loop].
  assert (∀ x rest ts', toks rest = Some ts' → ts = x :: ts' → (length rest <= fuel)%nat →
    match_term c tail s (match s with [] => true | _ => failed end) =
      (match s with
       | [] => Ok (rest, s, true)
       | b :: s => if failed then Ok (rest, b :: s, true)
                   else Ok (rest, s, negb (bool_decide (tok_match x b)))
       end : gres _) →
    (x0 ← match_term c tail s (match s with [] => true | _ => failed end);
     let '(chunk, s, failed) := x0 in match_chunk_loop fuel chunk s failed)
    = Ok (if failed then ([], false) else tmatch ts s)) as Hstep.
  { intros x rest ts' Hr -> Hlen ->. destruct s as [|b s]; [|inversion Hs; subst].
    - rewrite bind_ok, (IH rest ts') by done. by destruct failed.
    - destruct failed; rewrite bind_ok, (IH rest ts') by done; [done|]. simpl.
      by destruct (bool_decide (tok_match x b)). }
  assert (∀ b s', s = b :: s' → slice_from (E:=GlobError) s (decode_rune s).2 = Ok s') as Hrune.
  { intros b s' ->. inversion Hs; subst. rewrite decode_rune_ascii by done. apply slice_1. }
  destruct (decide (c = BACKSLASH)) as [->|Hb].
  { destruct tail as [|d tail]; [done|]. simpl in Ht. apply fmap_Some in Ht as (ts' & Hr & ->).
    apply (Hstep (TLit d) tail ts'); [done|done|simpl in Hf; lia|]. rewrite match_term_esc.
    destruct s as [|b s]; [done|]. destruct failed; [done|].
    by rewrite idx_cons_0, bind_ok, slice_1. }
  rewrite bool_decide_eq_false_2 in Ht by done. case_bool_decide as Hc; [done|].
  case_bool_decide as Hq; apply fmap_Some in Ht as (ts' & Hr & ->).
  - subst c. apply (Hstep TAny tail ts'); [done|done|lia|]. rewrite match_term_any.
    destruct s as [|b s]; [done|]. destruct failed; [done|].
    rewrite idx_cons_0, bind_ok, (Hrune b s eq_refl), bind_ok. do 2 f_equal.
    symmetry. apply negb_bool_decide_not.
  - apply (Hstep (TLit c) tail ts'); [done|done|lia|]. rewrite match_term_lit by tauto.
    destruct s as [|b s]; [done|]. destruct failed; [done|]. by rewrite idx_cons_0, bind_ok, slice_1.
Qed.

Lemma match_chunk_toks chunk ts s : toks chunk = Some ts → ascii s →
  match_chunk chunk s = Ok (tmatch ts s).
Proof. intros Ht Hs. by apply (match_chunk_loop_toks _ chunk ts s false). Qed.

Lemma scan_body_simple p : simple p = true →
  is_Some (toks (scan_body false p).1) ∧ simple (scan_body false p).2 = true.
Proof.
  remember (length p) as n eqn:Hn. assert (length p <= n)%nat as Hle by lia. clear Hn.
  revert p Hle. induction n as [|n IH]; intros [|c tail] Hle Hp; simpl in *; try lia; try by eauto.
  case_bool_decide as Hb.
  - destruct tail as [|d tail]; [done|]. simpl in Hle. destruct (IH tail) as [[ts Ht] Hr]; [lia|done|].
    destruct (scan_body false tail) as [chunk rest]. simpl in *. subst c.
    change (bool_decide (BACKSLASH = BACKSLASH)) with true. simpl. rewrite Ht. by eauto.
  - apply andb_true_iff in Hp as [Hl%negb_true_iff%bool_decide_eq_false Hp].
    rewrite (bool_decide_eq_false_2 (c = LBRACKET)) by done.
    case_bool_decide as Hs; simpl.
    + rewrite !bool_decide_eq_false_2 by done. simpl. by eauto.
    + assert ((if bool_decide (c = RBRACKET) then false else false) = false) as ->
        by by destruct (bool_decide _).
      destruct (IH tail) as [[ts Ht] Hr]; [lia|done|].
      destruct (scan_body false tail) as [chunk rest]. simpl in *. split; [|done].
      rewrite !bool_decide_eq_false_2 by tauto. rewrite Ht. by case_bool_decide; eauto.
Qed.

Lemma matches_chunk_inv chunk ts k s : toks chunk = Some ts → ascii s → matches (chunk ++ k) s →
  ∃ a t, s = a ++ t ∧ Forall2 tok_match ts a ∧ matches k t.
Proof.
  remember (length chunk) as n eqn:Hn. assert (length chunk <= n)%nat as Hle by lia. clear Hn.
  revert chunk ts s Hle. induction n as [|n IH]; intros [|c tail] ts s Hle Ht Hs Hm; simpl in *; try lia.
  1, 2: injection Ht as <-; by exists [], s.
  assert (∀ x rest ts' b s', toks rest = Some ts' → ts = x :: ts' → (length rest <= n)%nat →
    s = b :: s' → tok_match x b → matches (rest ++ k) s' →
    ∃ a t, s = a ++ t ∧ Forall2 tok_match ts a ∧ matches k t) as Hstep.
  { intros x rest ts' b s' Hr -> Hlen -> Hx Hms. inversion Hs; subst.
    destruct (IH rest ts' s') as (a & t & -> & Ha & Hk); [done..|]. exists (b :: a), t.
    split_and!; [done|by constructor|done]. }
  inversion Hm as [|p pre s0 Hp Hm' He|p s0 p' s' Hterm Hm']; subst.
  { exfalso. simpl in Ht. done. }
  inversion Hterm as [c0 p s0 H1 H2 H3|c0 p s0|b p s0 r s1 Hb Hrune|]; subst.
  - rewrite bool_decide_eq_false_2 in Ht by done. case_bool_decide; [done|].
    rewrite bool_decide_eq_false_2 in Ht by done. apply fmap_Some in Ht as (ts' & Hr & ->).
    eapply (Hstep (TLit c) tail); try done. lia.
  - destruct tail as [|d tail].
    { done. }
    simplify_eq/=. apply fmap_Some in Ht as (ts' & Hr & ->).
    eapply (Hstep (TLit d) tail); try done. lia.
  - simpl in Ht. apply fmap_Some in Ht as (ts' & Hr & ->). inversion Hs; subst.
    apply rune_ascii in Hrune as ->; [|done]. eapply (Hstep TAny tail); try done. lia.
  - done.
Qed.

Lemma matches_stars_inv n q s : matches (replicate n STAR ++ q) s →
  ∃ pre t, s = pre ++ t ∧ (SEP ∉ pre) ∧ matches q t ∧ (n = 0%nat → pre = []).
Proof.
  revert s. induction n as [|n IH]; intros s Hm; simpl in Hm.
  { exists [], s. split_and!; try done. apply not_elem_of_nil. }
  inversion Hm as [|p pre s0 Hp Hm' He|p s0 p' s' Hterm Hm']; subst.
  - destruct (IH _ Hm') as (pre' & t & -> & Hp' & Hq & _). exists (pre ++ pre'), t.
    rewrite app_assoc. split_and!; try done. rewrite elem_of_app. tauto.
  - inversion Hterm; subst. destruct (IH _ Hm') as (pre' & t & -> & Hp' & Hq & _).
    exists (STAR :: pre'), t. split_and!; try done. by intros [?|?]%elem_of_cons.
Qed.

(** Matching the leftmost occurrence loses nothing: what lies between two
    ends of the same chunk holds no separator. *)
Lemma leftmost_gap ts pre a t pre' a' t' : pre ++ a ++ t = pre' ++ a' ++ t' →
  (length pre' <= length pre)%nat → SEP ∉ pre → Forall2 tok_match ts a → Forall2 tok_match ts a' →
  ∃ gap, t' = gap ++ t ∧ (SEP ∉ gap).
Proof.
  intros He Hl Hp Ha Ha'. pose proof (Forall2_length _ _ _ Ha) as La.
  pose proof (Forall2_length _ _ _ Ha') as La'.
  assert (t' = drop (length pre' + length a') (pre ++ a) ++ t) as ->.
  { rewrite <- drop_app_le by (rewrite length_app; lia). rewrite <- app_assoc, He, app_assoc.
    by rewrite <- length_app, drop_app_length. }
  eexists. split; [done|].
  destruct (decide (length pre' = length pre)) as [Hlen|Hlen].
  { rewrite drop_ge by (rewrite length_app; lia). apply not_elem_of_nil. }
  assert (∀ q, a !! q ≠ Some SEP) as Hsep.
  { intros q. induction (lt_wf q) as [q _ IH]. intros Hq.
    destruct (Forall2_lookup_r _ _ _ _ _ Ha Hq) as (x & Hx & Hm).
    destruct (Forall2_lookup_l _ _ _ _ _ Ha' Hx) as (y & Hy & Hm').
    assert (y = SEP) as -> by (destruct x; simpl in *; congruence).
    assert ((pre ++ a ++ t) !! (length pre' + q)%nat = Some SEP) as Hn.
    { rewrite He, lookup_app_r by lia.
      replace (length pre' + q - length pre')%nat with q by lia. by apply lookup_app_l_Some. }
    destruct (decide (length pre' + q < length pre)%nat).
    - rewrite lookup_app_l in Hn by done. apply Hp. by eapply list_elem_of_lookup_2.
    - rewrite lookup_app_r in Hn by lia. apply lookup_lt_Some in Hq as Hlt.
      rewrite lookup_app_l in Hn by lia. eapply IH; [|exact Hn]. lia. }
  intros Hin.
  assert (SEP ∈ pre ++ a) as Hin'.
  { rewrite <- (take_drop (length pre' + length a') (pre ++ a)). apply elem_of_app. by right. }
  apply elem_of_app in Hin' as [?|Hia]; [done|]. apply list_elem_of_lookup in Hia as [q Hq].
  by apply (Hsep q).
Qed.

Definition accepted_by (last : bool) (x : list byte * bool) : bool :=
  x.2 && negb (last && negb (bool_decide (x.1 = []))).

Lemma accepted_here last ts a t : Forall2 tok_match ts a → (last = true → t = []) →
  accepted_by last (tmatch ts (a ++ t)) = true ∧ (tmatch ts (a ++ t)) = (t, true).
Proof.
  intros Ha Hl. assert (tmatch ts (a ++ t) = (t, true)) as -> by (apply tmatch_true; eauto).
  split; [|done]. unfold accepted_by. simpl. destruct last; [|done]. by rewrite Hl.
Qed.

(** The skipping loop finds an occurrence no later than any given one. *)
Lemma skip_loop_finds last chunk ts pre a t : toks chunk = Some ts → ascii (pre ++ a ++ t) →
  pre ≠ [] → SEP ∉ pre → Forall2 tok_match ts a → (last = true → t = []) →
  ∃ pre' a' t', skip_loop last chunk (pre ++ a ++ t) = Ok (Some t') ∧
    pre ++ a ++ t = pre' ++ a' ++ t' ∧ (length pre' <= length pre)%nat ∧
    Forall2 tok_match ts a' ∧ (last = true → t' = []).
Proof.
  intros Ht Has Hne Hp Ha Hl. induction pre as [|b pre IH]; [done|]. clear Hne. simpl.
  inversion Has as [|? ? Hb Has']; subst. apply not_elem_of_cons in Hp as [Hb' Hp].
  rewrite bool_decide_eq_false_2 by done. rewrite (match_chunk_toks chunk ts), bind_ok by done.
  destruct (tmatch ts (pre ++ a ++ t)) as [t1 m] eqn:Htm.
  change (m && negb (last && negb (bool_decide (t1 = [])))) with (accepted_by last (t1, m)).
  destruct (accepted_by last (t1, m)) eqn:Hacc.
  - apply andb_true_iff in Hacc as [Hm Hacc]. simpl in Hm, Hacc. subst m.
    apply tmatch_true in Htm as (a1 & He & Ha1). exists [b], a1, t1. rewrite He.
    split_and!; try done; [simpl; lia|]. intros ->. simpl in Hacc.
    apply negb_true_iff, negb_false_iff, bool_decide_eq_true in Hacc. done.
  - destruct pre as [|b' pre].
    { destruct (accepted_here last ts a t Ha Hl) as [H1 H2]. simpl in Htm. congruence. }
    destruct IH as (pre' & a' & t' & Hs & He & Hlen & Ha' & Ht'); [done..|].
    exists (b :: pre'), a', t'. rewrite He. split_and!; try done; [by rewrite <- He|].
    simpl in *. lia.
Qed.

Lemma glob_loop_complete fuel p name : (length p <= fuel)%nat → simple p = true → ascii name →
  matches p name → glob_loop fuel p name = Ok true.
Proof.
  revert p name. induction fuel as [|fuel IH]; intros [|c p] name Hf Hsim Has Hm.
  1, 3: inversion Hm as [| |? ? ? ? Hterm]; [reflexivity|inversion Hterm].
  { simpl in Hf. lia. }
  cbn [glob_loop]. destruct (scan_chunk (c :: p)) as [[star chunk] rest] eqn:Hscan.
  pose proof (scan_chunk_shrinks _ _ _ _ Hscan ltac:(done)) as Hshrink.
  pose proof (scan_chunk_spec (c :: p)) as Hs. rewrite Hscan in Hs.
  destruct Hs as ((n & Hp & Hstar) & Hrest & Hnil).
  assert (is_Some (toks chunk) ∧ simple rest = true) as [[ts Ht] Hsr].
  { unfold scan_chunk in Hscan. pose proof (skip_stars_spec (c :: p)) as Hk.
    destruct (skip_stars (c :: p)) as [st q]. destruct Hk as (n' & Hq & _).
    assert (simple q = true) as Hsq.
    { rewrite Hq in Hsim. clear -Hsim. induction n' as [|n' IH]; [done|]. by apply IH. }
    pose proof (scan_body_simple q Hsq) as Hb. destruct (scan_body false q). by simplify_eq/=. }
  rewrite Hp in Hm. apply matches_stars_inv in Hm as (pre & s & -> & Hpre & Hm & Hpre0).
  assert (ascii s) as Has' by (unfold ascii in *; rewrite Forall_app in Has; tauto).
  apply (matches_chunk_inv _ ts) in Hm as (a & t & -> & Ha & Hmt); [|done..].
  destruct (star && bool_decide (chunk = [])) eqn:Hsc.
  { apply andb_true_iff in Hsc as [_ ->%bool_decide_eq_true]. injection Ht as <-.
    apply Forall2_nil_inv_l in Ha as ->. rewrite Hnil in Hmt by done.
    inversion Hmt as [| |? ? ? ? Hterm]; [|inversion Hterm]. subst. rewrite app_nil_r.
    by rewrite bool_decide_eq_true_2. }
  assert (rest = [] → t = []) as Hend.
  { intros ->. by inversion Hmt as [| |? ? ? ? Hterm]; [|inversion Hterm]. }
  (* any acceptable earlier occurrence leaves a name that still matches *)
  assert (∀ pre' a' t', pre ++ a ++ t = pre' ++ a' ++ t' → (length pre' <= length pre)%nat →
    Forall2 tok_match ts a' → (rest = [] → t' = []) → glob_loop fuel rest t' = Ok true) as Hgo.
  { intros pre' a' t' He Hlen Ha' Hend'. apply IH; [simpl in *; lia|done| |].
    - unfold ascii in *. rewrite He, !Forall_app in Has. tauto.
    - destruct Hrest as [->|(rest' & ->)]; [rewrite (Hend' eq_refl); constructor|].
      destruct (leftmost_gap ts pre a t pre' a' t') as (gap & -> & Hgap); [done..|].
      apply (matches_stars_inv 1 rest') in Hmt as (pre1 & t1 & -> & Hp1 & Hm1 & _).
      rewrite app_assoc. apply matches_star; [|done]. rewrite elem_of_app. tauto. }
  rewrite (match_chunk_toks chunk ts), bind_ok by done.
  destruct (tmatch ts (pre ++ a ++ t)) as [t1 m] eqn:Htm.
  destruct (m && (bool_decide (t1 = []) || negb (bool_decide (rest = [])))) eqn:Hacc.
  { apply andb_true_iff in Hacc as [-> Hacc]. apply tmatch_true in Htm as (a1 & He & Ha1).
    apply (Hgo [] a1); [done|simpl; lia|done|]. intros ->. simpl in Hacc.
    apply orb_true_iff in Hacc as [?%bool_decide_eq_true|?]; done. }
  destruct (decide (pre = [])) as [->|Hne].
  { exfalso. simpl in Htm.
    rewrite (proj2 (tmatch_true ts (a ++ t) t)) in Htm by eauto. injection Htm as <- <-.
    simpl in Hacc. apply orb_false_iff in Hacc as [H1%bool_decide_eq_false H2%negb_false_iff].
    apply bool_decide_eq_true in H2. auto. }
  assert (star = true) as ->. { apply Hstar. intros ->. auto. }
  destruct (skip_loop_finds (bool_decide (rest = [])) chunk ts pre a t)
    as (pre' & a' & t' & -> & He & Hlen & Ha' & Ht'); [done..| |].
  { intros Hr%bool_decide_eq_true. auto. }
  rewrite bind_ok. apply (Hgo pre' a' t'); [done..|]. intros Hr. apply Ht'.
  by apply bool_decide_eq_true.
Qed.

(** C26. The glob matcher: on every pattern and name it ends without a panic and
    without running out of its fuel, a [true] answer is always justified by
    the meaning of the pattern - where [?] and a class stand for one UTF-8
    character, not for one byte as the module's documentation says - and for
    well-formed patterns without character classes and ASCII names it is
    exactly that meaning, although it only ever tries the leftmost occurrence
    of each chunk. *)
Theorem glob_match_correct p name :
  no_panic (glob_match p name) ∧
  (glob_match p name = Ok true → matches p name) ∧
  (simple p = true → ascii name → glob_match p name = Ok true ↔ matches p name).
Proof.
  split_and!.
  - by apply glob_loop_no_panic.
  - apply glob_loop_sound.
  - intros Hs Ha. split; [apply glob_loop_sound|]. by apply glob_loop_complete.
Qed.

(** The first rule of a policy that matches, malformed patterns left out. *)
Definition first_match (rules : list Rule) (topic : list byte) : option Rule :=
  head (List.filter (λ r, match glob_match (pattern r) topic with Ok true => true | _ => false end) rules).

(** The policy: the first rule whose pattern matches decides, rules with a
    malformed pattern count as absent, and a topic that no rule matches is
    denied; a decision is always reached.  [contains] holds as soon as one
    of the requested bits is granted. *)
Theorem access_policy_first_match self topic perm :
  allows self topic perm =
    Ok (match first_match (rules self) topic with
        | Some rule => Permission_contains (allow rule) perm
        | None => false
        end) ∧
  (∀ bad, glob_match (pattern bad) topic = Err BadPattern →
     ∀ rs1 rs2, rules self = rs1 ++ rs2 →
       allows (mkAccessPolicy (rs1 ++ bad :: rs2)) topic perm = allows self topic perm) ∧
  (Permission_contains perm READ_WRITE = true ↔
     Permission_contains perm READ = true ∨ Permission_contains perm WRITE = true).
Proof.
  assert (∀ rs, allows_loop rs topic perm =
    Ok (match first_match rs topic with
        | Some rule => Permission_contains (allow rule) perm | None => false end)) as Hall.
  { induction rs as [|r rs IH]; [done|]. unfold first_match. simpl.
    pose proof (glob_loop_no_panic (length (pattern r)) (pattern r) topic ltac:(lia)) as Hp.
    fold (glob_match (pattern r) topic) in Hp.
    destruct (glob_match (pattern r) topic) as [[|]|[]|]; done. }
  split_and!.
  - apply Hall.
  - intros bad Hbad rs1 rs2 Hrs. unfold allows. simpl. rewrite Hrs, !Hall. unfold first_match.
    rewrite !List.filter_app. simpl. by rewrite Hbad.
  - destruct perm as [b]. unfold Permission_contains, READ_WRITE, READ, WRITE. simpl perm_bits.
    change (Z.shiftl 1 0) with 1. change (Z.shiftl 1 1) with 2.
    rewrite Z.land_lor_distr_r, !negb_true_iff, !Z.eqb_neq, Z.lor_eq_0_iff.
    destruct (decide (Z.land b 1 = 0)), (decide (Z.land b 2 = 0)); tauto.
Qed.

Example glob_examples :
  glob_match (bytes_of_ascii "vehicle/*") (bytes_of_ascii "vehicle/speed") = Ok true ∧
  glob_match (bytes_of_ascii "vehicle/*") (bytes_of_ascii "vehicle/a/b") = Ok false ∧
  glob_match (bytes_of_ascii "[a-c]?*x") (bytes_of_ascii "bqzzx") = Ok true ∧
  glob_match (bytes_of_ascii "[^a-c]") (bytes_of_ascii "b") = Ok false ∧
  glob_match (bytes_of_ascii "[]a]") (bytes_of_ascii "a") = Err BadPattern ∧
  glob_match (bytes_of_ascii "*[^a]*") (bytes_of_ascii "x/y") = Ok false ∧
  glob_match (bytes_of_ascii "a\*b") (bytes_of_ascii "a*b") = Ok true.
Proof. vm_compute. done. Qed.

(** One character of two bytes: the documentation would need two [?]. *)
Example wildcards_take_characters :
  utf8 233 = [xc3; xa9] ∧
  glob_match (bytes_of_ascii "?") (utf8 233) = Ok true ∧
  glob_match (bytes_of_ascii "[^a]") (utf8 233) = Ok true ∧
  glob_match (bytes_of_ascii "??") (utf8 233) = Ok false.
Proof. vm_compute. done. Qed.
